(** * cross-seed: candidate assessment, collision records and conflict rules

    A shallow embedding of [packages/cross-seed/src/decide.ts] and of the
    [saveRules] mutation of [packages/cross-seed/src/trpc/routers/conflictRules.ts].
    The queries of that router and the pure helpers of the settings page,
    [packages/webui/src/routes/settings/conflict-rules.tsx], follow the
    scenarios further down.

    Conventions of the embedding.
    - SQL tables are lists of rows, in storage order; [.first()] takes the
      first row of that order which satisfies the query.
    - [async] functions become computations of the monad [M] over the
      process state [State]: database, torrent clients, torrent cache, the
      shared [Set]/[Map] objects handed around by reference, the number of
      clock readings taken so far and the trace of calls made to external
      collaborators.
    - Everything imported from modules other than the two above
      (regular expressions, release parsers, the snatcher, the client
      drivers, ...) is a field of [Externals].
    - JavaScript numbers that hold byte counts, identifiers and timestamps
      are integers ([Z]); the ratios of the partial match are exact
      rationals ([Q]).  The bounds of the fuzzy-size test are computed in
      double precision, with the rounding of every operation written out
      ([JsNumber]).
    - Statements on the database succeed; for [saveRules], whose
      transaction is there to undo a save that fails half-way, the
      rejection of a statement is a parameter ([saveRulesWith]).
    - JavaScript strings are [string]; [trim] and [toLowerCase] are the
      built-ins restricted to ASCII.
    - Log statements are left out, and with them the two writes to
      [candidate.size], which only [logDecision] reads afterwards.
      [withMutex] is the identity: one computation runs at a time. *)

From Stdlib Require Import ZArith QArith Qabs Qround Qpower Lqa List String Ascii Bool Lia
  Permutation Arith Sorted.
Import ListNotations.
Close Scope Q_scope.
Open Scope string_scope.
Open Scope list_scope.

Set Implicit Arguments.

(** ** JavaScript strings *)

Module JsString.

Definition isWhiteSpace (c : ascii) : bool :=
  let n := nat_of_ascii c in
  (n =? 32)%nat || ((9 <=? n)%nat && (n <=? 13)%nat).

Fixpoint trimStart (s : string) : string :=
  match s with
  | EmptyString => EmptyString
  | String c rest => if isWhiteSpace c then trimStart rest else s
  end.

Fixpoint trimEnd (s : string) : string :=
  match s with
  | EmptyString => EmptyString
  | String c rest =>
      match trimEnd rest with
      | EmptyString => if isWhiteSpace c then EmptyString else String c EmptyString
      | rest' => String c rest'
      end
  end.

(** [String.prototype.trim] *)
Definition trim (s : string) : string := trimEnd (trimStart s).

Definition lowerChar (c : ascii) : ascii :=
  let n := nat_of_ascii c in
  if ((65 <=? n)%nat && (n <=? 90)%nat)%bool then ascii_of_nat (n + 32) else c.

(** [String.prototype.toLowerCase] *)
Fixpoint toLowerCase (s : string) : string :=
  match s with
  | EmptyString => EmptyString
  | String c rest => String (lowerChar c) (toLowerCase rest)
  end.

(** [String.prototype.startsWith] *)
Definition startsWith (s p : string) : bool := String.prefix p s.

(** Truthiness of a string: [Boolean(s)]. *)
Definition truthy (s : string) : bool :=
  match s with EmptyString => false | _ => true end.

(** Truthiness of a possibly undefined string. *)
Definition truthyOpt (s : option string) : bool :=
  match s with Some s => truthy s | None => false end.

(** [xs.includes(x)] / [set.has(x)] on strings. *)
Definition includes (xs : list string) (x : string) : bool :=
  existsb (String.eqb x) xs.

(** [Array.from(new Set(xs))]: first occurrences, in order. *)
Fixpoint uniq (xs : list string) : list string :=
  match xs with
  | [] => []
  | x :: rest => x :: filter (fun y => negb (String.eqb y x)) (uniq rest)
  end.

Fixpoint insertSorted (x : string) (xs : list string) : list string :=
  match xs with
  | [] => [x]
  | y :: rest => if String.leb x y then x :: xs else y :: insertSorted x rest
  end.

(** [Array.prototype.sort()] with the default comparison. *)
Definition sort (xs : list string) : list string :=
  fold_right insertSorted [] xs.

End JsString.

(** ** JavaScript numbers

    A Number is an IEEE 754 double.  The finite ones are the rationals
    [m * 2^e] with [|m| < 2^53] and [-1074 <= e <= 971]; an arithmetic
    operation returns the exact result rounded to the nearest of them,
    to the one with the even [m] when two are equally near, and an
    infinity when the rounded magnitude reaches [2^1024].  The two zeros
    compare equal and are one value here. *)

Module JsNumber.

Inductive Number : Type :=
| Finite (q : Q)
| PosInfinity
| NegInfinity
| NaN.

Definition pow2 (k : Z) : Q := (2 ^ k)%Q.

(** The exponent of the leading bit of a positive rational:
    [2^k <= q < 2^(k+1)]. *)
Definition ilog2 (q : Q) : Z :=
  let k := (Z.log2 (Qnum q) - Z.log2 (Zpos (Qden q)))%Z in
  if Qle_bool (pow2 k) q then k else (k - 1)%Z.

(** The nearest integer, the even one of two that are equally near. *)
Definition roundHalfEven (q : Q) : Z :=
  let f := Qfloor q in
  match (q - inject_Z f ?= 1 # 2)%Q with
  | Lt => f
  | Gt => (f + 1)%Z
  | Eq => if Z.even f then f else (f + 1)%Z
  end.

(** A positive rational rounded to 53 significant bits, or to a multiple
    of [2^-1074] where it is too small for that. *)
Definition roundMagnitude (q : Q) : Q :=
  let e := Z.max (ilog2 q - 52) (-1074) in
  (inject_Z (roundHalfEven (q / pow2 e)) * pow2 e)%Q.

Definition round (q : Q) : Number :=
  match (q ?= 0)%Q with
  | Eq => Finite 0
  | Gt => let r := roundMagnitude q in
          if Qle_bool (pow2 1024) r then PosInfinity else Finite r
  | Lt => let r := roundMagnitude (- q) in
          if Qle_bool (pow2 1024) r then NegInfinity else Finite (- r)
  end.

(** The Number a decimal or an integer denotes. *)
Definition ofQ (q : Q) : Number := round q.
Definition ofZ (z : Z) : Number := round (inject_Z z).

Definition opp (a : Number) : Number :=
  match a with
  | Finite q => Finite (- q)
  | PosInfinity => NegInfinity
  | NegInfinity => PosInfinity
  | NaN => NaN
  end.

Definition add (a b : Number) : Number :=
  match a, b with
  | NaN, _ | _, NaN => NaN
  | Finite x, Finite y => round (x + y)
  | PosInfinity, NegInfinity | NegInfinity, PosInfinity => NaN
  | PosInfinity, _ | _, PosInfinity => PosInfinity
  | NegInfinity, _ | _, NegInfinity => NegInfinity
  end.

Definition sub (a b : Number) : Number := add a (opp b).

Definition sign (a : Number) : comparison :=
  match a with
  | Finite q => (q ?= 0)%Q
  | PosInfinity => Gt
  | NegInfinity => Lt
  | NaN => Eq
  end.

Definition mul (a b : Number) : Number :=
  match a, b with
  | NaN, _ | _, NaN => NaN
  | Finite x, Finite y => round (x * y)
  | _, _ =>
      match sign a, sign b with
      | Eq, _ | _, Eq => NaN
      | Gt, Gt | Lt, Lt => PosInfinity
      | _, _ => NegInfinity
      end
  end.

(** [a <= b] *)
Definition leb (a b : Number) : bool :=
  match a, b with
  | NaN, _ | _, NaN => false
  | NegInfinity, _ | _, PosInfinity => true
  | Finite x, Finite y => Qle_bool x y
  | _, _ => false
  end.

End JsNumber.

(** ** JSON text columns

    A [json]/text column is represented by what [JSON.parse] makes of it. *)

#[local] Unset Elimination Schemes.
Inductive Json : Type :=
| JNull
| JBool (b : bool)
| JNum (n : Z)
| JStr (s : string)
| JArr (items : list Json)
| JObj (fields : list (string * Json)).
#[local] Set Elimination Schemes.

Inductive JsonText : Type :=
| Malformed (raw : string)       (* [JSON.parse] throws, e.g. the empty string *)
| WellFormed (value : Json).

(** [JSON.stringify] of a [string[]]. *)
Definition stringifyStrings (xs : list string) : JsonText :=
  WellFormed (JArr (map JStr xs)).

(** [parsed.filter((item) => typeof item === "string")] *)
Fixpoint filterStrings (items : list Json) : list string :=
  match items with
  | [] => []
  | JStr s :: rest => s :: filterStrings rest
  | _ :: rest => filterStrings rest
  end.

(** ** Results of fallible collaborators *)

Inductive Result (A : Type) : Type :=
| ROk (value : A)
| RErr (message : string).
Arguments RErr {A} message.

(** ** Domain types *)

Inductive Decision : Type :=
| MATCH | MATCH_SIZE_ONLY | MATCH_PARTIAL
| RESOLUTION_MISMATCH | SOURCE_MISMATCH | PROPER_REPACK_MISMATCH
| FUZZY_SIZE_MISMATCH | PARTIAL_SIZE_MISMATCH | SIZE_MISMATCH
| RELEASE_GROUP_MISMATCH | FILE_TREE_MISMATCH
| NO_DOWNLOAD_LINK | BLOCKED_RELEASE
| MAGNET_LINK | RATE_LIMITED | DOWNLOAD_FAILED
| SAME_INFO_HASH | INFO_HASH_ALREADY_EXISTS
| INFO_HASH_ALREADY_EXISTS_ANOTHER_TRACKER.

Inductive MatchMode : Type := STRICT | FLEXIBLE | PARTIAL.

Inductive SearcheeLabel : Type :=
| L_SEARCH | L_ANNOUNCE | L_RSS | L_INJECT | L_WEBHOOK.

Inductive SnatchError : Type :=
| SE_MAGNET_LINK | SE_RATE_LIMITED | SE_OTHER.

Inductive MediaType : Type :=
| MT_EPISODE | MT_SEASON | MT_MOVIE | MT_ANIME | MT_VIDEO | MT_AUDIO | MT_BOOK
| MT_OTHER.

(** [File] of searchee.ts *)
Record File : Type := mkFile {
  f_length : Z;
  f_name : string;
  f_path : string
}.

(** A bencoded value found under [info.private]. *)
Inductive Bencoded : Type :=
| BInt (n : Z)
| BBytes (s : string).

Record TorrentInfo : Type := mkTorrentInfo {
  ti_private : option Bencoded
}.

Record TorrentRaw : Type := mkTorrentRaw {
  tr_info : option TorrentInfo
}.

(** [Metafile] of parseTorrent.ts, with the fields decide.ts reads. *)
Record Metafile : Type := mkMetafile {
  m_infoHash : string;
  m_name : string;
  m_length : Z;
  m_pieceLength : Z;
  m_files : list File;
  m_trackers : list string;
  m_raw : option TorrentRaw
}.

Record Searchee : Type := mkSearchee {
  s_title : string;
  s_infoHash : option string;
  s_path : option string;
  s_files : list File;
  s_length : Z;
  s_label : SearcheeLabel
}.

Record Candidate : Type := mkCandidate {
  c_name : string;
  c_guid : string;
  c_link : string;
  c_tracker : string;
  c_indexerId : option Z;
  c_size : option Z
}.

Record TrackerMismatchInfo : Type := mkMismatch {
  candidateTrackers : list string;
  knownTrackers : list string
}.

Record ResultAssessment : Type := mkAssessment {
  decision : Decision;
  metafile : option Metafile;
  metaCached : option bool;
  trackerMismatch : option TrackerMismatchInfo
}.

Record RuntimeConfig : Type := mkConfig {
  includeSingleEpisodes : bool;
  matchMode : MatchMode;
  blockList : list string
}.

(** ** Database rows *)

Record SearcheeRow : Type := mkSearcheeRow {
  se_id : Z;
  se_name : string
}.

Record DecisionRow : Type := mkDecisionRow {
  d_id : Z;
  d_searchee_id : Z;
  d_guid : string;
  d_info_hash : option string;
  d_decision : Decision;
  d_first_seen : option Z;
  d_last_seen : option Z;
  d_fuzzy_size_factor : Q
}.

(** The tracker columns of [collisions] only ever receive
    [JSON.stringify] of a [string[]] and are compared as text; since
    [JSON.stringify] is injective on such arrays the column is
    represented by the array itself. *)
Record CollisionRow : Type := mkCollisionRow {
  co_decision_id : Z;
  co_candidate_trackers : list string;
  co_known_trackers : list string;
  co_first_seen : option Z;
  co_last_seen : option Z;
  co_updated_at : option Z
}.

Record ConflictRuleRow : Type := mkConflictRuleRow {
  cr_id : Z;
  cr_priority : Z;
  cr_all_indexers : bool;
  cr_trackers : option JsonText;
  cr_created_at : option Z;
  cr_updated_at : option Z
}.

Record IndexerRow : Type := mkIndexerRow {
  ix_id : Z;
  ix_trackers : option JsonText
}.

Record ClientSearcheeRow : Type := mkClientSearcheeRow {
  cs_info_hash : string;
  cs_client_host : option string;
  cs_trackers : option JsonText;
  cs_private : option bool
}.

Record Db : Type := mkDb {
  t_searchee : list SearcheeRow;
  t_decision : list DecisionRow;
  t_collisions : list CollisionRow;
  t_conflict_rules : list ConflictRuleRow;
  t_indexer : list IndexerRow;
  t_client_searchee : list ClientSearcheeRow
}.

(** ** Tracker lists (pure helpers of decide.ts and conflictRules.ts) *)

(** [normalizeTrackers]: trim, drop empty strings, remove duplicates, sort.
    ([trackers ?? []] is the caller's business: [None] is the empty list.) *)
Definition normalizeTrackers (trackers : list string) : list string :=
  JsString.sort
    (JsString.uniq (filter JsString.truthy (map JsString.trim trackers))).

Definition normalizeTrackerKey (value : string) : string :=
  JsString.toLowerCase (JsString.trim value).

(** [parseTrackersJson] of decide.ts *)
Definition parseTrackersJson (value : option JsonText) : list string :=
  match value with
  | None => []
  | Some (Malformed _) => []
  | Some (WellFormed (JArr items)) => filterStrings items
  | Some (WellFormed _) => []
  end.

Definition trackersAreEqual (a b : list string) : bool :=
  if negb (List.length a =? List.length b)%nat then false
  else forallb (fun ab => String.eqb (fst ab) (snd ab)) (combine a b).

(** ** Conflict rules as [getConflictRules] returns them *)

Record Rule : Type := mkRule {
  priority : Z;
  allIndexers : bool;
  trackers : list string
}.

Fixpoint insertByPriority (row : ConflictRuleRow) (rows : list ConflictRuleRow)
  : list ConflictRuleRow :=
  match rows with
  | [] => [row]
  | r :: rest =>
      if (cr_priority row <=? cr_priority r)%Z then row :: rows
      else r :: insertByPriority row rest
  end.

(** [.orderBy("priority", "asc")] *)
Definition orderByPriority (rows : list ConflictRuleRow) : list ConflictRuleRow :=
  fold_right insertByPriority [] rows.

Definition getConflictRules (db : Db) : list Rule :=
  map (fun row => {| priority := cr_priority row;
                     allIndexers := cr_all_indexers row;
                     trackers := normalizeTrackers (parseTrackersJson (cr_trackers row)) |})
      (orderByPriority (t_conflict_rules db)).

(** [getIndexerTrackerSet]; the [Set] is only ever asked [has], so it is
    kept as the list of the keys added to it. *)
Definition getIndexerTrackerSet (db : Db) : list string :=
  flat_map (fun row => map normalizeTrackerKey (parseTrackersJson (ix_trackers row)))
           (t_indexer db).

(** Does [rule] match the normalized tracker key?  The two [if]s of the
    loop body of [getTrackerPriority]. *)
Definition ruleMatches (normalized : string) (indexerTrackers : list string)
           (rule : Rule) : bool :=
  (allIndexers rule && JsString.includes indexerTrackers normalized)
  || existsb (fun t => String.eqb (normalizeTrackerKey t) normalized) (trackers rule).

Fixpoint getTrackerPriorityFrom (i : nat) (normalized : string) (rules : list Rule)
         (indexerTrackers : list string) : option nat :=
  match rules with
  | [] => None
  | rule :: rest =>
      if ruleMatches normalized indexerTrackers rule then Some i
      else getTrackerPriorityFrom (S i) normalized rest indexerTrackers
  end.

Definition getTrackerPriority (tracker : string) (rules : list Rule)
           (indexerTrackers : list string) : option nat :=
  getTrackerPriorityFrom 0 (normalizeTrackerKey tracker) rules indexerTrackers.

(** The loop of [getBestTrackerPriority]; [None] is
    [Number.POSITIVE_INFINITY]. *)
Fixpoint bestPriorityLoop (best : option nat) (trackers : list string)
         (rules : list Rule) (indexerTrackers : list string) : option nat :=
  match trackers with
  | [] => best
  | tracker :: rest =>
      match getTrackerPriority tracker rules indexerTrackers with
      | None => bestPriorityLoop best rest rules indexerTrackers
      | Some p =>
          let best' := match best with
                       | None => p
                       | Some b => Nat.min b p
                       end in
          bestPriorityLoop (Some best') rest rules indexerTrackers
      end
  end.

Definition getBestTrackerPriority (trackers : list string) (rules : list Rule)
           (indexerTrackers : list string) : option nat :=
  bestPriorityLoop None trackers rules indexerTrackers.

(** ** Process state *)

(** Modelled from the spec: what the torrent cache holds for an info hash.
    [Metafile.encode] and [parseTorrentFromPath] (parseTorrent.ts) are not
    among the sources.  By the specification the content of a cached file
    "is the original bencoded torrent", so a file is represented by what
    the parser makes of it: a torrent file that parses to [meta], the file
    that [cacheTorrentFile] writes for [meta] being one, or a file that
    the parser rejects. *)
Inductive CachedFile : Type :=
| Parsable (meta : Metafile)
| Corrupt.

(** Calls made to the collaborators, with their outcome. *)
Inductive Event : Type :=
| EvRemoveTorrent (host infoHash : string) (deleteData : bool) (res : Result bool)
| EvIsTorrentInClient (host infoHash : string) (res : Result bool)
| EvSnatch (guid : string) (retries : nat) (delayMs : Z)
| EvWriteFile (infoHash : string) (ok : bool)
| EvUnlink (infoHash : string) (ok : bool)
| EvUtimes (infoHash : string) (ok : bool).

(** Outcome of a computation: a value, or a JavaScript exception. *)
Inductive Res (A : Type) : Type :=
| Ret (a : A)
| Throw.
Arguments Throw {A}.

Section Engine.

(** The private state of a torrent-client driver. *)
Variable DriverState : Type.

Record TorrentClient : Type := mkClient {
  clientHost : string;
  clientLabel : string;
  driver : DriverState
}.

Record State : Type := mkState {
  st_db : Db;
  st_clients : list TorrentClient;            (* [getClients()] *)
  st_cache : list (string * CachedFile);      (* [<appDir>/torrents] *)
  st_exclude : list string;                   (* [infoHashesToExclude] *)
  st_guidInfoHashMap : list (string * string);(* [guidInfoHashMap], insertion order *)
  st_ticks : nat;                             (* readings of [Date.now()] so far *)
  st_trace : list Event
}.

(** Imports of decide.ts whose code is not part of the development. *)
Record Externals : Type := mkExternals {
  (* clients/TorrentClient.ts *)
  removeTorrent : DriverState -> string -> bool -> Result bool * DriverState;
  isTorrentInClient : DriverState -> string -> Result bool * DriverState;
  (* constants.ts, searchee.ts, utils.ts, preFilter.ts *)
  getReleaseGroup : string -> option string;
  stripExtension : string -> string;
  matchAnimeGroup : string -> option string;   (* [ANIME_GROUP_REGEX], group [group] *)
  matchResStrict : string -> option string;    (* [RES_STRICT_REGEX], group [res] *)
  extractInt : string -> Z;
  parseSource : string -> option string;
  testRepackProper : string -> bool;           (* [REPACK_PROPER_REGEX.test] *)
  testSeason : string -> bool;                 (* [SEASON_REGEX.test] *)
  getFuzzySizeFactor : Searchee -> Q;
  getMinSizeRatio : Searchee -> Q;
  findBlockedStringInSearchee : Searchee -> list string -> option string;
  findBlockedStringInMetafile : Metafile -> list string -> option string;
  isSingleEpisode : Metafile -> MediaType -> bool;
  getMediaType : Metafile -> MediaType;
  matchTorrentId : string -> option string;    (* [/\.tv\/torrent\/(\d+)\/group/], group 1 *)
  (* torrent.ts *)
  getKnownTrackersForInfoHash : State -> string -> option (list string);
  snatch : Candidate -> SearcheeLabel -> nat -> Z -> Metafile + SnatchError;
  (* fs/promises, by the info hash that names the file *)
  writeFileSucceeds : string -> bool;
  unlinkSucceeds : string -> bool;
  statSucceeds : string -> bool;
  utimesSucceeds : string -> bool;
  (* [Date.now()], by the number of readings taken before *)
  clock : nat -> Z
}.

Variable ext : Externals.

(** *** The monad of [async] functions *)

Definition M (A : Type) : Type := State -> Res A * State.

Definition ret {A : Type} (a : A) : M A := fun st => (Ret a, st).

Definition bind {A B : Type} (m : M A) (k : A -> M B) : M B :=
  fun st =>
    match m st with
    | (Ret a, st') => k a st'
    | (Throw, st') => (Throw, st')
    end.

Definition throw {A : Type} : M A := fun st => (Throw, st).

Definition gets {A : Type} (f : State -> A) : M A := fun st => (Ret (f st), st).

Definition modify (f : State -> State) : M unit := fun st => (Ret tt, f st).

Definition set_db (db : Db) (st : State) : State :=
  mkState db (st_clients st) (st_cache st) (st_exclude st)
          (st_guidInfoHashMap st) (st_ticks st) (st_trace st).

Definition set_clients (cs : list TorrentClient) (st : State) : State :=
  mkState (st_db st) cs (st_cache st) (st_exclude st)
          (st_guidInfoHashMap st) (st_ticks st) (st_trace st).

Definition set_cache (c : list (string * CachedFile)) (st : State) : State :=
  mkState (st_db st) (st_clients st) c (st_exclude st)
          (st_guidInfoHashMap st) (st_ticks st) (st_trace st).

Definition set_exclude (e : list string) (st : State) : State :=
  mkState (st_db st) (st_clients st) (st_cache st) e
          (st_guidInfoHashMap st) (st_ticks st) (st_trace st).

Definition set_guidInfoHashMap (g : list (string * string)) (st : State) : State :=
  mkState (st_db st) (st_clients st) (st_cache st) (st_exclude st)
          g (st_ticks st) (st_trace st).

Definition emit (ev : Event) : M unit :=
  modify (fun st =>
    mkState (st_db st) (st_clients st) (st_cache st) (st_exclude st)
            (st_guidInfoHashMap st) (st_ticks st) (st_trace st ++ [ev])).

(** [Date.now()] *)
Definition dateNow : M Z :=
  fun st =>
    (Ret (clock ext (st_ticks st)),
     mkState (st_db st) (st_clients st) (st_cache st) (st_exclude st)
             (st_guidInfoHashMap st) (S (st_ticks st)) (st_trace st)).

Definition getDb : M Db := gets st_db.

Definition modifyDb (f : Db -> Db) : M unit :=
  modify (fun st => set_db (f (st_db st)) st).

(** [db.transaction(async (trx) => body)]: an exception rolls the
    database back to where the transaction began and is re-thrown. *)
Definition transaction {A : Type} (body : M A) : M A :=
  fun st =>
    match body st with
    | (Ret a, st') => (Ret a, st')
    | (Throw, st') => (Throw, set_db (st_db st) st')
    end.

(** *** Table updates *)

Definition with_decision (f : list DecisionRow -> list DecisionRow) (db : Db) : Db :=
  mkDb (t_searchee db) (f (t_decision db)) (t_collisions db)
       (t_conflict_rules db) (t_indexer db) (t_client_searchee db).

Definition with_collisions (f : list CollisionRow -> list CollisionRow) (db : Db) : Db :=
  mkDb (t_searchee db) (t_decision db) (f (t_collisions db))
       (t_conflict_rules db) (t_indexer db) (t_client_searchee db).

Definition with_conflict_rules (f : list ConflictRuleRow -> list ConflictRuleRow)
           (db : Db) : Db :=
  mkDb (t_searchee db) (t_decision db) (t_collisions db)
       (f (t_conflict_rules db)) (t_indexer db) (t_client_searchee db).

Definition with_indexer (f : list IndexerRow -> list IndexerRow) (db : Db) : Db :=
  mkDb (t_searchee db) (t_decision db) (t_collisions db)
       (t_conflict_rules db) (f (t_indexer db)) (t_client_searchee db).

Definition with_client_searchee
           (f : list ClientSearcheeRow -> list ClientSearcheeRow) (db : Db) : Db :=
  mkDb (t_searchee db) (t_decision db) (t_collisions db)
       (t_conflict_rules db) (t_indexer db) (f (t_client_searchee db)).

Notation "x <- c ;; k" := (bind c (fun x => k))
  (at level 61, c at next level, right associativity).
Notation "c ;;; k" := (bind c (fun _ => k))
  (at level 61, right associativity).

(** *** Eviction of an incumbent torrent *)

Definition isErr {A : Type} (r : Result A) : bool :=
  match r with ROk _ => false | RErr _ => true end.

(** [r.unwrap()] of a boolean result, where the code has excluded [isErr]. *)
Definition unwrapBool (r : Result bool) : bool :=
  match r with ROk b => b | RErr _ => false end.

(** The driver object is shared: a call leaves its new state in the
    client found under that host. *)
Fixpoint updateClient (host : string) (d : DriverState) (cs : list TorrentClient)
  : list TorrentClient :=
  match cs with
  | [] => []
  | c :: rest =>
      if String.eqb (clientHost c) host
      then mkClient (clientHost c) (clientLabel c) d :: rest
      else c :: updateClient host d rest
  end.

Definition hostIs (host : string) (client_host : option string) : bool :=
  match client_host with
  | Some h => String.eqb h host
  | None => false
  end.

(** [db("client_searchee").where({ info_hash, client_host }).del()] *)
Definition deleteClientSearchee (infoHash host : string) (db : Db) : Db :=
  with_client_searchee
    (filter (fun row => negb (String.eqb (cs_info_hash row) infoHash
                              && hostIs host (cs_client_host row))))
    db.

(** One iteration of the loop of [removeTorrentFromClients], once the
    client of the row has been found; [true] when the loop goes on. *)
Definition removeFromClient (infoHash : string) (client : TorrentClient)
           (client_host : string) : M bool :=
  fun st =>
    let (removeRes, d1) := removeTorrent ext (driver client) infoHash false in
    let st1 :=
      mkState (st_db st) (updateClient (clientHost client) d1 (st_clients st))
              (st_cache st) (st_exclude st) (st_guidInfoHashMap st) (st_ticks st)
              (st_trace st ++ [EvRemoveTorrent (clientHost client) infoHash false removeRes]) in
    if isErr removeRes || negb (unwrapBool removeRes) then (Ret false, st1)
    else
      let (exists_, d2) := isTorrentInClient ext d1 infoHash in
      let st2 :=
        mkState (st_db st1) (updateClient (clientHost client) d2 (st_clients st1))
                (st_cache st1) (st_exclude st1) (st_guidInfoHashMap st1) (st_ticks st1)
                (st_trace st1 ++ [EvIsTorrentInClient (clientHost client) infoHash exists_]) in
      if isErr exists_ || unwrapBool exists_ then (Ret false, st2)
      else (Ret true, set_db (deleteClientSearchee infoHash client_host (st_db st2)) st2).

Fixpoint removeLoop (infoHash : string) (rows : list (option string)) : M bool :=
  match rows with
  | [] => ret true
  | client_host :: rest =>
      match client_host with
      | None => ret false
      | Some host =>
          if negb (JsString.truthy host) then ret false
          else
            clients <- gets st_clients ;;
            match find (fun c => String.eqb (clientHost c) host) clients with
            | None => ret false
            | Some client =>
                removed <- removeFromClient infoHash client host ;;
                if removed then removeLoop infoHash rest else ret false
            end
      end
  end.

Definition removeTorrentFromClients (infoHash searcheeName : string) : M bool :=
  db <- getDb ;;
  let rows := map cs_client_host
                  (filter (fun row => String.eqb (cs_info_hash row) infoHash)
                          (t_client_searchee db)) in
  match rows with
  | [] => ret false
  | _ => removeLoop infoHash rows
  end.

(** *** Conflict rules *)

Definition resolveConflictRules (infoHash : string) (candidateTrackers : list string)
           (searcheeName : string) : M bool :=
  db <- getDb ;;
  let rules := getConflictRules db in
  match rules with
  | [] => ret false
  | _ =>
      let indexerTrackers := getIndexerTrackerSet db in
      match getBestTrackerPriority candidateTrackers rules indexerTrackers with
      | None => ret false
      | Some candidatePriority =>
          let rows := map cs_trackers
                          (filter (fun row => String.eqb (cs_info_hash row) infoHash)
                                  (t_client_searchee db)) in
          match rows with
          | [] => ret false
          | _ =>
              let existingTrackers := flat_map parseTrackersJson rows in
              let matchedExistingPriority :=
                getBestTrackerPriority existingTrackers rules indexerTrackers in
              let bestExistingPriority :=
                match matchedExistingPriority with
                | None => List.length rules
                | Some p => p
                end in
              if (bestExistingPriority <=? candidatePriority)%nat then ret false
              else removeTorrentFromClients infoHash searcheeName
          end
      end
  end.

Definition resolveConflictRulesForCollision := resolveConflictRules.

(** *** Collision records *)

Definition getTorrentPrivateFlag (meta : option Metafile) : option bool :=
  match meta with
  | None => None
  | Some meta =>
      match m_raw meta with
      | None => None
      | Some raw =>
          match tr_info raw with
          | None => None
          | Some info =>
              match ti_private info with
              | Some (BInt 1) => Some true
              | Some (BInt 0) => Some false
              | _ => None
              end
          end
      end
  end.

(** The [context] argument only feeds the log line. *)
Definition canRecordPrivateCollision (candidateMetafile : option Metafile) : bool :=
  match getTorrentPrivateFlag candidateMetafile with
  | Some true => true
  | _ => false
  end.

Fixpoint stringsEqb (a b : list string) : bool :=
  match a, b with
  | [], [] => true
  | x :: a', y :: b' => String.eqb x y && stringsEqb a' b'
  | _, _ => false
  end.

Definition infoHashIs (h : string) (value : option string) : bool :=
  match value with
  | Some v => String.eqb v h
  | None => false
  end.

(** A row of [collisions join decision join searchee] built on collision [c]
    passes the [where] of the duplicate search. *)
Definition isEquivalentCollision (db : Db) (infoHash name : string)
           (candidate_trackers known_trackers : list string) (decisionId : Z)
           (c : CollisionRow) : bool :=
  existsb (fun d =>
             (d_id d =? co_decision_id c)%Z
             && infoHashIs infoHash (d_info_hash d)
             && existsb (fun s => (se_id s =? d_searchee_id d)%Z
                                  && String.eqb (se_name s) name)
                        (t_searchee db))
          (t_decision db)
  && stringsEqb (co_candidate_trackers c) candidate_trackers
  && stringsEqb (co_known_trackers c) known_trackers
  && negb (co_decision_id c =? decisionId)%Z.

(** The duplicate search of [upsertCollisionRecord]: [Some] of the
    [decision_id] of the first equivalent row owned by another decision,
    when the guards around the query let it run and its result is truthy. *)
Definition findEquivalentCollision (db : Db) (decisionId : Z)
           (candidate_trackers known_trackers : list string) : option Z :=
  match find (fun d => (d_id d =? decisionId)%Z) (t_decision db) with
  | None => None
  | Some decisionRow =>
      match d_info_hash decisionRow with
      | None => None
      | Some info_hash =>
          if JsString.truthy info_hash && negb (d_searchee_id decisionRow =? 0)%Z then
            match find (fun s => (se_id s =? d_searchee_id decisionRow)%Z)
                       (t_searchee db) with
            | None => None
            | Some searcheeRow =>
                if JsString.truthy (se_name searcheeRow) then
                  match find (isEquivalentCollision db info_hash (se_name searcheeRow)
                                candidate_trackers known_trackers decisionId)
                             (t_collisions db) with
                  | None => None
                  | Some existing =>
                      if (co_decision_id existing =? 0)%Z then None
                      else Some (co_decision_id existing)
                  end
                else None
            end
          else None
      end
  end.

(** [.where({ decision_id }).update({ last_seen, updated_at })] *)
Definition refreshCollision (decisionId last_seen updated_at : Z)
           (rows : list CollisionRow) : list CollisionRow :=
  map (fun c =>
         if (co_decision_id c =? decisionId)%Z
         then mkCollisionRow (co_decision_id c) (co_candidate_trackers c)
                             (co_known_trackers c) (co_first_seen c)
                             (Some last_seen) (Some updated_at)
         else c)
      rows.

(** [.where({ decision_id }).del()] *)
Definition deleteCollision (decisionId : Z) (rows : list CollisionRow)
  : list CollisionRow :=
  filter (fun c => negb (co_decision_id c =? decisionId)%Z) rows.

(** [.insert(payload).onConflict("decision_id").merge({ candidate_trackers,
    known_trackers, last_seen, updated_at })] *)
Definition insertOrMergeCollision (payload : CollisionRow)
           (rows : list CollisionRow) : list CollisionRow :=
  if existsb (fun c => (co_decision_id c =? co_decision_id payload)%Z) rows
  then map (fun c =>
              if (co_decision_id c =? co_decision_id payload)%Z
              then mkCollisionRow (co_decision_id c) (co_candidate_trackers payload)
                                  (co_known_trackers payload) (co_first_seen c)
                                  (co_last_seen payload) (co_updated_at payload)
              else c)
           rows
  else rows ++ [payload].

Definition upsertCollisionRecord (decisionId : Z) (trackerMismatch : TrackerMismatchInfo)
           (firstSeen lastSeen : Z) : M unit :=
  updated_at <- dateNow ;;
  let payload :=
    mkCollisionRow decisionId (candidateTrackers trackerMismatch)
                   (knownTrackers trackerMismatch)
                   (Some firstSeen) (Some lastSeen) (Some updated_at) in
  db <- getDb ;;
  match findEquivalentCollision db decisionId (co_candidate_trackers payload)
                                (co_known_trackers payload) with
  | Some existingId =>
      modifyDb (with_collisions (refreshCollision existingId lastSeen updated_at)) ;;;
      modifyDb (with_collisions (deleteCollision decisionId))
  | None =>
      modifyDb (with_collisions (insertOrMergeCollision payload))
  end.

Definition deleteCollisionRecord (decisionId : Z) : M unit :=
  modifyDb (with_collisions (deleteCollision decisionId)).

Definition logAnnounceMismatch (metafile : Metafile) : M (option TrackerMismatchInfo) :=
  st <- gets (fun st => st) ;;
  match getKnownTrackersForInfoHash ext st (m_infoHash metafile) with
  | None => ret None
  | Some known =>
      let candidateTrackers := normalizeTrackers (m_trackers metafile) in
      let knownTrackers := normalizeTrackers known in
      match candidateTrackers, knownTrackers with
      | [], [] => ret None
      | _, _ =>
          if trackersAreEqual candidateTrackers knownTrackers then ret None
          else ret (Some (mkMismatch candidateTrackers knownTrackers))
      end
  end.

(** *** File trees *)

Definition compareFileTrees (candidate : Metafile) (searchee : Searchee) : bool :=
  let cmp :=
    if negb (JsString.truthyOpt (s_infoHash searchee))
       && negb (JsString.truthyOpt (s_path searchee))
    then fun elOfA elOfB =>
           (f_length elOfB =? f_length elOfA)%Z
           && String.eqb (f_name elOfB) (f_name elOfA)
    else fun elOfA elOfB =>
           (f_length elOfB =? f_length elOfA)%Z
           && String.eqb (f_path elOfB) (f_path elOfA) in
  forallb (fun elOfA => existsb (fun elOfB => cmp elOfA elOfB) (s_files searchee))
          (m_files candidate).

(** The searchee files a candidate file may consume: those of its
    length and, when there are several, those of its name among them. *)
Definition matchedSearcheeFiles (candidateFile : File) (availableFiles : list File)
  : list File :=
  let byLength :=
    filter (fun searcheeFile => (f_length searcheeFile =? f_length candidateFile)%Z)
           availableFiles in
  if (1 <? List.length byLength)%nat
  then filter (fun searcheeFile => String.eqb (f_name searcheeFile) (f_name candidateFile))
              byLength
  else byLength.

(** [availableFiles.splice(availableFiles.indexOf(matched[0]), 1)]: the
    file objects of a searchee are distinct, so the first occurrence of
    [matched[0]] is at the first position whose file passes the filters
    that produced [matched]. *)
Fixpoint spliceFirst (keep : File -> bool) (availableFiles : list File) : list File :=
  match availableFiles with
  | [] => []
  | f :: rest => if keep f then rest else f :: spliceFirst keep rest
  end.

Definition consumeMatched (candidateFile : File) (availableFiles : list File)
  : list File :=
  let multi :=
    (1 <? List.length
            (filter (fun sf => (f_length sf =? f_length candidateFile)%Z)
                    availableFiles))%nat in
  spliceFirst (fun sf => (f_length sf =? f_length candidateFile)%Z
                         && (negb multi || String.eqb (f_name sf) (f_name candidateFile)))
              availableFiles.

Fixpoint ignoringNamesLoop (candidateFiles availableFiles : list File) : bool :=
  match candidateFiles with
  | [] => true
  | candidateFile :: rest =>
      match matchedSearcheeFiles candidateFile availableFiles with
      | [] => false
      | _ => ignoringNamesLoop rest (consumeMatched candidateFile availableFiles)
      end
  end.

Definition compareFileTreesIgnoringNames (candidate : Metafile) (searchee : Searchee)
  : bool :=
  ignoringNamesLoop (m_files candidate) (s_files searchee).

Definition getPartialSizeRatio (candidate : Metafile) (searchee : Searchee) : Q :=
  let matchedSizes :=
    fold_left (fun acc candidateFile =>
                 if existsb (fun searcheeFile =>
                               (f_length searcheeFile =? f_length candidateFile)%Z)
                            (s_files searchee)
                 then (acc + f_length candidateFile)%Z else acc)
              (m_files candidate) 0%Z in
  (inject_Z matchedSizes / inject_Z (m_length candidate))%Q.

Fixpoint partialLoop (candidateFiles availableFiles : list File) (matchedSizes : Z) : Z :=
  match candidateFiles with
  | [] => matchedSizes
  | candidateFile :: rest =>
      match matchedSearcheeFiles candidateFile availableFiles with
      | [] => partialLoop rest availableFiles matchedSizes
      | _ => partialLoop rest (consumeMatched candidateFile availableFiles)
                         (matchedSizes + f_length candidateFile)%Z
      end
  end.

(** [Math.ceil(a / b)] and [Math.floor(a / b)] for a positive [b]. *)
Definition ceilDiv (a b : Z) : Z := (- ((- a) / b))%Z.
Definition floorDiv (a b : Z) : Z := (a / b)%Z.

Definition compareFileTreesPartial (candidate : Metafile) (searchee : Searchee) : bool :=
  let matchedSizes := partialLoop (m_files candidate) (s_files searchee) 0%Z in
  let totalPieces := ceilDiv (m_length candidate) (m_pieceLength candidate) in
  let availablePieces := floorDiv matchedSizes (m_pieceLength candidate) in
  Qle_bool (getMinSizeRatio ext searchee)
           (inject_Z availablePieces / inject_Z totalPieces)%Q.

(** *** Pre-download filters *)

Definition fuzzySizeDoesMatch (resultSize : Z) (searchee : Searchee) : bool :=
  let fuzzySizeFactor := JsNumber.ofQ (getFuzzySizeFactor ext searchee) in
  let length := JsNumber.ofZ (s_length searchee) in
  let lowerBound := JsNumber.sub length (JsNumber.mul fuzzySizeFactor length) in
  let upperBound := JsNumber.add length (JsNumber.mul fuzzySizeFactor length) in
  JsNumber.leb lowerBound (JsNumber.ofZ resultSize)
  && JsNumber.leb (JsNumber.ofZ resultSize) upperBound.

Definition optionStringEqb (a b : option string) : bool :=
  match a, b with
  | Some x, Some y => String.eqb x y
  | None, None => true
  | _, _ => false
  end.

Definition resolutionDoesMatch (searcheeTitle candidateName : string) : bool :=
  let res s :=
    option_map (fun r => JsString.toLowerCase (JsString.trim r))
               (matchResStrict ext s) in
  match res searcheeTitle, res candidateName with
  | Some searcheeRes, Some candidateRes =>
      if negb (JsString.truthy searcheeRes) || negb (JsString.truthy candidateRes)
      then true
      else (extractInt ext searcheeRes =? extractInt ext candidateRes)%Z
  | _, _ => true
  end.

Definition releaseGroupDoesMatch (searcheeTitle candidateName : string) : bool :=
  let group s :=
    option_map JsString.toLowerCase (getReleaseGroup ext (stripExtension ext s)) in
  let animeGroup s :=
    option_map (fun g => JsString.toLowerCase (JsString.trim g))
               (matchAnimeGroup ext s) in
  match group searcheeTitle, group candidateName with
  | Some searcheeReleaseGroup, Some candidateReleaseGroup =>
      if negb (JsString.truthy searcheeReleaseGroup)
         || negb (JsString.truthy candidateReleaseGroup)
      then true
      else if JsString.startsWith searcheeReleaseGroup candidateReleaseGroup
              || JsString.startsWith candidateReleaseGroup searcheeReleaseGroup
      then true
      else
        let searcheeAnimeGroup := animeGroup searcheeTitle in
        let candidateAnimeGroup := animeGroup candidateName in
        if negb (JsString.truthyOpt searcheeAnimeGroup)
           && negb (JsString.truthyOpt candidateAnimeGroup)
        then false
        else if optionStringEqb searcheeAnimeGroup candidateAnimeGroup then true
        else if JsString.truthyOpt searcheeAnimeGroup
                && optionStringEqb searcheeAnimeGroup (Some candidateReleaseGroup)
        then true
        else if JsString.truthyOpt candidateAnimeGroup
                && optionStringEqb (Some searcheeReleaseGroup) candidateAnimeGroup
        then true
        else false
  | _, _ => true
  end.

Definition sourceDoesMatch (searcheeTitle candidateName : string) : bool :=
  match parseSource ext searcheeTitle, parseSource ext candidateName with
  | Some searcheeSource, Some candidateSource =>
      if negb (JsString.truthy searcheeSource) || negb (JsString.truthy candidateSource)
      then true
      else String.eqb searcheeSource candidateSource
  | _, _ => true
  end.

Definition releaseVersionDoesMatch (searcheeName candidateName : string) : bool :=
  Bool.eqb (testRepackProper ext searcheeName) (testRepackProper ext candidateName).

(** Truthiness of [candidate.size]. *)
Definition sizeTruthy (size : option Z) : bool :=
  match size with
  | Some n => negb (n =? 0)%Z
  | None => false
  end.

(** The [if (isCandidate) { ... }] block of [assessCandidate]: the
    decision of the first filter that rejects, if any. *)
Definition preFilter (candidate : Candidate) (searchee : Searchee) : option Decision :=
  let name := c_name candidate in
  if negb (releaseGroupDoesMatch (s_title searchee) name)
  then Some RELEASE_GROUP_MISMATCH
  else if negb (resolutionDoesMatch (s_title searchee) name)
  then Some RESOLUTION_MISMATCH
  else if negb (sourceDoesMatch (s_title searchee) name)
  then Some SOURCE_MISMATCH
  else if negb (releaseVersionDoesMatch (s_title searchee) name)
  then Some PROPER_REPACK_MISMATCH
  else if sizeTruthy (c_size candidate)
          && negb (fuzzySizeDoesMatch (match c_size candidate with
                                       | Some n => n
                                       | None => 0%Z
                                       end) searchee)
  then Some FUZZY_SIZE_MISMATCH
  else if negb (JsString.truthy (c_link candidate))
  then Some NO_DOWNLOAD_LINK
  else None.

(** *** Torrent cache *)

(** [Map.prototype.set] on an insertion-ordered map. *)
Fixpoint mapSet {V : Type} (k : string) (v : V) (m : list (string * V))
  : list (string * V) :=
  match m with
  | [] => [(k, v)]
  | (k', v') :: rest =>
      if String.eqb k' k then (k, v) :: rest else (k', v') :: mapSet k v rest
  end.

Fixpoint mapGet {V : Type} (k : string) (m : list (string * V)) : option V :=
  match m with
  | [] => None
  | (k', v) :: rest => if String.eqb k' k then Some v else mapGet k rest
  end.

Definition jsonIncludes (items : list Json) (tracker : string) : bool :=
  existsb (fun j => match j with
                    | JStr s => String.eqb s tracker
                    | _ => false
                    end) items.

(** The tracker loop of [cacheTorrentFile]: the array after the pushes,
    and whether something was pushed. *)
Fixpoint pushMissing (metaTrackers : list string) (dbTrackers : list Json) (added : bool)
  : list Json * bool :=
  match metaTrackers with
  | [] => (dbTrackers, added)
  | tracker :: rest =>
      if jsonIncludes dbTrackers tracker then pushMissing rest dbTrackers added
      else pushMissing rest (dbTrackers ++ [JStr tracker]) true
  end.

(** The [if (candidate.indexerId && meta.trackers.length)] block.  When
    the stored text does not parse, or parses to something that is not an
    array, the block either throws into the [catch] or pushes nothing:
    the table is left as it is. *)
Definition mergeIndexerTrackers (indexerId : Z) (metaTrackers : list string) (db : Db)
  : Db :=
  let stored :=
    match find (fun row => (ix_id row =? indexerId)%Z) (t_indexer db) with
    | None => Some []
    | Some dbIndexer =>
        match ix_trackers dbIndexer with
        | None => Some []
        | Some (Malformed raw) => if JsString.truthy raw then None else Some []
        | Some (WellFormed (JArr items)) => Some items
        | Some (WellFormed _) => None
        end
    end in
  match stored with
  | None => db
  | Some dbTrackers =>
      let (dbTrackers', added) := pushMissing metaTrackers dbTrackers false in
      if added
      then with_indexer
             (map (fun row =>
                     if (ix_id row =? indexerId)%Z
                     then mkIndexerRow (ix_id row) (Some (WellFormed (JArr dbTrackers')))
                     else row))
             db
      else db
  end.

(** The file written is [meta.encode()], which by the model of
    [CachedFile] parses back to [meta]. *)
Definition cacheTorrentFile (meta : Metafile) (candidate : Candidate) : M bool :=
  let ok := writeFileSucceeds ext (m_infoHash meta) in
  emit (EvWriteFile (m_infoHash meta) ok) ;;;
  if negb ok then ret false
  else
    modify (fun st => set_cache (mapSet (m_infoHash meta) (Parsable meta) (st_cache st)) st) ;;;
    match c_indexerId candidate, m_trackers meta with
    | Some indexerId, _ :: _ =>
        if (indexerId =? 0)%Z then ret true
        else modifyDb (mergeIndexerTrackers indexerId (m_trackers meta)) ;;; ret true
    | _, _ => ret true
    end.

Definition getCachedTorrent (infoHash : option string) : M (option Metafile) :=
  match infoHash with
  | None => ret None
  | Some infoHash =>
      if negb (JsString.truthy infoHash) then ret None
      else
        cache <- gets st_cache ;;
        match mapGet infoHash cache with
        | None => ret None
        | Some Corrupt =>
            let ok := unlinkSucceeds ext infoHash in
            emit (EvUnlink infoHash ok) ;;;
            (if ok
             then modify (fun st =>
                            set_cache (filter (fun kv => negb (String.eqb (fst kv) infoHash))
                                              (st_cache st)) st)
             else ret tt) ;;;
            ret None
        | Some (Parsable meta) =>
            (* [utimes(path, new Date(), (await stat(path)).mtime)], outside
               the [try]: [stat] is awaited before [utimes] is called, and a
               rejection of either one is the rejection of the call. *)
            if negb (statSucceeds ext infoHash) then throw
            else
              let ok := utimesSucceeds ext infoHash in
              emit (EvUtimes infoHash ok) ;;;
              if ok then ret (Some meta) else throw
        end
  end.

(** *** Assessment *)

(** Lines 809-838 of [assessCandidate]: the comparison of the file trees. *)
Definition contentDecision (metafile : Metafile) (searchee : Searchee)
           (mode : MatchMode) : Decision :=
  let perfectMatch := compareFileTrees metafile searchee in
  if perfectMatch then MATCH
  else
    let sizeMatch := compareFileTreesIgnoringNames metafile searchee in
    if sizeMatch && negb (match mode with STRICT => true | _ => false end)
    then MATCH_SIZE_ONLY
    else
      match mode with
      | PARTIAL =>
          let partialSizeMatch :=
            Qle_bool (getMinSizeRatio ext searchee)
                     (getPartialSizeRatio metafile searchee) in
          if negb partialSizeMatch then PARTIAL_SIZE_MISMATCH
          else if compareFileTreesPartial metafile searchee then MATCH_PARTIAL
          else FILE_TREE_MISMATCH
      | _ =>
          if negb sizeMatch then SIZE_MISMATCH else FILE_TREE_MISMATCH
      end.

(** Lines 796-838: block list on the metafile, season-pack guard, then
    the file trees. *)
Definition metafileDecision (metafile : Metafile) (searchee : Searchee)
           (blockList : list string) (config : RuntimeConfig) : Decision :=
  match findBlockedStringInMetafile ext metafile blockList with
  | Some _ => BLOCKED_RELEASE
  | None =>
      if negb (includeSingleEpisodes config)
         && testSeason ext (s_title searchee)
         && isSingleEpisode ext metafile (getMediaType ext metafile)
      then FILE_TREE_MISMATCH
      else contentDecision metafile searchee (matchMode config)
  end.

Definition setDelete (x : string) (s : list string) : list string :=
  filter (fun y => negb (String.eqb y x)) s.

(** The candidate trackers handed to the conflict rules. *)
Definition collisionCandidateTrackers (trackerMismatch : option TrackerMismatchInfo)
           (candidateTracker : option string) : list string :=
  match trackerMismatch with
  | Some tm =>
      match candidateTrackers tm with
      | _ :: _ => candidateTrackers tm
      | [] => if JsString.truthyOpt candidateTracker
              then match candidateTracker with Some t => [t] | None => [] end
              else []
      end
  | None => if JsString.truthyOpt candidateTracker
            then match candidateTracker with Some t => [t] | None => [] end
            else []
  end.

Definition collisionDecision (trackerMismatch : option TrackerMismatchInfo) : Decision :=
  match trackerMismatch with
  | Some _ => INFO_HASH_ALREADY_EXISTS_ANOTHER_TRACKER
  | None => INFO_HASH_ALREADY_EXISTS
  end.

(** [assessCandidate] from line 755 on, with the metafile in hand. *)
Definition assessMetafile (metafile : Metafile) (metaCached : bool)
           (searchee : Searchee) (blockList : list string) (config : RuntimeConfig)
           (candidateTracker : option string) : M ResultAssessment :=
  if optionStringEqb (s_infoHash searchee) (Some (m_infoHash metafile)) then
    trackerMismatch <- logAnnounceMismatch metafile ;;
    ret (mkAssessment
           (match trackerMismatch with
            | Some _ => INFO_HASH_ALREADY_EXISTS_ANOTHER_TRACKER
            | None => SAME_INFO_HASH
            end)
           (Some metafile) (Some metaCached) trackerMismatch)
  else
    excluded <- gets (fun st => JsString.includes (st_exclude st) (m_infoHash metafile)) ;;
    collision <-
      (if excluded then
         trackerMismatch <- logAnnounceMismatch metafile ;;
         let candidateTrackers :=
           collisionCandidateTrackers trackerMismatch candidateTracker in
         match candidateTrackers with
         | _ :: _ =>
             resolved <- resolveConflictRules (m_infoHash metafile) candidateTrackers
                                              (s_title searchee) ;;
             if resolved
             then modify (fun st =>
                            set_exclude (setDelete (m_infoHash metafile) (st_exclude st)) st)
             else ret tt
         | [] => ret tt
         end ;;;
         stillExcluded <-
           gets (fun st => JsString.includes (st_exclude st) (m_infoHash metafile)) ;;
         if stillExcluded
         then ret (Some (mkAssessment (collisionDecision trackerMismatch)
                                      (Some metafile) (Some metaCached) trackerMismatch))
         else ret None
       else ret None) ;;
    match collision with
    | Some assessment => ret assessment
    | None =>
        ret (mkAssessment (metafileDecision metafile searchee blockList config)
                          (Some metafile) (Some metaCached) None)
    end.

Definition snatchDelayMs (label : SearcheeLabel) : Z :=
  match label with
  | L_ANNOUNCE => 300000%Z       (* ms("5 minutes") *)
  | _ => 60000%Z                 (* ms("1 minute") *)
  end.

Definition assessCandidate (metaOrCandidate : Metafile + Candidate)
           (searchee : Searchee) (blockList : list string) (config : RuntimeConfig)
           (candidateTracker : option string) : M ResultAssessment :=
  match metaOrCandidate with
  | inl metafile =>
      match findBlockedStringInSearchee ext searchee blockList with
      | Some _ => ret (mkAssessment BLOCKED_RELEASE (Some metafile) (Some true) None)
      | None => assessMetafile metafile true searchee blockList config candidateTracker
      end
  | inr candidate =>
      match preFilter candidate searchee with
      | Some rejection => ret (mkAssessment rejection None None None)
      | None =>
          match findBlockedStringInSearchee ext searchee blockList with
          | Some _ => ret (mkAssessment BLOCKED_RELEASE None (Some false) None)
          | None =>
              emit (EvSnatch (c_guid candidate) 4 (snatchDelayMs (s_label searchee))) ;;;
              match snatch ext candidate (s_label searchee) 4
                           (snatchDelayMs (s_label searchee)) with
              | inr err =>
                  ret (mkAssessment
                         (match err with
                          | SE_MAGNET_LINK => MAGNET_LINK
                          | SE_RATE_LIMITED => RATE_LIMITED
                          | SE_OTHER => DOWNLOAD_FAILED
                          end) None None None)
              | inl metafile =>
                  metaCached <- cacheTorrentFile metafile candidate ;;
                  assessMetafile metafile metaCached searchee blockList config
                                 candidateTracker
              end
          end
      end
  end.

(** *** Persistence of an assessment *)

Definition nextDecisionId (rows : list DecisionRow) : Z :=
  (1 + fold_right Z.max 0 (map d_id rows))%Z.

Definition isDecisionKey (searchee_id : Z) (guid : string) (d : DecisionRow) : bool :=
  (d_searchee_id d =? searchee_id)%Z && String.eqb (d_guid d) guid.

(** [.insert({...}).onConflict(["searchee_id", "guid"]).merge()] *)
Definition upsertDecision (searchee_id : Z) (guid : string) (info_hash : option string)
           (decision : Decision) (first_seen last_seen : option Z)
           (fuzzy_size_factor : Q) (rows : list DecisionRow) : list DecisionRow :=
  if existsb (isDecisionKey searchee_id guid) rows
  then map (fun d =>
              if isDecisionKey searchee_id guid d
              then mkDecisionRow (d_id d) searchee_id guid info_hash decision
                                 first_seen last_seen fuzzy_size_factor
              else d)
           rows
  else rows ++ [mkDecisionRow (nextDecisionId rows) searchee_id guid info_hash decision
                              first_seen last_seen fuzzy_size_factor].

(** The body of the transaction of [assessAndSaveResults]. *)
Definition saveAssessment (assessment : ResultAssessment) (meta : Metafile)
           (searchee : Searchee) (guid : string) (firstSeen : Z) : M unit :=
  db <- getDb ;;
  match find (fun s => String.eqb (se_name s) (s_title searchee)) (t_searchee db) with
  | None => throw
  | Some searcheeRow =>
      let id := se_id searcheeRow in
      last_seen <- dateNow ;;
      modifyDb (with_decision
                  (upsertDecision id guid (Some (m_infoHash meta)) (decision assessment)
                                  (Some firstSeen) (Some last_seen)
                                  (getFuzzySizeFactor ext searchee))) ;;;
      db <- getDb ;;
      match find (isDecisionKey id guid) (t_decision db) with
      | None => ret tt
      | Some decisionRow =>
          if (d_id decisionRow =? 0)%Z then ret tt
          else
            match decision assessment, trackerMismatch assessment with
            | INFO_HASH_ALREADY_EXISTS_ANOTHER_TRACKER, Some tm =>
                if canRecordPrivateCollision (Some meta) then
                  lastSeen <- dateNow ;;
                  upsertCollisionRecord (d_id decisionRow) tm firstSeen lastSeen
                else deleteCollisionRecord (d_id decisionRow)
            | _, _ => deleteCollisionRecord (d_id decisionRow)
            end
      end
  end.

Definition assessAndSaveResults (metaOrCandidate : Metafile + Candidate)
           (searchee : Searchee) (guid : string) (firstSeen : Z)
           (candidateTracker : string) (config : RuntimeConfig) : M ResultAssessment :=
  assessment <- assessCandidate metaOrCandidate searchee (blockList config) config
                                (Some candidateTracker) ;;
  match metaCached assessment, metafile assessment with
  | Some true, Some meta =>
      modify (fun st =>
                set_guidInfoHashMap (mapSet guid (m_infoHash meta) (st_guidInfoHashMap st))
                                    st) ;;;
      transaction (saveAssessment assessment meta searchee guid firstSeen) ;;;
      ret assessment
  | _, _ => ret assessment
  end.

(** *** Cached decisions *)

(** Modelled from the spec: [isAnyMatchedDecision] of constants.ts, which
    is not among the sources.  The spec lists the content-agreement
    decisions as [MATCH], [MATCH_SIZE_ONLY] and [MATCH_PARTIAL], and says
    the cached path preserves any previously-matched decision. *)
Definition isAnyMatchedDecision (d : Decision) : bool :=
  match d with
  | MATCH | MATCH_SIZE_ONLY | MATCH_PARTIAL => true
  | _ => false
  end.

Definition guidLookup (guid link : string) (guidInfoHashMap : list (string * string))
  : option string :=
  let infoHash :=
    match mapGet guid guidInfoHashMap with
    | Some v => Some v
    | None => mapGet link guidInfoHashMap
    end in
  if JsString.truthyOpt infoHash then infoHash
  else
    let byTorrentId guidOrLink :=
      match matchTorrentId ext guidOrLink with
      | None => None
      | Some torrentIdStr =>
          if negb (JsString.truthy torrentIdStr) then None
          else option_map snd
                 (find (fun kv => optionStringEqb (matchTorrentId ext (fst kv))
                                                  (Some torrentIdStr))
                       guidInfoHashMap)
      end in
    match byTorrentId guid with
    | Some v => Some v
    | None => byTorrentId link
    end.

(** The row [decision join searchee] selected at the top of
    [assessCandidateCaching]. *)
Definition findCacheEntry (db : Db) (title guid : string) : option DecisionRow :=
  find (fun d =>
          String.eqb (d_guid d) guid
          && existsb (fun s => (se_id s =? d_searchee_id d)%Z
                               && String.eqb (se_name s) title)
                     (t_searchee db))
       (t_decision db).

(** [.where({ id }).update({ last_seen, decision })] *)
Definition updateDecision (id : Z) (last_seen : Z) (decision : Decision)
           (rows : list DecisionRow) : list DecisionRow :=
  map (fun d =>
         if (d_id d =? id)%Z
         then mkDecisionRow (d_id d) (d_searchee_id d) (d_guid d) (d_info_hash d)
                            decision (d_first_seen d) (Some last_seen)
                            (d_fuzzy_size_factor d)
         else d)
      rows.

(** [value ?? Date.now()] *)
Definition orDateNow (value : option Z) : M Z :=
  match value with
  | Some v => ret v
  | None => dateNow
  end.

(** The "already injected fast path" of [assessCandidateCaching],
    lines 1186-1227. *)
Definition recordCachedCollision (cacheEntry : DecisionRow)
           (cachedMeta : option Metafile)
           (trackerMismatch : option TrackerMismatchInfo) : M ResultAssessment :=
  let assessment :=
    mkAssessment (collisionDecision trackerMismatch) None None trackerMismatch in
  last_seen <- dateNow ;;
  modifyDb (with_decision
              (updateDecision (d_id cacheEntry) last_seen
                 (if isAnyMatchedDecision (d_decision cacheEntry)
                  then d_decision cacheEntry
                  else collisionDecision trackerMismatch))) ;;;
  match trackerMismatch with
  | Some tm =>
      if canRecordPrivateCollision cachedMeta then
        firstSeen <- orDateNow (d_first_seen cacheEntry) ;;
        lastSeen <- dateNow ;;
        upsertCollisionRecord (d_id cacheEntry) tm firstSeen lastSeen
      else deleteCollisionRecord (d_id cacheEntry)
  | None => deleteCollisionRecord (d_id cacheEntry)
  end ;;;
  ret assessment.

Definition assessCandidateCaching (candidate : Candidate) (searchee : Searchee)
           (config : RuntimeConfig) : M ResultAssessment :=
  db <- getDb ;;
  let cacheEntry := findCacheEntry db (s_title searchee) (c_guid candidate) in
  guidInfoHashMap <- gets st_guidInfoHashMap ;;
  let infoHash := guidLookup (c_guid candidate) (c_link candidate) guidInfoHashMap in
  res <- getCachedTorrent infoHash ;;
  let metaOrCandidate : Metafile + Candidate :=
    match res with
    | Some meta => inl meta
    | None => inr candidate
    end in
  exclude <- gets st_exclude ;;
  match cacheEntry with
  | Some entry =>
      match d_info_hash entry with
      | Some entryHash =>
          if JsString.includes exclude entryHash then
            trackerMismatch <-
              match res with
              | Some meta => logAnnounceMismatch meta
              | None => ret None
              end ;;
            let candidateTrackers :=
              collisionCandidateTrackers trackerMismatch (Some (c_tracker candidate)) in
            resolved <-
              match candidateTrackers with
              | _ :: _ => resolveConflictRules entryHash candidateTrackers
                                               (s_title searchee)
              | [] => ret false
              end ;;
            if resolved then
              modify (fun st => set_exclude (setDelete entryHash (st_exclude st)) st) ;;;
              firstSeen <- orDateNow (d_first_seen entry) ;;
              assessAndSaveResults metaOrCandidate searchee (c_guid candidate) firstSeen
                                   (c_tracker candidate) config
            else recordCachedCollision entry res trackerMismatch
          else
            firstSeen <- orDateNow (d_first_seen entry) ;;
            assessAndSaveResults metaOrCandidate searchee (c_guid candidate) firstSeen
                                 (c_tracker candidate) config
      | None =>
          firstSeen <- orDateNow (d_first_seen entry) ;;
          assessAndSaveResults metaOrCandidate searchee (c_guid candidate) firstSeen
                               (c_tracker candidate) config
      end
  | None =>
      firstSeen <- dateNow ;;
      assessAndSaveResults metaOrCandidate searchee (c_guid candidate) firstSeen
                           (c_tracker candidate) config
  end.

(** *** Saving the conflict rules (trpc/routers/conflictRules.ts) *)

(** One rule of the [saveRules] input. *)
Record RuleInput : Type := mkRuleInput {
  in_allIndexers : bool;
  in_trackers : list string
}.

(** The next value of the auto-increment [id] column. *)
Definition nextRuleId (rows : list ConflictRuleRow) : Z :=
  (1 + fold_right Z.max 0 (map cr_id rows))%Z.

(** [input.rules.map((rule, index) => ({ priority: index + 1, ... }))],
    with the ids the insert hands out from [firstId] on. *)
Fixpoint rulesPayload (index : nat) (firstId : Z) (now : Z) (rules : list RuleInput)
  : list ConflictRuleRow :=
  match rules with
  | [] => []
  | rule :: rest =>
      mkConflictRuleRow (firstId + Z.of_nat index)%Z (Z.of_nat index + 1)%Z
                        (in_allIndexers rule)
                        (Some (stringifyStrings (normalizeTrackers (in_trackers rule))))
                        (Some now) (Some now)
      :: rulesPayload (S index) firstId now rest
  end.

(** A statement of a transaction: the database carries it out, or
    rejects it (a busy or full database, too many values for one
    statement) and the [await] throws.  [rejects] tells which statements
    are rejected, by their position in the transaction. *)
Definition statement (rejects : nat -> bool) (position : nat) (update : Db -> Db)
  : M unit :=
  if rejects position then throw else modifyDb update.

Definition saveRulesWith (rejects : nat -> bool) (rules : list RuleInput) : M bool :=
  now <- dateNow ;;
  transaction (
    db <- getDb ;;
    let firstId := nextRuleId (t_conflict_rules db) in
    statement rejects 0 (with_conflict_rules (fun _ => [])) ;;;
    match rules with
    | [] => ret tt
    | _ => statement rejects 1
             (with_conflict_rules (fun _ => rulesPayload 0 firstId now rules))
    end) ;;;
  ret true.

(** The save in which the database rejects nothing. *)
Definition saveRules (rules : list RuleInput) : M bool :=
  saveRulesWith (fun _ => false) rules.

End Engine.

Arguments ret {DriverState A} a st.

(** ** Properties stated over the embedding *)

(** [rules[i]] is the first rule that matches the tracker. *)
Definition FirstMatchingRule (tracker : string) (rules : list Rule)
           (indexerTrackers : list string) (i : nat) : Prop :=
  (exists rule, nth_error rules i = Some rule
                /\ ruleMatches (normalizeTrackerKey tracker) indexerTrackers rule = true)
  /\ forall j rule, (j < i)%nat -> nth_error rules j = Some rule ->
                    ruleMatches (normalizeTrackerKey tracker) indexerTrackers rule = false.

(** [p] is the least priority any of the trackers gets. *)
Definition LeastPriority (trackers : list string) (rules : list Rule)
           (indexerTrackers : list string) (p : nat) : Prop :=
  (exists t, In t trackers /\ getTrackerPriority t rules indexerTrackers = Some p)
  /\ forall t q, In t trackers -> getTrackerPriority t rules indexerTrackers = Some q ->
                 (p <= q)%nat.

(** The trackers the clients hold the incumbent torrent under. *)
Definition incumbentTrackers (db : Db) (infoHash : string) : list string :=
  flat_map parseTrackersJson
           (map cs_trackers
                (filter (fun row => String.eqb (cs_info_hash row) infoHash)
                        (t_client_searchee db))).

(** The incumbent's best priority, [rules.length] when no rule matches. *)
Definition incumbentPriority (db : Db) (infoHash : string) : nat :=
  match getBestTrackerPriority (incumbentTrackers db infoHash) (getConflictRules db)
                               (getIndexerTrackerSet db) with
  | None => List.length (getConflictRules db)
  | Some p => p
  end.

(** The rows [resolveConflictRules] reads for the incumbent. *)
Definition incumbentRows (db : Db) (infoHash : string) : list ClientSearcheeRow :=
  filter (fun row => String.eqb (cs_info_hash row) infoHash) (t_client_searchee db).

(** What a stored conflict rule says, without row id and timestamps. *)
Definition ruleTuple (row : ConflictRuleRow) : Z * bool * option JsonText :=
  (cr_priority row, cr_all_indexers row, cr_trackers row).

(** What [saveRules] stores for the rule at [index] of its input. *)
Definition storedTuple (index : nat) (rule : RuleInput) : Z * bool * option JsonText :=
  ((Z.of_nat index + 1)%Z, in_allIndexers rule,
   Some (stringifyStrings (normalizeTrackers (in_trackers rule)))).

Fixpoint storedTuplesFrom (index : nat) (rules : list RuleInput)
  : list (Z * bool * option JsonText) :=
  match rules with
  | [] => []
  | rule :: rest => storedTuple index rule :: storedTuplesFrom (S index) rest
  end.

(** [insertByPriority] and the view of [getConflictRules] only look at
    the tuple of a row. *)
Fixpoint insertTuple (t : Z * bool * option JsonText)
         (ts : list (Z * bool * option JsonText)) : list (Z * bool * option JsonText) :=
  match ts with
  | [] => [t]
  | u :: rest =>
      if (fst (fst t) <=? fst (fst u))%Z then t :: ts else u :: insertTuple t rest
  end.

(** The client behind [host] confirmed the removal of [infoHash]: it
    answered [true] to a removal that keeps the data and then reported the
    torrent absent. *)
Definition ConfirmedRemoval (events : list Event) (host infoHash : string) : Prop :=
  In (EvRemoveTorrent host infoHash false (ROk true)) events
  /\ In (EvIsTorrentInClient host infoHash (ROk false)) events.

(** A collision row owned by [decisionId]. *)
Definition hasCollision (db : Db) (decisionId : Z) : bool :=
  existsb (fun c => (co_decision_id c =? decisionId)%Z) (t_collisions db).

(** The file lengths of candidate and searchee are in bijection. *)
Definition SizeOnlyBijection (candidate : Metafile) (searchee : Searchee) : Prop :=
  Permutation (map f_length (m_files candidate)) (map f_length (s_files searchee)).

(** A row of [client_searchee] that the eviction of [infoHash] deletes
    once the clients behind [hosts] have confirmed. *)
Definition deletedBy (infoHash : string) (hosts : list string)
           (row : ClientSearcheeRow) : bool :=
  String.eqb (cs_info_hash row) infoHash
  && existsb (fun h => hostIs h (cs_client_host row)) hosts.

(** Everything the eviction has no business with is as before. *)
Definition EvictionFrame {D : Type} (st st' : State D) : Prop :=
  t_searchee (st_db st') = t_searchee (st_db st)
  /\ t_decision (st_db st') = t_decision (st_db st)
  /\ t_collisions (st_db st') = t_collisions (st_db st)
  /\ t_conflict_rules (st_db st') = t_conflict_rules (st_db st)
  /\ t_indexer (st_db st') = t_indexer (st_db st)
  /\ st_cache st' = st_cache st
  /\ st_exclude st' = st_exclude st
  /\ st_guidInfoHashMap st' = st_guidInfoHashMap st
  /\ st_ticks st' = st_ticks st.

(** The [client_host] column of the rows of [infoHash], in row order. *)
Definition owners (db : Db) (infoHash : string) : list (option string) :=
  map cs_client_host (incumbentRows db infoHash).

(** The two calls by which the client behind [host] confirms. *)
Definition confirmation (infoHash host : string) : list Event :=
  [ EvRemoveTorrent host infoHash false (ROk true);
    EvIsTorrentInClient host infoHash (ROk false) ].

(** The calls of a round that fails: the client refuses the removal or
    cannot be asked, or it does not report the torrent gone. *)
Definition FailedRound (infoHash host : string) (events : list Event) : Prop :=
  (exists res, res <> ROk true
               /\ events = [ EvRemoveTorrent host infoHash false res ])
  \/ (exists res, res <> ROk false
                  /\ events = [ EvRemoveTorrent host infoHash false (ROk true);
                                EvIsTorrentInClient host infoHash res ]).

(** The driver in state [d] confirms: asked to remove the torrent and
    keep the data it answers [true], and asked next whether it holds the
    torrent it answers [false]. *)
Definition driverConfirms {D : Type} (ext : Externals D) (infoHash : string) (d : D)
  : Prop :=
  fst (removeTorrent ext d infoHash false) = ROk true
  /\ fst (isTorrentInClient ext (snd (removeTorrent ext d infoHash false)) infoHash)
     = ROk false.

(** The row names a client that [getClients()] knows. *)
Definition hasClient {D : Type} (st : State D) (client_host : option string) : bool :=
  match client_host with
  | Some host =>
      JsString.truthy host
      && existsb (fun c => String.eqb (clientHost c) host) (st_clients st)
  | None => false
  end.

(** A call to a client driver about [infoHash] that keeps the data. *)
Definition isEvictionCall (infoHash : string) (ev : Event) : Prop :=
  match ev with
  | EvRemoveTorrent _ h deleteData _ => h = infoHash /\ deleteData = false
  | EvIsTorrentInClient _ h _ => h = infoHash
  | _ => False
  end.

(** The collision row [c] is, in the words of the duplicate search, an
    equivalent row owned by another decision: its decision has the info
    hash [infoHash], that decision's searchee is called [name], its two
    tracker payloads are the given ones, and it is not owned by
    [decisionId]. *)
Definition EquivalentCollision (db : Db) (infoHash name : string)
           (candidate_trackers known_trackers : list string) (decisionId : Z)
           (c : CollisionRow) : Prop :=
  (exists d s, In d (t_decision db) /\ d_id d = co_decision_id c
               /\ d_info_hash d = Some infoHash
               /\ In s (t_searchee db) /\ se_id s = d_searchee_id d
               /\ se_name s = name)
  /\ co_candidate_trackers c = candidate_trackers
  /\ co_known_trackers c = known_trackers
  /\ co_decision_id c <> decisionId.

(** What a collision upsert leaves alone: every table but [collisions],
    the clients, the cache, the shared set and map and the trace; the
    clock has been read once. *)
Definition UpsertFrame {D : Type} (st st' : State D) : Prop :=
  t_searchee (st_db st') = t_searchee (st_db st)
  /\ t_decision (st_db st') = t_decision (st_db st)
  /\ t_conflict_rules (st_db st') = t_conflict_rules (st_db st)
  /\ t_indexer (st_db st') = t_indexer (st_db st)
  /\ t_client_searchee (st_db st') = t_client_searchee (st_db st)
  /\ st_clients st' = st_clients st
  /\ st_cache st' = st_cache st
  /\ st_exclude st' = st_exclude st
  /\ st_guidInfoHashMap st' = st_guidInfoHashMap st
  /\ st_ticks st' = S (st_ticks st)
  /\ st_trace st' = st_trace st.

(** The collisions table after the transaction of [assessAndSaveResults],
    for the decision row [dr] the transaction reads back. *)
Definition savedCollisions {D : Type} (ext : Externals D)
           (assessment : ResultAssessment) (meta : Metafile)
           (firstSeen : Z) (st : State D) (db1 : Db) (dr : DecisionRow)
  : list CollisionRow :=
  let before := t_collisions (st_db st) in
  let lastSeen := clock ext (S (st_ticks st)) in
  let updated_at := clock ext (S (S (st_ticks st))) in
  if (d_id dr =? 0)%Z then before
  else
    match decision assessment, trackerMismatch assessment with
    | INFO_HASH_ALREADY_EXISTS_ANOTHER_TRACKER, Some tm =>
        if canRecordPrivateCollision (Some meta) then
          match findEquivalentCollision db1 (d_id dr) (candidateTrackers tm)
                                        (knownTrackers tm) with
          | Some existingId =>
              deleteCollision (d_id dr)
                              (refreshCollision existingId lastSeen updated_at before)
          | None =>
              insertOrMergeCollision
                (mkCollisionRow (d_id dr) (candidateTrackers tm) (knownTrackers tm)
                                (Some firstSeen) (Some lastSeen) (Some updated_at))
                before
          end
        else deleteCollision (d_id dr) before
    | _, _ => deleteCollision (d_id dr) before
    end.

(** [meta.raw?.info?.private] *)
Definition infoPrivate (meta : Metafile) : option Bencoded :=
  match m_raw meta with
  | Some raw =>
      match tr_info raw with
      | Some info => ti_private info
      | None => None
      end
  | None => None
  end.

(** The decision the cached fast path stores. *)
Definition cachedDecision (entry : DecisionRow)
           (trackerMismatch : option TrackerMismatchInfo) : Decision :=
  if isAnyMatchedDecision (d_decision entry) then d_decision entry
  else collisionDecision trackerMismatch.

(** The collisions table after the cached fast path of
    [assessCandidateCaching]; [db1] is the database once the decision row
    has been updated. *)
Definition cachedCollisions {D : Type} (ext : Externals D) (entry : DecisionRow)
           (cachedMeta : option Metafile) (trackerMismatch : option TrackerMismatchInfo)
           (st : State D) (db1 : Db) : list CollisionRow :=
  let before := t_collisions (st_db st) in
  match trackerMismatch with
  | Some tm =>
      if canRecordPrivateCollision cachedMeta then
        let t1 := S (st_ticks st) in
        let firstSeen := match d_first_seen entry with
                         | Some v => v
                         | None => clock ext t1
                         end in
        let t2 := match d_first_seen entry with
                  | Some _ => t1
                  | None => S t1
                  end in
        let lastSeen := clock ext t2 in
        let updated_at := clock ext (S t2) in
        match findEquivalentCollision db1 (d_id entry) (candidateTrackers tm)
                                      (knownTrackers tm) with
        | Some existingId =>
            deleteCollision (d_id entry)
                            (refreshCollision existingId lastSeen updated_at before)
        | None =>
            insertOrMergeCollision
              (mkCollisionRow (d_id entry) (candidateTrackers tm) (knownTrackers tm)
                              (Some firstSeen) (Some lastSeen) (Some updated_at))
              before
        end
      else deleteCollision (d_id entry) before
  | None => deleteCollision (d_id entry) before
  end.

(** An assessment is of the cross-tracker kind exactly when it carries
    the tracker mismatch. *)
Definition CarriesMismatch (a : ResultAssessment) : Prop :=
  decision a = INFO_HASH_ALREADY_EXISTS_ANOTHER_TRACKER <-> trackerMismatch a <> None.

(** ** A small simulated installation, used to run the code on examples *)

Module Sim.

(** A client that holds a list of info hashes and may be unreachable. *)
Record Driver : Type := mkDriver {
  held : list string;
  online : bool
}.

Definition remove (d : Driver) (infoHash : string) (deleteData : bool)
  : Result bool * Driver :=
  if online d
  then (ROk (JsString.includes (held d) infoHash),
        mkDriver (filter (fun h => negb (String.eqb h infoHash)) (held d)) true)
  else (RErr "connection refused", d).

Definition present (d : Driver) (infoHash : string) : Result bool * Driver :=
  if online d then (ROk (JsString.includes (held d) infoHash), d)
  else (RErr "connection refused", d).

(** Known trackers of an info hash: those of the first client row. *)
Definition knownTrackers (st : State Driver) (infoHash : string)
  : option (list string) :=
  match find (fun row => String.eqb (cs_info_hash row) infoHash)
             (t_client_searchee (st_db st)) with
  | Some row => Some (parseTrackersJson (cs_trackers row))
  | None => None
  end.

Definition ext (factor : Q) : Externals Driver :=
  {| removeTorrent := remove;
     isTorrentInClient := present;
     getReleaseGroup := fun _ => None;
     stripExtension := fun s => s;
     matchAnimeGroup := fun _ => None;
     matchResStrict := fun _ => None;
     extractInt := fun _ => 0%Z;
     parseSource := fun _ => None;
     testRepackProper := fun _ => false;
     testSeason := fun _ => false;
     getFuzzySizeFactor := fun _ => factor;
     getMinSizeRatio := fun _ => 1%Q;
     findBlockedStringInSearchee := fun _ _ => None;
     findBlockedStringInMetafile := fun _ _ => None;
     isSingleEpisode := fun _ _ => false;
     getMediaType := fun _ => MT_OTHER;
     matchTorrentId := fun _ => None;
     getKnownTrackersForInfoHash := knownTrackers;
     snatch := fun _ _ _ _ => inr SE_OTHER;
     writeFileSucceeds := fun _ => true;
     unlinkSucceeds := fun _ => true;
     statSucceeds := fun _ => true;
     utimesSucceeds := fun _ => true;
     clock := fun n => (1000 + Z.of_nat n)%Z |}.

Definition emptyDb : Db := mkDb [] [] [] [] [] [].

Definition state (db : Db) (clients : list (TorrentClient Driver))
           (cache : list (string * CachedFile)) (exclude : list string)
  : State Driver :=
  mkState db clients cache exclude [] 0 [].

End Sim.

(** ** Worked examples: data *)

Module Ex.

(** An installation with the rules [[{trackers: [a.example]}, {allIndexers}]],
    one indexer announcing to [b.example], and one client, [hostA], which
    holds the torrent [H] under [b.example]. *)
Definition H : string := "c0ffee".

Definition rulesTable : list ConflictRuleRow :=
  [ mkConflictRuleRow 1 1 false (Some (stringifyStrings ["a.example"])) (Some 5%Z) (Some 5%Z);
    mkConflictRuleRow 2 2 true (Some (stringifyStrings [])) (Some 5%Z) (Some 5%Z) ].

Definition oneClientDb : Db :=
  mkDb [] [] [] rulesTable
       [ mkIndexerRow 1 (Some (stringifyStrings ["b.example"])) ]
       [ mkClientSearcheeRow H (Some "hostA") (Some (stringifyStrings ["b.example"]))
                             (Some true) ].

Definition oneClient : State Sim.Driver :=
  Sim.state oneClientDb [ mkClient "hostA" "A" (Sim.mkDriver [H] true) ] [] [H].

(** The same torrent held by two clients, the second of which is
    unreachable. *)
Definition twoClientsDb : Db :=
  mkDb [] [] [] rulesTable
       [ mkIndexerRow 1 (Some (stringifyStrings ["b.example"])) ]
       [ mkClientSearcheeRow H (Some "hostA") (Some (stringifyStrings ["b.example"]))
                             (Some true);
         mkClientSearcheeRow H (Some "hostB") (Some (stringifyStrings ["b.example"]))
                             (Some true) ].

Definition twoClients : State Sim.Driver :=
  Sim.state twoClientsDb
            [ mkClient "hostA" "A" (Sim.mkDriver [H] true);
              mkClient "hostB" "B" (Sim.mkDriver [H] false) ]
            [] [H].

Definition ext : Externals Sim.Driver := Sim.ext (2 # 100).


(** A searchee announced under two guids, with a collision recorded for
    the first one. *)
Definition decisionRow (id : Z) (guid : string) (decision : Decision) : DecisionRow :=
  mkDecisionRow id 1 guid (Some H) decision (Some 10%Z) (Some 20%Z) (2 # 100).

Definition collidingDb : Db :=
  mkDb [ mkSearcheeRow 1 "Show.S01" ]
       [ decisionRow 1 "guid-1" INFO_HASH_ALREADY_EXISTS_ANOTHER_TRACKER;
         decisionRow 2 "guid-2" INFO_HASH_ALREADY_EXISTS_ANOTHER_TRACKER ]
       [ mkCollisionRow 1 ["a.example"] ["b.example"] (Some 10%Z) (Some 20%Z) (Some 20%Z) ]
       rulesTable
       [ mkIndexerRow 1 (Some (stringifyStrings ["b.example"])) ]
       [ mkClientSearcheeRow H (Some "hostA") (Some (stringifyStrings ["b.example"]))
                             (Some true) ].

Definition colliding : State Sim.Driver :=
  Sim.state collidingDb [ mkClient "hostA" "A" (Sim.mkDriver [H] true) ] [] [H].


(** Scenario 2 of the specification: two files of different lengths whose
    names differ between candidate and searchee. *)
Definition renamedMeta : Metafile :=
  mkMetafile "beef01" "Show.S01.alt" 300 16
             [ mkFile 100 "x" "x"; mkFile 200 "y" "y" ] ["a.example"] None.

Definition renamedSearchee : Searchee :=
  mkSearchee "Show.S01" None None [ mkFile 100 "a" "a"; mkFile 200 "b" "b" ] 300 L_SEARCH.

(** Two files of one and the same length, renamed. *)
Definition twinMeta : Metafile :=
  mkMetafile "beef02" "Show.S01.alt" 200 16
             [ mkFile 100 "x" "x"; mkFile 100 "y" "y" ] ["a.example"] None.

Definition twinSearchee : Searchee :=
  mkSearchee "Show.S01" None None [ mkFile 100 "a" "a"; mkFile 100 "b" "b" ] 200 L_SEARCH.

Definition flexible : RuntimeConfig := mkConfig false FLEXIBLE [].
Definition strict : RuntimeConfig := mkConfig false STRICT [].


(** A private torrent with the info hash [H], announcing to [a.example]. *)
Definition privateMeta : Metafile :=
  mkMetafile H "Show.S01" 1000 16 [ mkFile 1000 "a.mkv" "a.mkv" ] ["a.example"]
             (Some (mkTorrentRaw (Some (mkTorrentInfo (Some (BInt 1)))))).


Definition candidate1 : Candidate :=
  mkCandidate "Show.S01" "guid-1" "http://indexer/1" "a.example" (Some 1%Z) (Some 1000%Z).

(** A searchee whose own torrent is another one than [H]. *)
Definition otherSearchee : Searchee :=
  mkSearchee "Show.S01" (Some "dead01") None [ mkFile 1000 "a.mkv" "a.mkv" ] 1000 L_SEARCH.

(** A searchee whose own torrent is [H]. *)
Definition sameSearchee : Searchee :=
  mkSearchee "Show.S01" (Some H) None [ mkFile 1000 "a.mkv" "a.mkv" ] 1000 L_SEARCH.

(** No conflict rules; the decision of [guid-1] was a match, its torrent
    is cached, and a client holds the info hash under [b.example]. *)
Definition injectedDb : Db :=
  mkDb [ mkSearcheeRow 1 "Show.S01" ]
       [ decisionRow 1 "guid-1" MATCH ]
       [] []
       [ mkIndexerRow 1 (Some (stringifyStrings ["a.example"])) ]
       [ mkClientSearcheeRow H (Some "hostA") (Some (stringifyStrings ["b.example"]))
                             (Some true) ].

Definition injected : State Sim.Driver :=
  mkState injectedDb [ mkClient "hostA" "A" (Sim.mkDriver [H] true) ]
          [ (H, Parsable privateMeta) ] [H] [ ("guid-1", H) ] 0 [].


(** A rule set as the settings page sends it. *)
Definition someRules : list RuleInput :=
  [ mkRuleInput false [" b.example "; "a.example"; "a.example"];
    mkRuleInput false ["c.example"];
    mkRuleInput true [] ].

(** A candidate without download link. *)
Definition linklessCandidate : Candidate :=
  mkCandidate "Show.S01" "guid-3" EmptyString "a.example" (Some 1%Z) (Some 1000%Z).

End Ex.

(** ** Definitions for the further properties *)

(** A string that begins with no white space. *)
Definition startsClean (s : string) : bool :=
  match s with
  | EmptyString => true
  | String c _ => negb (JsString.isWhiteSpace c)
  end.

(** The order of [Array.prototype.sort()] on strings. *)
Definition StringLe (a b : string) : Prop := String.leb a b = true.

(** The test under which [consumeMatched] splices a searchee file out:
    the file has the candidate file's length and, when several available
    files have that length, also its name. *)
Definition consumable (candidateFile : File) (availableFiles : list File) (sf : File)
  : bool :=
  (f_length sf =? f_length candidateFile)%Z
  && (negb (1 <? List.length
                   (filter (fun sf0 => (f_length sf0 =? f_length candidateFile)%Z)
                           availableFiles))%nat
      || String.eqb (f_name sf) (f_name candidateFile)).


(** Further scenarios. *)
Module Ex2.



(** The collaborators of [Ex.ext], with downloads that deliver
    [Ex.privateMeta]. *)
Definition ext : Externals Sim.Driver :=
  {| removeTorrent := removeTorrent Ex.ext;
     isTorrentInClient := isTorrentInClient Ex.ext;
     getReleaseGroup := getReleaseGroup Ex.ext;
     stripExtension := stripExtension Ex.ext;
     matchAnimeGroup := matchAnimeGroup Ex.ext;
     matchResStrict := matchResStrict Ex.ext;
     extractInt := extractInt Ex.ext;
     parseSource := parseSource Ex.ext;
     testRepackProper := testRepackProper Ex.ext;
     testSeason := testSeason Ex.ext;
     getFuzzySizeFactor := getFuzzySizeFactor Ex.ext;
     getMinSizeRatio := getMinSizeRatio Ex.ext;
     findBlockedStringInSearchee := findBlockedStringInSearchee Ex.ext;
     findBlockedStringInMetafile := findBlockedStringInMetafile Ex.ext;
     isSingleEpisode := isSingleEpisode Ex.ext;
     getMediaType := getMediaType Ex.ext;
     matchTorrentId := matchTorrentId Ex.ext;
     getKnownTrackersForInfoHash := getKnownTrackersForInfoHash Ex.ext;
     snatch := fun _ _ _ _ => inl Ex.privateMeta;
     writeFileSucceeds := writeFileSucceeds Ex.ext;
     unlinkSucceeds := unlinkSucceeds Ex.ext;
     statSucceeds := statSucceeds Ex.ext;
     utimesSucceeds := utimesSucceeds Ex.ext;
     clock := clock Ex.ext |}.

(** The searchee is on file; nothing is cached, excluded or decided. *)
Definition fresh : State Sim.Driver :=
  Sim.state (mkDb [ mkSearcheeRow 1 "Show.S01" ] [] [] []
                  [ mkIndexerRow 1 (Some (stringifyStrings ["b.example"])) ] [])
            [] [] [].

End Ex2.

(** A call to a client driver, as opposed to a download or an access to
    the torrent cache. *)
Definition isDriverCall (ev : Event) : Prop :=
  match ev with
  | EvRemoveTorrent _ _ _ _ | EvIsTorrentInClient _ _ _ => True
  | _ => False
  end.

(** What an assessment of a metafile in hand leaves in place: the tables
    [searchee], [decision], [collisions], [conflict_rules] and [indexer],
    the torrent cache, the guid map and the clock are as before; the
    exclusion set and the [client_searchee] table may only lose entries;
    the trace is extended by calls to the client drivers. *)
Definition MetafileFrame {D : Type} (st st' : State D) : Prop :=
  t_searchee (st_db st') = t_searchee (st_db st)
  /\ t_decision (st_db st') = t_decision (st_db st)
  /\ t_collisions (st_db st') = t_collisions (st_db st)
  /\ t_conflict_rules (st_db st') = t_conflict_rules (st_db st)
  /\ t_indexer (st_db st') = t_indexer (st_db st)
  /\ st_cache st' = st_cache st
  /\ st_guidInfoHashMap st' = st_guidInfoHashMap st
  /\ st_ticks st' = st_ticks st
  /\ incl (st_exclude st') (st_exclude st)
  /\ incl (t_client_searchee (st_db st')) (t_client_searchee (st_db st))
  /\ exists evs, st_trace st' = st_trace st ++ evs /\ Forall isDriverCall evs.

(** The same without the [indexer] table and the torrent cache, which a
    download may write, and with any calls. *)
Definition AssessFrame {D : Type} (st st' : State D) : Prop :=
  t_searchee (st_db st') = t_searchee (st_db st)
  /\ t_decision (st_db st') = t_decision (st_db st)
  /\ t_collisions (st_db st') = t_collisions (st_db st)
  /\ t_conflict_rules (st_db st') = t_conflict_rules (st_db st)
  /\ st_guidInfoHashMap st' = st_guidInfoHashMap st
  /\ st_ticks st' = st_ticks st
  /\ incl (st_exclude st') (st_exclude st)
  /\ incl (t_client_searchee (st_db st')) (t_client_searchee (st_db st))
  /\ exists evs, st_trace st' = st_trace st ++ evs.

(** What the transaction of [assessAndSaveResults] leaves alone: all but
    the tables [decision] and [collisions] and the clock. *)
Definition PersistFrame {D : Type} (st st' : State D) : Prop :=
  t_searchee (st_db st') = t_searchee (st_db st)
  /\ t_conflict_rules (st_db st') = t_conflict_rules (st_db st)
  /\ t_indexer (st_db st') = t_indexer (st_db st)
  /\ t_client_searchee (st_db st') = t_client_searchee (st_db st)
  /\ st_clients st' = st_clients st
  /\ st_cache st' = st_cache st
  /\ st_exclude st' = st_exclude st
  /\ st_guidInfoHashMap st' = st_guidInfoHashMap st
  /\ st_trace st' = st_trace st.

(** ** The rules router (trpc/routers/conflictRules.ts) *)

(** [parseTrackerList] and the router's [parseTrackersJson], which is the
    same function, on a column value: a string or [null]. *)
Definition parseTrackerList (value : option JsonText) : list string :=
  match value with
  | Some (WellFormed (JArr items)) => normalizeTrackers (filterStrings items)
  | _ => []
  end.

(** A rule as [getRules] returns it. *)
Record StoredRule : Type := mkStoredRule {
  sr_id : Z;
  sr_priority : Z;
  sr_allIndexers : bool;
  sr_trackers : list string
}.

Definition getRules (db : Db) : list StoredRule :=
  map (fun row => mkStoredRule (cr_id row) (cr_priority row) (cr_all_indexers row)
                               (parseTrackerList (cr_trackers row)))
      (orderByPriority (t_conflict_rules db)).

Definition getIndexerTrackers (db : Db) : list string :=
  JsString.sort
    (JsString.uniq (flat_map (fun row => parseTrackerList (ix_trackers row))
                             (t_indexer db))).

Definition getTrackerOptions (db : Db) : list string := getIndexerTrackers db.

(** The rows [getThirdPartyTrackers] selects:
    [whereNotNull("trackers")] and, unless public torrents are included,
    [where("private", 1)]. *)
Definition thirdPartyRow (includePublic : bool) (row : ClientSearcheeRow) : bool :=
  match cs_trackers row with
  | None => false
  | Some _ =>
      includePublic || match cs_private row with
                       | Some true => true
                       | _ => false
                       end
  end.

Definition getThirdPartyTrackers (includePublic : bool) (db : Db) : list string :=
  let knownTrackers := getIndexerTrackers db in
  let rows := filter (thirdPartyRow includePublic) (t_client_searchee db) in
  JsString.sort
    (JsString.uniq
       (filter (fun tracker => negb (JsString.includes knownTrackers tracker))
               (flat_map (fun row => parseTrackerList (cs_trackers row)) rows))).

(** The rules [getConflictRules] reads after [saveRules] has stored the
    input [rules], counted from [index]. *)
Fixpoint rulesFrom (index : nat) (rules : list RuleInput) : list Rule :=
  match rules with
  | [] => []
  | rule :: rest =>
      {| priority := (Z.of_nat index + 1)%Z;
         allIndexers := in_allIndexers rule;
         trackers := normalizeTrackers (in_trackers rule) |}
      :: rulesFrom (S index) rest
  end.

(** A stored rule without its row id. *)
Definition storedRuleView (rule : StoredRule) : Rule :=
  {| priority := sr_priority rule;
     allIndexers := sr_allIndexers rule;
     trackers := sr_trackers rule |}.

(** ** The settings page (webui/src/routes/settings/conflict-rules.tsx) *)

Inductive RuleMode : Type := ModeTrackers | ModeAllIndexers.

Record PriorityRule : Type := mkPriorityRule {
  pr_id : string;
  pr_trackers : list string;
  pr_mode : RuleMode
}.

(** [rule.mode === 'allIndexers'] *)
Definition isAllIndexers (rule : PriorityRule) : bool :=
  match pr_mode rule with
  | ModeAllIndexers => true
  | ModeTrackers => false
  end.

Definition normalizeTrackerList (trackers : list string) : list string :=
  JsString.sort (JsString.uniq trackers).

Definition normalizeRuleList (rules : list PriorityRule) : list RuleInput :=
  map (fun rule =>
         mkRuleInput (isAllIndexers rule)
                     (if isAllIndexers rule then []
                      else normalizeTrackerList (pr_trackers rule)))
      rules.

Definition normalizeStoredRuleList (rules : list StoredRule) : list RuleInput :=
  map (fun rule =>
         mkRuleInput (sr_allIndexers rule)
                     (if sr_allIndexers rule then []
                      else normalizeTrackerList (sr_trackers rule)))
      rules.

Definition buildRulesToSave (rules : list PriorityRule) : list RuleInput :=
  let normalizedRules := normalizeRuleList rules in
  match rules with
  | [] => normalizedRules
  | first :: _ =>
      if isAllIndexers first then [mkRuleInput true []]
      else normalizedRules ++ [mkRuleInput true []]
  end.

(** [handleSaveRules]: the input it sends to [saveRules], or nothing when
    a rule in trackers mode is empty. *)
Definition handleSaveRules (priorityRules : list PriorityRule) : option (list RuleInput) :=
  let hasEmptyRule :=
    existsb (fun rule => negb (isAllIndexers rule)
                         && (List.length (pr_trackers rule) =? 0)%nat)
            priorityRules in
  if hasEmptyRule then None else Some (buildRulesToSave priorityRules).

(** The rules the page starts from, as the effect computes them from the
    saved rules; [showId] is [String] on row ids. *)
Definition initialRules (showId : Z -> string) (savedRules : list StoredRule)
  : list PriorityRule :=
  let nonAllIndexerRules := filter (fun rule => negb (sr_allIndexers rule)) savedRules in
  match nonAllIndexerRules with
  | _ :: _ =>
      map (fun rule => mkPriorityRule (showId (sr_id rule))
                                      (normalizeTrackerList (sr_trackers rule))
                                      ModeTrackers)
          nonAllIndexerRules
  | [] =>
      if existsb sr_allIndexers savedRules
      then [mkPriorityRule "all-indexers-primary" [] ModeAllIndexers]
      else []
  end.

(** The serialized rules the effect remembers as saved. *)
Definition lastSavedRules (savedRules : list StoredRule) : list RuleInput :=
  normalizeStoredRuleList savedRules.

(** The states the page can be in: the all-indexers mode is only ever
    given to the first rule. *)
Definition AllIndexersOnlyFirst (rules : list PriorityRule) : Prop :=
  forall rule, In rule (tl rules) -> pr_mode rule = ModeTrackers.

(** A page with one rule in trackers mode. *)
Module Ex3.

Definition pageRules : list PriorityRule :=
  [ mkPriorityRule "rule-1" ["b.example"; "a.example"] ModeTrackers ].

Definition showId (id : Z) : string :=
  match id with
  | 1%Z => "1"
  | 2%Z => "2"
  | _ => "n"
  end.

End Ex3.

(** Neither a download nor a write to the torrent cache or to the
    [indexer] table has taken place: the only calls are to the client
    drivers. *)
Definition NoDownload {D : Type} (st st' : State D) : Prop :=
  st_cache st' = st_cache st
  /\ t_indexer (st_db st') = t_indexer (st_db st)
  /\ exists evs, st_trace st' = st_trace st ++ evs /\ Forall isDriverCall evs.

(** The rest of [assessCandidateCaching] once [getCachedTorrent] has
    returned [meta]: lines 1145-1252 with [metaOrCandidate] the cached
    metafile.  Of the candidate only the guid and the tracker are used. *)
Definition assessCached {D : Type} (ext : Externals D) (meta : Metafile)
           (guid tracker : string) (searchee : Searchee) (config : RuntimeConfig)
           (cacheEntry : option DecisionRow) : M D ResultAssessment :=
  let assessIt firstSeen :=
    assessAndSaveResults ext (inl meta) searchee guid firstSeen tracker config in
  bind (gets (fun st : State D => st_exclude st)) (fun exclude =>
  match cacheEntry with
  | Some entry =>
      match d_info_hash entry with
      | Some entryHash =>
          if JsString.includes exclude entryHash then
            bind (logAnnounceMismatch ext meta) (fun trackerMismatch =>
            let candidateTrackers :=
              collisionCandidateTrackers trackerMismatch (Some tracker) in
            bind (match candidateTrackers with
                  | _ :: _ => resolveConflictRules ext entryHash candidateTrackers
                                                   (s_title searchee)
                  | [] => ret false
                  end) (fun resolved =>
            if resolved then
              bind (modify (fun st : State D =>
                              set_exclude (setDelete entryHash (st_exclude st)) st))
                   (fun _ => bind (orDateNow ext (d_first_seen entry)) assessIt)
            else recordCachedCollision ext entry (Some meta) trackerMismatch))
          else bind (orDateNow ext (d_first_seen entry)) assessIt
      | None => bind (orDateNow ext (d_first_seen entry)) assessIt
      end
  | None => bind (dateNow ext) assessIt
  end).

(** The unique keys of the tables [decision] and [collisions]: the
    primary key [decision.id], the pair [(searchee_id, guid)] of the
    decision upsert, and the primary key [collisions.decision_id]. *)
Definition TableKeys (db : Db) : Prop :=
  NoDup (map d_id (t_decision db))
  /\ NoDup (map (fun d => (d_searchee_id d, d_guid d)) (t_decision db))
  /\ NoDup (map co_decision_id (t_collisions db)).

(** What a cached assessment leaves in place: the tables [searchee] and
    [conflict_rules] are as before, the exclusion set and the
    [client_searchee] table may only lose entries, the trace is extended,
    and the keys of [decision] and [collisions] stay unique. *)
Definition CachingFrame {D : Type} (st st' : State D) : Prop :=
  t_searchee (st_db st') = t_searchee (st_db st)
  /\ t_conflict_rules (st_db st') = t_conflict_rules (st_db st)
  /\ incl (st_exclude st') (st_exclude st)
  /\ incl (t_client_searchee (st_db st')) (t_client_searchee (st_db st))
  /\ (exists evs, st_trace st' = st_trace st ++ evs)
  /\ (TableKeys (st_db st) -> TableKeys (st_db st')).

(** The state a computation ends in, by return or by exception, is
    related to the state it starts from. *)
Definition Frames {D A : Type} (R : State D -> State D -> Prop) (m : M D A) : Prop :=
  forall st, R st (snd (m st)).

(** The computation returns, in a state related to the one it starts
    from. *)
Definition Returns {D A : Type} (R : State D -> State D -> Prop) (m : M D A) : Prop :=
  forall st, exists a st', m st = (Ret a, st') /\ R st st'.

(** The two decisions that report an info hash already in a client. *)
Definition isCollisionDecision (d : Decision) : bool :=
  match d with
  | INFO_HASH_ALREADY_EXISTS | INFO_HASH_ALREADY_EXISTS_ANOTHER_TRACKER => true
  | _ => false
  end.

(** Every decision row that has a [first_seen] is still on file, under
    its id, searchee and guid, with that [first_seen]. *)
Definition KeepsFirstSeen {D : Type} (st st' : State D) : Prop :=
  forall d f,
    In d (t_decision (st_db st)) -> d_first_seen d = Some f ->
    exists d', In d' (t_decision (st_db st'))
               /\ d_id d' = d_id d
               /\ d_searchee_id d' = d_searchee_id d
               /\ d_guid d' = d_guid d
               /\ d_first_seen d' = Some f.

(** The tables [decision] and [searchee] are as before. *)
Definition SameDecisions {D : Type} (st st' : State D) : Prop :=
  t_decision (st_db st') = t_decision (st_db st)
  /\ t_searchee (st_db st') = t_searchee (st_db st).

(** [firstSeen] is the [first_seen] of any row that the decision upsert
    for [title] and [guid] would overwrite. *)
Definition FirstSeenAgrees (db : Db) (title guid : string) (firstSeen : Z) : Prop :=
  forall row d f,
    find (fun s => String.eqb (se_name s) title) (t_searchee db) = Some row ->
    In d (t_decision db) ->
    isDecisionKey (se_id row) guid d = true ->
    d_first_seen d = Some f -> f = firstSeen.

(** ** The guid map (decide.ts, lines 1081-1096) *)

(** The loop of [rebuildGuidInfoHashMap] over the rows with an info
    hash, in the order of the query. *)
Definition guidMapOf (rows : list DecisionRow) : list (string * string) :=
  fold_left (fun guidInfoHashMap row =>
               match d_info_hash row with
               | Some info_hash => mapSet (d_guid row) info_hash guidInfoHashMap
               | None => guidInfoHashMap
               end)
            rows [].

Definition rebuildGuidInfoHashMap {D : Type} : M D unit :=
  bind (@getDb D) (fun db =>
  modify (fun st => set_guidInfoHashMap (guidMapOf (t_decision db)) st)).

Definition getGuidInfoHashMap {D : Type} : M D (list (string * string)) :=
  bind (gets (fun st : State D => st_guidInfoHashMap st)) (fun raw =>
  match raw with
  | [] => bind rebuildGuidInfoHashMap
               (fun _ => gets (fun st : State D => st_guidInfoHashMap st))
  | _ :: _ => ret raw
  end).

(** Every binding of the guid map is that of a decision row. *)
Definition BackedGuidMap {D : Type} (st : State D) : Prop :=
  forall guid infoHash,
    mapGet guid (st_guidInfoHashMap st) = Some infoHash ->
    exists d, In d (t_decision (st_db st))
              /\ d_guid d = guid /\ d_info_hash d = Some infoHash.

(** A computation that, whenever it returns, has kept the guid map
    backed by the decision table. *)
Definition KeepsBacked {D A : Type} (m : M D A) : Prop :=
  forall st a st', BackedGuidMap st -> m st = (Ret a, st') -> BackedGuidMap st'.

(** *** The handlers of the settings page

    Each handler is the function it passes to [setPriorityRules]. *)

(** [createRule()] draws a fresh [id]. *)
Definition handleAddRule (id : string) (prev : list PriorityRule) : list PriorityRule :=
  prev ++ [mkPriorityRule id [] ModeTrackers].

Definition handleRemoveRule (id : string) (prev : list PriorityRule) : list PriorityRule :=
  let next := filter (fun rule => negb (String.eqb (pr_id rule) id)) prev in
  match next with
  | first :: _ :: _ => if isAllIndexers first then [first] else next
  | _ => next
  end.

Definition handleAddTracker (id tracker : string) (ruleIndex : nat)
           (prev : list PriorityRule) : list PriorityRule :=
  if String.eqb tracker "__all_indexers__" && (ruleIndex =? 0)%nat then
    match find (fun item => String.eqb (pr_id item) id) prev with
    | None => prev
    | Some rule => [mkPriorityRule (pr_id rule) [] ModeAllIndexers]
    end
  else
    map (fun rule =>
           if negb (String.eqb (pr_id rule) id) then rule
           else if JsString.includes (pr_trackers rule) tracker then rule
           else mkPriorityRule (pr_id rule) (pr_trackers rule ++ [tracker]) (pr_mode rule))
        prev.

Definition handleRemoveTracker (id tracker : string) (prev : list PriorityRule)
  : list PriorityRule :=
  map (fun rule =>
         if String.eqb (pr_id rule) id
         then mkPriorityRule (pr_id rule)
                             (filter (fun item => negb (String.eqb item tracker))
                                     (pr_trackers rule))
                             (pr_mode rule)
         else rule)
      prev.

(** The trackers the selector of a rule offers. *)
Definition getAvailableTrackers (priorityRules : list PriorityRule)
           (combinedTrackers : list string) (currentRuleId : string)
           (currentTrackers : list string) : list string :=
  let usedTrackers :=
    flat_map (fun rule => if String.eqb (pr_id rule) currentRuleId then []
                          else pr_trackers rule)
             priorityRules in
  filter (fun tracker => negb (JsString.includes currentTrackers tracker))
         (filter (fun tracker => negb (JsString.includes usedTrackers tracker))
                 combinedTrackers).

(** What the handlers keep true of the page: only the first rule may be
    in all-indexers mode, the rules have distinct ids, and no tracker is
    listed twice, be it in one rule or in two. *)
Definition PageInvariant (rules : list PriorityRule) : Prop :=
  AllIndexersOnlyFirst rules
  /\ NoDup (map pr_id rules)
  /\ NoDup (flat_map pr_trackers rules).

(** ** Priorities under the conflict rules *)

Section Priorities.

Variables (rules : list Rule) (indexerTrackers : list string).

Lemma getTrackerPriorityFrom_first :
  forall (rs : list Rule) (k : nat) (normalized : string) (i : nat),
    getTrackerPriorityFrom k normalized rs indexerTrackers = Some i <->
    exists j, i = (k + j)%nat
              /\ (exists rule, nth_error rs j = Some rule
                               /\ ruleMatches normalized indexerTrackers rule = true)
              /\ forall j' rule, (j' < j)%nat -> nth_error rs j' = Some rule ->
                                 ruleMatches normalized indexerTrackers rule = false.
Proof.
  induction rs as [|r rs IH]; intros k normalized i; simpl.
  - split; [discriminate|].
    intros (j & _ & (rule & Hn & _) & _). destruct j; discriminate.
  - destruct (ruleMatches normalized indexerTrackers r) eqn:Hr.
    + split.
      * intros [= <-]. exists 0%nat. repeat split; [lia| |].
        -- exists r. now split.
        -- intros j' rule Hlt; lia.
      * intros (j & -> & (rule & Hn & Hm) & Hbefore).
        destruct j as [|j]; [f_equal; lia|].
        specialize (Hbefore 0%nat r (Nat.lt_0_succ j) eq_refl). congruence.
    + rewrite IH. split.
      * intros (j & -> & (rule & Hn & Hm) & Hbefore).
        exists (S j). repeat split; [lia| |].
        -- exists rule. now split.
        -- intros [|j'] rule' Hlt Hnth; simpl in Hnth.
           ++ now inversion Hnth; subst.
           ++ apply (Hbefore j'); [lia|assumption].
      * intros (j & -> & (rule & Hn & Hm) & Hbefore).
        destruct j as [|j]; simpl in Hn.
        -- inversion Hn; subst. congruence.
        -- exists j. repeat split; [lia| |].
           ++ exists rule. now split.
           ++ intros j' rule' Hlt Hnth. apply (Hbefore (S j')); [lia|assumption].
Qed.

Lemma getTrackerPriority_first (tracker : string) (i : nat) :
  getTrackerPriority tracker rules indexerTrackers = Some i <->
  FirstMatchingRule tracker rules indexerTrackers i.
Proof.
  unfold getTrackerPriority, FirstMatchingRule.
  rewrite getTrackerPriorityFrom_first. split.
  - intros (j & -> & Hm & Hb). now split.
  - intros (Hm & Hb). exists i. now repeat split.
Qed.

Lemma getTrackerPriority_lt_length (tracker : string) (i : nat) :
  getTrackerPriority tracker rules indexerTrackers = Some i ->
  (i < List.length rules)%nat.
Proof.
  rewrite getTrackerPriority_first. intros ((rule & Hn & _) & _).
  apply nth_error_Some. congruence.
Qed.

Lemma bestPriorityLoop_spec :
  forall (ts : list string) (best : option nat),
    match bestPriorityLoop best ts rules indexerTrackers with
    | None =>
        best = None
        /\ forall t, In t ts -> getTrackerPriority t rules indexerTrackers = None
    | Some p =>
        (best = Some p
         \/ exists t, In t ts /\ getTrackerPriority t rules indexerTrackers = Some p)
        /\ (forall b, best = Some b -> (p <= b)%nat)
        /\ (forall t q, In t ts ->
                        getTrackerPriority t rules indexerTrackers = Some q ->
                        (p <= q)%nat)
    end.
Proof.
  induction ts as [|t ts IH]; intros best; simpl.
  - destruct best as [b|].
    + repeat split; [now left| |]; [intros b' [= <-]; lia|intros t q []].
    + split; [reflexivity|intros t []].
  - destruct (getTrackerPriority t rules indexerTrackers) as [q|] eqn:Hq.
    + match goal with
      | |- context [bestPriorityLoop (Some ?b') _ _ _] =>
          specialize (IH (Some b')); set (best' := b') in *
      end.
      destruct (bestPriorityLoop (Some best') ts rules indexerTrackers) as [p|].
      * destruct IH as (Hin & Hle & Hall).
        assert (Hp : (p <= best')%nat) by (apply Hle; reflexivity).
        repeat split.
        -- destruct Hin as [[= Hb]|(t' & Ht' & Hp')].
           ++ subst best'. destruct best as [b|].
              ** destruct (Nat.min_spec b q) as [[_ Hm]|[_ Hm]]; rewrite Hm in Hb.
                 --- left. congruence.
                 --- right. exists t. split; [now left|congruence].
              ** right. exists t. split; [now left|congruence].
           ++ right. exists t'. split; [now right|assumption].
        -- intros b ->. subst best'. lia.
        -- intros t' q' [<-|Hin'] Hq'.
           ++ assert (q' = q) by congruence. subst q'.
              subst best'. destruct best; lia.
           ++ eapply Hall; eassumption.
      * destruct IH as [IH _]. discriminate.
    + specialize (IH best).
      destruct (bestPriorityLoop best ts rules indexerTrackers) as [p|].
      * destruct IH as (Hin & Hle & Hall). repeat split.
        -- destruct Hin as [Hb|(t' & Ht' & Hp')]; [now left|].
           right. exists t'. split; [now right|assumption].
        -- assumption.
        -- intros t' q' [<-|Hin'] Hq'; [congruence|]. eapply Hall; eassumption.
      * destruct IH as (Hb & Hall). split; [assumption|].
        intros t' [<-|Hin']; [assumption|now apply Hall].
Qed.

Lemma getBestTrackerPriority_least (ts : list string) (p : nat) :
  getBestTrackerPriority ts rules indexerTrackers = Some p <->
  LeastPriority ts rules indexerTrackers p.
Proof.
  unfold getBestTrackerPriority, LeastPriority.
  pose proof (bestPriorityLoop_spec ts None) as Hs.
  destruct (bestPriorityLoop None ts rules indexerTrackers) as [p'|].
  - destruct Hs as ([Hb|(t & Ht & Hp)] & _ & Hall); [discriminate|].
    split.
    + intros [= <-]. split; [now exists t|assumption].
    + intros ((t' & Ht' & Hp'') & Hmin). f_equal.
      pose proof (Hall _ _ Ht' Hp''). pose proof (Hmin _ _ Ht Hp). lia.
  - destruct Hs as (_ & Hnone). split; [discriminate|].
    intros ((t' & Ht' & Hp') & _). rewrite (Hnone _ Ht') in Hp'. discriminate.
Qed.

Lemma getBestTrackerPriority_none (ts : list string) :
  getBestTrackerPriority ts rules indexerTrackers = None <->
  forall t, In t ts -> getTrackerPriority t rules indexerTrackers = None.
Proof.
  unfold getBestTrackerPriority.
  pose proof (bestPriorityLoop_spec ts None) as Hs.
  destruct (bestPriorityLoop None ts rules indexerTrackers) as [p'|].
  - destruct Hs as ([Hb|(t & Ht & Hp)] & _); [discriminate|].
    split; [discriminate|]. intros Hnone. rewrite (Hnone _ Ht) in Hp. discriminate.
  - destruct Hs as (_ & Hnone). split; [now intros _|reflexivity].
Qed.

End Priorities.

(** ** Conflict resolution *)

Section Resolution.

Variables (D : Type) (ext : Externals D).

Lemma resolveConflictRules_cases (infoHash : string) (cand : list string)
      (name : string) (st : State D) :
  let rules := getConflictRules (st_db st) in
  let idx := getIndexerTrackerSet (st_db st) in
  (resolveConflictRules ext infoHash cand name st = (Ret false, st)
   /\ (rules = []
       \/ getBestTrackerPriority cand rules idx = None
       \/ incumbentRows (st_db st) infoHash = []
       \/ exists c, getBestTrackerPriority cand rules idx = Some c
                    /\ (incumbentPriority (st_db st) infoHash <= c)%nat))
  \/ (resolveConflictRules ext infoHash cand name st
      = removeTorrentFromClients ext infoHash name st
      /\ rules <> []
      /\ incumbentRows (st_db st) infoHash <> []
      /\ exists c, getBestTrackerPriority cand rules idx = Some c
                   /\ (c < incumbentPriority (st_db st) infoHash)%nat).
Proof.
  intros rules idx.
  unfold resolveConflictRules, bind, getDb, gets. cbn beta iota.
  fold rules idx.
  destruct rules as [|r0 rs] eqn:Hrules.
  - left. split; [reflexivity|now left].
  - destruct (getBestTrackerPriority cand (r0 :: rs) idx) as [c|] eqn:Hc.
    2:{ left. split; [reflexivity|]. right. now left. }
    destruct (map cs_trackers
                  (filter (fun row => String.eqb (cs_info_hash row) infoHash)
                          (t_client_searchee (st_db st)))) as [|t0 ts] eqn:Hrows.
    + left. split; [reflexivity|]. right. right. left.
      unfold incumbentRows. now apply map_eq_nil in Hrows.
    + assert (Hinc : incumbentPriority (st_db st) infoHash
                     = match getBestTrackerPriority
                               (flat_map parseTrackersJson (t0 :: ts)) (r0 :: rs) idx with
                       | None => List.length (r0 :: rs)
                       | Some p => p
                       end).
      { unfold incumbentPriority, incumbentTrackers. rewrite Hrows.
        fold rules. rewrite Hrules. reflexivity. }
      rewrite <- Hinc.
      destruct (incumbentPriority (st_db st) infoHash <=? c)%nat eqn:Hle.
      * left. split; [reflexivity|]. right. right. right.
        exists c. split; [reflexivity|]. now apply Nat.leb_le.
      * right. split; [reflexivity|]. apply Nat.leb_gt in Hle.
        repeat split; [discriminate| |].
        -- unfold incumbentRows. intros Hnil. rewrite Hnil in Hrows. discriminate.
        -- exists c. now split.
Qed.

End Resolution.

(** C3.  [resolveConflictRules] attempts the eviction only when the
    candidate's best priority -- the least index, over the candidate
    trackers, of the first rule that matches the tracker -- is strictly
    below the incumbent's, an incumbent that matches no rule counting as
    [rules.length].  With an empty rule set, a candidate that matches no
    rule, or a candidate whose priority is not below the incumbent's (in
    particular equal to it), the call returns [false] and leaves the whole
    state, trace of client calls included, as it was. *)
Theorem resolveConflictRules_evicts_only_when_outranked
        (D : Type) (ext : Externals D) (infoHash : string)
        (candidateTrackers : list string) (searcheeName : string) (st : State D) :
  let rules := getConflictRules (st_db st) in
  let idx := getIndexerTrackerSet (st_db st) in
  let run := resolveConflictRules ext infoHash candidateTrackers searcheeName st in
  (forall t i, getTrackerPriority t rules idx = Some i <-> FirstMatchingRule t rules idx i)
  /\ (forall p, getBestTrackerPriority candidateTrackers rules idx = Some p
                <-> LeastPriority candidateTrackers rules idx p)
  /\ (forall p, getBestTrackerPriority (incumbentTrackers (st_db st) infoHash) rules idx = Some p
                <-> (LeastPriority (incumbentTrackers (st_db st) infoHash) rules idx p
                     /\ incumbentPriority (st_db st) infoHash = p
                     /\ (p < List.length rules)%nat))
  /\ (getBestTrackerPriority (incumbentTrackers (st_db st) infoHash) rules idx = None
      -> incumbentPriority (st_db st) infoHash = List.length rules)
  /\ (run <> (Ret false, st)
      -> exists c, getBestTrackerPriority candidateTrackers rules idx = Some c
                   /\ (c < incumbentPriority (st_db st) infoHash)%nat)
  /\ (rules = [] -> run = (Ret false, st))
  /\ (getBestTrackerPriority candidateTrackers rules idx = None -> run = (Ret false, st))
  /\ (forall c, getBestTrackerPriority candidateTrackers rules idx = Some c
                -> (incumbentPriority (st_db st) infoHash <= c)%nat
                -> run = (Ret false, st))
  /\ (forall c, getBestTrackerPriority candidateTrackers rules idx = Some c
                -> (c < incumbentPriority (st_db st) infoHash)%nat
                -> incumbentRows (st_db st) infoHash <> []
                -> run = removeTorrentFromClients ext infoHash searcheeName st).
Proof.
  intros rules idx run.
  pose proof (resolveConflictRules_cases ext infoHash candidateTrackers searcheeName st)
    as Hcases.
  cbv zeta in Hcases. fold rules idx run in Hcases.
  split; [intros t i; apply getTrackerPriority_first|].
  split; [intros p; apply getBestTrackerPriority_least|].
  split.
  { intros p. split.
    - intros Hp. split; [now apply getBestTrackerPriority_least|].
      split.
      + unfold incumbentPriority. fold rules idx. now rewrite Hp.
      + apply getBestTrackerPriority_least in Hp.
        destruct Hp as ((t & _ & Ht) & _).
        eapply getTrackerPriority_lt_length; eassumption.
    - intros (Hp & _). now apply getBestTrackerPriority_least. }
  split.
  { intros Hnone. unfold incumbentPriority. fold rules idx. now rewrite Hnone. }
  split.
  { intros Hrun. destruct Hcases as [(Heq & _)|(_ & _ & _ & Hc)]; [contradiction|exact Hc]. }
  split.
  { intros Hnil. destruct Hcases as [(Heq & _)|(_ & Hne & _)]; [exact Heq|contradiction]. }
  split.
  { intros Hnone. destruct Hcases as [(Heq & _)|(_ & _ & _ & c & Hc & _)];
      [exact Heq|congruence]. }
  split.
  { intros c Hc Hle. destruct Hcases as [(Heq & _)|(_ & _ & _ & c' & Hc' & Hlt)];
      [exact Heq|]. assert (c' = c) by congruence. subst. lia. }
  intros c Hc Hlt Hrows.
  destruct Hcases as [(_ & [Hnil|[Hnone|[Hnil|(c' & Hc' & Hle)]]])|(Heq & _)].
  - apply getBestTrackerPriority_least in Hc. destruct Hc as ((t & _ & Ht) & _).
    apply getTrackerPriority_lt_length in Ht. rewrite Hnil in Ht. simpl in Ht. lia.
  - congruence.
  - contradiction.
  - assert (c' = c) by congruence. subst. lia.
  - exact Heq.
Qed.

(** The rules of the example at work: [b.example] ties with the incumbent
    and nothing is touched; [a.example] outranks it and the torrent is
    removed from the client. *)
Lemma resolveConflictRules_evicts_only_when_outranked_witness :
  resolveConflictRules Ex.ext Ex.H ["b.example"] "name" Ex.oneClient
  = (Ret false, Ex.oneClient)
  /\ resolveConflictRules Ex.ext Ex.H ["a.example"] "name" Ex.oneClient
     = removeTorrentFromClients Ex.ext Ex.H "name" Ex.oneClient
  /\ fst (resolveConflictRules Ex.ext Ex.H ["a.example"] "name" Ex.oneClient) = Ret true.
Proof.
  split; [|split].
  - apply (resolveConflictRules_evicts_only_when_outranked
             Ex.ext Ex.H ["b.example"] "name" Ex.oneClient) with (c := 1%nat).
    + reflexivity.
    + vm_compute. lia.
  - apply (resolveConflictRules_evicts_only_when_outranked
             Ex.ext Ex.H ["a.example"] "name" Ex.oneClient) with (c := 0%nat).
    + reflexivity.
    + vm_compute. lia.
    + discriminate.
  - reflexivity.
Defined.

(** ** Eviction *)

Section Eviction.

Variables (D : Type) (ext : Externals D).

Lemma filter_all_true {A : Type} (f : A -> bool) (l : list A) :
  (forall x, In x l -> f x = true) -> filter f l = l.
Proof.
  induction l as [|x l IH]; intros Hall; simpl; [reflexivity|].
  rewrite (Hall x (or_introl eq_refl)). f_equal. apply IH.
  intros y Hy. apply Hall. now right.
Qed.

Lemma filter_twice {A : Type} (f g : A -> bool) (l : list A) :
  filter f (filter g l) = filter (fun x => g x && f x) l.
Proof.
  induction l as [|x l IH]; simpl; [reflexivity|].
  destruct (g x); simpl; [destruct (f x)|]; now rewrite IH.
Qed.

Lemma deletedBy_cons (infoHash host : string) (hosts : list string)
      (row : ClientSearcheeRow) :
  negb (deletedBy infoHash (host :: hosts) row)
  = negb (String.eqb (cs_info_hash row) infoHash && hostIs host (cs_client_host row))
    && negb (deletedBy infoHash hosts row).
Proof.
  unfold deletedBy. simpl.
  destruct (String.eqb (cs_info_hash row) infoHash); simpl; [|reflexivity].
  now destruct (hostIs host (cs_client_host row)).
Qed.

(** What one round of the loop does: the calls it makes, and the rows it
    deletes when -- and only when -- the client confirmed. *)
Lemma removeFromClient_spec (infoHash : string) (client : TorrentClient D)
      (host : string) (st : State D) :
  clientHost client = host ->
  exists (b : bool) (st' : State D) (evs : list Event),
    removeFromClient ext infoHash client host st = (Ret b, st')
    /\ st_trace st' = st_trace st ++ evs
    /\ EvictionFrame st st'
    /\ evs <> []
    /\ (forall ev, In ev evs -> isEvictionCall infoHash ev)
    /\ t_client_searchee (st_db st')
       = filter (fun row => negb (deletedBy infoHash (if b then [host] else []) row))
                (t_client_searchee (st_db st))
    /\ (b = true -> ConfirmedRemoval evs host infoHash).
Proof.
  intros Hhost. unfold removeFromClient. rewrite Hhost.
  destruct (removeTorrent ext (driver client) infoHash false) as [removeRes d1].
  assert (Hid : forall l : list ClientSearcheeRow,
             l = filter (fun row => negb (deletedBy infoHash [] row)) l).
  { intros l. symmetry. apply filter_all_true. intros row _.
    unfold deletedBy. simpl. now rewrite andb_false_r. }
  destruct removeRes as [[|]|msg]; cbn [isErr unwrapBool negb orb].
  - destruct (isTorrentInClient ext d1 infoHash) as [exists_ d2].
    destruct exists_ as [[|]|msg]; cbn [isErr unwrapBool negb orb].
    + eexists false, _, [_; _]. split; [reflexivity|]. cbn.
      rewrite <- app_assoc. split; [reflexivity|].
      split; [now repeat split|]. split; [discriminate|].
      split; [intros ev [<-|[<-|[]]]; cbn; auto|].
      split; [apply Hid|discriminate].
    + eexists true, _, [_; _]. split; [reflexivity|]. cbn.
      rewrite <- app_assoc. split; [reflexivity|].
      split; [now repeat split|]. split; [discriminate|].
      split; [intros ev [<-|[<-|[]]]; cbn; auto|].
      split.
      * apply filter_ext. intros row. unfold deletedBy. simpl.
        now rewrite orb_false_r.
      * intros _. split; cbn; auto.
    + eexists false, _, [_; _]. split; [reflexivity|]. cbn.
      rewrite <- app_assoc. split; [reflexivity|].
      split; [now repeat split|]. split; [discriminate|].
      split; [intros ev [<-|[<-|[]]]; cbn; auto|].
      split; [apply Hid|discriminate].
  - eexists false, _, [_]. split; [reflexivity|]. cbn.
    split; [reflexivity|]. split; [now repeat split|]. split; [discriminate|].
    split; [intros ev [<-|[]]; cbn; auto|].
    split; [apply Hid|discriminate].
  - eexists false, _, [_]. split; [reflexivity|]. cbn.
    split; [reflexivity|]. split; [now repeat split|]. split; [discriminate|].
    split; [intros ev [<-|[]]; cbn; auto|].
    split; [apply Hid|discriminate].
Qed.

Lemma EvictionFrame_trans (st1 st2 st3 : State D) :
  EvictionFrame st1 st2 -> EvictionFrame st2 st3 -> EvictionFrame st1 st3.
Proof.
  unfold EvictionFrame.
  intros (a1 & a2 & a3 & a4 & a5 & a6 & a7 & a8 & a9)
         (b1 & b2 & b3 & b4 & b5 & b6 & b7 & b8 & b9).
  repeat split; congruence.
Qed.

Lemma ConfirmedRemoval_app_l (evs more : list Event) (host infoHash : string) :
  ConfirmedRemoval evs host infoHash -> ConfirmedRemoval (evs ++ more) host infoHash.
Proof. intros [H1 H2]. split; apply in_or_app; now left. Qed.

Lemma ConfirmedRemoval_app_r (evs more : list Event) (host infoHash : string) :
  ConfirmedRemoval more host infoHash -> ConfirmedRemoval (evs ++ more) host infoHash.
Proof. intros [H1 H2]. split; apply in_or_app; now right. Qed.

(** The loop over the owning clients. *)
Lemma removeLoop_spec (infoHash : string) :
  forall (rows : list (option string)) (st : State D),
  exists (b : bool) (st' : State D) (evs : list Event) (hosts : list string),
    removeLoop ext infoHash rows st = (Ret b, st')
    /\ st_trace st' = st_trace st ++ evs
    /\ EvictionFrame st st'
    /\ (forall ev, In ev evs -> isEvictionCall infoHash ev)
    /\ t_client_searchee (st_db st')
       = filter (fun row => negb (deletedBy infoHash hosts row))
                (t_client_searchee (st_db st))
    /\ (forall h, In h hosts -> ConfirmedRemoval evs h infoHash)
    /\ (b = true -> forall ch, In ch rows -> exists h, ch = Some h /\ In h hosts)
    /\ (evs = [] -> st' = st /\ (b = true -> rows = [])).
Proof.
  assert (Hid : forall l : list ClientSearcheeRow,
             l = filter (fun row => negb (deletedBy infoHash [] row)) l).
  { intros l. symmetry. apply filter_all_true. intros row _.
    unfold deletedBy. simpl. now rewrite andb_false_r. }
  assert (Hstop : forall (st : State D) (rows : list (option string)), rows <> [] ->
            exists (b : bool) (st' : State D) (evs : list Event) (hosts : list string),
              (Ret false, st) = (Ret b, st')
              /\ st_trace st' = st_trace st ++ evs
              /\ EvictionFrame st st'
              /\ (forall ev, In ev evs -> isEvictionCall infoHash ev)
              /\ t_client_searchee (st_db st')
                 = filter (fun row => negb (deletedBy infoHash hosts row))
                          (t_client_searchee (st_db st))
              /\ (forall h, In h hosts -> ConfirmedRemoval evs h infoHash)
              /\ (b = true -> forall ch, In ch rows -> exists h, ch = Some h /\ In h hosts)
              /\ (evs = [] -> st' = st /\ (b = true -> rows = []))).
  { intros st rows Hne. exists false, st, [], []. split; [reflexivity|].
    rewrite app_nil_r. split; [reflexivity|]. split; [now repeat split|].
    split; [intros ev []|]. split; [apply Hid|]. split; [intros h []|].
    split; [discriminate|]. intros _. split; [reflexivity|discriminate]. }
  induction rows as [|client_host rest IH]; intros st.
  - exists true, st, [], []. split; [reflexivity|].
    rewrite app_nil_r. split; [reflexivity|]. split; [now repeat split|].
    split; [intros ev []|]. split; [apply Hid|]. split; [intros h []|].
    split; [intros _ ch []|]. now intros _.
  - cbn [removeLoop].
    destruct client_host as [host|];
      [|apply (Hstop st (None :: rest)); discriminate].
    destruct (JsString.truthy host); cbn [negb];
      [|apply (Hstop st (Some host :: rest)); discriminate].
    unfold bind at 1, gets at 1. cbn beta iota.
    destruct (find (fun c => String.eqb (clientHost c) host) (st_clients st))
      as [client|] eqn:Hfind; [|apply (Hstop st (Some host :: rest)); discriminate].
    apply find_some in Hfind. destruct Hfind as [_ Hhost].
    apply String.eqb_eq in Hhost.
    destruct (removeFromClient_spec infoHash client st Hhost)
      as (b1 & st1 & evs1 & Hrun1 & Htr1 & Hfr1 & Hne1 & Hev1 & Hcs1 & Hconf1).
    unfold bind. rewrite Hrun1.
    destruct b1.
    + destruct (IH st1) as (b & st' & evs & hosts & Hrun & Htr & Hfr & Hev & Hcs & Hconf
                             & Hall & Hnil).
      exists b, st', (evs1 ++ evs), (host :: hosts).
      split; [exact Hrun|].
      split; [rewrite Htr, Htr1; now rewrite app_assoc|].
      split; [eapply EvictionFrame_trans; eassumption|].
      split.
      { intros ev Hin. apply in_app_or in Hin. destruct Hin; auto. }
      split.
      { rewrite Hcs, Hcs1, filter_twice. apply filter_ext. intros row.
        unfold deletedBy. simpl.
        destruct (String.eqb (cs_info_hash row) infoHash); simpl; [|reflexivity].
        destruct (hostIs host (cs_client_host row)); reflexivity. }
      split.
      { intros h [<-|Hin].
        - apply ConfirmedRemoval_app_l. now apply Hconf1.
        - apply ConfirmedRemoval_app_r. now apply Hconf. }
      split.
      { intros Hb ch [<-|Hin].
        - exists host. split; [reflexivity|now left].
        - destruct (Hall Hb ch Hin) as (h & -> & Hh). exists h. split; [reflexivity|now right]. }
      intros Happ. apply app_eq_nil in Happ. destruct Happ as [Happ _]. contradiction.
    + exists false, st1, evs1, []. split; [reflexivity|].
      split; [exact Htr1|]. split; [exact Hfr1|]. split; [exact Hev1|].
      split; [exact Hcs1|]. split; [intros h []|]. split; [discriminate|].
      intros Happ. contradiction.
Qed.

Lemma updateClient_hosts (host : string) (d : D) (cs : list (TorrentClient D)) :
  map (@clientHost D) (updateClient host d cs) = map (@clientHost D) cs.
Proof.
  induction cs as [|c cs IH]; cbn; [reflexivity|].
  destruct (String.eqb (clientHost c) host); cbn; [reflexivity|now rewrite IH].
Qed.

(** One round, call by call: it confirms and deletes the rows of its
    client, or it fails and deletes nothing. *)
Lemma removeFromClient_round (infoHash : string) (client : TorrentClient D)
      (host : string) (st : State D) :
  clientHost client = host ->
  exists (b : bool) (st' : State D) (evs : list Event),
    removeFromClient ext infoHash client host st = (Ret b, st')
    /\ st_trace st' = st_trace st ++ evs
    /\ map (@clientHost D) (st_clients st') = map (@clientHost D) (st_clients st)
    /\ (if b then evs = confirmation infoHash host
        else FailedRound infoHash host evs)
    /\ (b = true <-> driverConfirms ext infoHash (driver client)).
Proof.
  intros Hhost. unfold removeFromClient, driverConfirms. rewrite Hhost.
  destruct (removeTorrent ext (driver client) infoHash false) as [removeRes d1].
  cbn [fst snd].
  destruct removeRes as [[|]|msg]; cbn [isErr unwrapBool negb orb].
  - destruct (isTorrentInClient ext d1 infoHash) as [exists_ d2]. cbn [fst].
    destruct exists_ as [[|]|msg]; cbn [isErr unwrapBool negb orb].
    + eexists false, _, [_; _]. split; [reflexivity|]. cbn.
      rewrite <- app_assoc, !updateClient_hosts. split; [reflexivity|].
      split; [reflexivity|].
      split; [right; eexists; split; [|reflexivity]; discriminate|].
      split; [discriminate|]. intros [_ Hno]. discriminate.
    + eexists true, _, [_; _]. split; [reflexivity|]. cbn.
      rewrite <- app_assoc, !updateClient_hosts. split; [reflexivity|].
      split; [reflexivity|]. split; [reflexivity|]. now split.
    + eexists false, _, [_; _]. split; [reflexivity|]. cbn.
      rewrite <- app_assoc, !updateClient_hosts. split; [reflexivity|].
      split; [reflexivity|].
      split; [right; eexists; split; [|reflexivity]; discriminate|].
      split; [discriminate|]. intros [_ Hno]. discriminate.
  - eexists false, _, [_]. split; [reflexivity|]. cbn.
    rewrite updateClient_hosts. split; [reflexivity|]. split; [reflexivity|].
    split; [left; eexists; split; [|reflexivity]; discriminate|].
    split; [discriminate|]. intros [Hyes _]. discriminate.
  - eexists false, _, [_]. split; [reflexivity|]. cbn.
    rewrite updateClient_hosts. split; [reflexivity|]. split; [reflexivity|].
    split; [left; eexists; split; [|reflexivity]; discriminate|].
    split; [discriminate|]. intros [Hyes _]. discriminate.
Qed.

Lemma hasClient_find (st : State D) (host : string) :
  hasClient st (Some host)
  = JsString.truthy host
    && match find (fun c => String.eqb (clientHost c) host) (st_clients st) with
       | Some _ => true
       | None => false
       end.
Proof.
  cbn. f_equal. induction (st_clients st) as [|c cs IH]; cbn; [reflexivity|].
  now destruct (String.eqb (clientHost c) host).
Qed.

Lemma hasClient_hosts (st st' : State D) (client_host : option string) :
  map (@clientHost D) (st_clients st') = map (@clientHost D) (st_clients st) ->
  hasClient st' client_host = hasClient st client_host.
Proof.
  intros Hhosts. destruct client_host as [host|]; [|reflexivity]. cbn. f_equal.
  assert (Hmap : forall cs : list (TorrentClient D),
             existsb (fun c => String.eqb (clientHost c) host) cs
             = existsb (fun h => String.eqb h host) (map (@clientHost D) cs)).
  { induction cs as [|c cs IH]; cbn; [reflexivity|now rewrite IH]. }
  now rewrite !Hmap, Hhosts.
Qed.

(** The loop, round by round: the rows are served in order; the clients
    of a first stretch of rows confirm, one after the other, and the loop
    ends there or stops at the next row, whose round fails or which names
    no client. *)
Lemma removeLoop_rounds (infoHash : string) :
  forall (rows : list (option string)) (st : State D),
  exists (b : bool) (st' : State D) (confirmed : list string)
         (rest : list (option string)) (last : list Event),
    removeLoop ext infoHash rows st = (Ret b, st')
    /\ rows = map Some confirmed ++ rest
    /\ st_trace st' = st_trace st ++ flat_map (confirmation infoHash) confirmed ++ last
    /\ t_client_searchee (st_db st')
       = filter (fun row => negb (deletedBy infoHash confirmed row))
                (t_client_searchee (st_db st))
    /\ map (@clientHost D) (st_clients st') = map (@clientHost D) (st_clients st)
    /\ match rest with
       | [] => b = true /\ last = []
       | next :: _ =>
           b = false
           /\ if hasClient st next
              then exists host, next = Some host /\ FailedRound infoHash host last
              else last = []
       end.
Proof.
  assert (Hid : forall l : list ClientSearcheeRow,
             l = filter (fun row => negb (deletedBy infoHash [] row)) l).
  { intros l. symmetry. apply filter_all_true. intros row _.
    unfold deletedBy. simpl. now rewrite andb_false_r. }
  assert (Hstop : forall (st : State D) (next : option string) (rest : list (option string)),
             hasClient st next = false ->
             exists (b : bool) (st' : State D) (confirmed : list string)
                    (rest' : list (option string)) (last : list Event),
               (Ret false, st) = (Ret b, st')
               /\ next :: rest = map Some confirmed ++ rest'
               /\ st_trace st' = st_trace st
                                 ++ flat_map (confirmation infoHash) confirmed ++ last
               /\ t_client_searchee (st_db st')
                  = filter (fun row => negb (deletedBy infoHash confirmed row))
                           (t_client_searchee (st_db st))
               /\ map (@clientHost D) (st_clients st') = map (@clientHost D) (st_clients st)
               /\ match rest' with
                  | [] => b = true /\ last = []
                  | next' :: _ =>
                      b = false
                      /\ if hasClient st next'
                         then exists host, next' = Some host
                                           /\ FailedRound infoHash host last
                         else last = []
                  end).
  { intros st next rest Hnone. exists false, st, [], (next :: rest), [].
    split; [reflexivity|]. split; [reflexivity|]. cbn. rewrite app_nil_r.
    split; [reflexivity|]. split; [apply Hid|]. split; [reflexivity|].
    split; [reflexivity|]. cbn in Hnone. now rewrite Hnone. }
  induction rows as [|client_host rows IH]; intros st.
  - exists true, st, [], [], []. split; [reflexivity|]. split; [reflexivity|]. cbn.
    rewrite app_nil_r. split; [reflexivity|]. split; [apply Hid|]. now repeat split.
  - cbn [removeLoop].
    destruct client_host as [host|]; [|now apply Hstop].
    pose proof (hasClient_find st host) as Hhas.
    destruct (JsString.truthy host); cbn [negb]; [|now apply Hstop].
    unfold bind at 1, gets at 1. cbn beta iota.
    destruct (find (fun c => String.eqb (clientHost c) host) (st_clients st))
      as [client|] eqn:Hfind; [|now apply Hstop].
    cbn [andb] in Hhas.
    apply find_some in Hfind. destruct Hfind as [_ Hhost].
    apply String.eqb_eq in Hhost.
    destruct (removeFromClient_round infoHash client st Hhost)
      as (b1 & st1 & evs1 & Hrun1 & Htr1 & Hhosts1 & Hround & _).
    destruct (removeFromClient_spec infoHash client st Hhost)
      as (b1' & st1' & evs1' & Hrun1' & _ & _ & _ & _ & Hcs1 & _).
    rewrite Hrun1 in Hrun1'. injection Hrun1' as <- <-.
    unfold bind. rewrite Hrun1.
    destruct b1.
    + destruct (IH st1)
        as (b & st' & confirmed & rest & last & Hrun & Hrows & Htr & Hcs & Hhosts & Hend).
      exists b, st', (host :: confirmed), rest, last.
      split; [exact Hrun|]. split; [cbn; now rewrite Hrows|].
      split.
      { rewrite Htr, Htr1, Hround. cbn [flat_map]. now rewrite <- !app_assoc. }
      split.
      { rewrite Hcs, Hcs1, filter_twice. apply filter_ext. intros row.
        unfold deletedBy. simpl.
        destruct (String.eqb (cs_info_hash row) infoHash); simpl; [|reflexivity].
        destruct (hostIs host (cs_client_host row)); reflexivity. }
      split; [congruence|].
      destruct rest as [|next rest']; [exact Hend|].
      now rewrite <- (hasClient_hosts st st1 next Hhosts1).
    + exists false, st1, [], (Some host :: rows), evs1.
      split; [reflexivity|]. split; [reflexivity|]. cbn [flat_map app].
      split; [exact Htr1|]. split; [now rewrite Hcs1|]. split; [exact Hhosts1|].
      split; [reflexivity|]. rewrite Hhas. exists host. split; [reflexivity|exact Hround].
Qed.

End Eviction.

Lemma deletedBy_true (infoHash : string) (hosts : list string)
      (row : ClientSearcheeRow) :
  deletedBy infoHash hosts row = true <->
  cs_info_hash row = infoHash
  /\ exists host, cs_client_host row = Some host /\ In host hosts.
Proof.
  unfold deletedBy. rewrite andb_true_iff, String.eqb_eq, existsb_exists.
  split.
  - intros (Hh & h & Hin & Hhost). split; [assumption|].
    unfold hostIs in Hhost. destruct (cs_client_host row) as [h'|]; [|discriminate].
    apply String.eqb_eq in Hhost. subst h'. now exists h.
  - intros (Hh & host & Hrow & Hin). split; [assumption|].
    exists host. split; [assumption|]. unfold hostIs. rewrite Hrow.
    apply String.eqb_refl.
Qed.

(** What the eviction may delete, and what it has done when it answers
    [true]. *)
Lemma removeTorrentFromClients_bounds
        (D : Type) (ext : Externals D) (infoHash searcheeName : string) (st : State D) :
  exists (b : bool) (st' : State D) (evs : list Event),
    removeTorrentFromClients ext infoHash searcheeName st = (Ret b, st')
    /\ st_trace st' = st_trace st ++ evs
    /\ EvictionFrame st st'
    /\ (forall ev, In ev evs -> isEvictionCall infoHash ev)
    /\ (forall row, In row (t_client_searchee (st_db st')) ->
                    In row (t_client_searchee (st_db st)))
    /\ (forall row, In row (t_client_searchee (st_db st)) ->
                    ~ In row (t_client_searchee (st_db st')) ->
                    cs_info_hash row = infoHash
                    /\ exists host, cs_client_host row = Some host
                                    /\ ConfirmedRemoval evs host infoHash)
    /\ (b = true ->
        incumbentRows (st_db st) infoHash <> []
        /\ incumbentRows (st_db st') infoHash = []
        /\ forall row, In row (incumbentRows (st_db st) infoHash) ->
                       exists host, cs_client_host row = Some host
                                    /\ ConfirmedRemoval evs host infoHash)
    /\ (evs = [] -> st' = st /\ b = false).
Proof.
  unfold removeTorrentFromClients, bind, getDb, gets. cbn beta iota.
  fold (incumbentRows (st_db st) infoHash).
  destruct (map cs_client_host (incumbentRows (st_db st) infoHash))
    as [|ch0 chs] eqn:Hrows.
  - exists false, st, []. split; [reflexivity|]. rewrite app_nil_r.
    split; [reflexivity|]. split; [now repeat split|]. split; [intros ev []|].
    split; [auto|]. split; [intros row Hin Hnot; contradiction|].
    split; [discriminate|]. now intros _.
  - destruct (removeLoop_spec ext infoHash (ch0 :: chs) st)
      as (b & st' & evs & hosts & Hrun & Htr & Hfr & Hev & Hcs & Hconf & Hall & Hnil).
    exists b, st', evs. split; [exact Hrun|]. split; [exact Htr|].
    split; [exact Hfr|]. split; [exact Hev|].
    split.
    { intros row Hin. rewrite Hcs in Hin. now apply filter_In in Hin. }
    split.
    { intros row Hin Hnot.
      destruct (deletedBy infoHash hosts row) eqn:Hdel.
      - apply deletedBy_true in Hdel. destruct Hdel as (Hh & host & Hrow & Hhost).
        split; [assumption|]. exists host. split; [assumption|]. now apply Hconf.
      - exfalso. apply Hnot. rewrite Hcs. apply filter_In. split; [assumption|].
        now rewrite Hdel. }
    split.
    { intros Hb. split.
      - intros Hnone. rewrite Hnone in Hrows. discriminate.
      - assert (Hin_hosts : forall row, In row (incumbentRows (st_db st) infoHash) ->
                   exists host, cs_client_host row = Some host /\ In host hosts).
        { intros row Hin. apply (Hall Hb (cs_client_host row)).
          rewrite <- Hrows. now apply in_map. }
        split.
        + destruct (incumbentRows (st_db st') infoHash) as [|row rest] eqn:Hleft;
            [reflexivity|exfalso].
          assert (Hin : In row (incumbentRows (st_db st') infoHash))
            by (rewrite Hleft; now left).
          unfold incumbentRows in Hin. apply filter_In in Hin.
          destruct Hin as [Hin Hh]. rewrite Hcs in Hin. apply filter_In in Hin.
          destruct Hin as [Hin Hkeep].
          assert (Hdel : deletedBy infoHash hosts row = true).
          { apply deletedBy_true. apply String.eqb_eq in Hh. split; [assumption|].
            apply Hin_hosts. unfold incumbentRows. apply filter_In.
            split; [assumption|]. now apply String.eqb_eq. }
          rewrite Hdel in Hkeep. discriminate.
        + intros row Hin. destruct (Hin_hosts row Hin) as (host & Hrow & Hhost).
          exists host. split; [assumption|]. now apply Hconf. }
    intros Hevs. destruct (Hnil Hevs) as [Hst Hb]. split; [assumption|].
    destruct b; [|reflexivity]. discriminate (Hb eq_refl).
Qed.

Lemma ConfirmedRemoval_rounds (infoHash : string) (confirmed : list string)
      (last : list Event) (host : string) :
  (last = [] \/ exists h, FailedRound infoHash h last) ->
  ConfirmedRemoval (flat_map (confirmation infoHash) confirmed ++ last) host infoHash
  <-> In host confirmed.
Proof.
  intros Hlast. split.
  - intros [_ Hin]. apply in_app_or in Hin. destruct Hin as [Hin|Hin].
    + apply in_flat_map in Hin. destruct Hin as (h & Hh & [Hev|[Hev|[]]]);
        [discriminate|]. now injection Hev as ->.
    + exfalso. destruct Hlast as [->|(h & [(res & Hres & ->)|(res & Hres & ->)])].
      * destruct Hin.
      * destruct Hin as [Hev|[]]. discriminate.
      * destruct Hin as [Hev|[Hev|[]]]; [discriminate|].
        injection Hev as _ Heq. now apply Hres.
  - intros Hin. split; apply in_or_app; left; apply in_flat_map; exists host;
      (split; [exact Hin|]); cbn; auto.
Qed.

(** The step of the loop on a row whose client is known: the round
    either confirms, and the loop goes on from a state in which the rows
    of that client are already deleted, or it fails, and the loop ends
    there with nothing deleted. *)
Lemma removeLoop_step (D : Type) (ext : Externals D) (infoHash host : string)
      (others : list (option string)) (st : State D) :
  hasClient st (Some host) = true ->
  exists (confirms : bool) (st1 : State D) (evs : list Event),
    removeLoop ext infoHash (Some host :: others) st
    = (if confirms then removeLoop ext infoHash others st1 else (Ret false, st1))
    /\ (confirms = true <->
        exists client,
          find (fun c => String.eqb (clientHost c) host) (st_clients st) = Some client
          /\ driverConfirms ext infoHash (driver client))
    /\ st_trace st1 = st_trace st ++ evs
    /\ (if confirms then evs = confirmation infoHash host
        else FailedRound infoHash host evs)
    /\ t_client_searchee (st_db st1)
       = filter (fun row => negb (deletedBy infoHash (if confirms then [host] else []) row))
                (t_client_searchee (st_db st)).
Proof.
  intros Hhas. rewrite hasClient_find in Hhas. apply andb_true_iff in Hhas.
  destruct Hhas as [Htruthy Hfound].
  cbn [removeLoop]. rewrite Htruthy. cbn [negb].
  unfold bind at 1, gets at 1. cbn beta iota.
  destruct (find (fun c => String.eqb (clientHost c) host) (st_clients st))
    as [client|] eqn:Hfind; [|discriminate].
  pose proof (find_some _ _ Hfind) as [_ Hhost]. apply String.eqb_eq in Hhost.
  destruct (removeFromClient_round ext infoHash client st Hhost)
    as (b1 & st1 & evs1 & Hrun1 & Htr1 & _ & Hround & Hdriver).
  destruct (removeFromClient_spec ext infoHash client st Hhost)
    as (b1' & st1' & evs1' & Hrun1' & _ & _ & _ & _ & Hcs1 & _).
  rewrite Hrun1 in Hrun1'. injection Hrun1' as <- <-.
  exists b1, st1, evs1. unfold bind. rewrite Hrun1.
  split; [now destruct b1|].
  split.
  { rewrite Hdriver. split.
    - intros Hconfirms. now exists client.
    - intros (client' & [= <-] & Hconfirms). exact Hconfirms. }
  split; [exact Htr1|]. split; [exact Hround|exact Hcs1].
Qed.

(** C1, as the code has it.  [removeTorrentFromClients] serves the rows of
    the info hash in row order and never throws.  The clients of a first
    stretch of rows confirm, one after the other: each answers [true] to a
    removal that keeps the data and then reports the torrent gone.  The
    loop ends after the last row, or it stops at the next one: that row
    names no client and nothing is asked, or its round fails, and then the
    call returns [false].  The [client_searchee] rows of the clients that
    confirmed are deleted and no others, also when a later round failed:
    a row is gone exactly if it is a row of this info hash whose own client
    has confirmed.  In the loop the rows of a client are deleted within its
    round, which confirms exactly when the driver of that client gives the
    two answers: the next row is served from a state in which they are
    gone.  No
    other table, nor any other part of the state than the drivers and the
    trace, changes.  The call returns [true] only when every owning client
    has confirmed, and then no row of the info hash is left; when it made
    no call to any client it returns [false] and the state is untouched. *)
Theorem removeTorrentFromClients_deletes_per_confirmed_client
        (D : Type) (ext : Externals D) (infoHash searcheeName : string) (st : State D) :
  (exists (b : bool) (st' : State D) (confirmed : list string)
          (rest : list (option string)) (last : list Event),
      let evs := flat_map (confirmation infoHash) confirmed ++ last in
      removeTorrentFromClients ext infoHash searcheeName st = (Ret b, st')
      /\ owners (st_db st) infoHash = map Some confirmed ++ rest
      /\ st_trace st' = st_trace st ++ evs
      /\ match rest with
         | [] => last = [] /\ (b = true <-> confirmed <> [])
         | next :: _ =>
             b = false
             /\ if hasClient st next
                then exists host, next = Some host /\ FailedRound infoHash host last
                else last = []
         end
      /\ t_client_searchee (st_db st')
         = filter (fun row => negb (deletedBy infoHash confirmed row))
                  (t_client_searchee (st_db st))
      /\ (forall host, ConfirmedRemoval evs host infoHash <-> In host confirmed)
      /\ (forall row, In row (t_client_searchee (st_db st)) ->
            (~ In row (t_client_searchee (st_db st')) <->
             cs_info_hash row = infoHash
             /\ exists host, cs_client_host row = Some host
                             /\ ConfirmedRemoval evs host infoHash))
      /\ (forall row, In row (t_client_searchee (st_db st')) ->
                      In row (t_client_searchee (st_db st)))
      /\ EvictionFrame st st'
      /\ map (@clientHost D) (st_clients st') = map (@clientHost D) (st_clients st)
      /\ (forall ev, In ev evs -> isEvictionCall infoHash ev)
      /\ (b = true ->
          incumbentRows (st_db st) infoHash <> []
          /\ incumbentRows (st_db st') infoHash = []
          /\ forall row, In row (incumbentRows (st_db st) infoHash) ->
                         exists host, cs_client_host row = Some host
                                      /\ ConfirmedRemoval evs host infoHash)
      /\ (evs = [] -> st' = st /\ b = false))
  /\ (forall (host : string) (others : list (option string)) (st0 : State D),
        hasClient st0 (Some host) = true ->
        exists (confirms : bool) (st1 : State D) (round : list Event),
          removeLoop ext infoHash (Some host :: others) st0
          = (if confirms then removeLoop ext infoHash others st1 else (Ret false, st1))
          /\ (confirms = true <->
              exists client,
                find (fun c => String.eqb (clientHost c) host) (st_clients st0)
                = Some client
                /\ driverConfirms ext infoHash (driver client))
          /\ st_trace st1 = st_trace st0 ++ round
          /\ (if confirms then round = confirmation infoHash host
              else FailedRound infoHash host round)
          /\ t_client_searchee (st_db st1)
             = filter (fun row =>
                         negb (deletedBy infoHash (if confirms then [host] else []) row))
                      (t_client_searchee (st_db st0))).
Proof.
  split; [|intros host others st0; apply removeLoop_step].
  assert (Hrounds :
    exists (b : bool) (st' : State D) (confirmed : list string)
           (rest : list (option string)) (last : list Event),
      removeTorrentFromClients ext infoHash searcheeName st = (Ret b, st')
      /\ owners (st_db st) infoHash = map Some confirmed ++ rest
      /\ st_trace st' = st_trace st ++ flat_map (confirmation infoHash) confirmed ++ last
      /\ t_client_searchee (st_db st')
         = filter (fun row => negb (deletedBy infoHash confirmed row))
                  (t_client_searchee (st_db st))
      /\ map (@clientHost D) (st_clients st') = map (@clientHost D) (st_clients st)
      /\ match rest with
         | [] => last = [] /\ (b = true <-> confirmed <> [])
         | next :: _ =>
             b = false
             /\ if hasClient st next
                then exists host, next = Some host /\ FailedRound infoHash host last
                else last = []
         end).
  { unfold removeTorrentFromClients, bind, getDb, gets. cbn beta iota.
    fold (incumbentRows (st_db st) infoHash). fold (owners (st_db st) infoHash).
    destruct (owners (st_db st) infoHash) as [|ch0 chs] eqn:Hrows.
    - exists false, st, [], [], []. split; [reflexivity|]. split; [reflexivity|].
      cbn. rewrite app_nil_r. split; [reflexivity|].
      split.
      { symmetry. apply filter_all_true. intros row _.
        unfold deletedBy. simpl. now rewrite andb_false_r. }
      split; [reflexivity|]. split; [reflexivity|]. split; [discriminate|].
      intros Hne. now contradiction Hne.
    - destruct (removeLoop_rounds ext infoHash (ch0 :: chs) st)
        as (b & st' & confirmed & rest & last & Hrun & Hsplit & Htr & Hcs & Hhosts & Hend).
      exists b, st', confirmed, rest, last. split; [exact Hrun|].
      split; [exact Hsplit|]. split; [exact Htr|]. split; [exact Hcs|].
      split; [exact Hhosts|].
      destruct rest as [|next rest']; [|exact Hend].
      destruct Hend as [-> ->]. split; [reflexivity|].
      split; [|reflexivity]. intros _ ->. discriminate. }
  destruct Hrounds
    as (b & st' & confirmed & rest & last & Hrun & Hsplit & Htr & Hcs & Hhosts & Hend).
  destruct (removeTorrentFromClients_bounds ext infoHash searcheeName st)
    as (b0 & st0 & evs0 & Hrun0 & Htr0 & Hframe & Hcalls & Hsub & _ & Htrue & Hnil).
  rewrite Hrun in Hrun0. injection Hrun0 as <- <-.
  rewrite Htr in Htr0. apply app_inv_head in Htr0. subst evs0.
  assert (Hlast : last = [] \/ exists h, FailedRound infoHash h last).
  { destruct rest as [|next rest']; [left; apply Hend|].
    destruct Hend as [_ Hend]. destruct (hasClient st next); [|now left].
    destruct Hend as (host & _ & Hfail). right. now exists host. }
  pose proof (fun host => @ConfirmedRemoval_rounds infoHash confirmed last host Hlast)
    as Hconfirmed.
  exists b, st', confirmed, rest, last. cbv zeta.
  split; [exact Hrun|]. split; [exact Hsplit|]. split; [exact Htr|].
  split; [exact Hend|]. split; [exact Hcs|]. split; [exact Hconfirmed|].
  split.
  { intros row Hin.
    assert (Hgone : ~ In row (t_client_searchee (st_db st'))
                    <-> deletedBy infoHash confirmed row = true).
    { rewrite Hcs, filter_In. split.
      - intros Hnot. destruct (deletedBy infoHash confirmed row); [reflexivity|].
        exfalso. apply Hnot. now split.
      - intros Hdel [_ Hkeep]. rewrite Hdel in Hkeep. discriminate. }
    rewrite Hgone, deletedBy_true. split.
    - intros (Hh & host & Hrow & Hhost). split; [exact Hh|]. exists host.
      split; [exact Hrow|]. now apply Hconfirmed.
    - intros (Hh & host & Hrow & Hhost). split; [exact Hh|]. exists host.
      split; [exact Hrow|]. now apply Hconfirmed. }
  split; [exact Hsub|]. split; [exact Hframe|]. split; [exact Hhosts|].
  split; [exact Hcalls|]. split; [exact Htrue|exact Hnil].
Qed.

(** C1 as stated fails: with two owning clients of which the second is
    unreachable, the call fails ([false]) after the first client has lost
    the torrent and its [client_searchee] row has been deleted, although
    the second client never confirmed. *)
Lemma removeTorrentFromClients_not_all_or_nothing :
  let run := removeTorrentFromClients Ex.ext Ex.H "name" Ex.twoClients in
  fst run = Ret false
  /\ t_client_searchee (st_db Ex.twoClients)
     = [ mkClientSearcheeRow Ex.H (Some "hostA")
                             (Some (stringifyStrings ["b.example"])) (Some true);
         mkClientSearcheeRow Ex.H (Some "hostB")
                             (Some (stringifyStrings ["b.example"])) (Some true) ]
  /\ t_client_searchee (st_db (snd run))
     = [ mkClientSearcheeRow Ex.H (Some "hostB")
                             (Some (stringifyStrings ["b.example"])) (Some true) ]
  /\ st_db (snd run) <> st_db Ex.twoClients
  /\ st_clients (snd run) <> st_clients Ex.twoClients
  /\ ~ ConfirmedRemoval (st_trace (snd run)) "hostB" Ex.H.
Proof.
  cbv zeta. repeat split; try reflexivity.
  - vm_compute. discriminate.
  - vm_compute. discriminate.
  - intros [Hrm _]. vm_compute in Hrm.
    repeat (destruct Hrm as [Hrm|Hrm]; [discriminate|]). exact Hrm.
Qed.

(** With its single client reachable, the example evicts the torrent:
    the client confirms and no row of the info hash is left. *)
Lemma removeTorrentFromClients_deletes_per_confirmed_client_witness :
  exists st',
    removeTorrentFromClients Ex.ext Ex.H "name" Ex.oneClient = (Ret true, st')
    /\ incumbentRows (st_db st') Ex.H = [].
Proof.
  destruct (removeTorrentFromClients_deletes_per_confirmed_client
              Ex.ext Ex.H "name" Ex.oneClient)
    as [(b & st' & confirmed & rest & last & Hrun & _ & _ & _ & _ & _ & _ & _ & _ & _ & _
         & Htrue & _) _].
  assert (Hb : b = true).
  { vm_compute in Hrun. now injection Hrun as <- _. }
  subst b. exists st'. split; [exact Hrun|]. now apply Htrue.
Defined.

(** ** Saving the conflict rules *)

Section SaveRules.

Variables (D : Type) (ext : Externals D).

Lemma rulesPayload_tuples (firstId now : Z) :
  forall (rules : list RuleInput) (index : nat),
    map ruleTuple (rulesPayload index firstId now rules) = storedTuplesFrom index rules.
Proof.
  induction rules as [|rule rest IH]; intros index; simpl; [reflexivity|].
  now rewrite IH.
Qed.

Lemma storedTuples_priorities :
  forall (rules : list RuleInput) (index : nat),
    map (fun t => fst (fst t)) (storedTuplesFrom index rules)
    = map Z.of_nat (seq (S index) (List.length rules)).
Proof.
  induction rules as [|rule rest IH]; intros index; simpl; [reflexivity|].
  rewrite IH. f_equal. lia.
Qed.

Lemma insertByPriority_tuples (row : ConflictRuleRow) (rows : list ConflictRuleRow) :
  map ruleTuple (insertByPriority row rows)
  = insertTuple (ruleTuple row) (map ruleTuple rows).
Proof.
  induction rows as [|r rest IH]; simpl; [reflexivity|].
  destruct (cr_priority row <=? cr_priority r)%Z; simpl; [reflexivity|].
  now rewrite IH.
Qed.

Lemma orderByPriority_tuples (rows : list ConflictRuleRow) :
  map ruleTuple (orderByPriority rows)
  = fold_right insertTuple [] (map ruleTuple rows).
Proof.
  induction rows as [|r rest IH]; simpl; [reflexivity|].
  unfold orderByPriority in *. simpl. now rewrite insertByPriority_tuples, IH.
Qed.

Lemma getConflictRules_tuples (db1 db2 : Db) :
  map ruleTuple (t_conflict_rules db1) = map ruleTuple (t_conflict_rules db2) ->
  getConflictRules db1 = getConflictRules db2.
Proof.
  intros Heq. unfold getConflictRules.
  set (view := fun t : Z * bool * option JsonText =>
                 {| priority := fst (fst t);
                    allIndexers := snd (fst t);
                    trackers := normalizeTrackers (parseTrackersJson (snd t)) |}).
  assert (Hview : forall rows,
             map (fun row => {| priority := cr_priority row;
                                allIndexers := cr_all_indexers row;
                                trackers := normalizeTrackers
                                              (parseTrackersJson (cr_trackers row)) |})
                 rows
             = map view (map ruleTuple rows)).
  { intros rows. rewrite map_map. reflexivity. }
  rewrite !Hview, !orderByPriority_tuples, Heq. reflexivity.
Qed.

Lemma saveRules_run (rules : list RuleInput) (st : State D) :
  exists st',
    saveRules ext rules st = (Ret true, st')
    /\ t_conflict_rules (st_db st')
       = rulesPayload 0 (nextRuleId (t_conflict_rules (st_db st)))
                      (clock ext (st_ticks st)) rules
    /\ t_searchee (st_db st') = t_searchee (st_db st)
    /\ t_decision (st_db st') = t_decision (st_db st)
    /\ t_collisions (st_db st') = t_collisions (st_db st)
    /\ t_indexer (st_db st') = t_indexer (st_db st)
    /\ t_client_searchee (st_db st') = t_client_searchee (st_db st)
    /\ st_clients st' = st_clients st
    /\ st_trace st' = st_trace st.
Proof.
  unfold saveRules, bind, transaction, dateNow, getDb, gets, modifyDb, modify, ret.
  cbn beta iota. destruct rules as [|rule rest]; cbn.
  - eexists. split; [reflexivity|]. now repeat split.
  - eexists. split; [reflexivity|]. now repeat split.
Qed.

End SaveRules.

(** C6.  [saveRules(R)] replaces the stored rules within one transaction:
    when the database rejects the delete or the insert, the call throws and
    the database is as it was before the call, the rows that the delete
    had removed included; when it rejects neither, the call is the save
    described next.  That save returns and leaves in [conflict_rules]
    exactly one row per rule of [R], in list order, whatever the table
    held before: the row of the rule at index [i] has priority [i + 1],
    the rule's [allIndexers] flag and its normalized trackers, so the
    stored priorities are [1, 2, ..., |R|] without gap; no other table
    changes.  Saving [R] a second time stores the same rules (priority,
    flag and trackers of every row; row ids and timestamps are new), and
    [getConflictRules] reads the same list. *)
Theorem saveRules_contiguous_and_idempotent
        (D : Type) (ext : Externals D) (rejects : nat -> bool) (rules : list RuleInput)
        (st : State D) :
  let attempt := saveRulesWith ext rejects rules st in
  let once := saveRules ext rules st in
  let twice := saveRules ext rules (snd once) in
  let rejected :=
    rejects 0%nat || match rules with [] => false | _ :: _ => rejects 1%nat end in
  (rejected = true -> fst attempt = Throw /\ st_db (snd attempt) = st_db st)
  /\ (rejected = false -> attempt = once)
  /\ fst once = Ret true
  /\ map ruleTuple (t_conflict_rules (st_db (snd once))) = storedTuplesFrom 0 rules
  /\ map cr_priority (t_conflict_rules (st_db (snd once)))
     = map Z.of_nat (seq 1 (List.length rules))
  /\ (t_searchee (st_db (snd once)) = t_searchee (st_db st)
      /\ t_decision (st_db (snd once)) = t_decision (st_db st)
      /\ t_collisions (st_db (snd once)) = t_collisions (st_db st)
      /\ t_indexer (st_db (snd once)) = t_indexer (st_db st)
      /\ t_client_searchee (st_db (snd once)) = t_client_searchee (st_db st))
  /\ fst twice = Ret true
  /\ map ruleTuple (t_conflict_rules (st_db (snd twice)))
     = map ruleTuple (t_conflict_rules (st_db (snd once)))
  /\ getConflictRules (st_db (snd twice)) = getConflictRules (st_db (snd once)).
Proof.
  intros attempt once twice rejected.
  assert (Hrejected : rejected = true ->
                      fst attempt = Throw /\ st_db (snd attempt) = st_db st).
  { unfold rejected, attempt, saveRulesWith, statement, transaction, bind, dateNow,
      getDb, gets, modifyDb, modify, throw, ret.
    cbn beta iota. destruct (rejects 0%nat); cbn; [intros _; now split|].
    destruct rules as [|rule rest]; [discriminate|].
    intros ->. cbn. now split. }
  assert (Haccepted : rejected = false -> attempt = once).
  { unfold rejected, attempt, once, saveRules, saveRulesWith, statement.
    destruct (rejects 0%nat); [discriminate|]. cbn [orb].
    destruct rules as [|rule rest]; [reflexivity|]. now intros ->. }
  destruct (saveRules_run ext rules st)
    as (st1 & Hrun1 & Hrules1 & Hs & Hd & Hc & Hi & Hcs & _).
  destruct (saveRules_run ext rules st1) as (st2 & Hrun2 & Hrules2 & _).
  assert (Honce : once = (Ret true, st1)) by exact Hrun1.
  assert (Htwice : twice = (Ret true, st2)).
  { unfold twice. rewrite Honce. exact Hrun2. }
  split; [exact Hrejected|]. split; [exact Haccepted|].
  rewrite Honce, Htwice. cbn [fst snd].
  assert (Ht1 : map ruleTuple (t_conflict_rules (st_db st1)) = storedTuplesFrom 0 rules).
  { rewrite Hrules1. apply rulesPayload_tuples. }
  assert (Ht2 : map ruleTuple (t_conflict_rules (st_db st2)) = storedTuplesFrom 0 rules).
  { rewrite Hrules2. apply rulesPayload_tuples. }
  split; [reflexivity|]. split; [exact Ht1|].
  split.
  { rewrite <- (storedTuples_priorities rules 0), <- Ht1, map_map. reflexivity. }
  split; [now repeat split|]. split; [reflexivity|].
  split; [congruence|].
  apply getConflictRules_tuples. congruence.
Qed.

(** Three rules saved over the two of the example: priorities 1, 2, 3,
    and the same rules after a second save.  When the insert is rejected
    the call throws and the two rules of the example are still there. *)
Lemma saveRules_contiguous_and_idempotent_witness :
  let insertRejected (position : nat) := Nat.eqb position 1 in
  let attempt := saveRulesWith Ex.ext insertRejected Ex.someRules Ex.oneClient in
  let once := saveRules Ex.ext Ex.someRules Ex.oneClient in
  let twice := saveRules Ex.ext Ex.someRules (snd once) in
  (fst attempt = Throw
   /\ t_conflict_rules (st_db (snd attempt)) = Ex.rulesTable)
  /\ map cr_priority (t_conflict_rules (st_db (snd once))) = [1; 2; 3]%Z
  /\ map ruleTuple (t_conflict_rules (st_db (snd once)))
     = [ (1%Z, false, Some (stringifyStrings ["a.example"; "b.example"]));
         (2%Z, false, Some (stringifyStrings ["c.example"]));
         (3%Z, true, Some (stringifyStrings [])) ]
  /\ getConflictRules (st_db (snd twice)) = getConflictRules (st_db (snd once)).
Proof.
  pose proof (saveRules_contiguous_and_idempotent
                Ex.ext (fun position => Nat.eqb position 1) Ex.someRules Ex.oneClient)
    as (Hrejected & _ & _ & Htuples & Hprio & _ & _ & _ & Hsame).
  cbv zeta. split.
  - destruct (Hrejected eq_refl) as [Hthrow Hdb]. split; [exact Hthrow|].
    now rewrite Hdb.
  - split; [exact Hprio|]. split; [exact Htuples|exact Hsame].
Defined.

(** ** The collision recorder *)

Section Recorder.

Variables (D : Type) (ext : Externals D).

Lemma stringsEqb_eq (a b : list string) : stringsEqb a b = true <-> a = b.
Proof.
  revert b. induction a as [|x a IH]; intros [|y b]; simpl; split;
    try reflexivity; try discriminate.
  - rewrite andb_true_iff, String.eqb_eq, IH. now intros [-> ->].
  - intros [= -> ->]. rewrite String.eqb_refl. simpl. now apply IH.
Qed.

Lemma isEquivalentCollision_spec (db : Db) (infoHash name : string)
      (cand known : list string) (decisionId : Z) (c : CollisionRow) :
  isEquivalentCollision db infoHash name cand known decisionId c = true <->
  EquivalentCollision db infoHash name cand known decisionId c.
Proof.
  unfold isEquivalentCollision, EquivalentCollision.
  rewrite !andb_true_iff, !stringsEqb_eq, negb_true_iff, Z.eqb_neq, existsb_exists.
  split.
  - intros (((( d & Hd & Hq) & Hc) & Hk) & Hne).
    rewrite !andb_true_iff, Z.eqb_eq, existsb_exists in Hq.
    destruct Hq as ((Hid & Hh) & s & Hs & Hsq).
    rewrite andb_true_iff, Z.eqb_eq, String.eqb_eq in Hsq. destruct Hsq as [Hsid Hname].
    unfold infoHashIs in Hh. destruct (d_info_hash d) as [h|] eqn:Hhash; [|discriminate].
    apply String.eqb_eq in Hh. subst h.
    repeat split; try assumption. exists d, s. now repeat split.
  - intros ((d & s & Hd & Hid & Hh & Hs & Hsid & Hname) & Hc & Hk & Hne).
    repeat split; try assumption. exists d. split; [assumption|].
    rewrite !andb_true_iff, Z.eqb_eq, existsb_exists. repeat split.
    + assumption.
    + unfold infoHashIs. rewrite Hh. apply String.eqb_refl.
    + exists s. split; [assumption|].
      rewrite andb_true_iff, Z.eqb_eq, String.eqb_eq. now split.
Qed.

(** The whole effect of [upsertCollisionRecord], by the outcome of the
    duplicate search. *)
Lemma upsertCollisionRecord_run (decisionId : Z) (tm : TrackerMismatchInfo)
      (firstSeen lastSeen : Z) (st : State D) :
  exists st',
    upsertCollisionRecord ext decisionId tm firstSeen lastSeen st = (Ret tt, st')
    /\ UpsertFrame st st'
    /\ t_collisions (st_db st')
       = match findEquivalentCollision (st_db st) decisionId (candidateTrackers tm)
                                       (knownTrackers tm) with
         | Some existingId =>
             deleteCollision decisionId
               (refreshCollision existingId lastSeen (clock ext (st_ticks st))
                                 (t_collisions (st_db st)))
         | None =>
             insertOrMergeCollision
               (mkCollisionRow decisionId (candidateTrackers tm) (knownTrackers tm)
                               (Some firstSeen) (Some lastSeen)
                               (Some (clock ext (st_ticks st))))
               (t_collisions (st_db st))
         end.
Proof.
  unfold upsertCollisionRecord, bind, dateNow, getDb, gets, modifyDb, modify.
  cbn.
  destruct (findEquivalentCollision (st_db st) decisionId (candidateTrackers tm)
                                    (knownTrackers tm)) as [existingId|];
    cbn; eexists; (split; [reflexivity|]); cbn; split; try reflexivity;
    now repeat split.
Qed.

Lemma deleteCollisionRecord_run (decisionId : Z) (st : State D) :
  deleteCollisionRecord decisionId st
  = (Ret tt, set_db (with_collisions (deleteCollision decisionId) (st_db st)) st).
Proof. reflexivity. Qed.

Lemma hasCollision_delete (decisionId : Z) (rows : list CollisionRow) :
  existsb (fun c => (co_decision_id c =? decisionId)%Z) (deleteCollision decisionId rows)
  = false.
Proof.
  induction rows as [|c rows IH]; simpl; [reflexivity|].
  destruct (co_decision_id c =? decisionId)%Z eqn:Hc; simpl; [assumption|].
  now rewrite Hc.
Qed.

End Recorder.

(** C7.  When the decision row and its searchee are on file (with a
    non-empty info hash and name, as the recorder requires before it
    searches), and some collision row owned by another decision has the
    same decision info hash, the same searchee name and the same two
    tracker payloads, then [upsertCollisionRecord] takes the first such
    row, sets the [last_seen] and [updated_at] of the rows of its
    [decision_id] and changes nothing else in them, deletes every
    collision row of the current [decision_id], and inserts nothing: each
    row left comes from a row that was there, under a [decision_id] other
    than the current one. *)
Theorem upsertCollisionRecord_refreshes_equivalent_row
        (D : Type) (ext : Externals D) (decisionId : Z) (tm : TrackerMismatchInfo)
        (firstSeen lastSeen : Z) (st : State D)
        (decisionRow : DecisionRow) (info_hash : string) (searcheeRow : SearcheeRow) :
  let db := st_db st in
  let now := clock ext (st_ticks st) in
  let refreshed c :=
    mkCollisionRow (co_decision_id c) (co_candidate_trackers c) (co_known_trackers c)
                   (co_first_seen c) (Some lastSeen) (Some now) in
  find (fun d => (d_id d =? decisionId)%Z) (t_decision db) = Some decisionRow ->
  d_info_hash decisionRow = Some info_hash ->
  JsString.truthy info_hash = true ->
  d_searchee_id decisionRow <> 0%Z ->
  find (fun s => (se_id s =? d_searchee_id decisionRow)%Z) (t_searchee db)
  = Some searcheeRow ->
  JsString.truthy (se_name searcheeRow) = true ->
  (forall c, In c (t_collisions db) -> co_decision_id c <> 0%Z) ->
  (exists c, In c (t_collisions db)
             /\ EquivalentCollision db info_hash (se_name searcheeRow)
                                    (candidateTrackers tm) (knownTrackers tm)
                                    decisionId c) ->
  exists existing st',
    In existing (t_collisions db)
    /\ EquivalentCollision db info_hash (se_name searcheeRow)
                           (candidateTrackers tm) (knownTrackers tm) decisionId existing
    /\ upsertCollisionRecord ext decisionId tm firstSeen lastSeen st = (Ret tt, st')
    /\ UpsertFrame st st'
    /\ t_collisions (st_db st')
       = deleteCollision decisionId
           (refreshCollision (co_decision_id existing) lastSeen now (t_collisions db))
    /\ In (refreshed existing) (t_collisions (st_db st'))
    /\ hasCollision (st_db st') decisionId = false
    /\ (forall c', In c' (t_collisions (st_db st')) ->
          exists c, In c (t_collisions db)
                    /\ co_decision_id c <> decisionId
                    /\ c' = if (co_decision_id c =? co_decision_id existing)%Z
                            then refreshed c else c)
    /\ (List.length (t_collisions (st_db st')) <= List.length (t_collisions db))%nat.
Proof.
  intros db now refreshed Hdec Hhash Htruthy Hsid Hsearchee Hname Hids (c0 & Hin0 & Heq0).
  destruct (find (isEquivalentCollision db info_hash (se_name searcheeRow)
                    (candidateTrackers tm) (knownTrackers tm) decisionId)
                 (t_collisions db)) as [existing|] eqn:Hfind.
  2:{ exfalso. apply isEquivalentCollision_spec in Heq0.
      rewrite (find_none _ _ Hfind _ Hin0) in Heq0. discriminate. }
  destruct (find_some _ _ Hfind) as [Hin Heq].
  apply isEquivalentCollision_spec in Heq.
  assert (Hsearch : findEquivalentCollision db decisionId (candidateTrackers tm)
                                            (knownTrackers tm)
                    = Some (co_decision_id existing)).
  { unfold findEquivalentCollision. rewrite Hdec, Hhash, Htruthy.
    apply Z.eqb_neq in Hsid. rewrite Hsid. cbn [negb andb].
    rewrite Hsearchee, Hname, Hfind.
    pose proof (Hids _ Hin) as Hnz. apply Z.eqb_neq in Hnz. now rewrite Hnz. }
  destruct (upsertCollisionRecord_run ext decisionId tm firstSeen lastSeen st)
    as (st' & Hrun & Hframe & Hrows).
  fold db in Hrows. rewrite Hsearch in Hrows. fold now in Hrows.
  exists existing, st'.
  split; [exact Hin|]. split; [exact Heq|]. split; [exact Hrun|].
  split; [exact Hframe|]. split; [exact Hrows|].
  assert (Hother : co_decision_id existing <> decisionId) by apply Heq.
  split.
  { rewrite Hrows. unfold deleteCollision. apply filter_In. split.
    - unfold refreshCollision.
      apply in_map_iff. exists existing. split; [|exact Hin].
      now rewrite Z.eqb_refl.
    - cbn. apply Z.eqb_neq in Hother. now rewrite Hother. }
  split.
  { unfold hasCollision. rewrite Hrows. apply hasCollision_delete. }
  split.
  { intros c' Hc'. rewrite Hrows in Hc'. unfold deleteCollision in Hc'.
    apply filter_In in Hc'. destruct Hc' as [Hc' Hkeep].
    unfold refreshCollision in Hc'. apply in_map_iff in Hc'.
    destruct Hc' as (c & Hcc' & Hc). exists c. split; [exact Hc|].
    split.
    - intros Hid. subst c'.
      destruct (co_decision_id c =? co_decision_id existing)%Z; cbn in Hkeep;
        rewrite Hid, Z.eqb_refl in Hkeep; discriminate.
    - now subst c'. }
  rewrite Hrows. unfold deleteCollision, refreshCollision.
  etransitivity; [apply filter_length_le|]. now rewrite length_map.
Qed.

(** The second announce of the example: the collision recorded under the
    first guid is refreshed and no row appears for the second. *)
Lemma upsertCollisionRecord_refreshes_equivalent_row_witness :
  exists st',
    upsertCollisionRecord Ex.ext 2 (mkMismatch ["a.example"] ["b.example"]) 30 40
                          Ex.colliding = (Ret tt, st')
    /\ t_collisions (st_db st')
       = [ mkCollisionRow 1 ["a.example"] ["b.example"] (Some 10%Z) (Some 40%Z)
                          (Some 1000%Z) ].
Proof.
  destruct (@upsertCollisionRecord_refreshes_equivalent_row
              Sim.Driver Ex.ext 2 (mkMismatch ["a.example"] ["b.example"]) 30 40
              Ex.colliding
              (Ex.decisionRow 2 "guid-2" INFO_HASH_ALREADY_EXISTS_ANOTHER_TRACKER)
              Ex.H (mkSearcheeRow 1 "Show.S01"))
    as (existing & st' & Hin & _ & Hrun & _ & Hrows & _).
  - reflexivity.
  - reflexivity.
  - reflexivity.
  - discriminate.
  - reflexivity.
  - reflexivity.
  - intros c [<-|[]]. discriminate.
  - eexists. split; [now left|].
    apply isEquivalentCollision_spec. reflexivity.
  - exists st'. split; [exact Hrun|].
    destruct Hin as [<-|[]]. exact Hrows.
Defined.

(** C10.  When [upsertCollisionRecord] reaches its insert for a
    [decision_id] that already owns a collision row (no equivalent row of
    another decision was found), the on-conflict merge rewrites
    [candidate_trackers], [known_trackers], [last_seen] and [updated_at]
    of that row and keeps its [decision_id] and [first_seen], whatever
    [firstSeen] the caller passed; every other row, and the number of
    rows, stay as they were. *)
Theorem upsertCollisionRecord_merge_keeps_first_seen
        (D : Type) (ext : Externals D) (decisionId : Z) (tm : TrackerMismatchInfo)
        (firstSeen lastSeen : Z) (st : State D) (old : CollisionRow) :
  let db := st_db st in
  let now := clock ext (st_ticks st) in
  let merged c :=
    mkCollisionRow (co_decision_id c) (candidateTrackers tm) (knownTrackers tm)
                   (co_first_seen c) (Some lastSeen) (Some now) in
  findEquivalentCollision db decisionId (candidateTrackers tm) (knownTrackers tm) = None ->
  In old (t_collisions db) ->
  co_decision_id old = decisionId ->
  exists st',
    upsertCollisionRecord ext decisionId tm firstSeen lastSeen st = (Ret tt, st')
    /\ UpsertFrame st st'
    /\ t_collisions (st_db st')
       = map (fun c => if (co_decision_id c =? decisionId)%Z then merged c else c)
             (t_collisions db)
    /\ In (merged old) (t_collisions (st_db st'))
    /\ co_first_seen (merged old) = co_first_seen old
    /\ co_decision_id (merged old) = co_decision_id old
    /\ (forall c', In c' (t_collisions (st_db st')) -> co_decision_id c' = decisionId ->
          exists c, In c (t_collisions db) /\ co_decision_id c = decisionId
                    /\ c' = merged c)
    /\ (forall c, co_decision_id c <> decisionId ->
          (In c (t_collisions (st_db st')) <-> In c (t_collisions db)))
    /\ List.length (t_collisions (st_db st')) = List.length (t_collisions db).
Proof.
  intros db now merged Hsearch Hin Hold.
  destruct (upsertCollisionRecord_run ext decisionId tm firstSeen lastSeen st)
    as (st' & Hrun & Hframe & Hrows).
  fold db in Hrows. rewrite Hsearch in Hrows. fold now in Hrows.
  unfold insertOrMergeCollision in Hrows. cbn [co_decision_id] in Hrows.
  assert (Hex : existsb (fun c => (co_decision_id c =? decisionId)%Z) (t_collisions db)
                = true).
  { apply existsb_exists. exists old. split; [exact Hin|]. now apply Z.eqb_eq. }
  rewrite Hex in Hrows.
  cbn [co_candidate_trackers co_known_trackers co_last_seen co_updated_at] in Hrows.
  exists st'. split; [exact Hrun|]. split; [exact Hframe|].
  split; [exact Hrows|].
  split.
  { rewrite Hrows. apply in_map_iff. exists old. split; [|exact Hin].
    apply Z.eqb_eq in Hold. now rewrite Hold. }
  split; [reflexivity|]. split; [reflexivity|].
  split.
  { intros c' Hc' Hid. rewrite Hrows in Hc'. apply in_map_iff in Hc'.
    destruct Hc' as (c & Hcc' & Hc).
    destruct (co_decision_id c =? decisionId)%Z eqn:Hcid.
    - exists c. split; [exact Hc|]. split; [now apply Z.eqb_eq|]. now subst c'.
    - exfalso. subst c'. apply Z.eqb_neq in Hcid. contradiction. }
  split.
  { intros c Hne. rewrite Hrows, in_map_iff. split.
    - intros (c0 & Hc0 & Hin0).
      destruct (co_decision_id c0 =? decisionId)%Z eqn:Hcid.
      + exfalso. subst c. cbn in Hne. apply Z.eqb_eq in Hcid. contradiction.
      + now subst c0.
    - intros Hc. exists c. split; [|exact Hc].
      apply Z.eqb_neq in Hne. now rewrite Hne. }
  rewrite Hrows. apply length_map.
Qed.

(** The first guid of the example is announced again with one more
    candidate tracker and a later [firstSeen]: the row keeps the
    [first_seen] it was created with. *)
Lemma upsertCollisionRecord_merge_keeps_first_seen_witness :
  exists st',
    upsertCollisionRecord Ex.ext 1 (mkMismatch ["a.example"; "c.example"] ["b.example"])
                          99 40 Ex.colliding = (Ret tt, st')
    /\ t_collisions (st_db st')
       = [ mkCollisionRow 1 ["a.example"; "c.example"] ["b.example"] (Some 10%Z)
                          (Some 40%Z) (Some 1000%Z) ].
Proof.
  destruct (@upsertCollisionRecord_merge_keeps_first_seen
              Sim.Driver Ex.ext 1 (mkMismatch ["a.example"; "c.example"] ["b.example"])
              99 40 Ex.colliding
              (mkCollisionRow 1 ["a.example"] ["b.example"] (Some 10%Z) (Some 20%Z)
                              (Some 20%Z)))
    as (st' & Hrun & _ & Hrows & _).
  - reflexivity.
  - now left.
  - reflexivity.
  - exists st'. split; [exact Hrun|exact Hrows].
Defined.

(** ** Rounding to doubles *)

Module JsNumberFacts.

Import JsNumber.

Open Scope Q_scope.

Lemma pow2_pos (k : Z) : 0 < pow2 k.
Proof. unfold pow2. apply Qpower_0_lt. reflexivity. Qed.

Lemma pow2_plus (a b : Z) : pow2 (a + b) == pow2 a * pow2 b.
Proof. unfold pow2. apply Qpower_plus. discriminate. Qed.

Lemma pow2_inject (k : Z) : (0 <= k)%Z -> pow2 k == inject_Z (2 ^ k).
Proof. intros Hk. unfold pow2. now rewrite Zpower_Qpower. Qed.

(** The leading bit is not above the number. *)
Lemma ilog2_le (q : Q) : 0 < q -> pow2 (ilog2 q) <= q.
Proof.
  intros Hq. unfold ilog2.
  destruct (Qle_bool (pow2 (Z.log2 (Qnum q) - Z.log2 (Z.pos (Qden q)))) q) eqn:Htest.
  - now apply Qle_bool_iff.
  - clear Htest. destruct q as [n d]. cbn [Qnum Qden].
    assert (Hn : (0 < n)%Z) by (unfold Qlt in Hq; cbn in Hq; lia).
    pose proof (Z.log2_spec n Hn) as [Hlow _].
    pose proof (Z.log2_spec (Z.pos d) (Pos2Z.is_pos d)) as [_ Hhigh].
    pose proof (Z.log2_nonneg n) as Hn0.
    pose proof (Z.log2_nonneg (Z.pos d)) as Hd0.
    replace (Z.log2 n - Z.log2 (Z.pos d) - 1)%Z
      with (Z.log2 n + - Z.succ (Z.log2 (Z.pos d)))%Z by lia.
    rewrite pow2_plus. unfold pow2 at 2. rewrite Qpower_opp.
    fold (pow2 (Z.succ (Z.log2 (Z.pos d)))).
    rewrite !pow2_inject by lia.
    set (a := (2 ^ Z.log2 n)%Z) in *. set (c := (2 ^ Z.succ (Z.log2 (Z.pos d)))%Z) in *.
    assert (Hc : (0 < c)%Z) by lia.
    destruct c as [|c|c]; try lia.
    unfold Qle, Qmult, Qinv. cbn [Qnum Qden inject_Z]. nia.
Qed.

Lemma roundHalfEven_near (q : Q) : Qabs (inject_Z (roundHalfEven q) - q) <= 1 # 2.
Proof.
  unfold roundHalfEven.
  pose proof (Qfloor_le q) as Hlow. pose proof (Qlt_floor q) as Hhigh.
  rewrite inject_Z_plus in Hhigh. change (inject_Z 1) with 1 in Hhigh.
  apply Qabs_Qle_condition.
  destruct (Qcompare_spec (q - inject_Z (Qfloor q)) (1 # 2)) as [Heq|Hlt|Hgt].
  - destruct (Z.even (Qfloor q)); rewrite ?inject_Z_plus;
      change (inject_Z 1) with 1; split; lra.
  - split; lra.
  - rewrite inject_Z_plus. change (inject_Z 1) with 1. split; lra.
Qed.

(** The error of rounding a magnitude: half a unit of the last of its 53
    bits, or half of [2^-1074]. *)
Lemma roundMagnitude_error (q : Q) :
  0 < q -> Qabs (roundMagnitude q - q) <= (1 # 9007199254740992) * q + pow2 (-1075).
Proof.
  intros Hq. unfold roundMagnitude.
  set (e := Z.max (ilog2 q - 52) (-1074)).
  pose proof (pow2_pos e) as He.
  pose proof (roundHalfEven_near (q / pow2 e)) as Hnear.
  set (m := inject_Z (roundHalfEven (q / pow2 e))) in *.
  assert (Hscaled : Qabs (m * pow2 e - q) <= (1 # 2) * pow2 e).
  { assert (Heq : m * pow2 e - q == (m - q / pow2 e) * pow2 e)
      by (field; intros Hz; rewrite Hz in He; now apply Qlt_irrefl in He).
    rewrite Heq, Qabs_Qmult, (Qabs_pos (pow2 e)) by now apply Qlt_le_weak.
    apply Qmult_le_compat_r; [exact Hnear|now apply Qlt_le_weak]. }
  assert (Hhalf : (1 # 2) * pow2 e <= (1 # 9007199254740992) * q + pow2 (-1075)).
  { pose proof (pow2_pos (-1075)) as Hsmall.
    unfold e. destruct (Z.max_spec (ilog2 q - 52) (-1074)) as [[_ ->]|[_ ->]].
    - assert (Heq : (1 # 2) * pow2 (-1074) == pow2 (-1075)) by reflexivity.
      rewrite Heq. lra.
    - replace (ilog2 q - 52)%Z with (ilog2 q + -52)%Z by lia.
      rewrite pow2_plus.
      assert (Hc : pow2 (-52) == 1 # 4503599627370496) by reflexivity.
      rewrite Hc. pose proof (ilog2_le Hq) as Hle. lra. }
  lra.
Qed.


(** Rounding a rational that is not huge gives a finite Number, off by
    at most half a unit of the last bit. *)
Lemma round_error (q : Q) :
  Qabs q <= 1152921504606846976 ->
  exists r, round q = Finite r
            /\ Qabs (r - q) <= (1 # 9007199254740992) * Qabs q + pow2 (-1075).
Proof.
  intros Hbound.
  assert (Heta : pow2 (-1075) <= 1) by (unfold Qle; vm_compute; discriminate).
  assert (Hbig : 4611686018427387904 <= pow2 1024) by (unfold Qle; vm_compute; discriminate).
  pose proof (pow2_pos (-1075)) as Hsmall.
  assert (Hmag : forall m, 0 < m -> m <= 1152921504606846976 ->
                           Qle_bool (pow2 1024) (roundMagnitude m) = false).
  { intros m Hm Hle. destruct (Qle_bool (pow2 1024) (roundMagnitude m)) eqn:Htest;
      [|reflexivity].
    apply Qle_bool_iff in Htest. pose proof (roundMagnitude_error Hm) as Herr.
    apply Qabs_Qle_condition in Herr.
    set (big := pow2 1024) in *. set (eta := pow2 (-1075)) in *.
    clearbody big eta. lra. }
  unfold round. destruct (Qcompare_spec q 0) as [Hz|Hneg|Hpos].
  - exists 0. split; [reflexivity|]. rewrite Hz. cbn.
    set (eta := pow2 (-1075)) in *. clearbody eta. lra.
  - assert (Hm : 0 < - q) by lra.
    assert (Habs : Qabs q == - q) by (apply Qabs_neg; lra).
    rewrite Habs in Hbound. cbv zeta. rewrite (Hmag (- q) Hm Hbound).
    eexists. split; [reflexivity|].
    pose proof (roundMagnitude_error Hm) as Herr.
    assert (Heq : - roundMagnitude (- q) - q == - (roundMagnitude (- q) - - q)) by ring.
    now rewrite Heq, Qabs_opp, Habs.
  - assert (Habs : Qabs q == q) by (apply Qabs_pos; lra).
    rewrite Habs in Hbound. cbv zeta. rewrite (Hmag q Hpos Hbound).
    eexists. split; [reflexivity|]. rewrite Habs. now apply roundMagnitude_error.
Qed.

Lemma ilog2_lt (q : Q) (k : Z) : 0 < q -> q < pow2 k -> (ilog2 q < k)%Z.
Proof.
  intros Hq Hlt. destruct (Z.lt_ge_cases (ilog2 q) k) as [Hk|Hk]; [exact Hk|exfalso].
  pose proof (ilog2_le Hq) as Hle.
  assert (Hmono : pow2 k <= pow2 (ilog2 q))
    by (unfold pow2; apply Qpower_le_compat_l; [exact Hk|discriminate]).
  lra.
Qed.

Lemma roundHalfEven_integer (q : Q) (n : Z) : q == inject_Z n -> roundHalfEven q = n.
Proof.
  intros Hq. unfold roundHalfEven.
  assert (Hfloor : Qfloor q = n) by (rewrite Hq; apply Qfloor_Z).
  assert (Hz : q - inject_Z n == 0) by (rewrite Hq; ring).
  assert (Hlt : (q - inject_Z n ?= 1 # 2) = Lt) by (apply Qlt_alt; now rewrite Hz).
  now rewrite Hfloor, Hlt.
Qed.

(** Integers below [2^53] are Numbers. *)
Lemma round_integer (z : Z) :
  (Z.abs z < 2 ^ 53)%Z ->
  exists r, ofZ z = Finite r /\ r == inject_Z z.
Proof.
  intros Hz.
  assert (Hmag : forall n, (0 < n < 2 ^ 53)%Z ->
                           roundMagnitude (inject_Z n) == inject_Z n).
  { intros n [Hpos Hlt]. unfold roundMagnitude.
    assert (Hq : 0 < inject_Z n) by (change 0 with (inject_Z 0); now rewrite <- Zlt_Qlt).
    assert (Hk : (ilog2 (inject_Z n) < 53)%Z).
    { apply ilog2_lt; [exact Hq|]. rewrite pow2_inject by lia. now rewrite <- Zlt_Qlt. }
    set (e := Z.max (ilog2 (inject_Z n) - 52) (-1074)).
    assert (He : (e <= 0)%Z) by (unfold e; lia).
    pose proof (pow2_pos e) as Hpe. pose proof (pow2_pos (- e)) as Hpne.
    assert (Hinv : pow2 e * pow2 (- e) == 1).
    { rewrite <- pow2_plus. replace (e + - e)%Z with 0%Z by lia. reflexivity. }
    assert (Hscaled : inject_Z n / pow2 e == inject_Z (n * 2 ^ (- e))).
    { rewrite inject_Z_mult, <- pow2_inject by lia.
      apply (Qmult_inj_r _ _ (pow2 e)); [lra|].
      assert (H1 : inject_Z n / pow2 e * pow2 e == inject_Z n) by (field; lra).
      rewrite H1, <- Qmult_assoc, (Qmult_comm (pow2 (- e))), Hinv. ring. }
    rewrite (roundHalfEven_integer Hscaled), inject_Z_mult, <- pow2_inject by lia.
    rewrite <- Qmult_assoc, (Qmult_comm (pow2 (- e))), Hinv. ring. }
  assert (Hsmall : forall n, (0 < n < 2 ^ 53)%Z ->
                             Qle_bool (pow2 1024) (roundMagnitude (inject_Z n)) = false).
  { intros n Hn. destruct (Qle_bool (pow2 1024) (roundMagnitude (inject_Z n))) eqn:Htest;
      [|reflexivity].
    apply Qle_bool_iff in Htest. rewrite (Hmag n Hn) in Htest.
    assert (Hbig : inject_Z (2 ^ 53) <= pow2 1024) by (unfold Qle; vm_compute; discriminate).
    destruct Hn as [_ Hn]. rewrite Zlt_Qlt in Hn. lra. }
  unfold ofZ, round.
  destruct (Qcompare_spec (inject_Z z) 0) as [Hzero|Hneg|Hpos].
  - exists 0. split; [reflexivity|]. now symmetry.
  - change 0 with (inject_Z 0) in Hneg. rewrite <- Zlt_Qlt in Hneg.
    assert (Hn : (0 < - z < 2 ^ 53)%Z) by lia.
    cbv zeta. rewrite <- inject_Z_opp, (Hsmall _ Hn).
    eexists. split; [reflexivity|]. rewrite (Hmag _ Hn), inject_Z_opp. ring.
  - change 0 with (inject_Z 0) in Hpos. rewrite <- Zlt_Qlt in Hpos.
    assert (Hn : (0 < z < 2 ^ 53)%Z) by lia.
    cbv zeta. rewrite (Hsmall _ Hn).
    eexists. split; [reflexivity|]. now apply Hmag.
Qed.

Lemma tiny_small : 0 < pow2 (-1075) /\ pow2 (-1075) <= 1 # 1152921504606846976.
Proof. split; [apply pow2_pos|]. unfold Qle. vm_compute. discriminate. Qed.

(** Linear arithmetic with [2^-1075] as an unknown small quantity. *)
Ltac lra_tiny :=
  let H := fresh in
  pose proof tiny_small as H; destruct H;
  try (apply Qabs_Qle_condition; split);
  repeat match goal with
         | H : Qabs ?x <= ?y |- _ =>
             let H' := fresh in
             pose proof (proj1 (Qabs_Qle_condition x y) H) as H'; destruct H'; revert H
         end;
  intros;
  let tiny := fresh "tiny" in
  set (tiny := pow2 (-1075)) in *; clearbody tiny; lra.

(** The arithmetic on some well-known inputs: [0.1 + 0.2 <= 0.3] is
    false, the sum being the double above 0.3; [2^53 + 1] is [2^53], the
    even one of the two nearest doubles; a product that leaves the range
    is [Infinity]; half of the smallest double is zero. *)
Example sum_of_tenths :
  leb (add (ofQ (1 # 10)) (ofQ (2 # 10))) (ofQ (3 # 10)) = false
  /\ leb (Finite (5404319552844596 # 18014398509481984))
         (add (ofQ (1 # 10)) (ofQ (2 # 10))) = true
  /\ leb (add (ofQ (1 # 10)) (ofQ (2 # 10)))
         (Finite (5404319552844596 # 18014398509481984)) = true.
Proof. vm_compute. repeat split. Qed.

Example ties_and_range :
  leb (add (ofZ (2 ^ 53)) (ofZ 1)) (ofZ (2 ^ 53)) = true
  /\ mul (ofZ (10 ^ 308)) (ofZ 10) = PosInfinity
  /\ leb (mul (Finite (pow2 (-1074))) (ofQ (1 # 2))) (ofZ 0) = true.
Proof. vm_compute. repeat split. Qed.

End JsNumberFacts.

(** ** Pre-download filters *)

Section PreFilters.

Variables (D : Type) (ext : Externals D).

(** A rejection by the pre-filters is the whole assessment: nothing has
    been read, written, fetched or logged to the trace. *)
Lemma assessCandidate_rejected (candidate : Candidate) (searchee : Searchee)
      (blockList : list string) (config : RuntimeConfig)
      (candidateTracker : option string) (st : State D) (rejection : Decision) :
  preFilter ext candidate searchee = Some rejection ->
  assessCandidate ext (inr candidate) searchee blockList config candidateTracker st
  = (Ret (mkAssessment rejection None None None), st).
Proof. intros Hpre. unfold assessCandidate. now rewrite Hpre. Qed.

Lemma ratio_within_bounds (size len factor : Q) :
  (0 < len)%Q ->
  (Qabs (size - len) / len <= factor)%Q <->
  (len - factor * len <= size /\ size <= len + factor * len)%Q.
Proof.
  intros Hlen.
  assert (Hne : ~ (len == 0)%Q) by (intros Hz; rewrite Hz in Hlen; now apply Qlt_irrefl in Hlen).
  assert (Hscale : (Qabs (size - len) / len <= factor)%Q
                   <-> (Qabs (size - len) <= factor * len)%Q).
  { split; intros Hle.
    - assert (Heq : (Qabs (size - len) == Qabs (size - len) / len * len)%Q)
        by (field; exact Hne).
      rewrite Heq. apply Qmult_le_compat_r; [exact Hle|now apply Qlt_le_weak].
    - apply Qle_shift_div_r; assumption. }
  rewrite Hscale, Qabs_Qle_condition. split; intros [H1 H2]; split; lra.
Qed.

(** The bounds of the fuzzy-size test are finite Numbers, off the exact
    bounds by at most [2^-50] of the length. *)
Lemma fuzzySize_bounds_error (factor : Q) (len : Z) :
  (0 <= factor <= 1)%Q -> (0 < len < 2 ^ 53)%Z ->
  exists l lower upper,
    JsNumber.ofZ len = JsNumber.Finite l /\ (l == inject_Z len)%Q
    /\ JsNumber.sub (JsNumber.ofZ len)
                    (JsNumber.mul (JsNumber.ofQ factor) (JsNumber.ofZ len))
       = JsNumber.Finite lower
    /\ JsNumber.add (JsNumber.ofZ len)
                    (JsNumber.mul (JsNumber.ofQ factor) (JsNumber.ofZ len))
       = JsNumber.Finite upper
    /\ (Qabs (lower - (l - factor * l)) <= (1 # 1125899906842624) * l)%Q
    /\ (Qabs (upper - (l + factor * l)) <= (1 # 1125899906842624) * l)%Q.
Proof.
  intros [Hf0 Hf1] [Hpos Hlen].
  destruct (JsNumberFacts.round_integer len) as (l & Hl & El); [lia|].
  assert (Hl1 : (1 <= l)%Q).
  { rewrite El. change 1%Q with (inject_Z 1). rewrite <- Zle_Qle. lia. }
  assert (Hl2 : (l <= 9007199254740992)%Q).
  { rewrite El. change 9007199254740992%Q with (inject_Z (2 ^ 53)).
    rewrite <- Zle_Qle. lia. }
  destruct (JsNumberFacts.round_error factor) as (F & HF & EF).
  { rewrite Qabs_pos by exact Hf0. lra. }
  rewrite (Qabs_pos factor) in EF by exact Hf0.
  assert (Hfl0 : (0 <= factor * l)%Q) by (apply Qmult_le_0_compat; lra).
  assert (Hfl1 : (0 <= (1 - factor) * l)%Q) by (apply Qmult_le_0_compat; lra).
  assert (HFl1 : (0 <= (F - factor + (1 # 4503599627370496)) * l)%Q)
    by (apply Qmult_le_0_compat; JsNumberFacts.lra_tiny).
  assert (HFl2 : (0 <= ((1 # 4503599627370496) - (F - factor)) * l)%Q)
    by (apply Qmult_le_0_compat; JsNumberFacts.lra_tiny).
  assert (Habs_a : (Qabs (F * l) <= 2 * l)%Q) by JsNumberFacts.lra_tiny.
  destruct (JsNumberFacts.round_error (F * l)) as (p & Hp & Ep);
    [JsNumberFacts.lra_tiny|].
  assert (Habs_lo : (Qabs (l + - p) <= 3 * l)%Q) by JsNumberFacts.lra_tiny.
  assert (Habs_hi : (Qabs (l + p) <= 3 * l)%Q) by JsNumberFacts.lra_tiny.
  destruct (JsNumberFacts.round_error (l + - p)) as (lower & Hlower & Elower);
    [JsNumberFacts.lra_tiny|].
  destruct (JsNumberFacts.round_error (l + p)) as (upper & Hupper & Eupper);
    [JsNumberFacts.lra_tiny|].
  exists l, lower, upper. split; [exact Hl|]. split; [exact El|].
  unfold JsNumber.ofQ. rewrite Hl, HF.
  cbn [JsNumber.mul JsNumber.sub JsNumber.add JsNumber.opp]. rewrite Hp.
  cbn [JsNumber.opp JsNumber.add].
  split; [exact Hlower|]. split; [exact Hupper|].
  split; JsNumberFacts.lra_tiny.
Qed.

(** Away from the threshold the test in doubles is the ratio test. *)
Lemma fuzzySizeDoesMatch_near_ratio (size : Z) (searchee : Searchee) :
  (0 <= getFuzzySizeFactor ext searchee <= 1)%Q ->
  (0 < s_length searchee < 2 ^ 53)%Z -> (Z.abs size < 2 ^ 53)%Z ->
  let ratio :=
    (Qabs (inject_Z size - inject_Z (s_length searchee))
     / inject_Z (s_length searchee))%Q in
  ((ratio <= getFuzzySizeFactor ext searchee - (1 # 1125899906842624))%Q ->
   fuzzySizeDoesMatch ext size searchee = true)
  /\ (fuzzySizeDoesMatch ext size searchee = true ->
      (ratio <= getFuzzySizeFactor ext searchee + (1 # 1125899906842624))%Q).
Proof.
  intros Hfactor Hlen Hsize ratio. unfold ratio. clear ratio.
  destruct (fuzzySize_bounds_error Hfactor Hlen)
    as (l & lower & upper & Hl & El & Hlower & Hupper & Elower & Eupper).
  destruct (JsNumberFacts.round_integer size Hsize) as (s & Hs & Es).
  assert (Hpos : (0 < l)%Q).
  { rewrite El. change 0%Q with (inject_Z 0). rewrite <- Zlt_Qlt. lia. }
  assert (Hpass : fuzzySizeDoesMatch ext size searchee = true
                  <-> (lower <= s /\ s <= upper)%Q).
  { unfold fuzzySizeDoesMatch. cbv zeta. rewrite Hlower, Hupper, Hs.
    cbn [JsNumber.leb]. now rewrite andb_true_iff, !Qle_bool_iff. }
  rewrite Hpass, <- El, <- Es, !(ratio_within_bounds _ _ Hpos).
  split; intros [H1 H2]; split; JsNumberFacts.lra_tiny.
Qed.

End PreFilters.

(** C8, as the code has it.  [fuzzySizeDoesMatch(size, searchee)] holds
    exactly when [size] lies within the inclusive bounds that the code
    computes in double precision as [length - factor * length] and
    [length + factor * length], the product, the difference and the sum
    each rounded.  For a factor between 0 and 1 and a length below [2^53]
    the two bounds are finite and differ from the exact ones by at most
    [2^-50] of the length, so for sizes below [2^53] the test agrees with
    [|size - length| / length <= factor] away from the threshold: a ratio
    of at most [factor - 2^-50] passes, and a ratio that passes is at most
    [factor + 2^-50].  A candidate that advertises a size (a [size] that is
    present and not zero, the test of the code) and has passed the four
    filters before is rejected with [FUZZY_SIZE_MISMATCH] exactly when the
    test fails (a candidate whose size is missing or zero is never
    rejected for its size), and the rejection is returned before anything
    is fetched: the state, trace included, is untouched.  In particular
    size 2000 against length 1000 with factor 0.02 is rejected. *)
Theorem fuzzySize_prefilter_within_rounded_bounds
        (D : Type) (ext : Externals D) (candidate : Candidate) (searchee : Searchee) :
  let factor := getFuzzySizeFactor ext searchee in
  let len := s_length searchee in
  let length := JsNumber.ofZ len in
  let lowerBound := JsNumber.sub length (JsNumber.mul (JsNumber.ofQ factor) length) in
  let upperBound := JsNumber.add length (JsNumber.mul (JsNumber.ofQ factor) length) in
  let ratio size := (Qabs (inject_Z size - inject_Z len) / inject_Z len)%Q in
  let earlierPass :=
    releaseGroupDoesMatch ext (s_title searchee) (c_name candidate) = true
    /\ resolutionDoesMatch ext (s_title searchee) (c_name candidate) = true
    /\ sourceDoesMatch ext (s_title searchee) (c_name candidate) = true
    /\ releaseVersionDoesMatch ext (s_title searchee) (c_name candidate) = true in
  (forall size,
      fuzzySizeDoesMatch ext size searchee = true <->
      JsNumber.leb lowerBound (JsNumber.ofZ size) = true
      /\ JsNumber.leb (JsNumber.ofZ size) upperBound = true)
  /\ ((0 <= factor <= 1)%Q -> (0 < len < 2 ^ 53)%Z ->
      (exists lower upper,
          lowerBound = JsNumber.Finite lower /\ upperBound = JsNumber.Finite upper
          /\ (Qabs (lower - (inject_Z len - factor * inject_Z len))
              <= JsNumber.pow2 (-50) * inject_Z len)%Q
          /\ (Qabs (upper - (inject_Z len + factor * inject_Z len))
              <= JsNumber.pow2 (-50) * inject_Z len)%Q)
      /\ forall size, (Z.abs size < 2 ^ 53)%Z ->
           ((ratio size <= factor - JsNumber.pow2 (-50))%Q ->
            fuzzySizeDoesMatch ext size searchee = true)
           /\ (fuzzySizeDoesMatch ext size searchee = true ->
               (ratio size <= factor + JsNumber.pow2 (-50))%Q))
  /\ (forall size, c_size candidate = Some size -> size <> 0%Z -> earlierPass ->
        (preFilter ext candidate searchee = Some FUZZY_SIZE_MISMATCH <->
         fuzzySizeDoesMatch ext size searchee = false))
  /\ (sizeTruthy (c_size candidate) = false ->
      preFilter ext candidate searchee <> Some FUZZY_SIZE_MISMATCH)
  /\ (forall blockList config candidateTracker (st : State D),
        preFilter ext candidate searchee = Some FUZZY_SIZE_MISMATCH ->
        assessCandidate ext (inr candidate) searchee blockList config candidateTracker st
        = (Ret (mkAssessment FUZZY_SIZE_MISMATCH None None None), st))
  /\ (len = 1000%Z -> factor = (2 # 100)%Q ->
      c_size candidate = Some 2000%Z -> earlierPass ->
      forall blockList config candidateTracker (st : State D),
        assessCandidate ext (inr candidate) searchee blockList config candidateTracker st
        = (Ret (mkAssessment FUZZY_SIZE_MISMATCH None None None), st)).
Proof.
  intros factor len length lowerBound upperBound ratio earlierPass.
  assert (Hslack : (JsNumber.pow2 (-50) == 1 # 1125899906842624)%Q) by reflexivity.
  assert (Hstep : forall size, c_size candidate = Some size -> size <> 0%Z -> earlierPass ->
             (preFilter ext candidate searchee = Some FUZZY_SIZE_MISMATCH <->
              fuzzySizeDoesMatch ext size searchee = false)).
  { intros size Hsize Hnz (Hg & Hr & Hs & Hv).
    unfold preFilter. cbv zeta. rewrite Hg, Hr, Hs, Hv, Hsize. cbn [negb sizeTruthy].
    apply Z.eqb_neq in Hnz. rewrite Hnz. cbn [negb andb].
    destruct (fuzzySizeDoesMatch ext size searchee); cbn [negb].
    - split; [|discriminate].
      destruct (negb (JsString.truthy (c_link candidate))); discriminate.
    - split; reflexivity. }
  split.
  { intros size. unfold fuzzySizeDoesMatch. cbv zeta. apply andb_true_iff. }
  split.
  { intros Hfactor Hlen. split.
    - destruct (fuzzySize_bounds_error Hfactor Hlen)
        as (l & lower & upper & _ & El & Hlower & Hupper & Elower & Eupper).
      exists lower, upper. split; [exact Hlower|]. split; [exact Hupper|].
      rewrite Hslack, <- El. now split.
    - intros size Hsize.
      destruct (fuzzySizeDoesMatch_near_ratio ext size searchee Hfactor Hlen Hsize)
        as [Hpass Hratio].
      unfold ratio. rewrite Hslack. now split. }
  split; [exact Hstep|].
  split.
  { intros Hnone Hpre. unfold preFilter in Hpre. cbv zeta in Hpre.
    rewrite Hnone in Hpre. cbn [andb] in Hpre.
    repeat match type of Hpre with
           | (if ?c then _ else _) = _ => destruct c
           end; discriminate. }
  split.
  { intros blockList config candidateTracker st Hpre.
    now apply assessCandidate_rejected. }
  intros Hlen Hfactor Hsize Hearlier blockList config candidateTracker st.
  apply assessCandidate_rejected.
  apply (Hstep 2000%Z Hsize); [discriminate|exact Hearlier|].
  unfold fuzzySizeDoesMatch. cbv zeta. fold factor len. rewrite Hfactor, Hlen.
  vm_compute. reflexivity.
Qed.

(** C8 as stated fails.  For a searchee of length 100 and the factor 0.57
    the sizes 43 and 157 are equally far from the length, with ratio 0.57,
    yet the test rejects 43 and accepts 157: the lower bound is rounded to
    the double above 43 and the upper one to 157.  So the test is not the
    comparison of the ratio with the factor, nor with any other number,
    and a candidate of size 43 is turned away although its ratio is the
    factor. *)
Lemma fuzzySize_ratio_fails_at_the_threshold :
  let ext := Sim.ext (57 # 100) in
  let searchee := mkSearchee "Show.S01" None None [mkFile 100 "a.mkv" "a.mkv"] 100
                             L_SEARCH in
  let candidate := mkCandidate "Show.S01" "guid-1" "http://indexer/1" "a.example"
                               (Some 1%Z) (Some 43%Z) in
  let ratio size := (Qabs (inject_Z size - inject_Z 100) / inject_Z 100)%Q in
  fuzzySizeDoesMatch ext 43 searchee = false
  /\ fuzzySizeDoesMatch ext 157 searchee = true
  /\ (ratio 43%Z == 57 # 100)%Q
  /\ (ratio 157%Z == 57 # 100)%Q
  /\ ~ (forall size, fuzzySizeDoesMatch ext size searchee = true
                     <-> (ratio size <= getFuzzySizeFactor ext searchee)%Q)
  /\ ~ (exists threshold : Q,
          forall size, fuzzySizeDoesMatch ext size searchee = true
                       <-> (ratio size <= threshold)%Q)
  /\ fst (assessCandidate ext (inr candidate) searchee [] (mkConfig false FLEXIBLE [])
                          None Ex.oneClient)
     = Ret (mkAssessment FUZZY_SIZE_MISMATCH None None None).
Proof.
  cbv zeta.
  assert (H43 : fuzzySizeDoesMatch (Sim.ext (57 # 100)) 43
                  (mkSearchee "Show.S01" None None [mkFile 100 "a.mkv" "a.mkv"] 100
                              L_SEARCH) = false) by (vm_compute; reflexivity).
  assert (H157 : fuzzySizeDoesMatch (Sim.ext (57 # 100)) 157
                   (mkSearchee "Show.S01" None None [mkFile 100 "a.mkv" "a.mkv"] 100
                               L_SEARCH) = true) by (vm_compute; reflexivity).
  split; [exact H43|]. split; [exact H157|].
  split; [reflexivity|]. split; [reflexivity|].
  split.
  { intros Hall. destruct (Hall 43%Z) as [_ Hpass].
    rewrite H43 in Hpass. discriminate Hpass. cbn. unfold Qle. cbn. lia. }
  split.
  { intros (threshold & Hall).
    destruct (Hall 157%Z) as [Hle _]. destruct (Hall 43%Z) as [_ Hpass].
    specialize (Hle H157). rewrite H43 in Hpass. discriminate Hpass.
    assert (Heq : (Qabs (inject_Z 43 - inject_Z 100) / inject_Z 100
                   == Qabs (inject_Z 157 - inject_Z 100) / inject_Z 100)%Q)
      by reflexivity.
    now rewrite Heq. }
  vm_compute. reflexivity.
Qed.

(** Scenario 3 of the specification, run on the simulated installation;
    and a size whose ratio, 0.01, is well below the factor 0.02. *)
Lemma fuzzySize_prefilter_within_rounded_bounds_witness :
  let searchee :=
    mkSearchee "Show.S01" None None [mkFile 1000 "a.mkv" "a.mkv"] 1000 L_SEARCH in
  assessCandidate Ex.ext
    (inr (mkCandidate "Show.S01" "guid-1" "http://indexer/1" "a.example" (Some 1%Z)
                      (Some 2000%Z)))
    searchee [] (mkConfig false FLEXIBLE []) None Ex.oneClient
  = (Ret (mkAssessment FUZZY_SIZE_MISMATCH None None None), Ex.oneClient)
  /\ fuzzySizeDoesMatch Ex.ext 1010 searchee = true.
Proof.
  cbv zeta.
  pose proof (fuzzySize_prefilter_within_rounded_bounds Ex.ext
                (mkCandidate "Show.S01" "guid-1" "http://indexer/1" "a.example"
                             (Some 1%Z) (Some 2000%Z))
                (mkSearchee "Show.S01" None None [mkFile 1000 "a.mkv" "a.mkv"] 1000
                            L_SEARCH))
    as (_ & Hnear & _ & _ & _ & Hscenario).
  split.
  - apply Hscenario; [reflexivity|reflexivity|reflexivity|repeat split].
  - destruct Hnear as [_ Hnear].
    + split; discriminate.
    + split; reflexivity.
    + apply (Hnear 1010%Z); [reflexivity|]. unfold Qle. vm_compute. discriminate.
Defined.

(** C5.  Given a [Candidate], [assessCandidate] applies the pre-filters in
    the order release group, resolution, source, proper/repack, fuzzy size,
    download link, and returns the mismatch decision of the first one that
    fails -- a bare decision, with the state exactly as it was: nothing has
    been fetched, written or asked of a client.  So whenever the call
    changes the state at all (the trace of the snatch included), all six
    filters have passed. *)
Theorem assessCandidate_prefilter_order
        (D : Type) (ext : Externals D) (candidate : Candidate) (searchee : Searchee)
        (blockList : list string) (config : RuntimeConfig)
        (candidateTracker : option string) (st : State D) :
  let releaseGroup := releaseGroupDoesMatch ext (s_title searchee) (c_name candidate) in
  let resolution := resolutionDoesMatch ext (s_title searchee) (c_name candidate) in
  let source := sourceDoesMatch ext (s_title searchee) (c_name candidate) in
  let version := releaseVersionDoesMatch ext (s_title searchee) (c_name candidate) in
  let fuzzySize :=
    match c_size candidate with
    | Some size => if (size =? 0)%Z then true else fuzzySizeDoesMatch ext size searchee
    | None => true
    end in
  let link := JsString.truthy (c_link candidate) in
  let run :=
    assessCandidate ext (inr candidate) searchee blockList config candidateTracker st in
  let rejected d := (Ret (mkAssessment d None None None), st) in
  (releaseGroup = false -> run = rejected RELEASE_GROUP_MISMATCH)
  /\ (releaseGroup = true -> resolution = false -> run = rejected RESOLUTION_MISMATCH)
  /\ (releaseGroup = true -> resolution = true -> source = false ->
      run = rejected SOURCE_MISMATCH)
  /\ (releaseGroup = true -> resolution = true -> source = true -> version = false ->
      run = rejected PROPER_REPACK_MISMATCH)
  /\ (releaseGroup = true -> resolution = true -> source = true -> version = true ->
      fuzzySize = false -> run = rejected FUZZY_SIZE_MISMATCH)
  /\ (releaseGroup = true -> resolution = true -> source = true -> version = true ->
      fuzzySize = true -> link = false -> run = rejected NO_DOWNLOAD_LINK)
  /\ (releaseGroup = true -> resolution = true -> source = true -> version = true ->
      fuzzySize = true -> link = true -> preFilter ext candidate searchee = None)
  /\ (snd run <> st ->
      releaseGroup = true /\ resolution = true /\ source = true /\ version = true
      /\ fuzzySize = true /\ link = true).
Proof.
  intros releaseGroup resolution source version fuzzySize link run rejected.
  assert (Hpre : preFilter ext candidate searchee
                 = if negb releaseGroup then Some RELEASE_GROUP_MISMATCH
                   else if negb resolution then Some RESOLUTION_MISMATCH
                   else if negb source then Some SOURCE_MISMATCH
                   else if negb version then Some PROPER_REPACK_MISMATCH
                   else if negb fuzzySize then Some FUZZY_SIZE_MISMATCH
                   else if negb link then Some NO_DOWNLOAD_LINK
                   else None).
  { unfold preFilter. cbv zeta.
    fold releaseGroup resolution source version link.
    destruct releaseGroup, resolution, source, version; cbn [negb]; try reflexivity.
    unfold fuzzySize, sizeTruthy.
    destruct (c_size candidate) as [size|]; [|reflexivity].
    destruct (size =? 0)%Z; reflexivity. }
  assert (Hrej : forall d, preFilter ext candidate searchee = Some d -> run = rejected d).
  { intros d Hd. now apply assessCandidate_rejected. }
  split; [intros Hg; apply Hrej; now rewrite Hpre, Hg|].
  split; [intros Hg Hr; apply Hrej; now rewrite Hpre, Hg, Hr|].
  split; [intros Hg Hr Hs; apply Hrej; now rewrite Hpre, Hg, Hr, Hs|].
  split; [intros Hg Hr Hs Hv; apply Hrej; now rewrite Hpre, Hg, Hr, Hs, Hv|].
  split; [intros Hg Hr Hs Hv Hf; apply Hrej; now rewrite Hpre, Hg, Hr, Hs, Hv, Hf|].
  split; [intros Hg Hr Hs Hv Hf Hl; apply Hrej; now rewrite Hpre, Hg, Hr, Hs, Hv, Hf, Hl|].
  split; [intros Hg Hr Hs Hv Hf Hl; now rewrite Hpre, Hg, Hr, Hs, Hv, Hf, Hl|].
  intros Hchanged.
  destruct (preFilter ext candidate searchee) as [d|] eqn:Hd.
  - exfalso. apply Hchanged. now rewrite (Hrej d eq_refl).
  - rewrite Hpre in Hd.
    destruct releaseGroup, resolution, source, version, fuzzySize, link;
      try discriminate; now repeat split.
Qed.

(** A candidate without link is turned away with the state untouched; the
    first thing done for a candidate that passes is the snatch. *)
Lemma assessCandidate_prefilter_order_witness :
  assessCandidate Ex.ext (inr Ex.linklessCandidate) Ex.otherSearchee [] Ex.flexible None
                  Ex.oneClient
  = (Ret (mkAssessment NO_DOWNLOAD_LINK None None None), Ex.oneClient)
  /\ st_trace (snd (assessCandidate Ex.ext (inr Ex.candidate1) Ex.otherSearchee []
                                    Ex.flexible None Ex.oneClient))
     = [ EvSnatch "guid-1" 4 60000%Z ].
Proof.
  split; [|reflexivity].
  apply (assessCandidate_prefilter_order Ex.ext Ex.linklessCandidate Ex.otherSearchee
           [] Ex.flexible None Ex.oneClient); reflexivity.
Defined.

(** ** Content matching *)

(** C4, as the code has it.  When the full comparison of the file trees
    fails and the greedy size-only comparison [compareFileTreesIgnoringNames]
    succeeds (every candidate file consumes one remaining searchee file of
    its length; when several remain with that length, one of its name is
    required), the content decision is [MATCH_SIZE_ONLY] in the flexible
    and partial modes and [FILE_TREE_MISMATCH] in strict mode, where
    [MATCH_SIZE_ONLY] is never returned at all.  That decision is the
    result of [assessCandidate] for a metafile that reaches the content
    comparison: neither blocked, nor a known info hash, nor a single
    episode set against a season pack. *)
Theorem contentDecision_greedy_size_only
        (D : Type) (ext : Externals D) (metafile : Metafile) (searchee : Searchee)
        (config : RuntimeConfig) :
  compareFileTrees metafile searchee = false ->
  compareFileTreesIgnoringNames metafile searchee = true ->
  let expected :=
    match matchMode config with
    | STRICT => FILE_TREE_MISMATCH
    | _ => MATCH_SIZE_ONLY
    end in
  contentDecision ext metafile searchee (matchMode config) = expected
  /\ (forall m s, contentDecision ext m s STRICT <> MATCH_SIZE_ONLY)
  /\ (forall (blockList : list string) (candidateTracker : option string) (st : State D),
        findBlockedStringInSearchee ext searchee blockList = None ->
        optionStringEqb (s_infoHash searchee) (Some (m_infoHash metafile)) = false ->
        JsString.includes (st_exclude st) (m_infoHash metafile) = false ->
        findBlockedStringInMetafile ext metafile blockList = None ->
        negb (includeSingleEpisodes config) && testSeason ext (s_title searchee)
        && isSingleEpisode ext metafile (getMediaType ext metafile) = false ->
        assessCandidate ext (inl metafile) searchee blockList config candidateTracker st
        = (Ret (mkAssessment expected (Some metafile) (Some true) None), st)).
Proof.
  intros Hperfect Hsize expected.
  assert (Hcontent : contentDecision ext metafile searchee (matchMode config) = expected).
  { unfold contentDecision, expected. rewrite Hperfect, Hsize.
    now destruct (matchMode config). }
  split; [exact Hcontent|]. split.
  - intros m s. unfold contentDecision.
    destruct (compareFileTrees m s); [discriminate|].
    rewrite andb_false_r.
    now destruct (negb (compareFileTreesIgnoringNames m s)).
  - intros blockList candidateTracker st Hblocked Hhash Hexcl Hblocked' Hseason.
    unfold assessCandidate. rewrite Hblocked.
    unfold assessMetafile. rewrite Hhash.
    unfold bind, gets. cbn beta iota. rewrite Hexcl. cbn.
    unfold metafileDecision. now rewrite Hblocked', Hseason, Hcontent.
Qed.

(** Scenario 2 of the specification under both modes. *)
Lemma contentDecision_greedy_size_only_witness :
  contentDecision Ex.ext Ex.renamedMeta Ex.renamedSearchee FLEXIBLE = MATCH_SIZE_ONLY
  /\ contentDecision Ex.ext Ex.renamedMeta Ex.renamedSearchee STRICT = FILE_TREE_MISMATCH
  /\ assessCandidate Ex.ext (inl Ex.renamedMeta) Ex.renamedSearchee [] Ex.strict None
                     Ex.oneClient
     = (Ret (mkAssessment FILE_TREE_MISMATCH (Some Ex.renamedMeta) (Some true) None),
        Ex.oneClient).
Proof.
  split; [|split].
  - apply (@contentDecision_greedy_size_only Sim.Driver Ex.ext Ex.renamedMeta
             Ex.renamedSearchee Ex.flexible); reflexivity.
  - apply (@contentDecision_greedy_size_only Sim.Driver Ex.ext Ex.renamedMeta
             Ex.renamedSearchee Ex.strict); reflexivity.
  - apply (@contentDecision_greedy_size_only Sim.Driver Ex.ext Ex.renamedMeta
             Ex.renamedSearchee Ex.strict); reflexivity.
Defined.

(** C4 as stated fails: the two trees below have their file lengths in
    bijection and no full match, yet the assessment is [SIZE_MISMATCH] in
    flexible mode (not [MATCH_SIZE_ONLY]) and in strict mode (not
    [FILE_TREE_MISMATCH]): with two searchee files of the candidate file's
    length left, the greedy comparison insists on an equal name. *)
Lemma size_only_bijection_is_size_mismatch :
  SizeOnlyBijection Ex.twinMeta Ex.twinSearchee
  /\ compareFileTrees Ex.twinMeta Ex.twinSearchee = false
  /\ compareFileTreesIgnoringNames Ex.twinMeta Ex.twinSearchee = false
  /\ assessCandidate Ex.ext (inl Ex.twinMeta) Ex.twinSearchee [] Ex.flexible None
                     Ex.oneClient
     = (Ret (mkAssessment SIZE_MISMATCH (Some Ex.twinMeta) (Some true) None), Ex.oneClient)
  /\ assessCandidate Ex.ext (inl Ex.twinMeta) Ex.twinSearchee [] Ex.strict None
                     Ex.oneClient
     = (Ret (mkAssessment SIZE_MISMATCH (Some Ex.twinMeta) (Some true) None), Ex.oneClient).
Proof.
  repeat split. apply Permutation_refl.
Qed.

(** ** Persistence of assessments *)

Section Persistence.

Variables (D : Type) (ext : Externals D).

Lemma nextDecisionId_positive (rows : list DecisionRow) : (0 < nextDecisionId rows)%Z.
Proof.
  unfold nextDecisionId.
  assert (0 <= fold_right Z.max 0 (map d_id rows))%Z; [|lia].
  induction rows as [|d rows IH]; simpl; lia.
Qed.

(** After the upsert the row of [(searchee_id, guid)] is on file, with the
    columns just written and the id it had, or a fresh one. *)
Lemma find_upsertDecision (searchee_id : Z) (guid : string) (info_hash : option string)
      (decision : Decision) (first_seen last_seen : option Z) (factor : Q)
      (rows : list DecisionRow) :
  exists id,
    find (isDecisionKey searchee_id guid)
         (upsertDecision searchee_id guid info_hash decision first_seen last_seen
                         factor rows)
    = Some (mkDecisionRow id searchee_id guid info_hash decision first_seen last_seen
                          factor)
    /\ ((forall d, In d rows -> d_id d <> 0%Z) -> id <> 0%Z).
Proof.
  assert (Hkey : forall id,
             isDecisionKey searchee_id guid
               (mkDecisionRow id searchee_id guid info_hash decision first_seen
                              last_seen factor) = true).
  { intros id. unfold isDecisionKey. cbn. now rewrite Z.eqb_refl, String.eqb_refl. }
  unfold upsertDecision.
  destruct (existsb (isDecisionKey searchee_id guid) rows) eqn:Hex.
  - induction rows as [|d rows IH]; [discriminate|].
    cbn [map find]. cbn [existsb] in Hex.
    destruct (isDecisionKey searchee_id guid d) eqn:Hd.
    + exists (d_id d). rewrite Hkey. split; [reflexivity|].
      intros Hids. apply Hids. now left.
    + rewrite Hd. cbn [orb] in Hex. destruct (IH Hex) as (id & Hfind & Hid).
      exists id. split; [exact Hfind|]. intros Hids. apply Hid.
      intros d' Hd'. apply Hids. now right.
  - exists (nextDecisionId rows). split.
    + assert (Hnone : forall l, existsb (isDecisionKey searchee_id guid) l = false ->
                 forall tail, find (isDecisionKey searchee_id guid) (l ++ tail)
                              = find (isDecisionKey searchee_id guid) tail).
      { induction l as [|d l IHl]; intros Hl tail; [reflexivity|].
        cbn in Hl. apply orb_false_iff in Hl. destruct Hl as [Hd Hl].
        cbn. rewrite Hd. now apply IHl. }
      rewrite (Hnone rows Hex). cbn [find]. now rewrite Hkey.
    + intros _. pose proof (nextDecisionId_positive rows). lia.
Qed.

Lemma saveAssessment_run (assessment : ResultAssessment) (meta : Metafile)
      (searchee : Searchee) (guid : string) (firstSeen : Z) (st : State D)
      (searcheeRow : SearcheeRow) :
  find (fun s => String.eqb (se_name s) (s_title searchee)) (t_searchee (st_db st))
  = Some searcheeRow ->
  let db1 :=
    with_decision
      (upsertDecision (se_id searcheeRow) guid (Some (m_infoHash meta))
                      (decision assessment) (Some firstSeen)
                      (Some (clock ext (st_ticks st)))
                      (getFuzzySizeFactor ext searchee))
      (st_db st) in
  exists st' id,
    let dr := mkDecisionRow id (se_id searcheeRow) guid (Some (m_infoHash meta))
                            (decision assessment) (Some firstSeen)
                            (Some (clock ext (st_ticks st)))
                            (getFuzzySizeFactor ext searchee) in
    saveAssessment ext assessment meta searchee guid firstSeen st = (Ret tt, st')
    /\ find (isDecisionKey (se_id searcheeRow) guid) (t_decision (st_db st')) = Some dr
    /\ ((forall d, In d (t_decision (st_db st)) -> d_id d <> 0%Z) -> id <> 0%Z)
    /\ t_decision (st_db st') = t_decision db1
    /\ t_searchee (st_db st') = t_searchee (st_db st)
    /\ t_collisions (st_db st') = savedCollisions ext assessment meta firstSeen st db1 dr.
Proof.
  intros Hsearchee db1.
  destruct (find_upsertDecision (se_id searcheeRow) guid (Some (m_infoHash meta))
              (decision assessment) (Some firstSeen) (Some (clock ext (st_ticks st)))
              (getFuzzySizeFactor ext searchee) (t_decision (st_db st)))
    as (id & Hfind & Hid).
  unfold saveAssessment, bind at 1, getDb at 1, gets at 1. cbn beta iota.
  rewrite Hsearchee.
  unfold bind at 1, dateNow at 1. cbn beta iota.
  unfold bind at 1, modifyDb at 1, modify at 1. cbn beta iota.
  unfold bind at 1, getDb at 1, gets at 1. cbn beta iota.
  cbn [st_db set_db with_decision t_decision]. rewrite Hfind. cbn [d_id].
  match goal with
  | |- context [set_db ?db ?s] => set (st1 := set_db db s)
  end.
  assert (Hst1 : st_db st1 = db1 /\ st_ticks st1 = S (st_ticks st)
                 /\ t_collisions (st_db st1) = t_collisions (st_db st)
                 /\ t_searchee (st_db st1) = t_searchee (st_db st))
    by (now repeat split).
  destruct Hst1 as (Hdb1 & Hticks1 & Hcol1 & Hse1).
  assert (Hdelete : exists st' id0,
             deleteCollisionRecord id st1 = (Ret tt, st')
             /\ id0 = id
             /\ t_decision (st_db st') = t_decision db1
             /\ t_searchee (st_db st') = t_searchee (st_db st)
             /\ t_collisions (st_db st') = deleteCollision id (t_collisions (st_db st))).
  { eexists _, id. split; [reflexivity|]. now repeat split. }
  clearbody st1.
  unfold savedCollisions. cbn [d_id].
  destruct (id =? 0)%Z eqn:Hz.
  - exists st1, id. cbn zeta. rewrite Hz. split; [reflexivity|].
    split; [now rewrite Hdb1|]. split; [exact Hid|]. split; [now rewrite Hdb1|].
    now split.
  - assert (Hdone : forall (st' : State D) rows,
               t_decision (st_db st') = t_decision db1 ->
               t_searchee (st_db st') = t_searchee (st_db st) ->
               t_collisions (st_db st') = rows ->
               find (isDecisionKey (se_id searcheeRow) guid) (t_decision (st_db st'))
               = Some (mkDecisionRow id (se_id searcheeRow) guid (Some (m_infoHash meta))
                                     (decision assessment) (Some firstSeen)
                                     (Some (clock ext (st_ticks st)))
                                     (getFuzzySizeFactor ext searchee))
               /\ ((forall d, In d (t_decision (st_db st)) -> d_id d <> 0%Z) -> id <> 0%Z)
               /\ t_decision (st_db st') = t_decision db1
               /\ t_searchee (st_db st') = t_searchee (st_db st)
               /\ t_collisions (st_db st') = rows).
    { intros st' rows Hd Hs Hc. rewrite Hd. now repeat split. }
    destruct Hdelete as (stD & _ & HrunD & _ & HdD & HsD & HcD).
    destruct (trackerMismatch assessment) as [tm|] eqn:Htm.
    + destruct (decision assessment) eqn:Hdec;
        try (exists stD, id; cbn zeta; rewrite Hz; split; [exact HrunD|];
             apply Hdone; assumption).
      destruct (canRecordPrivateCollision (Some meta)) eqn:Hrec;
        [|exists stD, id; cbn zeta; rewrite Hz; split; [exact HrunD|];
          apply Hdone; assumption].
      unfold bind at 1, dateNow at 1. cbn beta iota.
      match goal with
      | |- context [upsertCollisionRecord ext id tm firstSeen ?ls ?s] =>
          destruct (upsertCollisionRecord_run ext id tm firstSeen ls s)
            as (st' & Hrun & Hframe & Hrows)
      end.
      destruct Hframe as (Fs & Fd & _ & _ & _ & _ & _ & _ & _ & _ & _).
      exists st', id. cbn zeta. rewrite Hz. split; [exact Hrun|].
      apply Hdone.
      * rewrite Fd. cbn [st_db]. now rewrite Hdb1.
      * rewrite Fs. cbn [st_db]. exact Hse1.
      * rewrite Hrows. cbn [st_db st_ticks].
        rewrite Hcol1, Hticks1, Hdb1. reflexivity.
    + destruct (decision assessment) eqn:Hdec;
        exists stD, id; cbn zeta; rewrite Hz; (split; [exact HrunD|]);
        apply Hdone; assumption.
Qed.

Lemma recordCachedCollision_run (entry : DecisionRow) (cachedMeta : option Metafile)
      (tm : option TrackerMismatchInfo) (st : State D) :
  let db1 :=
    with_decision (updateDecision (d_id entry) (clock ext (st_ticks st))
                                  (cachedDecision entry tm))
                  (st_db st) in
  exists st',
    recordCachedCollision ext entry cachedMeta tm st
    = (Ret (mkAssessment (collisionDecision tm) None None tm), st')
    /\ t_decision (st_db st') = t_decision db1
    /\ t_searchee (st_db st') = t_searchee (st_db st)
    /\ t_collisions (st_db st') = cachedCollisions ext entry cachedMeta tm st db1.
Proof.
  intros db1.
  unfold recordCachedCollision.
  unfold bind at 1, dateNow at 1. cbn beta iota.
  unfold bind at 1, modifyDb at 1, modify at 1. cbn beta iota.
  fold (cachedDecision entry tm).
  match goal with
  | |- context [set_db ?db ?s] => set (st1 := set_db db s)
  end.
  assert (Hst1 : st_db st1 = db1 /\ st_ticks st1 = S (st_ticks st)
                 /\ t_collisions (st_db st1) = t_collisions (st_db st)
                 /\ t_searchee (st_db st1) = t_searchee (st_db st))
    by (now repeat split).
  destruct Hst1 as (Hdb1 & Hticks1 & Hcol1 & Hse1).
  assert (Hdelete : exists st' : State D,
             deleteCollisionRecord (d_id entry) st1 = (Ret tt, st')
             /\ t_decision (st_db st') = t_decision db1
             /\ t_searchee (st_db st') = t_searchee (st_db st)
             /\ t_collisions (st_db st')
                = deleteCollision (d_id entry) (t_collisions (st_db st))).
  { eexists. split; [reflexivity|]. now repeat split. }
  clearbody st1. unfold cachedCollisions.
  destruct Hdelete as (stD & HrunD & HdD & HsD & HcD).
  destruct tm as [tm|].
  2:{ exists stD. unfold bind. rewrite HrunD. now repeat split. }
  destruct (canRecordPrivateCollision cachedMeta).
  2:{ exists stD. unfold bind. rewrite HrunD. now repeat split. }
  destruct (d_first_seen entry) as [v|];
    cbv beta iota delta [orDateNow ret dateNow bind].
  - match goal with
    | |- context [upsertCollisionRecord ext ?i ?t ?f ?ls ?s] =>
        destruct (upsertCollisionRecord_run ext i t f ls s)
          as (st' & Hrun & Hframe & Hrows)
    end.
    destruct Hframe as (Fs & Fd & _ & _ & _ & _ & _ & _ & _ & _ & _).
    exists st'. rewrite Hrun. split; [reflexivity|].
    split; [rewrite Fd; cbn [st_db]; now rewrite Hdb1|].
    split; [rewrite Fs; cbn [st_db]; exact Hse1|].
    rewrite Hrows. cbn [st_db st_ticks]. rewrite Hcol1, Hticks1, Hdb1. reflexivity.
  - match goal with
    | |- context [upsertCollisionRecord ext ?i ?t ?f ?ls ?s] =>
        destruct (upsertCollisionRecord_run ext i t f ls s)
          as (st' & Hrun & Hframe & Hrows)
    end.
    destruct Hframe as (Fs & Fd & _ & _ & _ & _ & _ & _ & _ & _ & _).
    exists st'. rewrite Hrun. split; [reflexivity|].
    split; [rewrite Fd; cbn [st_db]; now rewrite Hdb1|].
    split; [rewrite Fs; cbn [st_db]; exact Hse1|].
    rewrite Hrows. cbn [st_db st_ticks]. rewrite Hcol1, Hticks1, Hdb1. reflexivity.
Qed.

End Persistence.

(** ** Which assessments carry tracker-mismatch information *)

Section Mismatch.

Variables (D : Type) (ext : Externals D).

Lemma contentDecision_not_collision (metafile : Metafile) (searchee : Searchee)
      (mode : MatchMode) :
  contentDecision ext metafile searchee mode <> INFO_HASH_ALREADY_EXISTS_ANOTHER_TRACKER.
Proof.
  unfold contentDecision.
  destruct (compareFileTrees metafile searchee); [discriminate|].
  destruct (compareFileTreesIgnoringNames metafile searchee), mode; cbn;
    try discriminate;
    destruct (Qle_bool (getMinSizeRatio ext searchee)
                       (getPartialSizeRatio metafile searchee)); cbn;
    try discriminate;
    destruct (compareFileTreesPartial ext metafile searchee); discriminate.
Qed.

Lemma metafileDecision_not_collision (metafile : Metafile) (searchee : Searchee)
      (blockList : list string) (config : RuntimeConfig) :
  metafileDecision ext metafile searchee blockList config
  <> INFO_HASH_ALREADY_EXISTS_ANOTHER_TRACKER.
Proof.
  unfold metafileDecision.
  destruct (findBlockedStringInMetafile ext metafile blockList); [discriminate|].
  destruct (negb (includeSingleEpisodes config) && testSeason ext (s_title searchee)
            && isSingleEpisode ext metafile (getMediaType ext metafile));
    [discriminate|apply contentDecision_not_collision].
Qed.

Lemma CarriesMismatch_plain (d : Decision) (m : option Metafile) (c : option bool) :
  d <> INFO_HASH_ALREADY_EXISTS_ANOTHER_TRACKER ->
  CarriesMismatch (mkAssessment d m c None).
Proof. intros Hd. split; cbn; [contradiction|congruence]. Qed.

Lemma assessMetafile_mismatch (metafile : Metafile) (metaCached : bool)
      (searchee : Searchee) (blockList : list string) (config : RuntimeConfig)
      (candidateTracker : option string) (st st' : State D) (a : ResultAssessment) :
  assessMetafile ext metafile metaCached searchee blockList config candidateTracker st
  = (Ret a, st') ->
  CarriesMismatch a.
Proof.
  unfold assessMetafile.
  destruct (optionStringEqb (s_infoHash searchee) (Some (m_infoHash metafile))).
  - unfold bind. destruct (logAnnounceMismatch ext metafile st) as [[tm|] st1];
      [|discriminate].
    intros [= <- _]. destruct tm; split; cbn; congruence.
  - unfold bind at 1, gets at 1. cbn beta iota.
    destruct (JsString.includes (st_exclude st) (m_infoHash metafile)).
    + unfold bind at 1. unfold bind at 1.
      destruct (logAnnounceMismatch ext metafile st) as [[tm|] st1]; [|discriminate].
      unfold bind at 1.
      assert (Hrest : forall (st2 : State D) (a' : ResultAssessment) (st3 : State D),
                 bind (gets (fun s : State D =>
                               JsString.includes (st_exclude s) (m_infoHash metafile)))
                      (fun stillExcluded : bool =>
                         if stillExcluded
                         then ret (Some (mkAssessment (collisionDecision tm)
                                                      (Some metafile) (Some metaCached) tm))
                         else ret None) st2
                 = (Ret (Some a'), st3) -> CarriesMismatch a').
      { intros st2 a' st3. unfold bind, gets. cbn beta iota.
        destruct (JsString.includes (st_exclude st2) (m_infoHash metafile));
          [|discriminate].
        intros [= <- _]. destruct tm; split; cbn; congruence. }
      destruct (collisionCandidateTrackers tm candidateTracker) as [|t0 ts].
      * unfold ret at 1. cbn beta iota.
        match goal with
        | |- context [bind ?m ?k ?s] => destruct (bind m k s) as [[[a'|]|] st3] eqn:Hb
        end; try discriminate.
        -- intros [= <- _]. eapply Hrest; eassumption.
        -- intros [= <- _]. apply CarriesMismatch_plain, metafileDecision_not_collision.
      * unfold bind at 1.
        destruct (resolveConflictRules ext (m_infoHash metafile) (t0 :: ts)
                                       (s_title searchee) st1) as [[resolved|] st2];
          [|discriminate].
        destruct resolved; unfold modify at 1 || unfold ret at 1; cbn beta iota;
          match goal with
          | |- context [bind ?m ?k ?s] => destruct (bind m k s) as [[[a'|]|] st3] eqn:Hb
          end; try discriminate;
          intros [= <- _];
          (eapply Hrest; eassumption)
          || apply CarriesMismatch_plain, metafileDecision_not_collision.
    + intros [= <- _]. apply CarriesMismatch_plain, metafileDecision_not_collision.
Qed.

Lemma assessCandidate_mismatch (metaOrCandidate : Metafile + Candidate)
      (searchee : Searchee) (blockList : list string) (config : RuntimeConfig)
      (candidateTracker : option string) (st st' : State D) (a : ResultAssessment) :
  assessCandidate ext metaOrCandidate searchee blockList config candidateTracker st
  = (Ret a, st') ->
  CarriesMismatch a.
Proof.
  unfold assessCandidate. destruct metaOrCandidate as [metafile|candidate].
  - destruct (findBlockedStringInSearchee ext searchee blockList).
    + intros [= <- _]. now apply CarriesMismatch_plain.
    + apply assessMetafile_mismatch.
  - destruct (preFilter ext candidate searchee) as [rejection|] eqn:Hpre.
    + intros [= <- _]. apply CarriesMismatch_plain.
      unfold preFilter in Hpre.
      repeat match type of Hpre with
             | (if ?c then _ else _) = _ => destruct c
             end; congruence.
    + destruct (findBlockedStringInSearchee ext searchee blockList).
      * intros [= <- _]. now apply CarriesMismatch_plain.
      * unfold bind at 1, emit at 1, modify at 1. cbn beta iota.
        destruct (snatch ext candidate (s_label searchee) 4
                         (snatchDelayMs (s_label searchee))) as [metafile|err].
        -- unfold bind at 1.
           match goal with
           | |- context [cacheTorrentFile ext metafile candidate ?s] =>
               destruct (cacheTorrentFile ext metafile candidate s) as [[cached|] st1]
           end; [|discriminate].
           apply assessMetafile_mismatch.
        -- intros [= <- _]. apply CarriesMismatch_plain. now destruct err.
Qed.

End Mismatch.

(** ** Private collisions only *)

Lemma canRecordPrivateCollision_iff (meta : option Metafile) :
  canRecordPrivateCollision meta = true <->
  exists m, meta = Some m /\ infoPrivate m = Some (BInt 1).
Proof.
  unfold canRecordPrivateCollision, getTorrentPrivateFlag, infoPrivate.
  destruct meta as [m|]; [|split; [discriminate|intros (m & Hm & _); discriminate]].
  split.
  - intros Hrec. exists m. split; [reflexivity|].
    destruct (m_raw m) as [raw|]; [|discriminate].
    destruct (tr_info raw) as [info|]; [|discriminate].
    destruct (ti_private info) as [[n|bytes]|]; try discriminate.
    destruct n as [|[p|p|]|p]; try discriminate. reflexivity.
  - intros (m' & [= <-] & Hflag).
    destruct (m_raw m) as [raw|]; [|discriminate].
    destruct (tr_info raw) as [info|]; [|discriminate].
    now rewrite Hflag.
Qed.



(** ** When a collision row exists *)

Lemma findEquivalentCollision_some (db : Db) (decisionId : Z)
      (cand known : list string) (existingId : Z) :
  findEquivalentCollision db decisionId cand known = Some existingId ->
  exists existing info_hash name,
    In existing (t_collisions db)
    /\ co_decision_id existing = existingId
    /\ EquivalentCollision db info_hash name cand known decisionId existing.
Proof.
  unfold findEquivalentCollision.
  destruct (find (fun d => (d_id d =? decisionId)%Z) (t_decision db)) as [dr|];
    [|discriminate].
  destruct (d_info_hash dr) as [info_hash|]; [|discriminate].
  destruct (JsString.truthy info_hash && negb (d_searchee_id dr =? 0)%Z);
    [|discriminate].
  destruct (find (fun s => (se_id s =? d_searchee_id dr)%Z) (t_searchee db)) as [sr|];
    [|discriminate].
  destruct (JsString.truthy (se_name sr)); [|discriminate].
  destruct (find (isEquivalentCollision db info_hash (se_name sr) cand known decisionId)
                 (t_collisions db)) as [existing|] eqn:Hfind; [|discriminate].
  destruct (co_decision_id existing =? 0)%Z; [discriminate|].
  intros [= <-]. apply find_some in Hfind. destruct Hfind as [Hin Heq].
  exists existing, info_hash, (se_name sr). split; [exact Hin|].
  split; [reflexivity|]. now apply isEquivalentCollision_spec.
Qed.

Lemma insertOrMergeCollision_recorded (payload : CollisionRow) (rows : list CollisionRow) :
  exists c, In c (insertOrMergeCollision payload rows)
            /\ co_decision_id c = co_decision_id payload
            /\ co_candidate_trackers c = co_candidate_trackers payload
            /\ co_known_trackers c = co_known_trackers payload.
Proof.
  unfold insertOrMergeCollision.
  destruct (existsb (fun c => (co_decision_id c =? co_decision_id payload)%Z) rows)
    eqn:Hex.
  - apply existsb_exists in Hex. destruct Hex as (c & Hin & Hid).
    eexists. split.
    + apply in_map_iff. exists c. split; [|exact Hin]. rewrite Hid. reflexivity.
    + apply Z.eqb_eq in Hid. now repeat split.
  - exists payload. split; [apply in_or_app; right; now left|now repeat split].
Qed.

Lemma refreshed_equivalent_recorded (decisionId existingId lastSeen updated_at : Z)
      (rows : list CollisionRow) (existing : CollisionRow) :
  In existing rows -> co_decision_id existing = existingId ->
  existingId <> decisionId ->
  exists c, In c (deleteCollision decisionId
                    (refreshCollision existingId lastSeen updated_at rows))
            /\ co_decision_id c = existingId
            /\ co_candidate_trackers c = co_candidate_trackers existing
            /\ co_known_trackers c = co_known_trackers existing
            /\ co_last_seen c = Some lastSeen.
Proof.
  intros Hin Hid Hne. eexists. split.
  - unfold deleteCollision. apply filter_In. split.
    + unfold refreshCollision. apply in_map_iff. exists existing.
      split; [|exact Hin]. apply Z.eqb_eq in Hid. rewrite Hid. reflexivity.
    + cbn. rewrite Hid. apply Z.eqb_neq in Hne. now rewrite Hne.
  - now repeat split.
Qed.

Lemma hasCollision_true (db : Db) (decisionId : Z) :
  hasCollision db decisionId = true <->
  exists c, In c (t_collisions db) /\ co_decision_id c = decisionId.
Proof.
  unfold hasCollision. rewrite existsb_exists.
  split; intros (c & Hin & Hid); exists c; (split; [exact Hin|]);
    now apply Z.eqb_eq.
Qed.

Lemma updateDecision_stored (id last_seen : Z) (decision : Decision)
      (rows : list DecisionRow) (d : DecisionRow) :
  In d (updateDecision id last_seen decision rows) -> d_id d = id ->
  d_decision d = decision.
Proof.
  unfold updateDecision. intros Hin Hid. apply in_map_iff in Hin.
  destruct Hin as (d0 & Hd & _).
  destruct (d_id d0 =? id)%Z eqn:Hd0; subst d; [reflexivity|].
  apply Z.eqb_neq in Hd0. contradiction.
Qed.

(** C2, as the code has it.  Every assessment of [assessCandidate] is of
    the cross-tracker kind exactly when it carries the tracker mismatch.
    After the transaction of [assessAndSaveResults] the decision row holds
    the decision of the assessment, and a collision row of that decision
    exists only if that decision is
    [INFO_HASH_ALREADY_EXISTS_ANOTHER_TRACKER] and the candidate metafile
    has [private = 1]; under these two conditions the tracker payloads are
    on record, either on a row of this decision or, when an equivalent row
    of another decision was found, on that row, this decision then having
    no row of its own.  After the cached path of [assessCandidateCaching]
    a collision row of the cached decision exists only if a tracker
    mismatch was found and the cached metafile has [private = 1]; the
    stored decision is then the cross-tracker one or the match decision
    the row held before, which that path preserves. *)
Theorem collision_row_only_for_private_cross_tracker (D : Type) (ext : Externals D) :
  (forall metaOrCandidate searchee blockList config candidateTracker
          (st st' : State D) a,
      assessCandidate ext metaOrCandidate searchee blockList config candidateTracker st
      = (Ret a, st') ->
      CarriesMismatch a)
  /\ (forall (a : ResultAssessment) (meta : Metafile) (searchee : Searchee)
             (guid : string) (firstSeen : Z) (st : State D) (searcheeRow : SearcheeRow),
        find (fun s => String.eqb (se_name s) (s_title searchee)) (t_searchee (st_db st))
        = Some searcheeRow ->
        (forall d, In d (t_decision (st_db st)) -> d_id d <> 0%Z) ->
        CarriesMismatch a ->
        exists st' dr,
          saveAssessment ext a meta searchee guid firstSeen st = (Ret tt, st')
          /\ find (isDecisionKey (se_id searcheeRow) guid) (t_decision (st_db st'))
             = Some dr
          /\ d_decision dr = decision a
          /\ (hasCollision (st_db st') (d_id dr) = true ->
              d_decision dr = INFO_HASH_ALREADY_EXISTS_ANOTHER_TRACKER
              /\ infoPrivate meta = Some (BInt 1))
          /\ (d_decision dr = INFO_HASH_ALREADY_EXISTS_ANOTHER_TRACKER ->
              infoPrivate meta = Some (BInt 1) ->
              exists tm c,
                trackerMismatch a = Some tm
                /\ In c (t_collisions (st_db st'))
                /\ co_candidate_trackers c = candidateTrackers tm
                /\ co_known_trackers c = knownTrackers tm
                /\ (co_decision_id c = d_id dr
                    \/ (co_decision_id c <> d_id dr
                        /\ hasCollision (st_db st') (d_id dr) = false))))
  /\ (forall (entry : DecisionRow) (cachedMeta : option Metafile)
             (tm : option TrackerMismatchInfo) (st : State D),
        exists st',
          recordCachedCollision ext entry cachedMeta tm st
          = (Ret (mkAssessment (collisionDecision tm) None None tm), st')
          /\ (forall d, In d (t_decision (st_db st')) -> d_id d = d_id entry ->
                d_decision d = cachedDecision entry tm)
          /\ (hasCollision (st_db st') (d_id entry) = true ->
              tm <> None
              /\ (exists m, cachedMeta = Some m /\ infoPrivate m = Some (BInt 1))
              /\ (cachedDecision entry tm = INFO_HASH_ALREADY_EXISTS_ANOTHER_TRACKER
                  \/ (isAnyMatchedDecision (d_decision entry) = true
                      /\ cachedDecision entry tm = d_decision entry)))).
Proof.
  split; [intros; eapply assessCandidate_mismatch; eassumption|].
  split.
  - intros a meta searchee guid firstSeen st searcheeRow Hsearchee Hids Hcarries.
    destruct (@saveAssessment_run D ext a meta searchee guid firstSeen st
                                  searcheeRow Hsearchee)
      as (st' & id & Hrun & Hfind & Hid & _ & _ & Hrows).
    cbv zeta in Hrun, Hfind, Hrows.
    eexists st', _. split; [exact Hrun|]. split; [exact Hfind|].
    cbn [d_id d_decision]. split; [reflexivity|].
    assert (Hnz : (id =? 0)%Z = false) by (apply Z.eqb_neq, Hid, Hids).
    unfold savedCollisions in Hrows. cbn [d_id] in Hrows. rewrite Hnz in Hrows.
    assert (Hgone : t_collisions (st_db st')
                    = deleteCollision id (t_collisions (st_db st)) ->
                    hasCollision (st_db st') id = false).
    { intros Hdel. unfold hasCollision. rewrite Hdel. apply hasCollision_delete. }
    split.
    + intros Hhas.
      destruct (trackerMismatch a) as [tm|] eqn:Htm.
      * destruct (decision a) eqn:Hdec;
          try (rewrite (Hgone Hrows) in Hhas; discriminate).
        destruct (canRecordPrivateCollision (Some meta)) eqn:Hrec;
          [|rewrite (Hgone Hrows) in Hhas; discriminate].
        split; [reflexivity|].
        apply canRecordPrivateCollision_iff in Hrec.
        now destruct Hrec as (m & [= <-] & Hone).
      * assert (Hdel : t_collisions (st_db st')
                       = deleteCollision id (t_collisions (st_db st)))
          by (rewrite Hrows; now destruct (decision a)).
        rewrite (Hgone Hdel) in Hhas. discriminate.
    + intros Hdec Hprivate.
      destruct (trackerMismatch a) as [tm|] eqn:Htm;
        [|now destruct (proj1 Hcarries Hdec)].
      assert (Hrec : canRecordPrivateCollision (Some meta) = true)
        by (apply canRecordPrivateCollision_iff; now exists meta).
      rewrite Hdec, Hrec in Hrows.
      match type of Hrows with
      | _ = match ?search with _ => _ end => destruct search as [existingId|] eqn:Hsearch
      end.
      * destruct (findEquivalentCollision_some _ _ _ _ Hsearch)
          as (existing & info_hash & name & Hin & Heid & Heq).
        assert (Hne : existingId <> id).
        { destruct Heq as (_ & _ & _ & Hother). congruence. }
        destruct (@refreshed_equivalent_recorded
                    id existingId
                    (clock ext (S (st_ticks st))) (clock ext (S (S (st_ticks st))))
                    (t_collisions (st_db st)) existing Hin Heid Hne)
          as (c & Hc & Hcid & Hcc & Hck & _).
        exists tm, c. split; [reflexivity|]. rewrite Hrows.
        split; [exact Hc|].
        destruct Heq as (_ & Hcand & Hknown & _).
        split; [congruence|]. split; [congruence|].
        right. split; [congruence|].
        unfold hasCollision. rewrite Hrows. apply hasCollision_delete.
      * match type of Hrows with
        | _ = insertOrMergeCollision ?payload ?rows =>
            destruct (insertOrMergeCollision_recorded payload rows)
              as (c & Hc & Hcid & Hcc & Hck)
        end.
        exists tm, c. split; [reflexivity|]. rewrite Hrows.
        split; [exact Hc|]. split; [exact Hcc|]. split; [exact Hck|].
        left. exact Hcid.
  - intros entry cachedMeta tm st.
    destruct (recordCachedCollision_run ext entry cachedMeta tm st)
      as (st' & Hrun & Hdecision & _ & Hrows).
    cbv zeta in Hdecision, Hrows.
    exists st'. split; [exact Hrun|]. split.
    + intros d Hin Hid. rewrite Hdecision in Hin. cbn [t_decision with_decision] in Hin.
      eapply updateDecision_stored; eassumption.
    + intros Hhas. unfold cachedCollisions in Hrows.
      assert (Hgone : t_collisions (st_db st')
                      = deleteCollision (d_id entry) (t_collisions (st_db st)) -> False).
      { intros Hdel. unfold hasCollision in Hhas. rewrite Hdel in Hhas.
        rewrite hasCollision_delete in Hhas. discriminate. }
      destruct tm as [tm|]; [|now destruct (Hgone Hrows)].
      destruct (canRecordPrivateCollision cachedMeta) eqn:Hrec;
        [|now destruct (Hgone Hrows)].
      split; [discriminate|].
      split; [now apply canRecordPrivateCollision_iff|].
      unfold cachedDecision.
      destruct (isAnyMatchedDecision (d_decision entry));
        [right; now split|left; reflexivity].
Qed.

(** The private torrent of the example announced again under [guid-1]:
    the decision is stored as the cross-tracker collision and keeps its
    collision row. *)
Lemma collision_row_only_for_private_cross_tracker_witness :
  exists st',
    saveAssessment Ex.ext
      (mkAssessment INFO_HASH_ALREADY_EXISTS_ANOTHER_TRACKER (Some Ex.privateMeta)
                    (Some true) (Some (mkMismatch ["a.example"] ["b.example"])))
      Ex.privateMeta Ex.sameSearchee "guid-1" 30 Ex.colliding
    = (Ret tt, st')
    /\ hasCollision (st_db st') 1 = true.
Proof.
  destruct (proj1 (proj2 (collision_row_only_for_private_cross_tracker Ex.ext))
              (mkAssessment INFO_HASH_ALREADY_EXISTS_ANOTHER_TRACKER (Some Ex.privateMeta)
                            (Some true) (Some (mkMismatch ["a.example"] ["b.example"])))
              Ex.privateMeta Ex.sameSearchee "guid-1" 30%Z Ex.colliding
              (mkSearcheeRow 1 "Show.S01"))
    as (st' & dr & Hrun & Hfind & _).
  - reflexivity.
  - intros d [<-|[<-|[]]]; discriminate.
  - split; [intros _; discriminate|reflexivity].
  - exists st'. split; [exact Hrun|].
    assert (Hst : st' = snd (saveAssessment Ex.ext
                    (mkAssessment INFO_HASH_ALREADY_EXISTS_ANOTHER_TRACKER
                                  (Some Ex.privateMeta) (Some true)
                                  (Some (mkMismatch ["a.example"] ["b.example"])))
                    Ex.privateMeta Ex.sameSearchee "guid-1" 30 Ex.colliding))
      by (now rewrite Hrun).
    rewrite Hst. reflexivity.
Defined.

(** C2 as stated fails in both directions.  On the cached path a decision
    that was a match keeps its [MATCH] tag and nevertheless gets a
    collision row; and in the transaction of [assessAndSaveResults] a
    private candidate whose decision is stored as
    [INFO_HASH_ALREADY_EXISTS_ANOTHER_TRACKER] gets no collision row when
    an equivalent row of another decision is on file. *)
Lemma collision_row_iff_cross_tracker_fails :
  (let run := assessCandidateCaching Ex.ext Ex.candidate1 Ex.otherSearchee Ex.flexible
                                     Ex.injected in
   infoPrivate Ex.privateMeta = Some (BInt 1)
   /\ map (fun d => (d_id d, d_decision d)) (t_decision (st_db (snd run)))
      = [ (1%Z, MATCH) ]
   /\ hasCollision (st_db (snd run)) 1 = true)
  /\ (let run := assessAndSaveResults Ex.ext (inl Ex.privateMeta) Ex.sameSearchee
                                      "guid-2" 30 "a.example" Ex.flexible Ex.colliding in
      infoPrivate Ex.privateMeta = Some (BInt 1)
      /\ map (fun d => (d_id d, d_guid d, d_decision d)) (t_decision (st_db (snd run)))
         = [ (1%Z, "guid-1", INFO_HASH_ALREADY_EXISTS_ANOTHER_TRACKER);
             (2%Z, "guid-2", INFO_HASH_ALREADY_EXISTS_ANOTHER_TRACKER) ]
      /\ hasCollision (st_db (snd run)) 2 = false).
Proof.
  split; cbv zeta; repeat split.
Qed.

(** ** JavaScript strings: facts about the built-ins *)

Module JsStringFacts.

Import JsString.

Lemma isWhiteSpace_lowerChar (c : ascii) : isWhiteSpace (lowerChar c) = isWhiteSpace c.
Proof.
  destruct c as [[] [] [] [] [] [] [] []]; reflexivity.
Qed.

Lemma lowerChar_idem (c : ascii) : lowerChar (lowerChar c) = lowerChar c.
Proof.
  destruct c as [[] [] [] [] [] [] [] []]; reflexivity.
Qed.

Lemma toLowerCase_idem (s : string) : toLowerCase (toLowerCase s) = toLowerCase s.
Proof.
  induction s as [|c s IH]; simpl; [reflexivity|].
  now rewrite lowerChar_idem, IH.
Qed.

Lemma trimStart_toLowerCase (s : string) :
  trimStart (toLowerCase s) = toLowerCase (trimStart s).
Proof.
  induction s as [|c s IH]; simpl; [reflexivity|].
  rewrite isWhiteSpace_lowerChar. now destruct (isWhiteSpace c).
Qed.

Lemma trimEnd_toLowerCase (s : string) :
  trimEnd (toLowerCase s) = toLowerCase (trimEnd s).
Proof.
  induction s as [|c s IH]; simpl; [reflexivity|].
  rewrite IH, isWhiteSpace_lowerChar.
  destruct (trimEnd s); simpl; [now destruct (isWhiteSpace c)|reflexivity].
Qed.

Lemma trim_toLowerCase (s : string) : trim (toLowerCase s) = toLowerCase (trim s).
Proof. unfold trim. now rewrite trimStart_toLowerCase, trimEnd_toLowerCase. Qed.

Lemma trimStart_startsClean (s : string) : startsClean (trimStart s) = true.
Proof.
  induction s as [|c s IH]; simpl; [reflexivity|].
  destruct (isWhiteSpace c) eqn:Hc; [exact IH|]. simpl. now rewrite Hc.
Qed.

Lemma trimStart_clean (s : string) : startsClean s = true -> trimStart s = s.
Proof.
  destruct s as [|c s]; simpl; [reflexivity|].
  now destruct (isWhiteSpace c).
Qed.

Lemma trimEnd_startsClean (s : string) :
  startsClean s = true -> startsClean (trimEnd s) = true.
Proof.
  destruct s as [|c s]; simpl; [reflexivity|].
  destruct (isWhiteSpace c) eqn:Hc; [discriminate|]. intros _.
  destruct (trimEnd s); simpl; now rewrite Hc.
Qed.

Lemma trimEnd_cons (c : ascii) (s : string) :
  trimEnd (String c s)
  = match trimEnd s with
    | EmptyString => if isWhiteSpace c then EmptyString else String c EmptyString
    | rest => String c rest
    end.
Proof. reflexivity. Qed.

Lemma trimEnd_idem (s : string) : trimEnd (trimEnd s) = trimEnd s.
Proof.
  induction s as [|c s IH]; [reflexivity|].
  rewrite trimEnd_cons.
  destruct (trimEnd s) as [|c' s'] eqn:Hs.
  - destruct (isWhiteSpace c) eqn:Hc; [reflexivity|].
    rewrite trimEnd_cons. cbn. now rewrite Hc.
  - rewrite trimEnd_cons, IH. reflexivity.
Qed.

Lemma trim_idem (s : string) : trim (trim s) = trim s.
Proof.
  unfold trim.
  rewrite (trimStart_clean (trimEnd (trimStart s))).
  - apply trimEnd_idem.
  - apply trimEnd_startsClean, trimStart_startsClean.
Qed.

Lemma filter_id {A : Type} (f : A -> bool) (l : list A) :
  (forall x, In x l -> f x = true) -> filter f l = l.
Proof.
  induction l as [|x l IH]; intros Hall; simpl; [reflexivity|].
  rewrite (Hall x (or_introl eq_refl)). f_equal. apply IH.
  intros y Hy. apply Hall. now right.
Qed.

(** The default order of [sort] is a total preorder. *)
Lemma ascii_compare_refl (c : ascii) : Ascii.compare c c = Eq.
Proof. unfold Ascii.compare. apply N.compare_refl. Qed.

Lemma ascii_compare_lt_trans (a b c : ascii) :
  Ascii.compare a b = Lt -> Ascii.compare b c = Lt -> Ascii.compare a c = Lt.
Proof.
  unfold Ascii.compare. rewrite !N.compare_lt_iff. apply N.lt_trans.
Qed.

Lemma compare_lt_trans :
  forall s1 s2 s3 : string,
    String.compare s1 s2 = Lt -> String.compare s2 s3 = Lt -> String.compare s1 s3 = Lt.
Proof.
  induction s1 as [|c1 s1 IH]; intros [|c2 s2] [|c3 s3]; simpl;
    try reflexivity; try discriminate.
  destruct (Ascii.compare c1 c2) eqn:H12; try discriminate;
    destruct (Ascii.compare c2 c3) eqn:H23; try discriminate.
  - apply Ascii.compare_eq_iff in H12, H23. subst. rewrite ascii_compare_refl.
    apply IH.
  - apply Ascii.compare_eq_iff in H12. subst. now rewrite H23.
  - apply Ascii.compare_eq_iff in H23. subst. now rewrite H12.
  - now rewrite (ascii_compare_lt_trans _ _ _ H12 H23).
Qed.

Lemma compare_refl (s : string) : String.compare s s = Eq.
Proof.
  induction s as [|c s IH]; simpl; [reflexivity|]. now rewrite ascii_compare_refl.
Qed.

Lemma leb_refl (s : string) : String.leb s s = true.
Proof. unfold String.leb. now rewrite compare_refl. Qed.

Lemma leb_trans (s1 s2 s3 : string) :
  String.leb s1 s2 = true -> String.leb s2 s3 = true -> String.leb s1 s3 = true.
Proof.
  unfold String.leb.
  destruct (String.compare s1 s2) eqn:H12; try discriminate;
    destruct (String.compare s2 s3) eqn:H23; try discriminate; intros _ _.
  - apply String.compare_eq_iff in H12, H23. subst. now rewrite compare_refl.
  - apply String.compare_eq_iff in H12. subst. now rewrite H23.
  - apply String.compare_eq_iff in H23. subst. now rewrite H12.
  - now rewrite (compare_lt_trans _ _ _ H12 H23).
Qed.

End JsStringFacts.

(** ** Sorting and deduplication *)

Section SortFacts.

Import JsString.

Lemma insertSorted_perm (x : string) (xs : list string) :
  Permutation (insertSorted x xs) (x :: xs).
Proof.
  induction xs as [|y xs IH]; simpl; [reflexivity|].
  destruct (String.leb x y); [reflexivity|].
  rewrite IH. apply perm_swap.
Qed.

Lemma sort_perm (xs : list string) : Permutation (sort xs) xs.
Proof.
  induction xs as [|x xs IH]; simpl; [reflexivity|].
  fold (sort xs). rewrite insertSorted_perm. now constructor.
Qed.

Lemma insertSorted_sorted (x : string) (xs : list string) :
  StronglySorted StringLe xs -> StronglySorted StringLe (insertSorted x xs).
Proof.
  induction xs as [|y xs IH]; intros Hs; simpl.
  - constructor; [constructor|constructor].
  - apply StronglySorted_inv in Hs. destruct Hs as [Hs Hy].
    destruct (String.leb x y) eqn:Hxy.
    + constructor; [now constructor|].
      constructor; [exact Hxy|].
      eapply Forall_impl; [|exact Hy]. intros z Hz.
      eapply JsStringFacts.leb_trans; eassumption.
    + constructor; [now apply IH|].
      apply (Permutation_Forall (Permutation_sym (insertSorted_perm x xs))).
      constructor; [|exact Hy].
      destruct (String.leb_total x y) as [H|H]; [congruence|exact H].
Qed.

Lemma sort_sorted (xs : list string) : StronglySorted StringLe (sort xs).
Proof.
  induction xs as [|x xs IH]; simpl; [constructor|].
  now apply insertSorted_sorted.
Qed.

Lemma insertSorted_head (x : string) (xs : list string) :
  Forall (StringLe x) xs -> insertSorted x xs = x :: xs.
Proof.
  destruct xs as [|y xs]; simpl; [reflexivity|].
  intros H. apply Forall_inv in H. unfold StringLe in H. now rewrite H.
Qed.

Lemma sort_of_sorted (xs : list string) :
  StronglySorted StringLe xs -> sort xs = xs.
Proof.
  induction 1 as [|x xs Hs IH Hx]; simpl; [reflexivity|].
  fold (sort xs). rewrite IH. now apply insertSorted_head.
Qed.

Lemma uniq_in (x : string) (xs : list string) : In x (uniq xs) <-> In x xs.
Proof.
  induction xs as [|y xs IH]; simpl; [reflexivity|].
  rewrite filter_In, IH, negb_true_iff, String.eqb_neq.
  destruct (String.eqb_spec y x) as [->|Hne]; [tauto|].
  split; [tauto|]. intros [H|H]; [contradiction|]. right. split; [exact H|congruence].
Qed.

Lemma uniq_nodup (xs : list string) : NoDup (uniq xs).
Proof.
  induction xs as [|y xs IH]; simpl; constructor.
  - rewrite filter_In, negb_true_iff, String.eqb_neq. tauto.
  - now apply NoDup_filter.
Qed.

Lemma uniq_of_nodup (xs : list string) : NoDup xs -> uniq xs = xs.
Proof.
  induction 1 as [|x xs Hx Hn IH]; simpl; [reflexivity|].
  rewrite IH. f_equal. apply JsStringFacts.filter_id.
  intros y Hy. apply negb_true_iff, String.eqb_neq. congruence.
Qed.

(** Two sorted lists without repetition that have the same elements are
    the same list. *)
Lemma sorted_nodup_unique :
  forall xs ys : list string,
    StronglySorted StringLe xs -> NoDup xs ->
    StronglySorted StringLe ys -> NoDup ys ->
    (forall x, In x xs <-> In x ys) -> xs = ys.
Proof.
  induction xs as [|x xs IH]; intros ys Hsx Hnx Hsy Hny Hsame.
  - destruct ys as [|y ys]; [reflexivity|].
    destruct (proj2 (Hsame y) (or_introl eq_refl)).
  - destruct ys as [|y ys]; [destruct (proj1 (Hsame x) (or_introl eq_refl))|].
    apply StronglySorted_inv in Hsx, Hsy.
    destruct Hsx as [Hsx Hx], Hsy as [Hsy Hy].
    inversion Hnx as [|? ? Hxin Hnx']; inversion Hny as [|? ? Hyin Hny']; subst.
    rewrite Forall_forall in Hx, Hy.
    assert (Hxy : x = y).
    { destruct (proj1 (Hsame x) (or_introl eq_refl)) as [->|Hin]; [reflexivity|].
      destruct (proj2 (Hsame y) (or_introl eq_refl)) as [->|Hin']; [reflexivity|].
      apply String.leb_antisym; [now apply Hx|now apply Hy]. }
    subst y. f_equal. apply IH; try assumption.
    intros z. split; intros Hz.
    + destruct (proj1 (Hsame z) (or_intror Hz)) as [->|H]; [contradiction|exact H].
    + destruct (proj2 (Hsame z) (or_intror Hz)) as [->|H]; [contradiction|exact H].
Qed.

End SortFacts.

(** ** Normalized tracker lists *)

Lemma truthy_iff (s : string) : JsString.truthy s = true <-> s <> EmptyString.
Proof. destruct s; simpl; split; congruence. Qed.

Lemma normalizeTrackers_in (trackers : list string) (x : string) :
  In x (normalizeTrackers trackers) <->
  x <> EmptyString /\ exists t, In t trackers /\ JsString.trim t = x.
Proof.
  unfold normalizeTrackers.
  split.
  - intros Hin. apply (Permutation_in _ (sort_perm _)) in Hin.
    apply uniq_in, filter_In in Hin. destruct Hin as [Hin Ht].
    apply in_map_iff in Hin. destruct Hin as (t & Htrim & Hin).
    split; [now apply truthy_iff|]. now exists t.
  - intros (Hne & t & Hin & Htrim).
    apply (Permutation_in _ (Permutation_sym (sort_perm _))).
    apply uniq_in, filter_In. split; [|now apply truthy_iff].
    apply in_map_iff. now exists t.
Qed.

Lemma normalizeTrackers_nodup (trackers : list string) :
  NoDup (normalizeTrackers trackers).
Proof.
  unfold normalizeTrackers.
  eapply Permutation_NoDup; [apply Permutation_sym, sort_perm|apply uniq_nodup].
Qed.

Lemma normalizeTrackers_sorted (trackers : list string) :
  StronglySorted StringLe (normalizeTrackers trackers).
Proof. apply sort_sorted. Qed.

(** X1.  [normalizeTrackers] returns exactly the non-empty trimmed
    trackers of its input, each once, in ascending order; so two inputs
    that hold the same trackers up to order, repetition, surrounding white
    space and empty entries are normalized to one and the same list. *)
Theorem normalizeTrackers_canonical (trackers : list string) :
  (forall x, In x (normalizeTrackers trackers) <->
             x <> EmptyString /\ exists t, In t trackers /\ JsString.trim t = x)
  /\ NoDup (normalizeTrackers trackers)
  /\ StronglySorted StringLe (normalizeTrackers trackers)
  /\ (forall other,
        (forall x, (x <> EmptyString /\ exists t, In t other /\ JsString.trim t = x)
                   <-> (x <> EmptyString /\ exists t, In t trackers /\ JsString.trim t = x)) ->
        normalizeTrackers other = normalizeTrackers trackers).
Proof.
  split; [apply normalizeTrackers_in|].
  split; [apply normalizeTrackers_nodup|].
  split; [apply normalizeTrackers_sorted|].
  intros other Hsame.
  apply sorted_nodup_unique;
    try apply normalizeTrackers_sorted; try apply normalizeTrackers_nodup.
  intros x. rewrite !normalizeTrackers_in. apply Hsame.
Qed.

(** Normalizing a normalized tracker list changes nothing. *)
Lemma normalizeTrackers_idem (trackers : list string) :
  normalizeTrackers (normalizeTrackers trackers) = normalizeTrackers trackers.
Proof.
  apply sorted_nodup_unique;
    try apply normalizeTrackers_sorted; try apply normalizeTrackers_nodup.
  intros x. rewrite (normalizeTrackers_in (normalizeTrackers trackers)).
  split.
  - intros (Hne & t & Hin & Htrim).
    apply normalizeTrackers_in in Hin. destruct Hin as (_ & t0 & Hin0 & Ht0).
    apply normalizeTrackers_in. split; [exact Hne|].
    exists t0. split; [exact Hin0|].
    rewrite <- Htrim, <- Ht0. symmetry. apply JsStringFacts.trim_idem.
  - intros Hin. pose proof Hin as Hin'. apply normalizeTrackers_in in Hin'.
    destruct Hin' as (Hne & t & Hint & Htrim).
    split; [exact Hne|]. exists x. split; [exact Hin|].
    rewrite <- Htrim. apply JsStringFacts.trim_idem.
Qed.

(** ** More on priorities *)

Lemma normalizeTrackerKey_idem (t : string) :
  normalizeTrackerKey (normalizeTrackerKey t) = normalizeTrackerKey t.
Proof.
  unfold normalizeTrackerKey.
  now rewrite JsStringFacts.trim_toLowerCase, JsStringFacts.trim_idem,
    JsStringFacts.toLowerCase_idem.
Qed.

Lemma getTrackerPriorityFrom_none (indexerTrackers : list string) (normalized : string) :
  forall (rules : list Rule) (k : nat),
    getTrackerPriorityFrom k normalized rules indexerTrackers = None <->
    forall rule, In rule rules -> ruleMatches normalized indexerTrackers rule = false.
Proof.
  induction rules as [|r rules IH]; intros k; simpl.
  - split; [intros _ rule []|reflexivity].
  - destruct (ruleMatches normalized indexerTrackers r) eqn:Hr.
    + split; [discriminate|]. intros Hall. rewrite (Hall r (or_introl eq_refl)) in Hr.
      discriminate.
    + rewrite IH. split.
      * intros Hall rule [<-|Hin]; [exact Hr|now apply Hall].
      * intros Hall rule Hin. apply Hall. now right.
Qed.

Lemma getTrackerPriority_at_most (rules : list Rule) (indexerTrackers : list string)
      (tracker : string) (i : nat) (rule : Rule) :
  nth_error rules i = Some rule ->
  ruleMatches (normalizeTrackerKey tracker) indexerTrackers rule = true ->
  exists p, getTrackerPriority tracker rules indexerTrackers = Some p /\ (p <= i)%nat.
Proof.
  intros Hnth Hmatch.
  destruct (getTrackerPriority tracker rules indexerTrackers) as [p|] eqn:Hp.
  - exists p. split; [reflexivity|].
    apply getTrackerPriority_first in Hp. destruct Hp as [_ Hfirst].
    destruct (Nat.le_gt_cases p i) as [Hle|Hgt]; [exact Hle|].
    rewrite (Hfirst i rule Hgt Hnth) in Hmatch. discriminate.
  - unfold getTrackerPriority in Hp.
    rewrite getTrackerPriorityFrom_none in Hp.
    rewrite (Hp rule (nth_error_In _ _ Hnth)) in Hmatch. discriminate.
Qed.

(** X3.  The priority of a tracker does not depend on its letter case or
    on white space around it, nor on those of the trackers the rules list:
    a tracker that rule [i] lists up to case and surrounding white space,
    or that an indexer announces when rule [i] is an all-indexers rule,
    gets a priority of at most [i].  A priority is always an index into
    the rules, and there is none exactly when no rule matches. *)
Theorem getTrackerPriority_insensitive
        (rules : list Rule) (indexerTrackers : list string) (tracker : string) :
  getTrackerPriority (normalizeTrackerKey tracker) rules indexerTrackers
  = getTrackerPriority tracker rules indexerTrackers
  /\ (forall other, normalizeTrackerKey other = normalizeTrackerKey tracker ->
                    getTrackerPriority other rules indexerTrackers
                    = getTrackerPriority tracker rules indexerTrackers)
  /\ (forall i rule listed,
        nth_error rules i = Some rule -> In listed (trackers rule) ->
        normalizeTrackerKey listed = normalizeTrackerKey tracker ->
        exists p, getTrackerPriority tracker rules indexerTrackers = Some p
                  /\ (p <= i)%nat)
  /\ (forall i rule,
        nth_error rules i = Some rule -> allIndexers rule = true ->
        In (normalizeTrackerKey tracker) indexerTrackers ->
        exists p, getTrackerPriority tracker rules indexerTrackers = Some p
                  /\ (p <= i)%nat)
  /\ (forall p, getTrackerPriority tracker rules indexerTrackers = Some p ->
                (p < List.length rules)%nat)
  /\ (getTrackerPriority tracker rules indexerTrackers = None <->
      forall rule, In rule rules ->
                   ruleMatches (normalizeTrackerKey tracker) indexerTrackers rule = false).
Proof.
  split.
  { unfold getTrackerPriority. now rewrite normalizeTrackerKey_idem. }
  split.
  { intros other Hkey. unfold getTrackerPriority. now rewrite Hkey. }
  split.
  { intros i rule listed Hnth Hin Hkey.
    apply (getTrackerPriority_at_most rules indexerTrackers tracker i Hnth).
    unfold ruleMatches. apply orb_true_iff. right.
    apply existsb_exists. exists listed. split; [exact Hin|].
    now apply String.eqb_eq. }
  split.
  { intros i rule Hnth Hall Hin.
    apply (getTrackerPriority_at_most rules indexerTrackers tracker i Hnth).
    unfold ruleMatches. apply orb_true_iff. left. rewrite Hall. cbn.
    unfold JsString.includes. apply existsb_exists.
    exists (normalizeTrackerKey tracker). split; [exact Hin|apply String.eqb_refl]. }
  split; [apply getTrackerPriority_lt_length|].
  apply getTrackerPriorityFrom_none.
Qed.

Lemma getBestTrackerPriority_incl (rules : list Rule) (indexerTrackers : list string)
      (ts1 ts2 : list string) (p1 : nat) :
  (forall t, In t ts1 -> In t ts2) ->
  getBestTrackerPriority ts1 rules indexerTrackers = Some p1 ->
  exists p2, getBestTrackerPriority ts2 rules indexerTrackers = Some p2 /\ (p2 <= p1)%nat.
Proof.
  intros Hincl Hp1. apply getBestTrackerPriority_least in Hp1.
  destruct Hp1 as ((t & Hin & Ht) & _).
  destruct (getBestTrackerPriority ts2 rules indexerTrackers) as [p2|] eqn:Hp2.
  - exists p2. split; [reflexivity|].
    apply getBestTrackerPriority_least in Hp2. destruct Hp2 as [_ Hmin].
    apply (Hmin t p1 (Hincl t Hin) Ht).
  - rewrite getBestTrackerPriority_none in Hp2.
    rewrite (Hp2 t (Hincl t Hin)) in Ht. discriminate.
Qed.

(** X4.  The best priority of a list of trackers depends on the set of
    trackers only, not on their order or repetition; more trackers can
    only improve (lower) it; and no tracker at all has no priority. *)
Theorem getBestTrackerPriority_set_monotone
        (rules : list Rule) (indexerTrackers : list string) (ts1 ts2 : list string) :
  ((forall t, In t ts1 -> In t ts2) ->
   forall p1, getBestTrackerPriority ts1 rules indexerTrackers = Some p1 ->
              exists p2, getBestTrackerPriority ts2 rules indexerTrackers = Some p2
                         /\ (p2 <= p1)%nat)
  /\ ((forall t, In t ts1 <-> In t ts2) ->
      getBestTrackerPriority ts1 rules indexerTrackers
      = getBestTrackerPriority ts2 rules indexerTrackers)
  /\ getBestTrackerPriority [] rules indexerTrackers = None.
Proof.
  split; [intros Hincl p1; now apply getBestTrackerPriority_incl|].
  split; [|reflexivity].
  intros Hsame.
  destruct (getBestTrackerPriority ts1 rules indexerTrackers) as [p1|] eqn:H1;
    destruct (getBestTrackerPriority ts2 rules indexerTrackers) as [p2|] eqn:H2;
    try reflexivity.
  - destruct (getBestTrackerPriority_incl rules indexerTrackers ts1 ts2
                (fun t => proj1 (Hsame t)) H1) as (q2 & Hq2 & Hle2).
    destruct (getBestTrackerPriority_incl rules indexerTrackers ts2 ts1
                (fun t => proj2 (Hsame t)) H2) as (q1 & Hq1 & Hle1).
    f_equal. assert (q2 = p2) by congruence. assert (q1 = p1) by congruence. lia.
  - destruct (getBestTrackerPriority_incl rules indexerTrackers ts1 ts2
                (fun t => proj1 (Hsame t)) H1) as (q2 & Hq2 & _). congruence.
  - destruct (getBestTrackerPriority_incl rules indexerTrackers ts2 ts1
                (fun t => proj2 (Hsame t)) H2) as (q1 & Hq1 & _). congruence.
Qed.

(** ** Announce mismatches *)

Lemma trackersAreEqual_eq (a b : list string) : trackersAreEqual a b = true <-> a = b.
Proof.
  unfold trackersAreEqual.
  destruct (List.length a =? List.length b)%nat eqn:Hlen; cbn [negb].
  - apply Nat.eqb_eq in Hlen. revert b Hlen.
    induction a as [|x a IH]; intros [|y b] Hlen; try discriminate; simpl.
    + split; reflexivity.
    + injection Hlen as Hlen. rewrite andb_true_iff, String.eqb_eq, (IH b Hlen).
      split; [intros [-> ->]; reflexivity|intros [= -> ->]; now split].
  - split; [discriminate|]. intros ->. rewrite Nat.eqb_refl in Hlen. discriminate.
Qed.

(** X5.  [logAnnounceMismatch] only reads: it returns with the state as
    it was and never throws.  It reports a mismatch exactly when trackers
    are known for the info hash and the candidate's and the known trackers
    differ as sets of trimmed, non-empty strings; what it reports are the
    two normalized lists. *)
Theorem logAnnounceMismatch_reports_set_difference
        (D : Type) (ext : Externals D) (metafile : Metafile) (st : State D) :
  let known := getKnownTrackersForInfoHash ext st (m_infoHash metafile) in
  let trimmedIn (trackers : list string) (x : string) :=
    x <> EmptyString /\ exists t, In t trackers /\ JsString.trim t = x in
  exists result,
    logAnnounceMismatch ext metafile st = (Ret result, st)
    /\ (result = None <->
        known = None
        \/ exists knownList,
             known = Some knownList
             /\ forall x, trimmedIn (m_trackers metafile) x <-> trimmedIn knownList x)
    /\ (forall tm, result = Some tm ->
          exists knownList,
            known = Some knownList
            /\ candidateTrackers tm = normalizeTrackers (m_trackers metafile)
            /\ knownTrackers tm = normalizeTrackers knownList
            /\ candidateTrackers tm <> knownTrackers tm).
Proof.
  intros known trimmedIn.
  assert (Hsets : forall a b,
             normalizeTrackers a = normalizeTrackers b <->
             forall x, trimmedIn a x <-> trimmedIn b x).
  { intros a b. split.
    - intros Heq x. unfold trimmedIn.
      now rewrite <- !normalizeTrackers_in, Heq.
    - intros Hsame. apply sorted_nodup_unique;
        try apply normalizeTrackers_sorted; try apply normalizeTrackers_nodup.
      intros x. rewrite !normalizeTrackers_in. apply Hsame. }
  unfold logAnnounceMismatch, bind, gets. cbn beta iota. fold known.
  destruct known as [knownList|].
  2:{ exists None. split; [reflexivity|]. split; [|discriminate].
      split; [now left|reflexivity]. }
  destruct (trackersAreEqual (normalizeTrackers (m_trackers metafile))
                             (normalizeTrackers knownList)) eqn:Heq.
  - apply trackersAreEqual_eq in Heq.
    exists None. split.
    + destruct (normalizeTrackers (m_trackers metafile)),
        (normalizeTrackers knownList); reflexivity.
    + split; [|discriminate]. split; [|reflexivity]. intros _. right.
      exists knownList. split; [reflexivity|]. now apply Hsets.
  - assert (Hne : normalizeTrackers (m_trackers metafile)
                  <> normalizeTrackers knownList).
    { intros H. apply trackersAreEqual_eq in H. congruence. }
    exists (Some (mkMismatch (normalizeTrackers (m_trackers metafile))
                             (normalizeTrackers knownList))).
    split.
    + destruct (normalizeTrackers (m_trackers metafile)) as [|c cs] eqn:Hc,
        (normalizeTrackers knownList) as [|k ks] eqn:Hk;
        try reflexivity. contradiction.
    + split.
      * split; [discriminate|].
        intros [Hnone|(k' & [= <-] & Hsame)]; [discriminate|].
        apply Hsets in Hsame. contradiction.
      * intros tm [= <-]. exists knownList. now repeat split.
Qed.

(** ** The greedy size-only comparison *)

Lemma spliceFirst_perm (keep : File -> bool) (files : list File) (f : File) :
  In f files -> keep f = true ->
  exists g, keep g = true /\ In g files /\ Permutation files (g :: spliceFirst keep files).
Proof.
  induction files as [|x files IH]; intros Hin Hkeep; [destruct Hin|].
  simpl. destruct (keep x) eqn:Hx.
  - exists x. split; [exact Hx|]. split; [now left|apply Permutation_refl].
  - destruct Hin as [->|Hin]; [congruence|].
    destruct (IH Hin Hkeep) as (g & Hg & Hgin & Hperm).
    exists g. split; [exact Hg|]. split; [now right|].
    eapply Permutation_trans; [apply perm_skip, Hperm|apply perm_swap].
Qed.

Lemma matchedSearcheeFiles_in (candidateFile : File) (availableFiles : list File)
      (sf : File) :
  In sf (matchedSearcheeFiles candidateFile availableFiles) <->
  In sf availableFiles /\ consumable candidateFile availableFiles sf = true.
Proof.
  unfold matchedSearcheeFiles, consumable.
  destruct (1 <? List.length
                   (filter (fun sf0 => (f_length sf0 =? f_length candidateFile)%Z)
                           availableFiles))%nat; cbn [negb orb].
  - rewrite !filter_In, andb_true_iff. tauto.
  - rewrite filter_In, andb_true_r. tauto.
Qed.

Lemma consumeMatched_perm (candidateFile : File) (availableFiles : list File) :
  matchedSearcheeFiles candidateFile availableFiles <> [] ->
  exists sf, In sf availableFiles
             /\ f_length sf = f_length candidateFile
             /\ Permutation availableFiles (sf :: consumeMatched candidateFile availableFiles).
Proof.
  intros Hne.
  destruct (matchedSearcheeFiles candidateFile availableFiles) as [|m ms] eqn:Hm;
    [contradiction|].
  assert (Hin : In m (matchedSearcheeFiles candidateFile availableFiles))
    by (rewrite Hm; now left).
  apply matchedSearcheeFiles_in in Hin. destruct Hin as [Hin Hkeep].
  destruct (spliceFirst_perm (consumable candidateFile availableFiles) availableFiles m
                             Hin Hkeep) as (g & Hg & Hgin & Hperm).
  exists g. split; [exact Hgin|]. split.
  - unfold consumable in Hg. apply andb_true_iff in Hg. now apply Z.eqb_eq.
  - exact Hperm.
Qed.

Lemma ignoringNamesLoop_pairs :
  forall candidateFiles availableFiles : list File,
    ignoringNamesLoop candidateFiles availableFiles = true ->
    exists unused : list File,
      Permutation (map f_length availableFiles)
                  (map f_length candidateFiles ++ map f_length unused).
Proof.
  induction candidateFiles as [|c cs IH]; intros availableFiles Hloop.
  - exists availableFiles. apply Permutation_refl.
  - simpl in Hloop.
    destruct (matchedSearcheeFiles c availableFiles) as [|m ms] eqn:Hm; [discriminate|].
    destruct (consumeMatched_perm c availableFiles) as (sf & _ & Hlen & Hperm);
      [rewrite Hm; discriminate|].
    destruct (IH _ Hloop) as (unused & Hrest).
    exists unused.
    eapply Permutation_trans; [apply (Permutation_map f_length Hperm)|].
    simpl. rewrite Hlen. apply perm_skip. exact Hrest.
Qed.

(** X6.  When [compareFileTreesIgnoringNames] succeeds, the candidate's
    files are paired with distinct searchee files of equal length: the
    searchee's file lengths are those of the candidate plus those of the
    files left over, so the candidate has no more files than the searchee. *)
Theorem compareFileTreesIgnoringNames_pairs_by_length
        (candidate : Metafile) (searchee : Searchee) :
  compareFileTreesIgnoringNames candidate searchee = true ->
  (exists unused : list File,
      Permutation (map f_length (s_files searchee))
                  (map f_length (m_files candidate) ++ map f_length unused))
  /\ (List.length (m_files candidate) <= List.length (s_files searchee))%nat.
Proof.
  intros Hloop. apply ignoringNamesLoop_pairs in Hloop.
  destruct Hloop as (unused & Hperm). split; [now exists unused|].
  apply Permutation_length in Hperm.
  rewrite length_app, !length_map in Hperm. lia.
Qed.

Lemma compareFileTreesIgnoringNames_pairs_by_length_witness :
  (List.length (m_files Ex.renamedMeta) <= List.length (s_files Ex.renamedSearchee))%nat.
Proof.
  apply (compareFileTreesIgnoringNames_pairs_by_length Ex.renamedMeta Ex.renamedSearchee).
  reflexivity.
Defined.

Lemma byLength_at_most_one (z : Z) (files : list File) :
  NoDup (map f_length files) ->
  (List.length (filter (fun sf => (f_length sf =? z)%Z) files) <= 1)%nat.
Proof.
  induction files as [|x files IH]; intros Hnd; simpl; [lia|].
  inversion Hnd as [|? ? Hnotin Hnd']; subst.
  destruct (Z.eqb_spec (f_length x) z) as [Heq|Hne]; [|auto].
  simpl. replace (filter (fun sf => (f_length sf =? z)%Z) files) with (@nil File);
    [simpl; lia|].
  symmetry. destruct (filter (fun sf => (f_length sf =? z)%Z) files) as [|y ys] eqn:Hf;
    [reflexivity|].
  exfalso. apply Hnotin.
  assert (Hy : In y (filter (fun sf => (f_length sf =? z)%Z) files))
    by (rewrite Hf; now left).
  apply filter_In in Hy. destruct Hy as [Hy Hlen]. apply Z.eqb_eq in Hlen.
  rewrite Heq, <- Hlen. now apply in_map.
Qed.

Lemma spliceFirst_byLength (z : Z) (files : list File) :
  NoDup (map f_length files) ->
  NoDup (map f_length (spliceFirst (fun sf => (f_length sf =? z)%Z) files))
  /\ (forall l, In l (map f_length (spliceFirst (fun sf => (f_length sf =? z)%Z) files))
                <-> In l (map f_length files) /\ l <> z).
Proof.
  induction files as [|x files IH]; intros Hnd; simpl.
  - split; [constructor|]. intros l. tauto.
  - inversion Hnd as [|? ? Hnotin Hnd']; subst.
    destruct (Z.eqb_spec (f_length x) z) as [Heq|Hne].
    + split; [exact Hnd'|]. intros l. split.
      * intros Hl. split; [now right|]. intros ->. apply Hnotin. now rewrite Heq.
      * intros [[Hl|Hl] Hlz]; [congruence|exact Hl].
    + destruct (IH Hnd') as [IHnd IHin]. simpl. split.
      * constructor; [|exact IHnd]. intros Hx. apply IHin in Hx. tauto.
      * intros l. rewrite IHin. split.
        -- intros [Hl|[Hl Hlz]]; [split; [now left|congruence]|split; [now right|exact Hlz]].
        -- intros [[Hl|Hl] Hlz]; [now left|right; now split].
Qed.

Lemma spliceFirst_ext (keep keep' : File -> bool) (files : list File) :
  (forall f, keep f = keep' f) -> spliceFirst keep files = spliceFirst keep' files.
Proof.
  intros Hext. induction files as [|x files IH]; simpl; [reflexivity|].
  now rewrite Hext, IH.
Qed.

Lemma ignoringNamesLoop_distinct :
  forall candidateFiles availableFiles : list File,
    NoDup (map f_length availableFiles) ->
    (ignoringNamesLoop candidateFiles availableFiles = true <->
     NoDup (map f_length candidateFiles)
     /\ incl (map f_length candidateFiles) (map f_length availableFiles)).
Proof.
  induction candidateFiles as [|c cs IH]; intros availableFiles Hnd.
  - simpl. split; [intros _; split; [constructor|intros l []]|reflexivity].
  - cbn [ignoringNamesLoop map].
    pose proof (byLength_at_most_one (f_length c) availableFiles Hnd) as Hone.
    assert (Hmulti : (1 <? List.length
                            (filter (fun sf => (f_length sf =? f_length c)%Z)
                                    availableFiles))%nat = false)
      by (apply Nat.ltb_ge; exact Hone).
    assert (Hmatched : matchedSearcheeFiles c availableFiles
                       = filter (fun sf => (f_length sf =? f_length c)%Z) availableFiles)
      by (unfold matchedSearcheeFiles; now rewrite Hmulti).
    assert (Hconsumed : consumeMatched c availableFiles
                        = spliceFirst (fun sf => (f_length sf =? f_length c)%Z)
                                      availableFiles).
    { unfold consumeMatched. rewrite Hmulti. apply spliceFirst_ext.
      intros f. cbn [negb orb]. apply andb_true_r. }
    destruct (spliceFirst_byLength (f_length c) availableFiles Hnd) as [Hnd' Hin'].
    rewrite Hmatched, Hconsumed.
    destruct (filter (fun sf => (f_length sf =? f_length c)%Z) availableFiles)
      as [|m ms] eqn:Hf.
    + split; [discriminate|]. intros [_ Hincl]. exfalso.
      assert (Hc : In (f_length c) (map f_length availableFiles))
        by (apply Hincl; now left).
      apply in_map_iff in Hc. destruct Hc as (sf & Hlen & Hsf).
      assert (Hsf' : In sf (filter (fun sf => (f_length sf =? f_length c)%Z)
                                   availableFiles))
        by (apply filter_In; split; [exact Hsf|now apply Z.eqb_eq]).
      rewrite Hf in Hsf'. destruct Hsf'.
    + assert (Hm : In m (filter (fun sf => (f_length sf =? f_length c)%Z) availableFiles))
        by (rewrite Hf; now left).
      apply filter_In in Hm. destruct Hm as [Hm Hlen]. apply Z.eqb_eq in Hlen.
      rewrite (IH _ Hnd'). split.
      * intros [Hcs Hincl]. split.
        -- constructor; [|exact Hcs]. intros Hc. apply Hincl, Hin' in Hc. tauto.
        -- intros l [<-|Hl]; [rewrite <- Hlen; now apply in_map|].
           apply Hincl, Hin' in Hl. tauto.
      * intros [Hcs Hincl]. inversion Hcs as [|? ? Hnotin Hcs']; subst. split; [exact Hcs'|].
        intros l Hl. apply Hin'. split; [apply Hincl; now right|].
        intros ->. contradiction.
Qed.

(** X7.  When no two files of the searchee have the same length, the
    greedy comparison is exact: [compareFileTreesIgnoringNames] succeeds
    if and only if the candidate's files have pairwise distinct lengths,
    each of them the length of a searchee file. *)
Theorem compareFileTreesIgnoringNames_exact_on_distinct_lengths
        (candidate : Metafile) (searchee : Searchee) :
  NoDup (map f_length (s_files searchee)) ->
  (compareFileTreesIgnoringNames candidate searchee = true <->
   NoDup (map f_length (m_files candidate))
   /\ incl (map f_length (m_files candidate)) (map f_length (s_files searchee))).
Proof.
  intros Hnd. unfold compareFileTreesIgnoringNames.
  now apply ignoringNamesLoop_distinct.
Qed.

Lemma compareFileTreesIgnoringNames_exact_on_distinct_lengths_witness :
  compareFileTreesIgnoringNames Ex.renamedMeta Ex.renamedSearchee = true <->
  NoDup (map f_length (m_files Ex.renamedMeta))
  /\ incl (map f_length (m_files Ex.renamedMeta)) (map f_length (s_files Ex.renamedSearchee)).
Proof.
  apply (compareFileTreesIgnoringNames_exact_on_distinct_lengths
           Ex.renamedMeta Ex.renamedSearchee).
  simpl. constructor; [simpl; intros [H|[]]; discriminate H|].
  constructor; [intros []|constructor].
Defined.

(** ** The three match modes *)

(** X8.  The match modes are nested.  A content decision that accepts the
    candidate ([MATCH], [MATCH_SIZE_ONLY] or [MATCH_PARTIAL]) in strict
    mode is returned unchanged in flexible mode, and one accepted in
    flexible mode is returned unchanged in partial mode.  [MATCH] is
    returned exactly when the full comparison succeeds, whatever the mode;
    strict mode accepts nothing else, flexible mode never accepts
    partially and never answers [FILE_TREE_MISMATCH], and partial mode
    never answers [SIZE_MISMATCH]. *)
Theorem contentDecision_modes_nested
        (D : Type) (ext : Externals D) (metafile : Metafile) (searchee : Searchee) :
  let accepted d := d = MATCH \/ d = MATCH_SIZE_ONLY \/ d = MATCH_PARTIAL in
  (forall mode, contentDecision ext metafile searchee mode = MATCH
                <-> compareFileTrees metafile searchee = true)
  /\ (forall d, accepted d -> contentDecision ext metafile searchee STRICT = d -> d = MATCH)
  /\ (forall d, accepted d ->
                contentDecision ext metafile searchee STRICT = d ->
                contentDecision ext metafile searchee FLEXIBLE = d)
  /\ (forall d, accepted d ->
                contentDecision ext metafile searchee FLEXIBLE = d ->
                contentDecision ext metafile searchee PARTIAL = d)
  /\ In (contentDecision ext metafile searchee STRICT)
        [MATCH; SIZE_MISMATCH; FILE_TREE_MISMATCH]
  /\ In (contentDecision ext metafile searchee FLEXIBLE)
        [MATCH; MATCH_SIZE_ONLY; SIZE_MISMATCH]
  /\ In (contentDecision ext metafile searchee PARTIAL)
        [MATCH; MATCH_SIZE_ONLY; MATCH_PARTIAL; PARTIAL_SIZE_MISMATCH; FILE_TREE_MISMATCH].
Proof.
  intros accepted. unfold accepted, contentDecision.
  destruct (compareFileTrees metafile searchee);
    destruct (compareFileTreesIgnoringNames metafile searchee);
    destruct (Qle_bool (getMinSizeRatio ext searchee)
                       (getPartialSizeRatio metafile searchee));
    destruct (compareFileTreesPartial ext metafile searchee);
    cbn;
    (split; [intros []; cbn; split; congruence|]);
    repeat split; try tauto;
      intros d [Hd|[Hd|Hd]]; subst d; congruence.
Qed.








(** ** What an assessment leaves in place *)

Section AssessmentFrames.

Variable D : Type.
Variable ext : Externals D.

Lemma MetafileFrame_refl (st : State D) : MetafileFrame st st.
Proof.
  unfold MetafileFrame. repeat split; try apply incl_refl.
  exists []. split; [now rewrite app_nil_r|constructor].
Qed.

Lemma MetafileFrame_trans (st1 st2 st3 : State D) :
  MetafileFrame st1 st2 -> MetafileFrame st2 st3 -> MetafileFrame st1 st3.
Proof.
  unfold MetafileFrame.
  intros (a1 & a2 & a3 & a4 & a5 & a6 & a7 & a8 & a9 & a10 & evs1 & a11 & a12)
         (b1 & b2 & b3 & b4 & b5 & b6 & b7 & b8 & b9 & b10 & evs2 & b11 & b12).
  repeat match goal with |- _ /\ _ => split end; try congruence.
  - eapply incl_tran; eassumption.
  - eapply incl_tran; eassumption.
  - exists (evs1 ++ evs2). split; [now rewrite b11, a11, app_assoc|].
    apply Forall_app. now split.
Qed.

Lemma MetafileFrame_AssessFrame (st st' : State D) :
  MetafileFrame st st' -> AssessFrame st st'.
Proof.
  unfold MetafileFrame, AssessFrame.
  intros (a1 & a2 & a3 & a4 & a5 & a6 & a7 & a8 & a9 & a10 & evs & a11 & _).
  repeat match goal with |- _ /\ _ => split end; try assumption.
  now exists evs.
Qed.

Lemma AssessFrame_trans (st1 st2 st3 : State D) :
  AssessFrame st1 st2 -> AssessFrame st2 st3 -> AssessFrame st1 st3.
Proof.
  unfold AssessFrame.
  intros (a1 & a2 & a3 & a4 & a7 & a8 & a9 & a10 & evs1 & a11)
         (b1 & b2 & b3 & b4 & b7 & b8 & b9 & b10 & evs2 & b11).
  repeat split; try congruence.
  - eapply incl_tran; eassumption.
  - eapply incl_tran; eassumption.
  - exists (evs1 ++ evs2). now rewrite b11, a11, app_assoc.
Qed.

Lemma EvictionFrame_MetafileFrame (st st' : State D) (evs : list Event)
      (infoHash : string) (keep : ClientSearcheeRow -> bool) :
  EvictionFrame st st' ->
  st_trace st' = st_trace st ++ evs ->
  (forall ev, In ev evs -> isEvictionCall infoHash ev) ->
  t_client_searchee (st_db st') = filter keep (t_client_searchee (st_db st)) ->
  MetafileFrame st st'.
Proof.
  unfold EvictionFrame, MetafileFrame.
  intros (a1 & a2 & a3 & a4 & a5 & a6 & a7 & a8 & a9) Htrace Hcalls Hrows.
  repeat match goal with |- _ /\ _ => split end; try assumption.
  - rewrite a7. apply incl_refl.
  - rewrite Hrows. apply incl_filter.
  - exists evs. split; [exact Htrace|]. apply Forall_forall. intros ev Hev.
    specialize (Hcalls ev Hev). now destruct ev.
Qed.

Lemma logAnnounceMismatch_run (meta : Metafile) (st : State D) :
  exists tm, logAnnounceMismatch ext meta st = (Ret tm, st).
Proof.
  unfold logAnnounceMismatch, bind, gets. cbn beta iota.
  destruct (getKnownTrackersForInfoHash ext st (m_infoHash meta)) as [known|];
    [|now exists None].
  destruct (normalizeTrackers (m_trackers meta)) as [|c cs];
    destruct (normalizeTrackers known) as [|k ks];
    try (now exists None);
    match goal with
    | |- context [if ?b then _ else _] => destruct b
    end; eexists; reflexivity.
Qed.

Lemma removeTorrentFromClients_frame (infoHash name : string) (st : State D) :
  exists b st', removeTorrentFromClients ext infoHash name st = (Ret b, st')
                /\ MetafileFrame st st' /\ st_exclude st' = st_exclude st.
Proof.
  unfold removeTorrentFromClients, bind, getDb, gets. cbn beta iota.
  destruct (map cs_client_host
                (filter (fun row => String.eqb (cs_info_hash row) infoHash)
                        (t_client_searchee (st_db st)))) as [|r rs].
  - exists false, st. split; [reflexivity|]. split; [apply MetafileFrame_refl|reflexivity].
  - destruct (@removeLoop_spec D ext infoHash (r :: rs) st)
      as (b & st' & evs & hosts & Hrun & Htrace & Hframe & Hcalls & Hrows & _).
    exists b, st'. split; [exact Hrun|]. split.
    + eapply EvictionFrame_MetafileFrame; eassumption.
    + apply Hframe.
Qed.

Lemma resolveConflictRules_frame (infoHash : string) (cand : list string)
      (name : string) (st : State D) :
  exists b st', resolveConflictRules ext infoHash cand name st = (Ret b, st')
                /\ MetafileFrame st st' /\ st_exclude st' = st_exclude st.
Proof.
  destruct (@resolveConflictRules_cases D ext infoHash cand name st)
    as [[Hrun _]|[Hrun _]]; rewrite Hrun.
  - exists false, st. split; [reflexivity|]. split; [apply MetafileFrame_refl|reflexivity].
  - apply removeTorrentFromClients_frame.
Qed.

Lemma setDelete_incl (x : string) (s : list string) : incl (setDelete x s) s.
Proof. unfold setDelete. apply incl_filter. Qed.

Lemma set_exclude_frame (st : State D) (x : string) :
  MetafileFrame st (set_exclude (setDelete x (st_exclude st)) st).
Proof.
  unfold MetafileFrame. cbn.
  repeat match goal with |- _ /\ _ => split end; try reflexivity; try apply incl_refl.
  - apply setDelete_incl.
  - exists []. split; [now rewrite app_nil_r|constructor].
Qed.

(** The assessment of a metafile in hand. *)
Lemma assessMetafile_frame (meta : Metafile) (cached : bool)
      (searchee : Searchee) (blockList : list string) (config : RuntimeConfig)
      (candidateTracker : option string) (st : State D) :
  exists a st',
    assessMetafile ext meta cached searchee blockList config candidateTracker st
    = (Ret a, st')
    /\ MetafileFrame st st'
    /\ metafile a = Some meta
    /\ metaCached a = Some cached
    /\ (st_exclude st' = st_exclude st
        \/ st_exclude st' = setDelete (m_infoHash meta) (st_exclude st)).
Proof.
  unfold assessMetafile.
  destruct (optionStringEqb (s_infoHash searchee) (Some (m_infoHash meta))).
  - unfold bind. destruct (logAnnounceMismatch_run meta st) as [tm ->].
    eexists; exists st. split; [reflexivity|].
    split; [apply MetafileFrame_refl|]. cbn. auto.
  - unfold bind at 1. unfold gets at 1. cbn beta iota.
    destruct (JsString.includes (st_exclude st) (m_infoHash meta)).
    2:{ unfold bind, ret. cbn beta iota.
        eexists; exists st. split; [reflexivity|].
        split; [apply MetafileFrame_refl|]. cbn. auto. }
    unfold bind at 1. unfold bind at 1.
    destruct (logAnnounceMismatch_run meta st) as [tm ->].
    unfold bind at 1.
    assert (Hstep : exists st1,
               (match collisionCandidateTrackers tm candidateTracker with
                | [] => ret tt
                | _ :: _ =>
                    bind (resolveConflictRules ext (m_infoHash meta)
                            (collisionCandidateTrackers tm candidateTracker)
                            (s_title searchee))
                         (fun resolved =>
                            if resolved
                            then modify (fun st0 : State D =>
                                           set_exclude
                                             (setDelete (m_infoHash meta) (st_exclude st0))
                                             st0)
                            else ret tt)
                end) st = (Ret tt, st1)
               /\ MetafileFrame st st1
               /\ (st_exclude st1 = st_exclude st
                   \/ st_exclude st1 = setDelete (m_infoHash meta) (st_exclude st))).
    { destruct (collisionCandidateTrackers tm candidateTracker) as [|t ts].
      - exists st. split; [reflexivity|]. split; [apply MetafileFrame_refl|now left].
      - unfold bind.
        destruct (resolveConflictRules_frame (m_infoHash meta) (t :: ts)
                                             (s_title searchee) st)
          as (b & st1 & -> & Hframe & Hexcl).
        destruct b.
        + eexists. split; [reflexivity|]. split.
          * eapply MetafileFrame_trans; [exact Hframe|apply set_exclude_frame].
          * right. cbn. now rewrite Hexcl.
        + exists st1. split; [reflexivity|]. split; [exact Hframe|now left]. }
    destruct Hstep as (st1 & -> & Hframe & Hexcl).
    unfold bind, gets, ret. cbn beta iota.
    destruct (JsString.includes (st_exclude st1) (m_infoHash meta));
      (eexists; exists st1; split; [reflexivity|]);
      (split; [exact Hframe|]); cbn; auto.
Qed.

Lemma cacheTorrentFile_frame (meta : Metafile) (candidate : Candidate) (st : State D) :
  exists b st', cacheTorrentFile ext meta candidate st = (Ret b, st')
                /\ AssessFrame st st'
                /\ st_exclude st' = st_exclude st
                /\ st_clients st' = st_clients st.
Proof.
  unfold cacheTorrentFile, bind, emit, modify, modifyDb, ret. cbn beta iota.
  assert (Hframe : forall (db : Db) (cache : list (string * CachedFile)) (evs : list Event),
             t_searchee db = t_searchee (st_db st) ->
             t_decision db = t_decision (st_db st) ->
             t_collisions db = t_collisions (st_db st) ->
             t_conflict_rules db = t_conflict_rules (st_db st) ->
             t_client_searchee db = t_client_searchee (st_db st) ->
             AssessFrame st (mkState db (st_clients st) cache (st_exclude st)
                                     (st_guidInfoHashMap st) (st_ticks st)
                                     (st_trace st ++ evs))).
  { intros db cache evs H1 H2 H3 H4 H5. unfold AssessFrame. cbn.
    repeat split; try assumption; try apply incl_refl.
    - rewrite H5. apply incl_refl.
    - now exists evs. }
  assert (Hmerge : forall indexerId,
             let db := mergeIndexerTrackers indexerId (m_trackers meta) (st_db st) in
             t_searchee db = t_searchee (st_db st)
             /\ t_decision db = t_decision (st_db st)
             /\ t_collisions db = t_collisions (st_db st)
             /\ t_conflict_rules db = t_conflict_rules (st_db st)
             /\ t_client_searchee db = t_client_searchee (st_db st)).
  { intros indexerId. unfold mergeIndexerTrackers.
    destruct (match find _ (t_indexer (st_db st)) with
              | Some _ => _ | None => _ end) as [dbTrackers|]; [|cbn; auto].
    destruct (pushMissing (m_trackers meta) dbTrackers false) as [dbTrackers' added].
    destruct added; cbn; auto. }
  destruct (writeFileSucceeds ext (m_infoHash meta)); cbn beta iota.
  2:{ eexists; eexists. split; [reflexivity|]. split; [|split; reflexivity].
      now apply Hframe. }
  destruct (c_indexerId candidate) as [indexerId|].
  2:{ eexists; eexists. split; [reflexivity|]. split; [|split; reflexivity].
      now apply Hframe. }
  destruct (m_trackers meta) as [|t ts] eqn:Htrackers.
  { eexists; eexists. split; [reflexivity|]. split; [|split; reflexivity].
    now apply Hframe. }
  destruct (indexerId =? 0)%Z.
  { eexists; eexists. split; [reflexivity|]. split; [|split; reflexivity].
    now apply Hframe. }
  eexists; eexists. split; [reflexivity|]. split; [|split; reflexivity].
  destruct (Hmerge indexerId) as (H1 & H2 & H3 & H4 & H5).
  unfold set_db, set_cache. cbn. now apply Hframe.
Qed.

Lemma mapGet_mapSet (V : Type) (k : string) (v : V) (m : list (string * V)) :
  mapGet k (mapSet k v m) = Some v.
Proof.
  induction m as [|[k' v'] m IH]; simpl.
  - now rewrite String.eqb_refl.
  - destruct (String.eqb k' k) eqn:Hk; simpl.
    + now rewrite String.eqb_refl.
    + now rewrite Hk.
Qed.

Lemma mapGet_mapSet_other (V : Type) (k k' : string) (v : V) (m : list (string * V)) :
  k' <> k -> mapGet k' (mapSet k v m) = mapGet k' m.
Proof.
  intros Hne. induction m as [|[k0 v0] m IH]; simpl.
  - destruct (String.eqb_spec k k'); [congruence|reflexivity].
  - destruct (String.eqb_spec k0 k) as [->|Hk]; simpl.
    + destruct (String.eqb_spec k k'); [congruence|reflexivity].
    + destruct (String.eqb k0 k'); [reflexivity|exact IH].
Qed.

Lemma cacheTorrentFile_cached (meta : Metafile) (candidate : Candidate) (st : State D) :
  exists st',
    cacheTorrentFile ext meta candidate st
    = (Ret (writeFileSucceeds ext (m_infoHash meta)), st')
    /\ (writeFileSucceeds ext (m_infoHash meta) = true ->
        st_cache st' = mapSet (m_infoHash meta) (Parsable meta) (st_cache st))
    /\ (writeFileSucceeds ext (m_infoHash meta) = false ->
        st_db st' = st_db st /\ st_cache st' = st_cache st).
Proof.
  unfold cacheTorrentFile, bind, emit, modify, modifyDb, ret. cbn beta iota.
  destruct (writeFileSucceeds ext (m_infoHash meta)); cbn beta iota.
  2:{ eexists. split; [reflexivity|]. split; [discriminate|]. intros _. now cbn. }
  destruct (c_indexerId candidate) as [indexerId|];
    [destruct (m_trackers meta) as [|t ts]; [|destruct (indexerId =? 0)%Z]|];
    (eexists; split; [reflexivity|]; split; [intros _; reflexivity|discriminate]).
Qed.

(** The run of [assessCandidate] and the state it leaves. *)
Lemma assessCandidate_run
        (metaOrCandidate : Metafile + Candidate) (searchee : Searchee)
        (blockList : list string) (config : RuntimeConfig)
        (candidateTracker : option string) (st : State D) :
  exists a st',
    assessCandidate ext metaOrCandidate searchee blockList config candidateTracker st
    = (Ret a, st')
    /\ AssessFrame st st'
    /\ (metafile a = None ->
        st_db st' = st_db st /\ st_clients st' = st_clients st
        /\ st_cache st' = st_cache st /\ st_exclude st' = st_exclude st)
    /\ (forall meta, metaOrCandidate = inl meta ->
          metafile a = Some meta /\ metaCached a = Some true /\ MetafileFrame st st')
    /\ (forall candidate, metaOrCandidate = inr candidate ->
          metaCached a = Some true ->
          exists meta, metafile a = Some meta
                       /\ mapGet (m_infoHash meta) (st_cache st') = Some (Parsable meta)).
Proof.
  assert (Hrefl : AssessFrame st st)
    by (apply MetafileFrame_AssessFrame, MetafileFrame_refl).
  destruct metaOrCandidate as [meta|candidate]; cbn [assessCandidate].
  - destruct (findBlockedStringInSearchee ext searchee blockList).
    + eexists; exists st. split; [reflexivity|]. split; [exact Hrefl|]. cbn.
      split; [discriminate|]. split; [|discriminate].
      intros m [= <-].
      split; [reflexivity|]. split; [reflexivity|apply MetafileFrame_refl].
    + destruct (assessMetafile_frame meta true searchee blockList config
                                     candidateTracker st)
        as (a & st' & Hrun & Hframe & Hmeta & Hcached & _).
      exists a, st'. split; [exact Hrun|].
      split; [now apply MetafileFrame_AssessFrame|].
      split; [rewrite Hmeta; discriminate|]. split; [|discriminate].
      intros m [= <-]. split; [exact Hmeta|]. split; [exact Hcached|exact Hframe].
  - destruct (preFilter ext candidate searchee).
    { eexists; exists st. split; [reflexivity|]. split; [exact Hrefl|]. cbn.
      split; [auto|]. split; discriminate. }
    destruct (findBlockedStringInSearchee ext searchee blockList).
    { eexists; exists st. split; [reflexivity|]. split; [exact Hrefl|]. cbn.
      split; [auto|]. split; discriminate. }
    unfold bind at 1. unfold emit at 1. unfold modify at 1. cbn beta iota.
    set (st0 := mkState (st_db st) (st_clients st) (st_cache st) (st_exclude st)
                        (st_guidInfoHashMap st) (st_ticks st)
                        (st_trace st ++ [EvSnatch (c_guid candidate) 4
                                                  (snatchDelayMs (s_label searchee))])).
    assert (H0 : AssessFrame st st0).
    { unfold AssessFrame, st0. cbn. repeat split; try apply incl_refl. now eexists. }
    destruct (snatch ext candidate (s_label searchee) 4 (snatchDelayMs (s_label searchee)))
      as [meta|err].
    2:{ eexists; exists st0. split; [reflexivity|]. split; [exact H0|]. cbn.
        split; [auto|]. split; discriminate. }
    unfold bind at 1.
    destruct (cacheTorrentFile_frame meta candidate st0) as (b & st1 & Hrun1 & H1 & _).
    destruct (cacheTorrentFile_cached meta candidate st0) as (st1' & Hrun1' & Hyes & _).
    rewrite Hrun1 in Hrun1'. injection Hrun1' as Hb <-. rewrite Hrun1.
    destruct (assessMetafile_frame meta b searchee blockList config candidateTracker st1)
      as (a & st' & Hrun & Hframe & Hmeta & Hcached & _).
    exists a, st'. split; [exact Hrun|]. split.
    { eapply AssessFrame_trans; [exact H0|].
      eapply AssessFrame_trans; [exact H1|]. now apply MetafileFrame_AssessFrame. }
    split; [rewrite Hmeta; discriminate|]. split; [discriminate|].
    intros c _ Htrue. exists meta. split; [exact Hmeta|].
    rewrite Hcached in Htrue. injection Htrue as ->.
    destruct Hframe as (_ & _ & _ & _ & _ & Hcache & _).
    rewrite Hcache, (Hyes (eq_sym Hb)). apply mapGet_mapSet.
Qed.

(** X10.  [assessCandidate] always returns an assessment, and whatever
    the outcome it leaves the tables [searchee], [decision], [collisions]
    and [conflict_rules], the guid map and the clock untouched; the
    exclusion set and the [client_searchee] table can only lose entries.
    An assessment without a metafile (a candidate rejected before or by
    the download) leaves the database, the clients, the cache and the
    exclusion set as they were.  For a metafile passed in, the assessment
    carries that metafile, marked as cached, neither the cache nor the
    [indexer] table is written, and the only calls made are to the client
    drivers.  For a candidate, an assessment marked as
    cached names a metafile that the torrent cache holds afterwards. *)
Theorem assessCandidate_frame
        (metaOrCandidate : Metafile + Candidate) (searchee : Searchee)
        (blockList : list string) (config : RuntimeConfig)
        (candidateTracker : option string) (st : State D) :
  exists a st',
    assessCandidate ext metaOrCandidate searchee blockList config candidateTracker st
    = (Ret a, st')
    /\ AssessFrame st st'
    /\ (metafile a = None ->
        st_db st' = st_db st /\ st_clients st' = st_clients st
        /\ st_cache st' = st_cache st /\ st_exclude st' = st_exclude st)
    /\ (forall meta, metaOrCandidate = inl meta ->
          metafile a = Some meta /\ metaCached a = Some true /\ MetafileFrame st st')
    /\ (forall candidate, metaOrCandidate = inr candidate ->
          metaCached a = Some true ->
          exists meta, metafile a = Some meta
                       /\ mapGet (m_infoHash meta) (st_cache st') = Some (Parsable meta)).
Proof. apply assessCandidate_run. Qed.

End AssessmentFrames.

(** ** Saving an assessment *)

Section Saving.

Variable D : Type.
Variable ext : Externals D.

Lemma saveAssessment_frame (assessment : ResultAssessment) (meta : Metafile)
      (searchee : Searchee) (guid : string) (firstSeen : Z) (st : State D) :
  PersistFrame st (snd (saveAssessment ext assessment meta searchee guid firstSeen st)).
Proof.
  unfold saveAssessment, bind at 1, getDb at 1, gets at 1. cbn beta iota.
  destruct (find _ (t_searchee (st_db st))) as [searcheeRow|];
    [|cbn; unfold PersistFrame; now repeat split].
  unfold bind at 1, dateNow at 1. cbn beta iota.
  unfold bind at 1, modifyDb at 1, modify at 1. cbn beta iota.
  unfold bind at 1, getDb at 1, gets at 1. cbn beta iota.
  match goal with
  | |- context [set_db ?db ?s] => set (st1 := set_db db s)
  end.
  assert (H1 : PersistFrame st st1) by (unfold PersistFrame; now repeat split).
  clearbody st1.
  assert (Hdel : forall id, PersistFrame st (snd (deleteCollisionRecord id st1))).
  { intros id. rewrite deleteCollisionRecord_run. cbn.
    unfold PersistFrame in *. cbn. exact H1. }
  destruct (find _ (t_decision (st_db st1))) as [decisionRow|]; [|exact H1].
  destruct (d_id decisionRow =? 0)%Z; [exact H1|].
  destruct (decision assessment); try apply Hdel.
  destruct (trackerMismatch assessment) as [tm|]; [|apply Hdel].
  destruct (canRecordPrivateCollision (Some meta)); [|apply Hdel].
  unfold bind at 1, dateNow at 1. cbn beta iota.
  match goal with
  | |- context [upsertCollisionRecord ext ?i ?t ?f ?ls ?s] =>
      destruct (upsertCollisionRecord_run ext i t f ls s)
        as (st' & Hrun & Hframe & _)
  end.
  rewrite Hrun. cbn [snd].
  destruct Hframe as (F1 & F2 & F3 & F4 & F5 & F6 & F7 & F8 & F9 & F10 & F11).
  destruct H1 as (G1 & G3 & G4 & G5 & G6 & G7 & G8 & G9 & G11).
  cbn in F1, F3, F4, F5, F6, F7, F8, F9, F11.
  unfold PersistFrame. repeat split; congruence.
Qed.

(** The run of [assessAndSaveResults] after [assessCandidate]. *)
Lemma assessAndSaveResults_run
        (metaOrCandidate : Metafile + Candidate) (searchee : Searchee) (guid : string)
        (firstSeen : Z) (candidateTracker : string) (config : RuntimeConfig)
        (st st1 : State D) (a : ResultAssessment) :
  assessCandidate ext metaOrCandidate searchee (blockList config) config
                  (Some candidateTracker) st = (Ret a, st1) ->
  let run := assessAndSaveResults ext metaOrCandidate searchee guid firstSeen
                                  candidateTracker config st in
  (metaCached a <> Some true \/ metafile a = None -> run = (Ret a, st1))
  /\ (forall meta, metaCached a = Some true -> metafile a = Some meta ->
        mapGet guid (st_guidInfoHashMap (snd run)) = Some (m_infoHash meta)
        /\ (forall k, k <> guid ->
              mapGet k (st_guidInfoHashMap (snd run)) = mapGet k (st_guidInfoHashMap st1))
        /\ PersistFrame (set_guidInfoHashMap
                           (mapSet guid (m_infoHash meta) (st_guidInfoHashMap st1)) st1)
                        (snd run)
        /\ (forall searcheeRow,
              find (fun s => String.eqb (se_name s) (s_title searchee))
                   (t_searchee (st_db st1)) = Some searcheeRow ->
              fst run = Ret a
              /\ exists id,
                   find (isDecisionKey (se_id searcheeRow) guid)
                        (t_decision (st_db (snd run)))
                   = Some (mkDecisionRow id (se_id searcheeRow) guid
                                         (Some (m_infoHash meta)) (decision a)
                                         (Some firstSeen)
                                         (Some (clock ext (st_ticks st1)))
                                         (getFuzzySizeFactor ext searchee)))
        /\ (find (fun s => String.eqb (se_name s) (s_title searchee))
                 (t_searchee (st_db st1)) = None ->
            fst run = Throw /\ st_db (snd run) = st_db st1)).
Proof.
  intros Hassess run. unfold run, assessAndSaveResults.
  unfold bind. rewrite Hassess. cbn beta iota. split.
  - intros [Hnot|Hnone].
    + destruct (metaCached a) as [[|]|]; [congruence| |]; reflexivity.
    + rewrite Hnone. now destruct (metaCached a) as [[|]|].
  - intros meta Hcached Hmeta. rewrite Hcached, Hmeta.
    unfold modify. cbn beta iota.
    set (st2 := set_guidInfoHashMap
                  (mapSet guid (m_infoHash meta) (st_guidInfoHashMap st1)) st1).
    pose proof (saveAssessment_frame a meta searchee guid firstSeen st2) as Hframe.
    assert (Hguid : forall (r : Res unit) (st' : State D),
               PersistFrame st2 st' ->
               mapGet guid (st_guidInfoHashMap st') = Some (m_infoHash meta)
               /\ (forall k, k <> guid ->
                     mapGet k (st_guidInfoHashMap st')
                     = mapGet k (st_guidInfoHashMap st1))).
    { intros _ st' (_ & _ & _ & _ & _ & _ & _ & G & _). rewrite G. cbn. split.
      - apply mapGet_mapSet.
      - intros k Hk. now apply mapGet_mapSet_other. }
    unfold transaction.
    destruct (find (fun s => String.eqb (se_name s) (s_title searchee))
                   (t_searchee (st_db st1))) as [searcheeRow|] eqn:Hrow.
    + destruct (@saveAssessment_run D ext a meta searchee guid firstSeen st2 searcheeRow
                                    Hrow)
        as (st' & id & Hrun & Hfind & _).
      rewrite Hrun in Hframe |- *. cbn [fst snd] in Hframe |- *. unfold ret.
      cbn [fst snd].
      destruct (Hguid (Ret tt) st' Hframe) as [Hg1 Hg2].
      split; [exact Hg1|]. split; [exact Hg2|]. split; [exact Hframe|].
      split; [|discriminate].
      intros row [= <-]. split; [reflexivity|]. exists id. exact Hfind.
    + assert (Hthrow : saveAssessment ext a meta searchee guid firstSeen st2
                       = (Throw, st2)).
      { unfold saveAssessment, bind, getDb, gets. cbn beta iota.
        change (st_db st2) with (st_db st1). now rewrite Hrow. }
      rewrite Hthrow. cbn [fst snd].
      assert (Hsame : set_db (st_db st2) st2 = st2) by (now destruct st1).
      rewrite Hsame.
      assert (Hrefl : PersistFrame st2 st2) by (unfold PersistFrame; now repeat split).
      destruct (Hguid Throw st2 Hrefl) as [Hg1 Hg2].
      split; [exact Hg1|]. split; [exact Hg2|]. split; [exact Hrefl|].
      split; [discriminate|]. intros _. split; reflexivity.
Qed.

(** X11.  What [assessAndSaveResults] does with the assessment [a] that
    [assessCandidate] returns.  Unless [a] is marked as cached and names a
    metafile, nothing is persisted: the call returns [a] in the state
    [assessCandidate] left.  Otherwise the guid map binds the guid to the
    metafile's info hash before the transaction runs.  When the searchee
    has a row, the call returns [a], the decision table holds the row of
    [(searchee id, guid)] with the info hash, the decision, [firstSeen]
    and the time of the write, and all but the tables [decision] and
    [collisions], the guid map and the clock is as [assessCandidate] left
    it.  When the searchee has no row, the call throws, the database is
    the one [assessCandidate] left, and the guid map keeps the new
    binding. *)
Theorem assessAndSaveResults_persists_cached
        (metaOrCandidate : Metafile + Candidate) (searchee : Searchee) (guid : string)
        (firstSeen : Z) (candidateTracker : string) (config : RuntimeConfig)
        (st st1 : State D) (a : ResultAssessment) :
  assessCandidate ext metaOrCandidate searchee (blockList config) config
                  (Some candidateTracker) st = (Ret a, st1) ->
  let run := assessAndSaveResults ext metaOrCandidate searchee guid firstSeen
                                  candidateTracker config st in
  (metaCached a <> Some true \/ metafile a = None -> run = (Ret a, st1))
  /\ (forall meta, metaCached a = Some true -> metafile a = Some meta ->
        mapGet guid (st_guidInfoHashMap (snd run)) = Some (m_infoHash meta)
        /\ (forall k, k <> guid ->
              mapGet k (st_guidInfoHashMap (snd run)) = mapGet k (st_guidInfoHashMap st1))
        /\ PersistFrame (set_guidInfoHashMap
                           (mapSet guid (m_infoHash meta) (st_guidInfoHashMap st1)) st1)
                        (snd run)
        /\ (forall searcheeRow,
              find (fun s => String.eqb (se_name s) (s_title searchee))
                   (t_searchee (st_db st1)) = Some searcheeRow ->
              fst run = Ret a
              /\ exists id,
                   find (isDecisionKey (se_id searcheeRow) guid)
                        (t_decision (st_db (snd run)))
                   = Some (mkDecisionRow id (se_id searcheeRow) guid
                                         (Some (m_infoHash meta)) (decision a)
                                         (Some firstSeen)
                                         (Some (clock ext (st_ticks st1)))
                                         (getFuzzySizeFactor ext searchee)))
        /\ (find (fun s => String.eqb (se_name s) (s_title searchee))
                 (t_searchee (st_db st1)) = None ->
            fst run = Throw /\ st_db (snd run) = st_db st1)).
Proof. apply assessAndSaveResults_run. Qed.

End Saving.

Lemma assessAndSaveResults_persists_cached_witness :
  mapGet "guid-1"
         (st_guidInfoHashMap
            (snd (assessAndSaveResults Ex.ext (inl Ex.renamedMeta) Ex.renamedSearchee
                                       "guid-1" 5 "a.example" Ex.strict Ex.oneClient)))
  = Some (m_infoHash Ex.renamedMeta).
Proof.
  refine (proj1 (proj2 (@assessAndSaveResults_persists_cached
                          Sim.Driver Ex.ext (inl Ex.renamedMeta) Ex.renamedSearchee
                          "guid-1" 5%Z "a.example" Ex.strict Ex.oneClient Ex.oneClient
                          (mkAssessment FILE_TREE_MISMATCH (Some Ex.renamedMeta)
                                        (Some true) None) _)
                       Ex.renamedMeta eq_refl eq_refl)).
  reflexivity.
Defined.

(** ** The torrent cache and the guid map *)

Section Cache.

Variable D : Type.
Variable ext : Externals D.

Lemma mapGet_in (V : Type) (k : string) (v : V) (m : list (string * V)) :
  mapGet k m = Some v -> In (k, v) m.
Proof.
  induction m as [|[k' v'] m IH]; simpl; [discriminate|].
  destruct (String.eqb_spec k' k) as [->|Hne].
  - intros [= ->]. now left.
  - intros H. right. now apply IH.
Qed.

Lemma mapGet_none (V : Type) (k : string) (m : list (string * V)) :
  mapGet k m = None <-> forall v, ~ In (k, v) m.
Proof.
  induction m as [|[k' v'] m IH]; simpl.
  - split; [intros _ v []|reflexivity].
  - destruct (String.eqb_spec k' k) as [->|Hne].
    + split; [discriminate|]. intros H. exfalso. apply (H v'). now left.
    + rewrite IH. split.
      * intros H v [[= Hk _]|Hin]; [congruence|now apply (H v)].
      * intros H v Hin. apply (H v). now right.
Qed.

Lemma guidLookup_exact (guid link infoHash : string)
      (guidInfoHashMap : list (string * string)) :
  mapGet guid guidInfoHashMap = Some infoHash ->
  JsString.truthy infoHash = true ->
  guidLookup ext guid link guidInfoHashMap = Some infoHash.
Proof.
  intros Hg Htruthy. unfold guidLookup. rewrite Hg. cbn [JsString.truthyOpt].
  now rewrite Htruthy.
Qed.

(** X12.  [guidLookup] only ever answers with an info hash the guid map
    holds.  A non-empty info hash stored under the guid itself is the
    answer; failing any entry under the guid, a non-empty one stored under
    the link is.  When neither the guid nor the link carries a torrent id,
    only these exact entries count, and an answer is never empty; on an
    empty map there is no answer. *)
Theorem guidLookup_answers_from_map
        (guid link : string) (guidInfoHashMap : list (string * string)) :
  (forall infoHash, guidLookup ext guid link guidInfoHashMap = Some infoHash ->
                    exists key, In (key, infoHash) guidInfoHashMap)
  /\ (forall infoHash, mapGet guid guidInfoHashMap = Some infoHash ->
                       JsString.truthy infoHash = true ->
                       guidLookup ext guid link guidInfoHashMap = Some infoHash)
  /\ (forall infoHash, mapGet guid guidInfoHashMap = None ->
                       mapGet link guidInfoHashMap = Some infoHash ->
                       JsString.truthy infoHash = true ->
                       guidLookup ext guid link guidInfoHashMap = Some infoHash)
  /\ (matchTorrentId ext guid = None -> matchTorrentId ext link = None ->
      forall infoHash, guidLookup ext guid link guidInfoHashMap = Some infoHash ->
                       JsString.truthy infoHash = true
                       /\ (mapGet guid guidInfoHashMap = Some infoHash
                           \/ mapGet guid guidInfoHashMap = None
                              /\ mapGet link guidInfoHashMap = Some infoHash))
  /\ (guidInfoHashMap = [] -> guidLookup ext guid link guidInfoHashMap = None).
Proof.
  assert (Hid : forall guidOrLink v,
             match matchTorrentId ext guidOrLink with
             | None => None
             | Some torrentIdStr =>
                 if negb (JsString.truthy torrentIdStr) then None
                 else option_map snd
                        (find (fun kv => optionStringEqb (matchTorrentId ext (fst kv))
                                                         (Some torrentIdStr))
                              guidInfoHashMap)
             end = Some v -> exists key, In (key, v) guidInfoHashMap).
  { intros guidOrLink v. destruct (matchTorrentId ext guidOrLink) as [tid|]; [|discriminate].
    destruct (negb (JsString.truthy tid)); [discriminate|].
    destruct (find _ guidInfoHashMap) as [[k w]|] eqn:Hfind; [|discriminate].
    intros [= <-]. exists k. apply find_some in Hfind. apply Hfind. }
  unfold guidLookup. split; [|split; [|split; [|split]]].
  - intros infoHash.
    destruct (mapGet guid guidInfoHashMap) as [v|] eqn:Hg.
    + cbn [JsString.truthyOpt]. destruct (JsString.truthy v) eqn:Hv.
      * intros [= <-]. exists guid. now apply mapGet_in.
      * destruct (match matchTorrentId ext guid with Some _ => _ | None => _ end)
          as [w|] eqn:Hw.
        -- intros [= <-]. eapply Hid. exact Hw.
        -- apply Hid.
    + destruct (mapGet link guidInfoHashMap) as [v|] eqn:Hl.
      * cbn [JsString.truthyOpt]. destruct (JsString.truthy v) eqn:Hv.
        -- intros [= <-]. exists link. now apply mapGet_in.
        -- destruct (match matchTorrentId ext guid with Some _ => _ | None => _ end)
             as [w|] eqn:Hw.
           ++ intros [= <-]. eapply Hid. exact Hw.
           ++ apply Hid.
      * cbn [JsString.truthyOpt].
        destruct (match matchTorrentId ext guid with Some _ => _ | None => _ end)
          as [w|] eqn:Hw.
        -- intros [= <-]. eapply Hid. exact Hw.
        -- apply Hid.
  - intros infoHash Hg Htruthy. rewrite Hg. cbn [JsString.truthyOpt]. now rewrite Htruthy.
  - intros infoHash Hg Hl Htruthy. rewrite Hg, Hl. cbn [JsString.truthyOpt].
    now rewrite Htruthy.
  - intros Hgid Hlid infoHash. rewrite Hgid, Hlid.
    destruct (mapGet guid guidInfoHashMap) as [v|];
      [|destruct (mapGet link guidInfoHashMap) as [v|]];
      cbn [JsString.truthyOpt];
      try (destruct (JsString.truthy v) eqn:Hv; [|discriminate]);
      try discriminate.
    + intros [= <-]. split; [exact Hv|now left].
    + intros [= <-]. split; [exact Hv|right; now split].
  - intros ->. cbn. destruct (matchTorrentId ext guid) as [tid|].
    + destruct (negb (JsString.truthy tid)); cbn;
        destruct (matchTorrentId ext link) as [tid'|]; try reflexivity;
        now destruct (negb (JsString.truthy tid')).
    + destruct (matchTorrentId ext link) as [tid'|]; try reflexivity;
        now destruct (negb (JsString.truthy tid')).
Qed.

Lemma mapGet_filter_same (V : Type) (h : string) (m : list (string * V)) :
  mapGet h (filter (fun kv => negb (String.eqb (fst kv) h)) m) = None.
Proof.
  induction m as [|[k v] m IH]; simpl; [reflexivity|].
  destruct (String.eqb k h) eqn:Hk; simpl; [exact IH|]. now rewrite Hk.
Qed.

Lemma mapGet_filter_other (V : Type) (h k : string) (m : list (string * V)) :
  k <> h ->
  mapGet k (filter (fun kv => negb (String.eqb (fst kv) h)) m) = mapGet k m.
Proof.
  intros Hne. induction m as [|[k0 v] m IH]; simpl; [reflexivity|].
  destruct (String.eqb_spec k0 h) as [->|Hk]; simpl.
  - destruct (String.eqb_spec h k); [congruence|exact IH].
  - now rewrite IH.
Qed.

Lemma getCachedTorrent_hit (infoHash : string) (meta : Metafile) (st : State D) :
  JsString.truthy infoHash = true ->
  mapGet infoHash (st_cache st) = Some (Parsable meta) ->
  getCachedTorrent ext (Some infoHash) st
  = if statSucceeds ext infoHash
    then (if utimesSucceeds ext infoHash then Ret (Some meta) else Throw,
          mkState (st_db st) (st_clients st) (st_cache st) (st_exclude st)
                  (st_guidInfoHashMap st) (st_ticks st)
                  (st_trace st ++ [EvUtimes infoHash (utimesSucceeds ext infoHash)]))
    else (Throw, st).
Proof.
  intros Htruthy Hget. unfold getCachedTorrent. rewrite Htruthy. cbn [negb].
  unfold bind at 1, gets at 1. cbn beta iota. rewrite Hget.
  destruct (statSucceeds ext infoHash); cbn [negb]; [|reflexivity].
  unfold bind, emit, modify, throw, ret. cbn beta iota.
  now destruct (utimesSucceeds ext infoHash).
Qed.

(** Without a parsable file under the info hash the call returns [null]. *)
Lemma getCachedTorrent_miss (infoHash : option string) (st : State D) :
  (forall h meta, infoHash = Some h -> JsString.truthy h = true ->
                  mapGet h (st_cache st) <> Some (Parsable meta)) ->
  fst (getCachedTorrent ext infoHash st) = Ret None.
Proof.
  intros Hnone. unfold getCachedTorrent. destruct infoHash as [h|]; [|reflexivity].
  destruct (JsString.truthy h) eqn:Htruthy; cbn [negb]; [|reflexivity].
  unfold bind, gets, emit, modify, ret. cbn beta iota.
  destruct (mapGet h (st_cache st)) as [[meta|]|] eqn:Hget;
    [|now destruct (unlinkSucceeds ext h)|reflexivity].
  now contradiction (Hnone h meta eq_refl Htruthy).
Qed.

(** X13.  [getCachedTorrent] touches neither the database nor the
    clients, the exclusion set, the guid map or the clock, whether it
    returns or rejects.  When the info hash is non-empty and the cache
    holds a torrent file under it that parses to a metafile, the call
    awaits [stat] and then calls [utimes]: it returns that metafile when
    both succeed and rejects when one of them fails, [utimes] not being
    called when [stat] has failed; the cache is left as it is.  In every
    other case it returns [null].  The cache never gains an entry and no
    entry changes.  A file that does not parse is deleted when [unlink]
    succeeds: that entry is gone, all others stay. *)
Theorem getCachedTorrent_reads_cache (infoHash : option string) (st : State D) :
  let run := getCachedTorrent ext infoHash st in
  let st' := snd run in
  let Held h meta :=
    infoHash = Some h /\ JsString.truthy h = true
    /\ mapGet h (st_cache st) = Some (Parsable meta) in
  (st_db st' = st_db st /\ st_clients st' = st_clients st
   /\ st_exclude st' = st_exclude st
   /\ st_guidInfoHashMap st' = st_guidInfoHashMap st
   /\ st_ticks st' = st_ticks st)
  /\ (forall meta,
        fst run = Ret (Some meta) <->
        exists h, Held h meta /\ statSucceeds ext h = true
                  /\ utimesSucceeds ext h = true)
  /\ (fst run = Throw <->
      exists h meta, Held h meta
                     /\ (statSucceeds ext h = false \/ utimesSucceeds ext h = false))
  /\ (fst run = Ret None <-> forall h meta, ~ Held h meta)
  /\ (forall h meta, Held h meta ->
        st_cache st' = st_cache st
        /\ st_trace st'
           = st_trace st ++ (if statSucceeds ext h
                             then [EvUtimes h (utimesSucceeds ext h)]
                             else []))
  /\ (forall k v, mapGet k (st_cache st') = Some v -> mapGet k (st_cache st) = Some v)
  /\ (forall h, infoHash = Some h -> JsString.truthy h = true ->
                mapGet h (st_cache st) = Some Corrupt ->
                unlinkSucceeds ext h = true ->
                mapGet h (st_cache st') = None
                /\ forall k, k <> h -> mapGet k (st_cache st') = mapGet k (st_cache st)).
Proof.
  intros run st' Held.
  assert (Hcases :
            (exists h meta, Held h meta
                            /\ run = if statSucceeds ext h
                                     then (if utimesSucceeds ext h
                                           then Ret (Some meta) else Throw,
                                           mkState (st_db st) (st_clients st)
                                                   (st_cache st) (st_exclude st)
                                                   (st_guidInfoHashMap st) (st_ticks st)
                                                   (st_trace st
                                                    ++ [EvUtimes h (utimesSucceeds ext h)]))
                                     else (Throw, st))
            \/ ((forall h meta, ~ Held h meta) /\ fst run = Ret None)).
  { destruct infoHash as [h|] eqn:Hinfo.
    2:{ right. split; [intros h meta (Hh & _); discriminate|reflexivity]. }
    destruct (JsString.truthy h) eqn:Htruthy.
    2:{ right. split; [intros h' meta ([= <-] & Ht & _); congruence|].
        unfold run, getCachedTorrent. now rewrite Htruthy. }
    destruct (mapGet h (st_cache st)) as [[meta|]|] eqn:Hget.
    - left. exists h, meta. split; [now repeat split|].
      now apply getCachedTorrent_hit.
    - right. split; [intros h' meta ([= <-] & _ & Hm); congruence|].
      apply getCachedTorrent_miss. intros h' meta [= <-] _. congruence.
    - right. split; [intros h' meta ([= <-] & _ & Hm); congruence|].
      apply getCachedTorrent_miss. intros h' meta [= <-] _. congruence. }
  assert (Hunique : forall h meta h' meta', Held h meta -> Held h' meta' ->
                                            h' = h /\ meta' = meta).
  { intros h meta h' meta' (H1 & _ & H2) (H3 & _ & H4). split; congruence. }
  assert (Hframe : st_db st' = st_db st /\ st_clients st' = st_clients st
                   /\ st_exclude st' = st_exclude st
                   /\ st_guidInfoHashMap st' = st_guidInfoHashMap st
                   /\ st_ticks st' = st_ticks st
                   /\ (forall k v, mapGet k (st_cache st') = Some v ->
                                   mapGet k (st_cache st) = Some v)).
  { unfold st', run, getCachedTorrent.
    destruct infoHash as [h|]; [|cbn; now repeat split].
    destruct (negb (JsString.truthy h)); [cbn; now repeat split|].
    unfold bind, gets, emit, modify, throw, ret. cbn beta iota.
    destruct (mapGet h (st_cache st)) as [[meta|]|].
    - destruct (statSucceeds ext h); cbn [negb]; [|cbn; now repeat split].
      destruct (utimesSucceeds ext h); cbn; now repeat split.
    - destruct (unlinkSucceeds ext h); cbn; repeat split; try reflexivity; auto.
      intros k v Hk. destruct (String.eqb_spec k h) as [->|Hne].
      + now rewrite mapGet_filter_same in Hk.
      + now rewrite mapGet_filter_other in Hk.
    - cbn. now repeat split. }
  destruct Hframe as (F1 & F2 & F3 & F4 & F5 & F6).
  split; [now repeat split|].
  split.
  { intros meta. split.
    - intros Hret. destruct Hcases as [(h & m & Hheld & Hrun)|[_ Hnone]]; [|congruence].
      rewrite Hrun in Hret. destruct (statSucceeds ext h) eqn:Hstat; [|discriminate].
      cbn [fst] in Hret. destruct (utimesSucceeds ext h) eqn:Hutimes; [|discriminate].
      injection Hret as <-. now exists h.
    - intros (h & Hheld & Hstat & Hutimes).
      destruct Hcases as [(h' & m & Hheld' & Hrun)|[Hnone _]];
        [|now contradiction (Hnone h meta)].
      destruct (Hunique h meta h' m Hheld Hheld') as [-> ->].
      now rewrite Hrun, Hstat, Hutimes. }
  split.
  { split.
    - intros Hthrow. destruct Hcases as [(h & m & Hheld & Hrun)|[_ Hnone]]; [|congruence].
      exists h, m. split; [exact Hheld|]. rewrite Hrun in Hthrow.
      destruct (statSucceeds ext h); [|now left].
      destruct (utimesSucceeds ext h); [discriminate|now right].
    - intros (h & meta & Hheld & Hfail).
      destruct Hcases as [(h' & m & Hheld' & Hrun)|[Hnone _]];
        [|now contradiction (Hnone h meta)].
      destruct (Hunique h meta h' m Hheld Hheld') as [-> ->]. rewrite Hrun.
      destruct (statSucceeds ext h); [|reflexivity].
      destruct Hfail as [Hfail|Hfail]; [discriminate|]. now rewrite Hfail. }
  split.
  { split.
    - intros Hnull h meta Hheld.
      destruct Hcases as [(h' & m & Hheld' & Hrun)|[Hnone _]]; [|now apply (Hnone h meta)].
      rewrite Hrun in Hnull. destruct (statSucceeds ext h'); [|discriminate].
      cbn [fst] in Hnull. destruct (utimesSucceeds ext h'); discriminate.
    - intros Hnone. destruct Hcases as [(h & m & Hheld & _)|[_ Hnull]]; [|exact Hnull].
      now contradiction (Hnone h m). }
  split.
  { intros h meta Hheld.
    destruct Hcases as [(h' & m & Hheld' & Hrun)|[Hnone _]];
      [|now contradiction (Hnone h meta)].
    destruct (Hunique h meta h' m Hheld Hheld') as [-> ->].
    unfold st'. rewrite Hrun. destruct (statSucceeds ext h); cbn; [now split|].
    now rewrite app_nil_r. }
  split; [exact F6|].
  intros h Hinfo Htruthy Hcorrupt Hunlink.
  unfold st', run, getCachedTorrent. rewrite Hinfo, Htruthy. cbn [negb].
  unfold bind, gets, emit, modify, ret. cbn beta iota. rewrite Hcorrupt, Hunlink. cbn.
  split; [apply mapGet_filter_same|]. intros k Hk. now apply mapGet_filter_other.
Qed.

(** X14.  A download that was cached is found again.  When
    [assessAndSaveResults] returns, for a candidate, an assessment marked
    as cached whose metafile has a non-empty info hash, then in the state
    it leaves [guidLookup] maps the guid to that info hash and the cache
    holds under it the file written for the metafile, which by the model
    of the cache parses back to it.  So the next [getCachedTorrent] for
    the guid never returns [null] or another metafile: it returns that
    metafile when [stat] and [utimes] succeed, and rejects otherwise. *)
Theorem cached_download_is_found_again
        (candidate : Candidate) (searchee : Searchee) (guid link : string)
        (firstSeen : Z) (candidateTracker : string) (config : RuntimeConfig)
        (st st' : State D) (a : ResultAssessment) (meta : Metafile) :
  assessAndSaveResults ext (inr candidate) searchee guid firstSeen candidateTracker
                       config st = (Ret a, st') ->
  metaCached a = Some true ->
  metafile a = Some meta ->
  JsString.truthy (m_infoHash meta) = true ->
  let again :=
    fst (getCachedTorrent ext (guidLookup ext guid link (st_guidInfoHashMap st')) st') in
  guidLookup ext guid link (st_guidInfoHashMap st') = Some (m_infoHash meta)
  /\ mapGet (m_infoHash meta) (st_cache st') = Some (Parsable meta)
  /\ again = (if statSucceeds ext (m_infoHash meta)
                 && utimesSucceeds ext (m_infoHash meta)
              then Ret (Some meta) else Throw)
  /\ (forall r, again = Ret r -> r = Some meta).
Proof.
  intros Hrun Hcached Hmeta Htruthy again.
  destruct (assessCandidate_run ext (inr candidate) searchee (blockList config) config
                                (Some candidateTracker) st)
    as (a0 & st1 & Hassess & _ & _ & _ & Hheld).
  pose proof (@assessAndSaveResults_run D ext (inr candidate) searchee guid firstSeen
                candidateTracker config st st1 a0 Hassess) as Hsave.
  cbv zeta in Hsave. rewrite Hrun in Hsave. cbn [fst snd] in Hsave.
  destruct Hsave as [Hskip Hpersist].
  assert (Ha : a0 = a).
  { destruct (metaCached a0) as [[|]|] eqn:Hc0;
      [destruct (metafile a0) as [m0|] eqn:Hm0|..];
      try (assert (Heq : (Ret a, st') = (Ret a0, st1))
            by (apply Hskip; (left; congruence) || (right; reflexivity));
           now injection Heq).
    pose proof (Hpersist m0 eq_refl eq_refl) as (_ & _ & _ & Hrow & Hnone).
    destruct (find (fun s => String.eqb (se_name s) (s_title searchee))
                   (t_searchee (st_db st1))) as [row|].
    - destruct (Hrow row eq_refl) as [Hret _]. now injection Hret.
    - destruct (Hnone eq_refl) as [Hthrow _]. discriminate. }
  subst a0.
  destruct (Hpersist meta Hcached Hmeta) as (Hguid & _ & Hframe & _).
  destruct (Hheld candidate eq_refl Hcached) as (meta' & Hmeta' & Hcache).
  assert (meta' = meta) by congruence. subst meta'.
  destruct Hframe as (_ & _ & _ & _ & _ & Fcache & _).
  cbn in Fcache.
  assert (Hfile : mapGet (m_infoHash meta) (st_cache st') = Some (Parsable meta))
    by now rewrite Fcache.
  assert (Hagain : again = (if statSucceeds ext (m_infoHash meta)
                               && utimesSucceeds ext (m_infoHash meta)
                            then Ret (Some meta) else Throw)).
  { unfold again. rewrite (guidLookup_exact guid link _ Hguid Htruthy).
    rewrite (@getCachedTorrent_hit (m_infoHash meta) meta st' Htruthy Hfile).
    destruct (statSucceeds ext (m_infoHash meta)); [|reflexivity].
    now destruct (utimesSucceeds ext (m_infoHash meta)). }
  split; [exact (guidLookup_exact guid link _ Hguid Htruthy)|].
  split; [exact Hfile|]. split; [exact Hagain|].
  intros r Hr. rewrite Hagain in Hr.
  destruct (statSucceeds ext (m_infoHash meta) && utimesSucceeds ext (m_infoHash meta));
    [now injection Hr|discriminate].
Qed.

End Cache.

Lemma cached_download_is_found_again_witness :
  let st' := snd (assessAndSaveResults Ex2.ext (inr Ex.candidate1) Ex.otherSearchee
                                       "guid-1" 5 "a.example" Ex.flexible Ex2.fresh) in
  guidLookup Ex2.ext "guid-1" "http://indexer/1" (st_guidInfoHashMap st') = Some Ex.H
  /\ fst (getCachedTorrent Ex2.ext
            (guidLookup Ex2.ext "guid-1" "http://indexer/1" (st_guidInfoHashMap st')) st')
     = Ret (Some Ex.privateMeta).
Proof.
  cbv zeta.
  destruct (@cached_download_is_found_again
              Sim.Driver Ex2.ext Ex.candidate1 Ex.otherSearchee
              "guid-1" "http://indexer/1" 5%Z "a.example" Ex.flexible Ex2.fresh
              (snd (assessAndSaveResults Ex2.ext (inr Ex.candidate1) Ex.otherSearchee
                                         "guid-1" 5 "a.example" Ex.flexible Ex2.fresh))
              (mkAssessment MATCH (Some Ex.privateMeta) (Some true) None)
              Ex.privateMeta eq_refl eq_refl eq_refl eq_refl)
    as (Hlookup & _ & Hagain & _).
  split; [exact Hlookup|exact Hagain].
Defined.

(** ** The trackers of an indexer *)

Section IndexerTrackers.

Variable D : Type.
Variable ext : Externals D.

Lemma jsonIncludes_in (items : list Json) (t : string) :
  jsonIncludes items t = true <-> In t (filterStrings items).
Proof.
  unfold jsonIncludes. induction items as [|j items IH]; simpl; [split; [discriminate|tauto]|].
  destruct j; simpl; rewrite ?IH; try tauto.
  destruct (String.eqb_spec s t); simpl; [split; auto|].
  rewrite IH. split; [auto|]. intros [Hs|Hin]; [congruence|exact Hin].
Qed.

Lemma filterStrings_app (a b : list Json) :
  filterStrings (a ++ b) = filterStrings a ++ filterStrings b.
Proof.
  induction a as [|j a IH]; simpl; [reflexivity|].
  destruct j; simpl; now rewrite ?IH.
Qed.

Lemma filterStrings_strings (xs : list string) : filterStrings (map JStr xs) = xs.
Proof. induction xs as [|x xs IH]; simpl; [reflexivity|now rewrite IH]. Qed.

Lemma pushMissing_spec :
  forall (metaTrackers : list string) (dbTrackers : list Json) (added : bool),
  exists new : list string,
    pushMissing metaTrackers dbTrackers added
    = (dbTrackers ++ map JStr new, match new with [] => added | _ => true end)
    /\ incl new metaTrackers
    /\ (forall t, In t new -> ~ In t (filterStrings dbTrackers))
    /\ NoDup new
    /\ incl metaTrackers (filterStrings dbTrackers ++ new).
Proof.
  induction metaTrackers as [|t rest IH]; intros dbTrackers added.
  - exists []. simpl. rewrite app_nil_r. repeat split.
    + intros x [].
    + intros x [].
    + constructor.
    + intros x [].
  - cbn [pushMissing]. destruct (jsonIncludes dbTrackers t) eqn:Hinc.
    + destruct (IH dbTrackers added) as (new & Hrun & Hnew & Hfresh & Hnd & Hall).
      exists new. split; [exact Hrun|]. split; [|split; [exact Hfresh|split; [exact Hnd|]]].
      * intros x Hx. right. now apply Hnew.
      * intros x [<-|Hx]; [|now apply Hall].
        apply in_or_app. left. now apply jsonIncludes_in.
    + destruct (IH (dbTrackers ++ [JStr t]) true)
        as (new & Hrun & Hnew & Hfresh & Hnd & Hall).
      assert (Hnot : ~ In t (filterStrings dbTrackers)).
      { intros Hin. apply jsonIncludes_in in Hin. congruence. }
      exists (t :: new). split; [|split; [|split; [|split]]].
      * rewrite Hrun. cbn [map]. rewrite <- app_assoc. cbn [app].
        now destruct new.
      * intros x [<-|Hx]; [now left|right; now apply Hnew].
      * intros x [<-|Hx]; [exact Hnot|].
        intros Hin. apply (Hfresh x Hx). rewrite filterStrings_app.
        apply in_or_app. now left.
      * constructor; [|exact Hnd]. intros Hin. apply (Hfresh t Hin).
        rewrite filterStrings_app. apply in_or_app. right. now left.
      * intros x [<-|Hx].
        -- apply in_or_app. right. now left.
        -- specialize (Hall x Hx). rewrite filterStrings_app in Hall. cbn in Hall.
           apply in_app_or in Hall. destruct Hall as [Hin|Hin].
           ++ apply in_app_or in Hin. destruct Hin as [Hin|[<-|[]]].
              ** apply in_or_app. now left.
              ** apply in_or_app. right. now left.
           ++ apply in_or_app. right. now right.
Qed.

Lemma find_map_update (indexerId : Z) (value : option JsonText) (rows : list IndexerRow)
      (row : IndexerRow) :
  find (fun r => (ix_id r =? indexerId)%Z) rows = Some row ->
  find (fun r => (ix_id r =? indexerId)%Z)
       (map (fun r => if (ix_id r =? indexerId)%Z then mkIndexerRow (ix_id r) value else r)
            rows)
  = Some (mkIndexerRow (ix_id row) value).
Proof.
  induction rows as [|r rows IH]; simpl; [discriminate|].
  destruct (ix_id r =? indexerId)%Z eqn:Hr.
  - intros [= <-]. cbn. now rewrite Hr.
  - rewrite Hr. exact IH.
Qed.

Lemma in_map_update (indexerId : Z) (value : option JsonText) (rows : list IndexerRow)
      (r : IndexerRow) :
  ix_id r <> indexerId ->
  (In r (map (fun r => if (ix_id r =? indexerId)%Z then mkIndexerRow (ix_id r) value else r)
             rows)
   <-> In r rows).
Proof.
  intros Hne. induction rows as [|x rows IH]; simpl; [tauto|].
  rewrite IH. destruct (Z.eqb_spec (ix_id x) indexerId) as [Hx|Hx].
  - split; intros [Heq|Hin]; auto; exfalso.
    + subst r. cbn in Hne. congruence.
    + subst r. congruence.
  - tauto.
Qed.

(** The [indexer] table after the merge, for a row with a usable column. *)
Lemma mergeIndexerTrackers_spec (indexerId : Z) (metaTrackers : list string) (db : Db)
      (row : IndexerRow) :
  find (fun r => (ix_id r =? indexerId)%Z) (t_indexer db) = Some row ->
  (ix_trackers row = None \/ ix_trackers row = Some (Malformed EmptyString)
   \/ exists items, ix_trackers row = Some (WellFormed (JArr items))) ->
  let db' := mergeIndexerTrackers indexerId metaTrackers db in
  exists row' new,
    find (fun r => (ix_id r =? indexerId)%Z) (t_indexer db') = Some row'
    /\ parseTrackersJson (ix_trackers row') = parseTrackersJson (ix_trackers row) ++ new
    /\ incl new metaTrackers
    /\ NoDup new
    /\ (forall t, In t new -> ~ In t (parseTrackersJson (ix_trackers row)))
    /\ incl metaTrackers (parseTrackersJson (ix_trackers row'))
    /\ (forall r, ix_id r <> indexerId -> (In r (t_indexer db') <-> In r (t_indexer db))).
Proof.
  intros Hfind Hcol db'. unfold db', mergeIndexerTrackers. rewrite Hfind.
  assert (Hstored : exists dbTrackers,
             match ix_trackers row with
             | None => Some []
             | Some (Malformed raw) => if JsString.truthy raw then None else Some []
             | Some (WellFormed (JArr items)) => Some items
             | Some (WellFormed _) => None
             end = Some dbTrackers
             /\ parseTrackersJson (ix_trackers row) = filterStrings dbTrackers).
  { destruct Hcol as [->|[->|[items ->]]]; eexists; split; reflexivity. }
  destruct Hstored as (dbTrackers & -> & Hparse).
  destruct (pushMissing_spec metaTrackers dbTrackers false)
    as (new & Hrun & Hnew & Hfresh & Hnd & Hall).
  rewrite Hrun. rewrite Hparse.
  destruct new as [|n new].
  - exists row, []. cbn [map] in *. rewrite app_nil_r in *.
    split; [exact Hfind|]. split; [now rewrite Hparse|].
    split; [exact Hnew|]. split; [exact Hnd|]. split; [exact Hfresh|].
    split; [now rewrite Hparse|]. intros r _. reflexivity.
  - eexists; exists (n :: new). cbn [t_indexer with_indexer].
    split; [apply find_map_update; exact Hfind|].
    cbn [ix_trackers parseTrackersJson].
    rewrite filterStrings_app, filterStrings_strings.
    split; [reflexivity|]. split; [exact Hnew|]. split; [exact Hnd|].
    split; [exact Hfresh|]. split; [exact Hall|].
    intros r Hr. now apply in_map_update.
Qed.

Lemma getIndexerTrackerSet_in (db : Db) (row : IndexerRow) (t : string) :
  In row (t_indexer db) -> In t (parseTrackersJson (ix_trackers row)) ->
  In (normalizeTrackerKey t) (getIndexerTrackerSet db).
Proof.
  intros Hrow Ht. unfold getIndexerTrackerSet. apply in_flat_map.
  exists row. split; [exact Hrow|]. now apply in_map.
Qed.

Lemma includes_in (xs : list string) (x : string) :
  JsString.includes xs x = true <-> In x xs.
Proof.
  unfold JsString.includes. rewrite existsb_exists. split.
  - intros (y & Hy & Heq). apply String.eqb_eq in Heq. now subst.
  - intros Hin. exists x. split; [exact Hin|apply String.eqb_refl].
Qed.

(** X15.  Caching a download registers its trackers with the indexer it
    came from.  When the torrent file is written, the candidate names an
    indexer whose row has an empty or array-valued [trackers] column, then
    afterwards that row lists what it listed before, followed by the
    metafile's trackers that were missing, each once; the rows of other
    indexers are untouched.  Every tracker of the metafile is then an
    indexer tracker for [getTrackerPriority]: it gets a priority at least
    as good as that of any all-indexers rule. *)
Theorem cacheTorrentFile_registers_trackers
        (meta : Metafile) (candidate : Candidate) (st : State D)
        (indexerId : Z) (row : IndexerRow) :
  writeFileSucceeds ext (m_infoHash meta) = true ->
  c_indexerId candidate = Some indexerId ->
  indexerId <> 0%Z ->
  find (fun r => (ix_id r =? indexerId)%Z) (t_indexer (st_db st)) = Some row ->
  (ix_trackers row = None \/ ix_trackers row = Some (Malformed EmptyString)
   \/ exists items, ix_trackers row = Some (WellFormed (JArr items))) ->
  let db' := st_db (snd (cacheTorrentFile ext meta candidate st)) in
  (exists row' new,
      find (fun r => (ix_id r =? indexerId)%Z) (t_indexer db') = Some row'
      /\ parseTrackersJson (ix_trackers row') = parseTrackersJson (ix_trackers row) ++ new
      /\ incl new (m_trackers meta)
      /\ NoDup new
      /\ (forall t, In t new -> ~ In t (parseTrackersJson (ix_trackers row)))
      /\ incl (m_trackers meta) (parseTrackersJson (ix_trackers row')))
  /\ (forall r, ix_id r <> indexerId ->
                (In r (t_indexer db') <-> In r (t_indexer (st_db st))))
  /\ (forall t, In t (m_trackers meta) ->
                JsString.includes (getIndexerTrackerSet db') (normalizeTrackerKey t) = true)
  /\ (forall t rules i rule,
        In t (m_trackers meta) -> nth_error rules i = Some rule ->
        allIndexers rule = true ->
        exists p, getTrackerPriority t rules (getIndexerTrackerSet db') = Some p
                  /\ (p <= i)%nat).
Proof.
  intros Hwrite Hindexer Hnonzero Hfind Hcol db'.
  assert (Hdb : db' = match m_trackers meta with
                      | [] => st_db st
                      | _ :: _ => mergeIndexerTrackers indexerId (m_trackers meta) (st_db st)
                      end).
  { unfold db', cacheTorrentFile, bind, emit, modify, modifyDb, ret. cbn beta iota.
    rewrite Hwrite, Hindexer. cbn beta iota.
    destruct (m_trackers meta) as [|t ts]; [reflexivity|].
    destruct (Z.eqb_spec indexerId 0); [contradiction|reflexivity]. }
  assert (Hspec : exists row' new,
             find (fun r => (ix_id r =? indexerId)%Z) (t_indexer db') = Some row'
             /\ parseTrackersJson (ix_trackers row')
                = parseTrackersJson (ix_trackers row) ++ new
             /\ incl new (m_trackers meta)
             /\ NoDup new
             /\ (forall t, In t new -> ~ In t (parseTrackersJson (ix_trackers row)))
             /\ incl (m_trackers meta) (parseTrackersJson (ix_trackers row'))
             /\ (forall r, ix_id r <> indexerId ->
                           (In r (t_indexer db') <-> In r (t_indexer (st_db st))))).
  { rewrite Hdb. destruct (m_trackers meta) as [|t ts] eqn:Htrackers.
    - exists row, []. rewrite app_nil_r. split; [exact Hfind|]. split; [reflexivity|].
      split; [apply incl_refl|]. split; [constructor|]. split; [intros x []|].
      split; [intros x []|]. intros r _. reflexivity.
    - apply (mergeIndexerTrackers_spec indexerId (t :: ts) (st_db st) Hfind Hcol). }
  clearbody db'.
  destruct Hspec as (row' & new & Hfind' & Hparse & Hnew & Hnd & Hfresh & Hall & Hothers).
  assert (Hset : forall t, In t (m_trackers meta) ->
                           In (normalizeTrackerKey t) (getIndexerTrackerSet db')).
  { intros t Ht. apply getIndexerTrackerSet_in with (row := row').
    - apply find_some in Hfind'. apply Hfind'.
    - now apply Hall. }
  split; [exists row', new; now repeat split|]. split; [exact Hothers|]. split.
  - intros t Ht. apply includes_in. now apply Hset.
  - intros t rules i rule Ht Hnth Hall'.
    apply getTrackerPriority_at_most with (rule := rule); [exact Hnth|].
    unfold ruleMatches. rewrite Hall'. cbn [andb].
    apply orb_true_iff. left. apply includes_in. now apply Hset.
Qed.

End IndexerTrackers.

Lemma cacheTorrentFile_registers_trackers_witness :
  JsString.includes
    (getIndexerTrackerSet
       (st_db (snd (cacheTorrentFile Ex.ext Ex.privateMeta Ex.candidate1 Ex2.fresh))))
    (normalizeTrackerKey "a.example") = true.
Proof.
  refine (proj1 (proj2 (proj2 (@cacheTorrentFile_registers_trackers
                                 Sim.Driver Ex.ext Ex.privateMeta Ex.candidate1 Ex2.fresh
                                 1%Z (mkIndexerRow 1 (Some (stringifyStrings ["b.example"])))
                                 _ _ _ _ _)))
                "a.example" _).
  - reflexivity.
  - reflexivity.
  - discriminate.
  - reflexivity.
  - right. right. eexists. reflexivity.
  - now left.
Defined.

(** ** Reading the saved rules back *)

Section RulesRoundTrip.

Variable D : Type.
Variable ext : Externals D.

Lemma orderByPriority_rulesPayload (firstId now : Z) :
  forall (rules : list RuleInput) (index : nat),
    orderByPriority (rulesPayload index firstId now rules)
    = rulesPayload index firstId now rules.
Proof.
  induction rules as [|rule rest IH]; intros index; [reflexivity|].
  cbn [rulesPayload]. unfold orderByPriority in *. cbn [fold_right].
  rewrite IH. destruct rest as [|rule' rest']; [reflexivity|].
  cbn [rulesPayload insertByPriority cr_priority].
  destruct (Z.leb_spec (Z.of_nat index + 1) (Z.of_nat (S index) + 1)) as [_|Hlt];
    [reflexivity|lia].
Qed.

Lemma parse_stringify (xs : list string) :
  parseTrackersJson (Some (stringifyStrings xs)) = xs.
Proof. unfold stringifyStrings. cbn. apply filterStrings_strings. Qed.

Lemma getConflictRules_rulesPayload (firstId now : Z) :
  forall (rules : list RuleInput) (index : nat),
    map (fun row => {| priority := cr_priority row;
                       allIndexers := cr_all_indexers row;
                       trackers := normalizeTrackers (parseTrackersJson (cr_trackers row)) |})
        (rulesPayload index firstId now rules)
    = rulesFrom index rules.
Proof.
  induction rules as [|rule rest IH]; intros index; [reflexivity|].
  cbn [rulesPayload map rulesFrom cr_priority cr_all_indexers cr_trackers].
  now rewrite IH, parse_stringify, normalizeTrackers_idem.
Qed.

Lemma getRules_rulesPayload (firstId now : Z) :
  forall (rules : list RuleInput) (index : nat),
    map storedRuleView
        (map (fun row => mkStoredRule (cr_id row) (cr_priority row) (cr_all_indexers row)
                                      (parseTrackerList (cr_trackers row)))
             (rulesPayload index firstId now rules))
    = rulesFrom index rules.
Proof.
  induction rules as [|rule rest IH]; intros index; [reflexivity|].
  cbn [rulesPayload map rulesFrom cr_priority cr_all_indexers cr_trackers].
  rewrite IH. unfold storedRuleView at 1. cbn.
  now rewrite filterStrings_strings, normalizeTrackers_idem.
Qed.

Lemma rulesFrom_nth :
  forall (rules : list RuleInput) (index i : nat) (rule : RuleInput),
    nth_error rules i = Some rule ->
    nth_error (rulesFrom index rules) i
    = Some {| priority := (Z.of_nat (index + i) + 1)%Z;
              allIndexers := in_allIndexers rule;
              trackers := normalizeTrackers (in_trackers rule) |}.
Proof.
  induction rules as [|r rest IH]; intros index i rule Hnth; [now destruct i|].
  destruct i as [|i]; cbn in *.
  - injection Hnth as <-. now rewrite Nat.add_0_r.
  - rewrite (IH (S index) i rule Hnth). do 3 f_equal. lia.
Qed.

Lemma rulesPayload_ids (firstId now : Z) :
  forall (rules : list RuleInput) (index : nat),
    map cr_id (rulesPayload index firstId now rules)
    = map (fun k => (firstId + Z.of_nat k)%Z) (seq index (List.length rules)).
Proof.
  induction rules as [|rule rest IH]; intros index; [reflexivity|].
  cbn. now rewrite IH.
Qed.

(** X2.  What [saveRules] stores is what is read back.  After
    [saveRules(R)], [getConflictRules] returns one rule per rule of [R], in
    the order of [R], the rule at index [i] with priority [i + 1], the
    flag of the input rule and its normalized trackers; [getRules] returns
    the same rules, under pairwise distinct ids.  Hence a tracker that
    rule [i] of [R] lists, up to letter case and surrounding white space,
    has a priority of at most [i] from then on. *)
Theorem saveRules_read_back (rules : list RuleInput) (st : State D) :
  let db' := st_db (snd (saveRules ext rules st)) in
  getConflictRules db' = rulesFrom 0 rules
  /\ map storedRuleView (getRules db') = rulesFrom 0 rules
  /\ NoDup (map sr_id (getRules db'))
  /\ (forall i rule listed tracker,
        nth_error rules i = Some rule -> In listed (in_trackers rule) ->
        JsString.trim listed <> EmptyString ->
        normalizeTrackerKey tracker = normalizeTrackerKey listed ->
        exists p, getTrackerPriority tracker (getConflictRules db')
                                     (getIndexerTrackerSet db') = Some p
                  /\ (p <= i)%nat).
Proof.
  intros db'.
  destruct (saveRules_run ext rules st) as (st' & Hrun & Hrows & _).
  assert (Hdb : t_conflict_rules db'
                = rulesPayload 0 (nextRuleId (t_conflict_rules (st_db st)))
                               (clock ext (st_ticks st)) rules).
  { unfold db'. rewrite Hrun. exact Hrows. }
  clearbody db'.
  assert (Hread : getConflictRules db' = rulesFrom 0 rules).
  { unfold getConflictRules.
    rewrite Hdb, orderByPriority_rulesPayload. apply getConflictRules_rulesPayload. }
  split; [exact Hread|]. split; [|split].
  - unfold getRules. rewrite Hdb, orderByPriority_rulesPayload.
    apply getRules_rulesPayload.
  - unfold getRules. rewrite Hdb, orderByPriority_rulesPayload, map_map.
    cbn [sr_id]. rewrite (rulesPayload_ids _ _ rules 0).
    apply Finite.Injective_map_NoDup; [|apply seq_NoDup].
    intros a b Hab. lia.
  - intros i rule listed tracker Hnth Hlisted Hne Hkey.
    rewrite Hread.
    apply getTrackerPriority_at_most
      with (rule := {| priority := (Z.of_nat (0 + i) + 1)%Z;
                       allIndexers := in_allIndexers rule;
                       trackers := normalizeTrackers (in_trackers rule) |}).
    + now apply rulesFrom_nth.
    + unfold ruleMatches. cbn [trackers]. apply orb_true_iff. right.
      apply existsb_exists. exists (JsString.trim listed). split.
      * apply normalizeTrackers_in. split; [exact Hne|]. now exists listed.
      * apply String.eqb_eq. rewrite Hkey. unfold normalizeTrackerKey.
        now rewrite JsStringFacts.trim_idem.
Qed.

End RulesRoundTrip.

(** ** Tracker options of the settings page *)

Lemma parseTrackerList_normalized (value : option JsonText) :
  parseTrackerList value = normalizeTrackers (parseTrackersJson value).
Proof. destruct value as [[raw|[]]|]; reflexivity. Qed.

Lemma sort_uniq_in (xs : list string) (x : string) :
  In x (JsString.sort (JsString.uniq xs)) <-> In x xs.
Proof.
  rewrite <- (uniq_in x xs). split; apply Permutation_in.
  - apply sort_perm.
  - apply Permutation_sym, sort_perm.
Qed.

Lemma sort_uniq_nodup (xs : list string) : NoDup (JsString.sort (JsString.uniq xs)).
Proof.
  eapply Permutation_NoDup; [apply Permutation_sym, sort_perm|apply uniq_nodup].
Qed.

Lemma getIndexerTrackers_in (db : Db) (t : string) :
  In t (getIndexerTrackers db) <->
  exists row, In row (t_indexer db) /\ In t (parseTrackerList (ix_trackers row)).
Proof. unfold getIndexerTrackers. rewrite sort_uniq_in. apply in_flat_map. Qed.

Lemma normalizeTrackerKey_trim (t : string) :
  normalizeTrackerKey (JsString.trim t) = normalizeTrackerKey t.
Proof. unfold normalizeTrackerKey. now rewrite JsStringFacts.trim_idem. Qed.

(** X16.  The tracker lists of the settings page.  [getTrackerOptions]
    lists the trackers of the indexer rows and [getThirdPartyTrackers]
    those of the selected client rows that no indexer row has; both lists
    are ascending and free of duplicates, and they are disjoint.  Only
    rows of private torrents are looked at unless public ones are asked
    for, which can only add trackers.  The options are compared as they
    are written, while the conflict rules compare trackers without regard
    to letter case: a non-empty key is an indexer tracker for
    [getTrackerPriority] exactly when it is the key of one of the
    options. *)
Theorem getThirdPartyTrackers_unregistered (includePublic : bool) (db : Db) :
  (forall t, In t (getTrackerOptions db) <->
             exists row, In row (t_indexer db)
                         /\ In t (parseTrackerList (ix_trackers row)))
  /\ (forall t, In t (getThirdPartyTrackers includePublic db) <->
                (exists row, In row (t_client_searchee db)
                             /\ cs_trackers row <> None
                             /\ (includePublic = true \/ cs_private row = Some true)
                             /\ In t (parseTrackerList (cs_trackers row)))
                /\ ~ In t (getTrackerOptions db))
  /\ (NoDup (getTrackerOptions db) /\ StronglySorted StringLe (getTrackerOptions db))
  /\ (NoDup (getThirdPartyTrackers includePublic db)
      /\ StronglySorted StringLe (getThirdPartyTrackers includePublic db))
  /\ incl (getThirdPartyTrackers false db) (getThirdPartyTrackers true db)
  /\ (forall key, key <> EmptyString ->
        (In key (getIndexerTrackerSet db) <->
         exists t, In t (getTrackerOptions db) /\ normalizeTrackerKey t = key)).
Proof.
  assert (Hthird : forall pub t,
             In t (getThirdPartyTrackers pub db) <->
             (exists row, In row (t_client_searchee db)
                          /\ cs_trackers row <> None
                          /\ (pub = true \/ cs_private row = Some true)
                          /\ In t (parseTrackerList (cs_trackers row)))
             /\ ~ In t (getTrackerOptions db)).
  { intros pub t. unfold getThirdPartyTrackers, getTrackerOptions.
    rewrite sort_uniq_in, filter_In, in_flat_map, negb_true_iff.
    assert (Hrow : forall row,
               thirdPartyRow pub row = true <->
               cs_trackers row <> None /\ (pub = true \/ cs_private row = Some true)).
    { intros row. unfold thirdPartyRow.
      destruct (cs_trackers row) as [v|]; [|split; [discriminate|intros [H _]; congruence]].
      destruct pub; cbn; [split; [intros _; split; [discriminate|now left]|reflexivity]|].
      destruct (cs_private row) as [[|]|]; split; try discriminate; try reflexivity.
      - intros _. split; [discriminate|now right].
      - intros [_ [H|H]]; discriminate.
      - intros [_ [H|H]]; discriminate. }
    assert (Hinc : JsString.includes (getIndexerTrackers db) t = false
                   <-> ~ In t (getIndexerTrackers db)).
    { rewrite <- includes_in. destruct (JsString.includes (getIndexerTrackers db) t);
        split; congruence. }
    rewrite Hinc. split.
    - intros [(row & Hin & Ht) Hnot]. split; [|exact Hnot].
      apply filter_In in Hin. destruct Hin as [Hin Hsel]. apply Hrow in Hsel.
      exists row. tauto.
    - intros [(row & Hin & Hcol & Hpriv & Ht) Hnot]. split; [|exact Hnot].
      exists row. split; [|exact Ht]. apply filter_In. split; [exact Hin|].
      apply Hrow. tauto. }
  split; [intros t; apply getIndexerTrackers_in|].
  split; [apply Hthird|].
  split; [split; [apply sort_uniq_nodup|apply sort_sorted]|].
  split; [split; [apply sort_uniq_nodup|apply sort_sorted]|].
  split.
  - intros t Ht. apply Hthird in Ht. apply Hthird.
    destruct Ht as [(row & Hin & Hcol & _ & Ht) Hnot]. split; [|exact Hnot].
    exists row. split; [exact Hin|]. split; [exact Hcol|]. split; [now left|exact Ht].
  - intros key Hkey. unfold getTrackerOptions. split.
    + intros Hin. unfold getIndexerTrackerSet in Hin. apply in_flat_map in Hin.
      destruct Hin as (row & Hrow & Hin). apply in_map_iff in Hin.
      destruct Hin as (t0 & Ht0 & Hin0).
      exists (JsString.trim t0). split; [|now rewrite normalizeTrackerKey_trim].
      apply getIndexerTrackers_in. exists row. split; [exact Hrow|].
      rewrite parseTrackerList_normalized. apply normalizeTrackers_in. split.
      * intros Hempty. apply Hkey. rewrite <- Ht0. unfold normalizeTrackerKey.
        now rewrite Hempty.
      * now exists t0.
    + intros (t & Hin & Ht). apply getIndexerTrackers_in in Hin.
      destruct Hin as (row & Hrow & Hin).
      rewrite parseTrackerList_normalized in Hin. apply normalizeTrackers_in in Hin.
      destruct Hin as (_ & t0 & Hin0 & Htrim).
      unfold getIndexerTrackerSet. apply in_flat_map. exists row. split; [exact Hrow|].
      apply in_map_iff. exists t0. split; [|exact Hin0].
      now rewrite <- Ht, <- Htrim, normalizeTrackerKey_trim.
Qed.

(** ** The settings page *)

Section SettingsPage.

Variable D : Type.
Variable ext : Externals D.

Lemma normalizeTrackerList_nodup (trackers : list string) :
  NoDup (normalizeTrackerList trackers).
Proof. apply sort_uniq_nodup. Qed.

Lemma normalizeTrackerList_sorted (trackers : list string) :
  StronglySorted StringLe (normalizeTrackerList trackers).
Proof. apply sort_sorted. Qed.

Lemma normalizeTrackerList_in (trackers : list string) (t : string) :
  In t (normalizeTrackerList trackers) <-> In t trackers.
Proof. apply sort_uniq_in. Qed.

Lemma normalizeTrackerList_fixed (trackers : list string) :
  NoDup trackers -> StronglySorted StringLe trackers ->
  normalizeTrackerList trackers = trackers.
Proof.
  intros Hnd Hs. unfold normalizeTrackerList.
  now rewrite uniq_of_nodup, sort_of_sorted.
Qed.

Lemma getConflictRules_after_save (rules : list RuleInput) (st : State D) :
  getConflictRules (st_db (snd (saveRules ext rules st))) = rulesFrom 0 rules
  /\ map storedRuleView (getRules (st_db (snd (saveRules ext rules st))))
     = rulesFrom 0 rules
  /\ t_indexer (st_db (snd (saveRules ext rules st))) = t_indexer (st_db st).
Proof.
  destruct (saveRules_run ext rules st) as (st' & Hrun & Hrows & _ & _ & _ & Hix & _).
  rewrite Hrun. cbn [snd]. unfold getConflictRules, getRules.
  rewrite Hrows, orderByPriority_rulesPayload. split; [|split].
  - apply getConflictRules_rulesPayload.
  - apply getRules_rulesPayload.
  - exact Hix.
Qed.

Lemma rulesFrom_app :
  forall (a b : list RuleInput) (index : nat),
    rulesFrom index (a ++ b) = rulesFrom index a ++ rulesFrom (index + List.length a) b.
Proof.
  induction a as [|r a IH]; intros b index; cbn.
  - now rewrite Nat.add_0_r.
  - rewrite IH. do 3 f_equal. lia.
Qed.

(** X17.  What the settings page sends to [saveRules].  Nothing is sent
    while a rule in trackers mode is empty.  Otherwise the rules sent are
    empty exactly when the page has no rule, and else end with an
    all-indexers rule; when the first rule of the page is in trackers mode
    that rule is appended to the page's rules.  Every rule sent is either
    an all-indexers rule without trackers or lists at least one tracker,
    in ascending order and without repetition.  Hence, once a non-empty
    rule list from the page is saved, every tracker of an indexer has a
    priority. *)
Theorem handleSaveRules_payload
        (priorityRules : list PriorityRule) (payload : list RuleInput) :
  handleSaveRules priorityRules = Some payload ->
  (payload = [] <-> priorityRules = [])
  /\ (priorityRules <> [] -> exists init, payload = init ++ [mkRuleInput true []])
  /\ (forall first rest, priorityRules = first :: rest -> pr_mode first = ModeTrackers ->
        payload = normalizeRuleList priorityRules ++ [mkRuleInput true []])
  /\ (forall rule, In rule payload ->
        (in_allIndexers rule = true /\ in_trackers rule = [])
        \/ (in_allIndexers rule = false /\ in_trackers rule <> []
            /\ NoDup (in_trackers rule)
            /\ StronglySorted StringLe (in_trackers rule)))
  /\ (priorityRules <> [] ->
      forall (st : State D) (key : string),
        let db' := st_db (snd (saveRules ext payload st)) in
        In key (getIndexerTrackerSet db') ->
        exists p, getTrackerPriority key (getConflictRules db')
                                     (getIndexerTrackerSet db') = Some p).
Proof.
  unfold handleSaveRules.
  destruct (existsb _ priorityRules) eqn:Hempty; [discriminate|].
  intros [= <-].
  assert (Hrule : forall rule, In rule (normalizeRuleList priorityRules) ->
             (in_allIndexers rule = true /\ in_trackers rule = [])
             \/ (in_allIndexers rule = false /\ in_trackers rule <> []
                 /\ NoDup (in_trackers rule)
                 /\ StronglySorted StringLe (in_trackers rule))).
  { intros rule Hin. unfold normalizeRuleList in Hin. apply in_map_iff in Hin.
    destruct Hin as (r & <- & Hr). cbn.
    destruct (isAllIndexers r) eqn:Hall; [now left|right].
    split; [reflexivity|]. split; [|split].
    - assert (Hsome : existsb (fun rule => negb (isAllIndexers rule)
                                           && (List.length (pr_trackers rule) =? 0)%nat)
                              priorityRules = true -> False) by congruence.
      intros Hnil. apply Hsome. apply existsb_exists. exists r. split; [exact Hr|].
      rewrite Hall. cbn.
      destruct (pr_trackers r) as [|t ts] eqn:Hts; [reflexivity|].
      exfalso. assert (Hin : In t (normalizeTrackerList (t :: ts)))
        by (apply normalizeTrackerList_in; now left).
      rewrite Hnil in Hin. destruct Hin.
    - apply normalizeTrackerList_nodup.
    - apply normalizeTrackerList_sorted. }
  assert (Hlast : priorityRules <> [] ->
                  exists init, buildRulesToSave priorityRules
                               = init ++ [mkRuleInput true []]).
  { intros Hne. unfold buildRulesToSave.
    destruct priorityRules as [|first rest]; [contradiction|].
    destruct (isAllIndexers first); [now exists []|now eexists]. }
  split; [|split; [exact Hlast|split; [|split]]].
  - unfold buildRulesToSave. destruct priorityRules as [|first rest]; [tauto|].
    destruct (isAllIndexers first); split; discriminate.
  - intros first rest -> Hmode. unfold buildRulesToSave, isAllIndexers.
    now rewrite Hmode.
  - intros rule Hin. unfold buildRulesToSave in Hin.
    destruct priorityRules as [|first rest]; [destruct Hin|].
    destruct (isAllIndexers first).
    + destruct Hin as [<-|[]]. now left.
    + apply in_app_or in Hin. destruct Hin as [Hin|[<-|[]]]; [now apply Hrule|now left].
  - intros Hne st key.
    set (db' := st_db (snd (saveRules ext (buildRulesToSave priorityRules) st))).
    intros Hkey.
    destruct (Hlast Hne) as (init & Hpayload).
    destruct (getConflictRules_after_save (buildRulesToSave priorityRules) st)
      as (Hread & _ & _).
    fold db' in Hread. rewrite Hread, Hpayload, rulesFrom_app. cbn [rulesFrom].
    destruct (@getTrackerPriority_at_most
                (rulesFrom 0 init
                 ++ [{| priority := (Z.of_nat (0 + List.length init) + 1)%Z;
                        allIndexers := true;
                        trackers := normalizeTrackers [] |}])
                (getIndexerTrackerSet db') key (List.length (rulesFrom 0 init))
                {| priority := (Z.of_nat (0 + List.length init) + 1)%Z;
                   allIndexers := true;
                   trackers := normalizeTrackers [] |})
      as (p & Hp & _).
    + rewrite nth_error_app2, Nat.sub_diag; [reflexivity|lia].
    + unfold ruleMatches. cbn [allIndexers andb]. apply orb_true_iff. left.
      apply includes_in. unfold getIndexerTrackerSet in Hkey |- *.
      apply in_flat_map in Hkey. destruct Hkey as (row & Hrow & Hin).
      apply in_map_iff in Hin. destruct Hin as (t0 & <- & Hin0).
      rewrite normalizeTrackerKey_idem.
      apply in_flat_map. exists row. split; [exact Hrow|]. now apply in_map.
    + exists p. exact Hp.
Qed.

Lemma normalizeTrackerList_idem (trackers : list string) :
  normalizeTrackerList (normalizeTrackerList trackers) = normalizeTrackerList trackers.
Proof.
  apply normalizeTrackerList_fixed;
    [apply normalizeTrackerList_nodup|apply normalizeTrackerList_sorted].
Qed.

Lemma normalizeTrackers_of_list (trackers : list string) :
  normalizeTrackers (normalizeTrackerList trackers) = normalizeTrackers trackers.
Proof.
  apply sorted_nodup_unique;
    try apply normalizeTrackers_sorted; try apply normalizeTrackers_nodup.
  intros x. rewrite !normalizeTrackers_in. split.
  - intros (Hne & t & Hin & Ht). split; [exact Hne|]. exists t.
    split; [now apply normalizeTrackerList_in|exact Ht].
  - intros (Hne & t & Hin & Ht). split; [exact Hne|]. exists t.
    split; [now apply normalizeTrackerList_in|exact Ht].
Qed.

Lemma rulesFrom_flags :
  forall (rules : list RuleInput) (index : nat),
    map allIndexers (rulesFrom index rules) = map in_allIndexers rules
    /\ map trackers (rulesFrom index rules)
       = map (fun rule => normalizeTrackers (in_trackers rule)) rules.
Proof.
  induction rules as [|rule rest IH]; intros index; [now split|].
  destruct (IH (S index)) as [H1 H2]. cbn. now rewrite H1, H2.
Qed.

(** The page computed from saved rules that are rules in trackers mode
    followed by one all-indexers rule. *)
Lemma initialRules_front (showId : Z -> string) (front : list StoredRule)
      (closing : StoredRule) :
  (forall r, In r front -> sr_allIndexers r = false) ->
  sr_allIndexers closing = true ->
  initialRules showId (front ++ [closing])
  = match front with
    | [] => [mkPriorityRule "all-indexers-primary" [] ModeAllIndexers]
    | _ :: _ => map (fun rule => mkPriorityRule (showId (sr_id rule))
                                                (normalizeTrackerList (sr_trackers rule))
                                                ModeTrackers)
                    front
    end
  /\ buildRulesToSave (initialRules showId (front ++ [closing]))
     = lastSavedRules (front ++ [closing]).
Proof.
  intros Hfront Hclosing.
  assert (Hfilter : filter (fun rule => negb (sr_allIndexers rule)) (front ++ [closing])
                    = front).
  { rewrite filter_app. cbn. rewrite Hclosing. cbn. rewrite app_nil_r.
    apply JsStringFacts.filter_id. intros r Hr. now rewrite (Hfront r Hr). }
  assert (Hinit : initialRules showId (front ++ [closing])
                  = match front with
                    | [] => [mkPriorityRule "all-indexers-primary" [] ModeAllIndexers]
                    | _ :: _ =>
                        map (fun rule => mkPriorityRule (showId (sr_id rule))
                                           (normalizeTrackerList (sr_trackers rule))
                                           ModeTrackers)
                            front
                    end).
  { unfold initialRules. rewrite Hfilter. destruct front as [|f fs]; [|reflexivity].
    cbn. now rewrite Hclosing. }
  split; [exact Hinit|]. rewrite Hinit.
  unfold lastSavedRules, normalizeStoredRuleList. rewrite map_app. cbn [map].
  rewrite Hclosing.
  destruct front as [|f fs]; [reflexivity|].
  unfold buildRulesToSave. cbn [map isAllIndexers pr_mode]. f_equal.
  unfold normalizeRuleList. cbn [map isAllIndexers pr_mode pr_trackers].
  rewrite (Hfront f (or_introl eq_refl)), normalizeTrackerList_idem. f_equal.
  rewrite map_map. apply map_ext_in. intros r Hr.
  cbn [isAllIndexers pr_mode pr_trackers].
  now rewrite (Hfront r (or_intror Hr)), normalizeTrackerList_idem.
Qed.

(** X18.  Saving from the settings page and loading the page again.
    When the page's rules are saved by [handleSaveRules] and [saveRules],
    and [getRules] is then read into a fresh page, that page is not dirty:
    the rules it would send are the ones it remembers as saved.  It shows
    the rules that were saved, their trackers normalized: the single
    all-indexers rule when that was the first rule, and else every rule of
    the page, in order. *)
Theorem reload_after_save_is_clean
        (showId : Z -> string) (priorityRules : list PriorityRule)
        (payload : list RuleInput) (st : State D) :
  handleSaveRules priorityRules = Some payload ->
  AllIndexersOnlyFirst priorityRules ->
  let saved := getRules (st_db (snd (saveRules ext payload st))) in
  buildRulesToSave (initialRules showId saved) = lastSavedRules saved
  /\ map (fun rule => (pr_mode rule, pr_trackers rule)) (initialRules showId saved)
     = match priorityRules with
       | [] => []
       | first :: _ =>
           if isAllIndexers first then [(ModeAllIndexers, [])]
           else map (fun rule => (ModeTrackers, normalizeTrackers (pr_trackers rule)))
                    priorityRules
       end.
Proof.
  unfold handleSaveRules.
  destruct (existsb _ priorityRules); [discriminate|].
  intros [= <-] Hvalid.
  set (saved := getRules (st_db (snd (saveRules ext (buildRulesToSave priorityRules) st)))).
  destruct (getConflictRules_after_save (buildRulesToSave priorityRules) st)
    as (_ & Hview & _).
  fold saved in Hview. clearbody saved.
  destruct (rulesFrom_flags (buildRulesToSave priorityRules) 0) as [Hflags Htrackers].
  rewrite <- Hview, !map_map in Hflags, Htrackers.
  cbn [storedRuleView allIndexers trackers] in Hflags, Htrackers.
  clear Hview.
  destruct priorityRules as [|first rest].
  - cbn in Hflags. apply map_eq_nil in Hflags. subst saved. now split.
  - unfold buildRulesToSave in Hflags, Htrackers.
    destruct (isAllIndexers first) eqn:Hfirst.
    + cbn in Hflags. destruct saved as [|closing [|? ?]]; try discriminate.
      injection Hflags as Hclosing.
      destruct (@initialRules_front showId [] closing) as [Hinit Hclean];
        [intros r []|exact Hclosing|].
      cbn [app] in Hinit, Hclean. split; [exact Hclean|]. now rewrite Hinit.
    + rewrite map_app in Hflags, Htrackers. apply map_eq_app in Hflags.
      destruct Hflags as (front & tail & -> & Hflags & Htail).
      cbn in Htail. destruct tail as [|closing [|? ?]]; try discriminate.
      injection Htail as Hclosing.
      rewrite map_app in Htrackers. cbn [map] in Htrackers.
      apply app_inj_tail in Htrackers. destruct Htrackers as [Htrackers _].
      unfold normalizeRuleList in Hflags, Htrackers. rewrite map_map in Hflags, Htrackers.
      cbn [in_allIndexers in_trackers] in Hflags, Htrackers.
      assert (Hmodes : forall r, In r (first :: rest) -> isAllIndexers r = false).
      { intros r [<-|Hr]; [exact Hfirst|].
        unfold isAllIndexers. now rewrite (Hvalid r Hr). }
      assert (Hnonall : forall r, In r front -> sr_allIndexers r = false).
      { intros r Hr.
        pose proof (in_map (fun x => sr_allIndexers x) front r Hr) as Hin.
        cbv beta in Hin. rewrite Hflags in Hin. apply in_map_iff in Hin.
        destruct Hin as (p & Hp & Hpin). rewrite <- Hp. now apply Hmodes. }
      destruct (@initialRules_front showId front closing Hnonall Hclosing)
        as [Hinit Hclean].
      split; [exact Hclean|]. rewrite Hinit.
      destruct front as [|f fs]; [discriminate|].
      rewrite map_map. cbn [pr_mode pr_trackers].
      transitivity (map (fun t => (ModeTrackers, normalizeTrackerList t))
                        (map (fun x => sr_trackers x) (f :: fs)));
        [now rewrite map_map|].
      rewrite Htrackers, map_map. apply map_ext_in. intros r Hr.
      rewrite (Hmodes r Hr), normalizeTrackers_of_list. f_equal.
      apply normalizeTrackerList_fixed;
        [apply normalizeTrackers_nodup|apply normalizeTrackers_sorted].
Qed.

End SettingsPage.

Lemma handleSaveRules_payload_witness :
  exists init,
    [ mkRuleInput false ["a.example"; "b.example"]; mkRuleInput true [] ]
    = init ++ [mkRuleInput true []].
Proof.
  refine (proj1 (proj2 (@handleSaveRules_payload
                          Sim.Driver Ex.ext Ex3.pageRules
                          [ mkRuleInput false ["a.example"; "b.example"];
                            mkRuleInput true [] ] _)) _).
  - reflexivity.
  - discriminate.
Defined.

Lemma reload_after_save_is_clean_witness :
  let saved :=
    getRules (st_db (snd (saveRules Ex.ext
                                    [ mkRuleInput false ["a.example"; "b.example"];
                                      mkRuleInput true [] ]
                                    Ex.oneClient))) in
  buildRulesToSave (initialRules Ex3.showId saved) = lastSavedRules saved.
Proof.
  refine (proj1 (@reload_after_save_is_clean
                   Sim.Driver Ex.ext Ex3.showId Ex3.pageRules
                   [ mkRuleInput false ["a.example"; "b.example"];
                     mkRuleInput true [] ] Ex.oneClient _ _)).
  - reflexivity.
  - intros rule [].
Defined.

(** ** Assessments from the torrent cache *)

Section FromCache.

Variable D : Type.
Variable ext : Externals D.

Lemma NoDownload_refl (st : State D) : NoDownload st st.
Proof.
  split; [reflexivity|]. split; [reflexivity|].
  exists []. split; [now rewrite app_nil_r|constructor].
Qed.

Lemma NoDownload_trans (st1 st2 st3 : State D) :
  NoDownload st1 st2 -> NoDownload st2 st3 -> NoDownload st1 st3.
Proof.
  intros (a1 & a2 & evs1 & a3 & a4) (b1 & b2 & evs2 & b3 & b4).
  split; [congruence|]. split; [congruence|].
  exists (evs1 ++ evs2). split; [now rewrite b3, a3, app_assoc|].
  apply Forall_app. now split.
Qed.

Lemma MetafileFrame_NoDownload (st st' : State D) :
  MetafileFrame st st' -> NoDownload st st'.
Proof.
  intros (_ & _ & _ & _ & Hix & Hcache & _ & _ & _ & _ & Hevs).
  split; [exact Hcache|]. split; [exact Hix|exact Hevs].
Qed.

Lemma PersistFrame_NoDownload (st st' : State D) :
  PersistFrame st st' -> NoDownload st st'.
Proof.
  intros (_ & _ & Hix & _ & _ & Hcache & _ & _ & Htrace).
  split; [exact Hcache|]. split; [exact Hix|].
  exists []. split; [now rewrite app_nil_r|constructor].
Qed.

Lemma NoDownload_bind (A B : Type) (m : M D A) (k : A -> M D B) :
  Returns NoDownload m -> (forall a, Frames NoDownload (k a)) -> Frames NoDownload (bind m k).
Proof.
  intros Hm Hk st. unfold bind.
  destruct (Hm st) as (a & st1 & -> & H1).
  eapply NoDownload_trans; [exact H1|apply Hk].
Qed.

Lemma NoDownload_returns_ret (A : Type) (a : A) : Returns NoDownload (@ret D A a).
Proof. intros st. exists a, st. split; [reflexivity|apply NoDownload_refl]. Qed.

Lemma NoDownload_of_returns (A : Type) (m : M D A) : Returns NoDownload m -> Frames NoDownload m.
Proof. intros Hm st. destruct (Hm st) as (a & st1 & -> & H1). exact H1. Qed.

Lemma NoDownload_returns_gets (A : Type) (f : State D -> A) : Returns NoDownload (gets f).
Proof. intros st. exists (f st), st. split; [reflexivity|apply NoDownload_refl]. Qed.

Lemma NoDownload_returns_orDateNow (value : option Z) : Returns NoDownload (orDateNow ext value).
Proof.
  intros st. destruct value as [v|]; cbn.
  - exists v, st. split; [reflexivity|apply NoDownload_refl].
  - eexists; eexists. split; [reflexivity|]. unfold NoDownload. cbn.
    split; [reflexivity|]. split; [reflexivity|].
    exists []. split; [now rewrite app_nil_r|constructor].
Qed.

Lemma NoDownload_returns_logAnnounceMismatch (meta : Metafile) :
  Returns NoDownload (logAnnounceMismatch ext meta).
Proof.
  intros st. destruct (logAnnounceMismatch_run ext meta st) as [tm ->].
  exists tm, st. split; [reflexivity|apply NoDownload_refl].
Qed.

Lemma NoDownload_returns_resolveConflictRules (infoHash : string) (cand : list string)
      (name : string) :
  Returns NoDownload (resolveConflictRules ext infoHash cand name).
Proof.
  intros st. destruct (resolveConflictRules_frame ext infoHash cand name st)
    as (b & st' & Hrun & Hframe & _).
  exists b, st'. split; [exact Hrun|now apply MetafileFrame_NoDownload].
Qed.

Lemma NoDownload_returns_set_exclude (f : list string -> list string) :
  Returns NoDownload (modify (fun st : State D => set_exclude (f (st_exclude st)) st)).
Proof.
  intros st. eexists; eexists. split; [reflexivity|]. unfold NoDownload. cbn.
  split; [reflexivity|]. split; [reflexivity|].
  exists []. split; [now rewrite app_nil_r|constructor].
Qed.

Lemma recordCachedCollision_frame (entry : DecisionRow) (cachedMeta : option Metafile)
      (tm : option TrackerMismatchInfo) (st : State D) :
  PersistFrame st (snd (recordCachedCollision ext entry cachedMeta tm st)).
Proof.
  unfold recordCachedCollision.
  unfold bind at 1, dateNow at 1. cbn beta iota.
  unfold bind at 1, modifyDb at 1, modify at 1. cbn beta iota.
  match goal with
  | |- context [set_db ?db ?s] => set (st1 := set_db db s)
  end.
  assert (H1 : PersistFrame st st1) by (unfold PersistFrame; now repeat split).
  clearbody st1.
  assert (Hdel : forall id (a : ResultAssessment),
             PersistFrame st (snd (bind (deleteCollisionRecord id)
                                        (fun _ => ret a) st1))).
  { intros id a. unfold bind. rewrite deleteCollisionRecord_run. cbn.
    unfold PersistFrame in *. cbn. exact H1. }
  destruct tm as [tm|]; [|apply Hdel].
  destruct (canRecordPrivateCollision cachedMeta); [|apply Hdel].
  assert (Hup : forall firstSeen (st2 : State D) (a : ResultAssessment),
             PersistFrame st st2 ->
             PersistFrame st
               (snd (bind (bind (dateNow ext)
                                (fun lastSeen =>
                                   upsertCollisionRecord ext (d_id entry) tm firstSeen
                                                         lastSeen))
                          (fun _ => ret a) st2))).
  { intros firstSeen st2 a H2. unfold bind at 1 2, dateNow at 1. cbn beta iota.
    match goal with
    | |- context [upsertCollisionRecord ext ?i ?t ?f ?ls ?s] =>
        destruct (upsertCollisionRecord_run ext i t f ls s)
          as (st' & Hrun & Hframe & _)
    end.
    rewrite Hrun. cbn [snd ret].
    destruct Hframe as (F1 & F2 & F3 & F4 & F5 & F6 & F7 & F8 & F9 & F10 & F11).
    destruct H2 as (G1 & G3 & G4 & G5 & G6 & G7 & G8 & G9 & G11).
    cbn in F1, F3, F4, F5, F6, F7, F8, F9, F11.
    unfold PersistFrame. repeat split; congruence. }
  destruct (d_first_seen entry) as [v|]; cbn [orDateNow].
  - unfold bind at 2. unfold ret at 1. cbn beta iota. now apply Hup.
  - unfold bind at 2. unfold dateNow at 1. cbn beta iota. apply Hup.
    destruct H1 as (G1 & G3 & G4 & G5 & G6 & G7 & G8 & G9 & G11).
    unfold PersistFrame. cbn. now repeat split.
Qed.

Lemma NoDownload_recordCachedCollision (entry : DecisionRow) (cachedMeta : option Metafile)
      (tm : option TrackerMismatchInfo) :
  Frames NoDownload (recordCachedCollision ext entry cachedMeta tm).
Proof. intros st. apply PersistFrame_NoDownload, recordCachedCollision_frame. Qed.

Lemma NoDownload_assessAndSaveResults (meta : Metafile) (searchee : Searchee) (guid : string)
      (firstSeen : Z) (candidateTracker : string) (config : RuntimeConfig) :
  Frames NoDownload (assessAndSaveResults ext (inl meta) searchee guid firstSeen candidateTracker
                              config).
Proof.
  intros st.
  destruct (assessCandidate_run ext (inl meta) searchee (blockList config) config
                                (Some candidateTracker) st)
    as (a & st1 & Hassess & _ & _ & Hinl & _).
  destruct (Hinl meta eq_refl) as (Hmeta & Hcached & Hframe).
  pose proof (@assessAndSaveResults_run D ext (inl meta) searchee guid firstSeen
                candidateTracker config st st1 a Hassess) as [_ Hsave].
  destruct (Hsave meta Hcached Hmeta) as (_ & _ & Hpersist & _).
  eapply NoDownload_trans; [apply MetafileFrame_NoDownload; exact Hframe|].
  apply PersistFrame_NoDownload in Hpersist.
  destruct Hpersist as (P1 & P2 & P3). split; [exact P1|]. split; [exact P2|exact P3].
Qed.

Lemma NoDownload_assessCached (meta : Metafile) (guid tracker : string)
      (searchee : Searchee) (config : RuntimeConfig) (cacheEntry : option DecisionRow) :
  Frames NoDownload (assessCached ext meta guid tracker searchee config cacheEntry).
Proof.
  unfold assessCached. cbv zeta.
  apply NoDownload_bind; [apply NoDownload_returns_gets|]. intros exclude.
  assert (Hsave : forall value,
             Frames NoDownload
                    (bind (orDateNow ext value) (fun firstSeen =>
                       assessAndSaveResults ext (inl meta) searchee guid firstSeen
                                            tracker config))).
  { intros value. apply NoDownload_bind; [apply NoDownload_returns_orDateNow|].
    intros firstSeen. apply NoDownload_assessAndSaveResults. }
  destruct cacheEntry as [entry|]; [|exact (Hsave None)].
  destruct (d_info_hash entry) as [entryHash|]; [|apply Hsave].
  destruct (JsString.includes exclude entryHash); [|apply Hsave].
  apply NoDownload_bind; [apply NoDownload_returns_logAnnounceMismatch|]. intros tm.
  apply NoDownload_bind.
  - destruct (collisionCandidateTrackers tm (Some tracker));
      [apply NoDownload_returns_ret|apply NoDownload_returns_resolveConflictRules].
  - intros [|].
    + apply NoDownload_bind; [apply (NoDownload_returns_set_exclude (setDelete entryHash))|].
      intros _. apply Hsave.
    + apply NoDownload_recordCachedCollision.
Qed.

(** With a parsable file in the cache, the call is decided by [stat] and
    [utimes]: it rejects, or goes on with the cached metafile. *)
Lemma assessCandidateCaching_hit
      (candidate : Candidate) (searchee : Searchee) (config : RuntimeConfig)
      (st : State D) (infoHash : string) (meta : Metafile) :
  guidLookup ext (c_guid candidate) (c_link candidate) (st_guidInfoHashMap st)
  = Some infoHash ->
  JsString.truthy infoHash = true ->
  mapGet infoHash (st_cache st) = Some (Parsable meta) ->
  let touched ok :=
    mkState (st_db st) (st_clients st) (st_cache st) (st_exclude st)
            (st_guidInfoHashMap st) (st_ticks st)
            (st_trace st ++ [EvUtimes infoHash ok]) in
  assessCandidateCaching ext candidate searchee config st
  = if statSucceeds ext infoHash
    then if utimesSucceeds ext infoHash
         then assessCached ext meta (c_guid candidate) (c_tracker candidate) searchee
                           config
                           (findCacheEntry (st_db st) (s_title searchee)
                                           (c_guid candidate))
                           (touched true)
         else (Throw, touched false)
    else (Throw, st).
Proof.
  intros Hlookup Htruthy Hcache touched.
  unfold assessCandidateCaching.
  unfold bind at 1, getDb at 1, gets at 1. cbn beta iota.
  unfold bind at 1, gets at 1. cbn beta iota.
  rewrite Hlookup. unfold bind at 1.
  rewrite (@getCachedTorrent_hit D ext infoHash meta st Htruthy Hcache).
  destruct (statSucceeds ext infoHash); [|reflexivity].
  destruct (utimesSucceeds ext infoHash); [|reflexivity].
  reflexivity.
Qed.

(** X19.  A torrent that is in the cache is not downloaded again.  When
    [guidLookup] finds an info hash for the candidate and the cache holds
    a torrent file under it that parses, [assessCandidateCaching] first
    awaits [stat] and [utimes] on that file and rejects, with nothing
    assessed or written, when one of them fails.  When both succeed, the
    file's access time has been touched and the cached metafile is what is
    assessed: unless the cached decision names an excluded info hash, the
    call is [assessAndSaveResults] on the metafile, with the [first_seen]
    of the cached decision or else the current time; and in every case
    the candidate matters by its guid, link and tracker only.  Apart from
    the touch the only calls made are to the client drivers, and neither
    the torrent cache nor the [indexer] table is written. *)
Theorem assessCandidateCaching_reuses_cached_torrent
        (candidate : Candidate) (searchee : Searchee) (config : RuntimeConfig)
        (st : State D) (infoHash : string) (meta : Metafile) :
  guidLookup ext (c_guid candidate) (c_link candidate) (st_guidInfoHashMap st)
  = Some infoHash ->
  JsString.truthy infoHash = true ->
  mapGet infoHash (st_cache st) = Some (Parsable meta) ->
  let run := assessCandidateCaching ext candidate searchee config st in
  let st' := snd run in
  let touched ok :=
    mkState (st_db st) (st_clients st) (st_cache st) (st_exclude st)
            (st_guidInfoHashMap st) (st_ticks st)
            (st_trace st ++ [EvUtimes infoHash ok]) in
  let assessIt firstSeen :=
    assessAndSaveResults ext (inl meta) searchee (c_guid candidate) firstSeen
                         (c_tracker candidate) config in
  (statSucceeds ext infoHash = false -> run = (Throw, st))
  /\ (statSucceeds ext infoHash = true -> utimesSucceeds ext infoHash = false ->
      run = (Throw, touched false))
  /\ (statSucceeds ext infoHash = true -> utimesSucceeds ext infoHash = true ->
      (exists evs, st_trace st' = st_trace st ++ EvUtimes infoHash true :: evs
                   /\ Forall isDriverCall evs)
      /\ st_cache st' = st_cache st
      /\ t_indexer (st_db st') = t_indexer (st_db st)
      /\ match findCacheEntry (st_db st) (s_title searchee) (c_guid candidate) with
         | None => run = bind (dateNow ext) assessIt (touched true)
         | Some entry =>
             (forall entryHash, d_info_hash entry = Some entryHash ->
                                JsString.includes (st_exclude st) entryHash = false) ->
             run = bind (orDateNow ext (d_first_seen entry)) assessIt (touched true)
         end
      /\ forall other : Candidate,
           c_guid other = c_guid candidate -> c_link other = c_link candidate ->
           c_tracker other = c_tracker candidate ->
           assessCandidateCaching ext other searchee config st = run).
Proof.
  intros Hlookup Htruthy Hcache run st' touched assessIt.
  pose proof (assessCandidateCaching_hit candidate searchee config st
                                         Hlookup Htruthy Hcache) as Hrun.
  cbv zeta in Hrun. fold run in Hrun. subst touched. cbv beta.
  split; [intros Hstat; now rewrite Hrun, Hstat|].
  split; [intros Hstat Hutimes; now rewrite Hrun, Hstat, Hutimes|].
  intros Hstat Hutimes. rewrite Hstat, Hutimes in Hrun.
  pose proof (NoDownload_assessCached meta (c_guid candidate) (c_tracker candidate)
                searchee config
                (findCacheEntry (st_db st) (s_title searchee) (c_guid candidate))
                (mkState (st_db st) (st_clients st) (st_cache st) (st_exclude st)
                         (st_guidInfoHashMap st) (st_ticks st)
                         (st_trace st ++ [EvUtimes infoHash true]))) as Hquiet.
  rewrite <- Hrun in Hquiet. fold st' in Hquiet.
  destruct Hquiet as (Q1 & Q2 & evs & Q3 & Q4).
  split.
  { exists evs. split; [|exact Q4]. rewrite Q3. cbn [st_trace].
    now rewrite <- app_assoc. }
  split; [exact Q1|]. split; [exact Q2|].
  split.
  { rewrite Hrun. unfold assessCached. cbv zeta.
    unfold bind at 1, gets at 1. cbn beta iota.
    destruct (findCacheEntry (st_db st) (s_title searchee) (c_guid candidate))
      as [entry|]; [|reflexivity].
    intros Hfree. destruct (d_info_hash entry) as [entryHash|]; [|reflexivity].
    cbn [st_exclude]. now rewrite (Hfree entryHash eq_refl). }
  intros other Hguid Hlink Htracker.
  rewrite <- Hguid, <- Hlink in Hlookup.
  pose proof (assessCandidateCaching_hit other searchee config st
                                         Hlookup Htruthy Hcache) as Hother.
  cbv zeta in Hother. rewrite Hstat, Hutimes, Hguid, Htracker in Hother.
  now rewrite Hother, Hrun.
Qed.

End FromCache.

Lemma assessCandidateCaching_reuses_cached_torrent_witness :
  let run := assessCandidateCaching Ex.ext Ex.candidate1 Ex.otherSearchee
                                    Ex.flexible Ex.injected in
  st_cache (snd run) = st_cache Ex.injected
  /\ exists evs, st_trace (snd run) = EvUtimes Ex.H true :: evs.
Proof.
  cbv zeta.
  destruct (@assessCandidateCaching_reuses_cached_torrent
              Sim.Driver Ex.ext Ex.candidate1 Ex.otherSearchee Ex.flexible
              Ex.injected Ex.H Ex.privateMeta eq_refl eq_refl eq_refl)
    as (_ & _ & Hboth).
  destruct (Hboth eq_refl eq_refl) as ((evs & Htrace & _) & Hcache & _).
  split; [exact Hcache|]. exists evs. exact Htrace.
Defined.

(** ** The name filters *)

Section NameFilters.

Variable D : Type.
Variable ext : Externals D.

Lemma optionStringEqb_sym (a b : option string) :
  optionStringEqb a b = optionStringEqb b a.
Proof. destruct a, b; cbn; try reflexivity. apply String.eqb_sym. Qed.

Lemma optionStringEqb_refl (a : option string) : optionStringEqb a a = true.
Proof. destruct a; cbn; [apply String.eqb_refl|reflexivity]. Qed.

Lemma startsWith_refl (s : string) : JsString.startsWith s s = true.
Proof.
  unfold JsString.startsWith. induction s as [|c s IH]; cbn; [reflexivity|].
  destruct (Ascii.ascii_dec c c); [exact IH|congruence].
Qed.

Lemma releaseGroupDoesMatch_sym (a b : string) :
  releaseGroupDoesMatch ext a b = releaseGroupDoesMatch ext b a.
Proof.
  unfold releaseGroupDoesMatch.
  destruct (option_map JsString.toLowerCase (getReleaseGroup ext (stripExtension ext a)))
    as [ga|];
    destruct (option_map JsString.toLowerCase
                         (getReleaseGroup ext (stripExtension ext b))) as [gb|];
    try reflexivity.
  rewrite (orb_comm (negb (JsString.truthy gb))).
  destruct (negb (JsString.truthy ga) || negb (JsString.truthy gb)); [reflexivity|].
  rewrite (orb_comm (JsString.startsWith gb ga)).
  destruct (JsString.startsWith ga gb || JsString.startsWith gb ga); [reflexivity|].
  set (aa := option_map (fun g => JsString.toLowerCase (JsString.trim g))
                        (matchAnimeGroup ext a)).
  set (ab := option_map (fun g => JsString.toLowerCase (JsString.trim g))
                        (matchAnimeGroup ext b)).
  rewrite (optionStringEqb_sym ab aa), (optionStringEqb_sym ab (Some ga)),
    (optionStringEqb_sym (Some gb) aa).
  destruct (JsString.truthyOpt aa), (JsString.truthyOpt ab),
    (optionStringEqb aa ab), (optionStringEqb aa (Some gb)),
    (optionStringEqb (Some ga) ab); reflexivity.
Qed.

Lemma releaseGroupDoesMatch_refl (a : string) : releaseGroupDoesMatch ext a a = true.
Proof.
  unfold releaseGroupDoesMatch.
  destruct (option_map JsString.toLowerCase (getReleaseGroup ext (stripExtension ext a)))
    as [ga|]; [|reflexivity].
  rewrite startsWith_refl. cbn. now destruct (negb (JsString.truthy ga)).
Qed.

Lemma resolutionDoesMatch_sym (a b : string) :
  resolutionDoesMatch ext a b = resolutionDoesMatch ext b a.
Proof.
  unfold resolutionDoesMatch.
  destruct (option_map _ (matchResStrict ext a)) as [ra|];
    destruct (option_map _ (matchResStrict ext b)) as [rb|]; try reflexivity.
  rewrite (orb_comm (negb (JsString.truthy rb))), (Z.eqb_sym (extractInt ext rb)).
  reflexivity.
Qed.

Lemma resolutionDoesMatch_refl (a : string) : resolutionDoesMatch ext a a = true.
Proof.
  unfold resolutionDoesMatch.
  destruct (option_map _ (matchResStrict ext a)) as [ra|]; [|reflexivity].
  rewrite Z.eqb_refl. now destruct (negb (JsString.truthy ra) || negb (JsString.truthy ra)).
Qed.

Lemma sourceDoesMatch_sym (a b : string) :
  sourceDoesMatch ext a b = sourceDoesMatch ext b a.
Proof.
  unfold sourceDoesMatch.
  destruct (parseSource ext a) as [sa|]; destruct (parseSource ext b) as [sb|];
    try reflexivity.
  rewrite (orb_comm (negb (JsString.truthy sb))), (String.eqb_sym sb). reflexivity.
Qed.

Lemma sourceDoesMatch_refl (a : string) : sourceDoesMatch ext a a = true.
Proof.
  unfold sourceDoesMatch. destruct (parseSource ext a) as [sa|]; [|reflexivity].
  rewrite String.eqb_refl. now destruct (negb (JsString.truthy sa) || negb (JsString.truthy sa)).
Qed.

(** X20.  The four name filters treat the two names alike: each gives the
    same answer when the names are exchanged, and each passes when the
    names are equal.  So a candidate that carries the searchee's title is
    rejected before the download only for its size or for a missing
    link. *)
Theorem name_filters_symmetric (a b : string) :
  (releaseGroupDoesMatch ext a b = releaseGroupDoesMatch ext b a
   /\ resolutionDoesMatch ext a b = resolutionDoesMatch ext b a
   /\ sourceDoesMatch ext a b = sourceDoesMatch ext b a
   /\ releaseVersionDoesMatch ext a b = releaseVersionDoesMatch ext b a)
  /\ (releaseGroupDoesMatch ext a a = true
      /\ resolutionDoesMatch ext a a = true
      /\ sourceDoesMatch ext a a = true
      /\ releaseVersionDoesMatch ext a a = true)
  /\ (forall candidate searchee decision,
        c_name candidate = s_title searchee ->
        preFilter ext candidate searchee = Some decision ->
        decision = FUZZY_SIZE_MISMATCH \/ decision = NO_DOWNLOAD_LINK).
Proof.
  split; [|split].
  - split; [apply releaseGroupDoesMatch_sym|].
    split; [apply resolutionDoesMatch_sym|].
    split; [apply sourceDoesMatch_sym|].
    unfold releaseVersionDoesMatch.
    now destruct (testRepackProper ext a), (testRepackProper ext b).
  - split; [apply releaseGroupDoesMatch_refl|].
    split; [apply resolutionDoesMatch_refl|].
    split; [apply sourceDoesMatch_refl|].
    unfold releaseVersionDoesMatch. now destruct (testRepackProper ext a).
  - intros candidate searchee decision Hname. unfold preFilter. rewrite Hname.
    rewrite releaseGroupDoesMatch_refl, resolutionDoesMatch_refl, sourceDoesMatch_refl.
    unfold releaseVersionDoesMatch. rewrite Bool.eqb_reflx. cbn [negb].
    destruct (sizeTruthy (c_size candidate) && _); [intros [= <-]; now left|].
    destruct (negb (JsString.truthy (c_link candidate))); [intros [= <-]; now right|].
    discriminate.
Qed.

End NameFilters.

(** ** What a cached assessment leaves in place *)

Section CachingFrames.

Variable D : Type.
Variable ext : Externals D.

Lemma CachingFrame_refl (st : State D) : CachingFrame st st.
Proof.
  unfold CachingFrame.
  repeat match goal with |- _ /\ _ => split end;
    try reflexivity; try apply incl_refl; [|tauto].
  exists []. now rewrite app_nil_r.
Qed.

Lemma CachingFrame_trans (st1 st2 st3 : State D) :
  CachingFrame st1 st2 -> CachingFrame st2 st3 -> CachingFrame st1 st3.
Proof.
  intros (a1 & a2 & a3 & a4 & (evs1 & a5) & a6) (b1 & b2 & b3 & b4 & (evs2 & b5) & b6).
  unfold CachingFrame.
  repeat match goal with |- _ /\ _ => split end; try congruence.
  - eapply incl_tran; eassumption.
  - eapply incl_tran; eassumption.
  - exists (evs1 ++ evs2). now rewrite b5, a5, app_assoc.
  - tauto.
Qed.

Lemma Frames_bind (A B : Type) (m : M D A) (k : A -> M D B) :
  Frames CachingFrame m -> (forall a, Frames CachingFrame (k a)) ->
  Frames CachingFrame (bind m k).
Proof.
  intros Hm Hk st. unfold bind. specialize (Hm st).
  destruct (m st) as [[a|] st1]; cbn [snd] in *; [|exact Hm].
  eapply CachingFrame_trans; [exact Hm|apply Hk].
Qed.

Lemma Frames_ret (A : Type) (a : A) : Frames CachingFrame (@ret D A a).
Proof. intros st. apply CachingFrame_refl. Qed.

Lemma Frames_throw (A : Type) : Frames CachingFrame (@throw D A).
Proof. intros st. apply CachingFrame_refl. Qed.

Lemma Frames_gets (A : Type) (f : State D -> A) : Frames CachingFrame (gets f).
Proof. intros st. apply CachingFrame_refl. Qed.

Lemma Frames_dateNow : Frames CachingFrame (dateNow ext).
Proof.
  intros st. unfold CachingFrame. cbn.
  repeat match goal with |- _ /\ _ => split end;
    try reflexivity; try apply incl_refl; [|tauto].
  exists []. now rewrite app_nil_r.
Qed.

Lemma Frames_orDateNow (value : option Z) : Frames CachingFrame (orDateNow ext value).
Proof. destruct value; [apply Frames_ret|apply Frames_dateNow]. Qed.

Lemma Frames_emit (ev : Event) : Frames CachingFrame (@emit D ev).
Proof.
  intros st. unfold CachingFrame. cbn.
  repeat match goal with |- _ /\ _ => split end;
    try reflexivity; try apply incl_refl; [|tauto].
  now exists [ev].
Qed.

Lemma Frames_transaction (A : Type) (body : M D A) :
  Frames CachingFrame body -> Frames CachingFrame (transaction body).
Proof.
  intros Hbody st. unfold transaction. specialize (Hbody st).
  destruct (body st) as [[a|] st1]; cbn [snd] in *; [exact Hbody|].
  destruct Hbody as (a1 & a2 & a3 & a4 & a5 & a6).
  unfold CachingFrame. cbn.
  repeat match goal with |- _ /\ _ => split end;
    try reflexivity; try assumption; [apply incl_refl|tauto].
Qed.

(** A write to [decision] and [collisions] that keeps the keys unique. *)
Lemma Frames_modifyDb (f : Db -> Db) :
  (forall db, t_searchee (f db) = t_searchee db
              /\ t_conflict_rules (f db) = t_conflict_rules db
              /\ t_client_searchee (f db) = t_client_searchee db
              /\ (TableKeys db -> TableKeys (f db))) ->
  Frames CachingFrame (@modifyDb D f).
Proof.
  intros Hf st. destruct (Hf (st_db st)) as (H1 & H2 & H3 & H4).
  unfold CachingFrame. cbn.
  repeat match goal with |- _ /\ _ => split end; try assumption.
  - apply incl_refl.
  - rewrite H3. apply incl_refl.
  - exists []. now rewrite app_nil_r.
Qed.

Lemma deleteCollision_keys (decisionId : Z) (rows : list CollisionRow) :
  NoDup (map co_decision_id rows) ->
  NoDup (map co_decision_id (deleteCollision decisionId rows)).
Proof.
  unfold deleteCollision. induction rows as [|c rows IH]; intros Hnd; [constructor|].
  inversion Hnd as [|? ? Hnotin Hnd']; subst. cbn.
  destruct (negb (co_decision_id c =? decisionId)%Z); [|now apply IH].
  cbn. constructor; [|now apply IH].
  intros Hin. apply Hnotin. apply in_map_iff in Hin.
  destruct Hin as (y & Hy & Hin). apply filter_In in Hin.
  apply in_map_iff. exists y. tauto.
Qed.

Lemma map_map_same (A B : Type) (key : A -> B) (g : A -> A) (l : list A) :
  (forall x, key (g x) = key x) -> map key (map g l) = map key l.
Proof.
  intros Hg. rewrite map_map. apply map_ext. exact Hg.
Qed.

Lemma NoDup_snoc (A : Type) (x : A) (l : list A) :
  NoDup l -> ~ In x l -> NoDup (l ++ [x]).
Proof.
  intros Hnd Hx. eapply Permutation_NoDup; [apply Permutation_cons_append|].
  now constructor.
Qed.

Lemma insertOrMergeCollision_keys (payload : CollisionRow) (rows : list CollisionRow) :
  NoDup (map co_decision_id rows) ->
  NoDup (map co_decision_id (insertOrMergeCollision payload rows)).
Proof.
  intros Hnd. unfold insertOrMergeCollision.
  destruct (existsb _ rows) eqn:Hex.
  - rewrite map_map_same; [exact Hnd|]. intros c.
    now destruct (co_decision_id c =? co_decision_id payload)%Z.
  - rewrite map_app. cbn. apply NoDup_snoc; [exact Hnd|].
    intros Hin. apply in_map_iff in Hin. destruct Hin as (c & Hc & Hin).
    assert (Htrue : existsb (fun c => (co_decision_id c =? co_decision_id payload)%Z) rows
                    = true)
      by (apply existsb_exists; exists c; split; [exact Hin|now apply Z.eqb_eq]).
    congruence.
Qed.

Lemma nextDecisionId_fresh (rows : list DecisionRow) :
  ~ In (nextDecisionId rows) (map d_id rows).
Proof.
  assert (Hmax : forall x, In x (map d_id rows) ->
                           (x <= fold_right Z.max 0 (map d_id rows))%Z).
  { induction rows as [|d rows IH]; intros x Hx; [destruct Hx|].
    cbn in *. destruct Hx as [<-|Hx]; [lia|]. specialize (IH x Hx). lia. }
  intros Hin. apply Hmax in Hin. unfold nextDecisionId in Hin. lia.
Qed.

Lemma upsertDecision_keys (searchee_id : Z) (guid : string) (info_hash : option string)
      (decision : Decision) (first_seen last_seen : option Z) (factor : Q)
      (rows : list DecisionRow) :
  NoDup (map d_id rows) ->
  NoDup (map (fun d => (d_searchee_id d, d_guid d)) rows) ->
  NoDup (map d_id (upsertDecision searchee_id guid info_hash decision first_seen
                                  last_seen factor rows))
  /\ NoDup (map (fun d => (d_searchee_id d, d_guid d))
                (upsertDecision searchee_id guid info_hash decision first_seen
                                last_seen factor rows)).
Proof.
  intros Hids Hkeys. unfold upsertDecision.
  destruct (existsb (isDecisionKey searchee_id guid) rows) eqn:Hex.
  - split.
    + rewrite map_map_same; [exact Hids|]. intros d.
      now destruct (isDecisionKey searchee_id guid d).
    + rewrite map_map_same; [exact Hkeys|]. intros d.
      destruct (isDecisionKey searchee_id guid d) eqn:Hd; [|reflexivity].
      unfold isDecisionKey in Hd. apply andb_true_iff in Hd. destruct Hd as [H1 H2].
      apply Z.eqb_eq in H1. apply String.eqb_eq in H2. cbn. congruence.
  - rewrite !map_app. cbn. split.
    + apply NoDup_snoc; [exact Hids|apply nextDecisionId_fresh].
    + apply NoDup_snoc; [exact Hkeys|].
      intros Hin. apply in_map_iff in Hin. destruct Hin as (d & Hd & Hin).
      injection Hd as H1 H2.
      assert (Htrue : existsb (isDecisionKey searchee_id guid) rows = true).
      { apply existsb_exists. exists d. split; [exact Hin|].
        unfold isDecisionKey. rewrite H1, H2, Z.eqb_refl. apply String.eqb_refl. }
      congruence.
Qed.

Lemma Frames_with_collisions (f : list CollisionRow -> list CollisionRow) :
  (forall rows, NoDup (map co_decision_id rows) -> NoDup (map co_decision_id (f rows))) ->
  Frames CachingFrame (@modifyDb D (with_collisions f)).
Proof.
  intros Hf. apply Frames_modifyDb. intros db. cbn.
  repeat match goal with |- _ /\ _ => split end; try reflexivity.
  intros (K1 & K2 & K3). unfold TableKeys. cbn. auto.
Qed.

Lemma Frames_with_decision (f : list DecisionRow -> list DecisionRow) :
  (forall rows, NoDup (map d_id rows) ->
                NoDup (map (fun d => (d_searchee_id d, d_guid d)) rows) ->
                NoDup (map d_id (f rows))
                /\ NoDup (map (fun d => (d_searchee_id d, d_guid d)) (f rows))) ->
  Frames CachingFrame (@modifyDb D (with_decision f)).
Proof.
  intros Hf. apply Frames_modifyDb. intros db. cbn.
  repeat match goal with |- _ /\ _ => split end; try reflexivity.
  intros (K1 & K2 & K3). unfold TableKeys. cbn.
  destruct (Hf _ K1 K2). auto.
Qed.

Lemma Frames_deleteCollisionRecord (decisionId : Z) :
  Frames CachingFrame (@deleteCollisionRecord D decisionId).
Proof.
  apply Frames_with_collisions. intros rows. apply deleteCollision_keys.
Qed.

Lemma Frames_upsertCollisionRecord (decisionId : Z) (tm : TrackerMismatchInfo)
      (firstSeen lastSeen : Z) :
  Frames CachingFrame (upsertCollisionRecord ext decisionId tm firstSeen lastSeen).
Proof.
  unfold upsertCollisionRecord.
  apply Frames_bind; [apply Frames_dateNow|]. intros updated_at.
  apply Frames_bind; [apply Frames_gets|]. intros db.
  destruct (findEquivalentCollision _ _ _ _) as [existingId|].
  - apply Frames_bind.
    + apply Frames_with_collisions. intros rows Hnd. unfold refreshCollision.
      rewrite map_map_same; [exact Hnd|]. intros c.
      now destruct (co_decision_id c =? existingId)%Z.
    + intros _. apply Frames_with_collisions. intros rows. apply deleteCollision_keys.
  - apply Frames_with_collisions. intros rows. apply insertOrMergeCollision_keys.
Qed.

Lemma Frames_saveAssessment (assessment : ResultAssessment) (meta : Metafile)
      (searchee : Searchee) (guid : string) (firstSeen : Z) :
  Frames CachingFrame (saveAssessment ext assessment meta searchee guid firstSeen).
Proof.
  unfold saveAssessment.
  apply Frames_bind; [apply Frames_gets|]. intros db.
  destruct (find _ (t_searchee db)) as [searcheeRow|]; [|apply Frames_throw].
  apply Frames_bind; [apply Frames_dateNow|]. intros last_seen.
  apply Frames_bind.
  { apply Frames_with_decision. intros rows. apply upsertDecision_keys. }
  intros _. apply Frames_bind; [apply Frames_gets|]. intros db'.
  destruct (find _ (t_decision db')) as [decisionRow|]; [|apply Frames_ret].
  destruct (d_id decisionRow =? 0)%Z; [apply Frames_ret|].
  destruct (decision assessment); try apply Frames_deleteCollisionRecord.
  destruct (trackerMismatch assessment) as [tm|]; [|apply Frames_deleteCollisionRecord].
  destruct (canRecordPrivateCollision (Some meta)); [|apply Frames_deleteCollisionRecord].
  apply Frames_bind; [apply Frames_dateNow|]. intros lastSeen.
  apply Frames_upsertCollisionRecord.
Qed.

Lemma Frames_recordCachedCollision (entry : DecisionRow) (cachedMeta : option Metafile)
      (tm : option TrackerMismatchInfo) :
  Frames CachingFrame (recordCachedCollision ext entry cachedMeta tm).
Proof.
  unfold recordCachedCollision.
  apply Frames_bind; [apply Frames_dateNow|]. intros last_seen.
  apply Frames_bind.
  { apply Frames_with_decision. intros rows Hids Hkeys. unfold updateDecision. split.
    - rewrite map_map_same; [exact Hids|]. intros d.
      now destruct (d_id d =? d_id entry)%Z.
    - rewrite map_map_same; [exact Hkeys|]. intros d.
      now destruct (d_id d =? d_id entry)%Z. }
  intros _. apply Frames_bind; [|intros _; apply Frames_ret].
  destruct tm as [tm|]; [|apply Frames_deleteCollisionRecord].
  destruct (canRecordPrivateCollision cachedMeta); [|apply Frames_deleteCollisionRecord].
  apply Frames_bind; [apply Frames_orDateNow|]. intros firstSeen.
  apply Frames_bind; [apply Frames_dateNow|]. intros lastSeen.
  apply Frames_upsertCollisionRecord.
Qed.

Lemma AssessFrame_CachingFrame (st st' : State D) :
  AssessFrame st st' -> CachingFrame st st'.
Proof.
  intros (a1 & a2 & a3 & a4 & a5 & a6 & a7 & a8 & a9).
  unfold CachingFrame.
  repeat match goal with |- _ /\ _ => split end; try assumption.
  unfold TableKeys. now rewrite a2, a3.
Qed.

Lemma Frames_assessCandidate (metaOrCandidate : Metafile + Candidate)
      (searchee : Searchee) (blockList : list string) (config : RuntimeConfig)
      (candidateTracker : option string) :
  Frames CachingFrame (assessCandidate ext metaOrCandidate searchee blockList config
                                       candidateTracker).
Proof.
  intros st.
  destruct (assessCandidate_run ext metaOrCandidate searchee blockList config
                                candidateTracker st) as (a & st' & -> & Hframe & _).
  now apply AssessFrame_CachingFrame.
Qed.

Lemma Frames_assessAndSaveResults (metaOrCandidate : Metafile + Candidate)
      (searchee : Searchee) (guid : string) (firstSeen : Z) (candidateTracker : string)
      (config : RuntimeConfig) :
  Frames CachingFrame (assessAndSaveResults ext metaOrCandidate searchee guid firstSeen
                                            candidateTracker config).
Proof.
  unfold assessAndSaveResults.
  apply Frames_bind; [apply Frames_assessCandidate|]. intros assessment.
  destruct (metaCached assessment) as [[|]|]; try apply Frames_ret.
  destruct (metafile assessment) as [meta|]; [|apply Frames_ret].
  apply Frames_bind.
  { intros st. unfold CachingFrame. cbn.
    repeat match goal with |- _ /\ _ => split end;
      try reflexivity; try apply incl_refl; [|tauto].
    exists []. now rewrite app_nil_r. }
  intros _. apply Frames_bind; [|intros _; apply Frames_ret].
  apply Frames_transaction, Frames_saveAssessment.
Qed.

Lemma Frames_resolveConflictRules (infoHash : string) (cand : list string)
      (name : string) :
  Frames CachingFrame (resolveConflictRules ext infoHash cand name).
Proof.
  intros st. destruct (resolveConflictRules_frame ext infoHash cand name st)
    as (b & st' & -> & Hframe & _).
  now apply AssessFrame_CachingFrame, MetafileFrame_AssessFrame.
Qed.

Lemma Frames_logAnnounceMismatch (meta : Metafile) :
  Frames CachingFrame (logAnnounceMismatch ext meta).
Proof.
  intros st. destruct (logAnnounceMismatch_run ext meta st) as [tm ->].
  apply CachingFrame_refl.
Qed.

Lemma Frames_getCachedTorrent (infoHash : option string) :
  Frames CachingFrame (getCachedTorrent ext infoHash).
Proof.
  unfold getCachedTorrent. destruct infoHash as [h|]; [|apply Frames_ret].
  destruct (negb (JsString.truthy h)); [apply Frames_ret|].
  apply Frames_bind; [apply Frames_gets|]. intros cache.
  destruct (mapGet h cache) as [[meta|]|]; [| |apply Frames_ret].
  - destruct (negb (statSucceeds ext h)); [apply Frames_throw|].
    apply Frames_bind; [apply Frames_emit|]. intros _.
    destruct (utimesSucceeds ext h); [apply Frames_ret|apply Frames_throw].
  - apply Frames_bind; [apply Frames_emit|]. intros _.
    apply Frames_bind; [|intros _; apply Frames_ret].
    destruct (unlinkSucceeds ext h); [|apply Frames_ret].
    intros st. unfold CachingFrame. cbn.
    repeat match goal with |- _ /\ _ => split end;
      try reflexivity; try apply incl_refl; [|tauto].
    exists []. now rewrite app_nil_r.
Qed.

(** X21.  Whatever [assessCandidateCaching] does, and whether it returns
    or throws, it leaves the tables [searchee] and [conflict_rules] as
    they were; the exclusion set and the [client_searchee] table can only
    lose entries; and the keys of the tables it writes stay unique: no two
    decision rows with one id or with one pair of searchee and guid, no two
    collision rows for one decision. *)
Theorem assessCandidateCaching_frame
        (candidate : Candidate) (searchee : Searchee) (config : RuntimeConfig)
        (st : State D) :
  CachingFrame st (snd (assessCandidateCaching ext candidate searchee config st)).
Proof.
  revert st. change (Frames CachingFrame
                            (assessCandidateCaching ext candidate searchee config)).
  unfold assessCandidateCaching.
  apply Frames_bind; [apply Frames_gets|]. intros db.
  apply Frames_bind; [apply Frames_gets|]. intros guidInfoHashMap.
  apply Frames_bind; [apply Frames_getCachedTorrent|]. intros res.
  apply Frames_bind; [apply Frames_gets|]. intros exclude.
  assert (Hsave : forall value,
             Frames CachingFrame
               (bind (orDateNow ext value) (fun firstSeen =>
                  assessAndSaveResults ext
                    (match res with Some meta => inl meta | None => inr candidate end)
                    searchee (c_guid candidate) firstSeen (c_tracker candidate) config))).
  { intros value. apply Frames_bind; [apply Frames_orDateNow|].
    intros firstSeen. apply Frames_assessAndSaveResults. }
  destruct (findCacheEntry db (s_title searchee) (c_guid candidate)) as [entry|].
  2:{ apply Frames_bind; [apply Frames_dateNow|].
      intros firstSeen. apply Frames_assessAndSaveResults. }
  destruct (d_info_hash entry) as [entryHash|]; [|apply Hsave].
  destruct (JsString.includes exclude entryHash); [|apply Hsave].
  apply Frames_bind.
  { destruct res; [apply Frames_logAnnounceMismatch|apply Frames_ret]. }
  intros tm. apply Frames_bind.
  { destruct (collisionCandidateTrackers tm (Some (c_tracker candidate)));
      [apply Frames_ret|apply Frames_resolveConflictRules]. }
  intros [|]; [|apply Frames_recordCachedCollision].
  apply Frames_bind; [|intros _; apply Hsave].
  intros st. unfold CachingFrame. cbn.
  repeat match goal with |- _ /\ _ => split end;
    try reflexivity; try apply incl_refl; [apply setDelete_incl| |tauto].
  exists []. now rewrite app_nil_r.
Qed.

End CachingFrames.

(** ** Collisions and the exclusion set *)

Section Excluded.

Variable D : Type.
Variable ext : Externals D.

Lemma metafileDecision_no_collision (meta : Metafile) (searchee : Searchee)
      (blockList : list string) (config : RuntimeConfig) :
  isCollisionDecision (metafileDecision ext meta searchee blockList config) = false.
Proof.
  unfold metafileDecision.
  destruct (findBlockedStringInMetafile ext meta blockList); [reflexivity|].
  destruct (negb (includeSingleEpisodes config) && testSeason ext (s_title searchee)
            && isSingleEpisode ext meta (getMediaType ext meta)); [reflexivity|].
  unfold contentDecision.
  destruct (compareFileTrees meta searchee); [reflexivity|].
  destruct (compareFileTreesIgnoringNames meta searchee), (matchMode config); cbn;
    try reflexivity;
    destruct (Qle_bool (getMinSizeRatio ext searchee) (getPartialSizeRatio meta searchee));
    cbn; try reflexivity;
    now destruct (compareFileTreesPartial ext meta searchee).
Qed.

Lemma includes_setDelete (x : string) (s : list string) :
  JsString.includes (setDelete x s) x = false.
Proof.
  unfold JsString.includes, setDelete.
  induction s as [|y s IH]; cbn; [reflexivity|].
  destruct (String.eqb_spec y x) as [->|Hne]; cbn; [exact IH|].
  rewrite IH. destruct (String.eqb_spec x y); [congruence|reflexivity].
Qed.

(** X22.  Collisions follow the exclusion set.  For a metafile in hand
    whose info hash is not the searchee's own and whose searchee is not
    blocked, [assessCandidate] answers [INFO_HASH_ALREADY_EXISTS] or
    [INFO_HASH_ALREADY_EXISTS_ANOTHER_TRACKER] exactly when the info hash
    is in the exclusion set when it returns.  The set changes only by
    losing that info hash, which was then in it; when the hash is not in
    the set to begin with nothing changes at all.  Every other answer is
    the decision of the block list, the season guard and the file trees,
    without tracker mismatch. *)
Theorem assessCandidate_collision_iff_excluded
        (meta : Metafile) (searchee : Searchee) (blockList : list string)
        (config : RuntimeConfig) (candidateTracker : option string) (st : State D) :
  findBlockedStringInSearchee ext searchee blockList = None ->
  optionStringEqb (s_infoHash searchee) (Some (m_infoHash meta)) = false ->
  exists a st',
    assessCandidate ext (inl meta) searchee blockList config candidateTracker st
    = (Ret a, st')
    /\ isCollisionDecision (decision a)
       = JsString.includes (st_exclude st') (m_infoHash meta)
    /\ (isCollisionDecision (decision a) = true ->
        decision a = collisionDecision (trackerMismatch a))
    /\ (isCollisionDecision (decision a) = false ->
        decision a = metafileDecision ext meta searchee blockList config
        /\ trackerMismatch a = None)
    /\ (JsString.includes (st_exclude st) (m_infoHash meta) = false -> st' = st)
    /\ (st_exclude st' = st_exclude st
        \/ (st_exclude st' = setDelete (m_infoHash meta) (st_exclude st)
            /\ JsString.includes (st_exclude st) (m_infoHash meta) = true)).
Proof.
  intros Hblocked Hhash. cbn [assessCandidate]. rewrite Hblocked.
  unfold assessMetafile. rewrite Hhash.
  unfold bind at 1. unfold gets at 1. cbn beta iota.
  pose proof (metafileDecision_no_collision meta searchee blockList config) as Hcontent.
  destruct (JsString.includes (st_exclude st) (m_infoHash meta)) eqn:Hexcl.
  2:{ unfold bind, ret. cbn beta iota.
      eexists; exists st. split; [reflexivity|]. cbn.
      rewrite Hcontent, Hexcl. repeat split; try congruence. now left. }
  unfold bind at 1. unfold bind at 1.
  destruct (logAnnounceMismatch_run ext meta st) as [tm ->].
  unfold bind at 1.
  assert (Hstep : exists st1,
             (match collisionCandidateTrackers tm candidateTracker with
              | [] => ret tt
              | _ :: _ =>
                  bind (resolveConflictRules ext (m_infoHash meta)
                          (collisionCandidateTrackers tm candidateTracker)
                          (s_title searchee))
                       (fun resolved =>
                          if resolved
                          then modify (fun st0 : State D =>
                                         set_exclude
                                           (setDelete (m_infoHash meta) (st_exclude st0))
                                           st0)
                          else ret tt)
              end) st = (Ret tt, st1)
             /\ (st_exclude st1 = st_exclude st
                 \/ st_exclude st1 = setDelete (m_infoHash meta) (st_exclude st))).
  { destruct (collisionCandidateTrackers tm candidateTracker) as [|t ts].
    - exists st. split; [reflexivity|now left].
    - unfold bind.
      destruct (resolveConflictRules_frame ext (m_infoHash meta) (t :: ts)
                                           (s_title searchee) st)
        as (b & st1 & -> & _ & Hsame).
      destruct b.
      + eexists. split; [reflexivity|]. right. cbn. now rewrite Hsame.
      + exists st1. split; [reflexivity|now left]. }
  destruct Hstep as (st1 & -> & Hexcl1).
  unfold bind, gets, ret. cbn beta iota.
  destruct Hexcl1 as [Hsame|Hgone].
  - rewrite Hsame, Hexcl. eexists; exists st1. split; [reflexivity|]. cbn.
    rewrite Hsame, Hexcl.
    assert (Hcol : isCollisionDecision (collisionDecision tm) = true)
      by (now destruct tm).
    rewrite Hcol. repeat split; try congruence. now left.
  - rewrite Hgone, includes_setDelete. eexists; exists st1. split; [reflexivity|]. cbn.
    rewrite Hgone, includes_setDelete, Hcontent.
    repeat split; try congruence. right. now split.
Qed.

End Excluded.

Lemma assessCandidate_collision_iff_excluded_witness :
  exists a st',
    assessCandidate Ex.ext (inl Ex.privateMeta) Ex.otherSearchee [] Ex.flexible
                    (Some "a.example") Ex.oneClient = (Ret a, st')
    /\ isCollisionDecision (decision a)
       = JsString.includes (st_exclude st') (m_infoHash Ex.privateMeta).
Proof.
  destruct (@assessCandidate_collision_iff_excluded
              Sim.Driver Ex.ext Ex.privateMeta Ex.otherSearchee [] Ex.flexible
              (Some "a.example") Ex.oneClient eq_refl eq_refl)
    as (a & st' & Hrun & Hiff & _).
  exists a, st'. split; [exact Hrun|exact Hiff].
Defined.

(** ** The first sighting of a decision *)

Section FirstSeen.

Variable D : Type.
Variable ext : Externals D.

Lemma KeepsFirstSeen_same (st st' : State D) :
  t_decision (st_db st') = t_decision (st_db st) -> KeepsFirstSeen st st'.
Proof.
  intros Hsame d f Hin Hf. exists d. rewrite Hsame. now repeat split.
Qed.

Lemma KeepsFirstSeen_trans (st1 st2 st3 : State D) :
  KeepsFirstSeen st1 st2 -> KeepsFirstSeen st2 st3 -> KeepsFirstSeen st1 st3.
Proof.
  intros H12 H23 d f Hin Hf.
  destruct (H12 d f Hin Hf) as (d2 & Hin2 & I2 & S2 & G2 & F2).
  destruct (H23 d2 f Hin2 F2) as (d3 & Hin3 & I3 & S3 & G3 & F3).
  exists d3. repeat split; congruence.
Qed.

Lemma upsertDecision_first_seen (searchee_id : Z) (guid : string)
      (info_hash : option string) (decision : Decision) (firstSeen : Z)
      (last_seen : option Z) (factor : Q) (rows : list DecisionRow) :
  (forall d f, In d rows -> isDecisionKey searchee_id guid d = true ->
               d_first_seen d = Some f -> f = firstSeen) ->
  forall d f, In d rows -> d_first_seen d = Some f ->
    exists d', In d' (upsertDecision searchee_id guid info_hash decision (Some firstSeen)
                                     last_seen factor rows)
               /\ d_id d' = d_id d
               /\ d_searchee_id d' = d_searchee_id d
               /\ d_guid d' = d_guid d
               /\ d_first_seen d' = Some f.
Proof.
  intros Hagree d f Hin Hf. unfold upsertDecision.
  destruct (existsb (isDecisionKey searchee_id guid) rows).
  - eexists. split; [apply in_map; exact Hin|]. cbv beta.
    destruct (isDecisionKey searchee_id guid d) eqn:Hkey; [|now repeat split].
    pose proof (Hagree d f Hin Hkey Hf) as ->.
    unfold isDecisionKey in Hkey. apply andb_true_iff in Hkey. destruct Hkey as [H1 H2].
    apply Z.eqb_eq in H1. apply String.eqb_eq in H2. cbn. now repeat split.
  - exists d. split; [apply in_or_app; now left|now repeat split].
Qed.

Lemma assessAndSaveResults_first_seen
      (metaOrCandidate : Metafile + Candidate) (searchee : Searchee) (guid : string)
      (firstSeen : Z) (candidateTracker : string) (config : RuntimeConfig)
      (st : State D) :
  FirstSeenAgrees (st_db st) (s_title searchee) guid firstSeen ->
  KeepsFirstSeen st (snd (assessAndSaveResults ext metaOrCandidate searchee guid
                                               firstSeen candidateTracker config st)).
Proof.
  intros Hagree.
  destruct (assessCandidate_run ext metaOrCandidate searchee (blockList config) config
                                (Some candidateTracker) st)
    as (a & st1 & Hassess & Hframe & _).
  destruct Hframe as (Hs & Hd & _).
  unfold assessAndSaveResults, bind. rewrite Hassess. cbn beta iota.
  destruct (metaCached a) as [[|]|]; try (now apply KeepsFirstSeen_same).
  destruct (metafile a) as [meta|]; [|now apply KeepsFirstSeen_same].
  unfold modify. cbn beta iota.
  set (st2 := set_guidInfoHashMap _ st1).
  unfold transaction.
  destruct (find (fun s => String.eqb (se_name s) (s_title searchee))
                 (t_searchee (st_db st2))) as [row|] eqn:Hrow.
  - destruct (@saveAssessment_run D ext a meta searchee guid firstSeen st2 row Hrow)
      as (st' & id & Hrun & _ & _ & Hdec & _).
    rewrite Hrun. cbn [snd ret]. intros d f Hin Hf.
    rewrite Hdec. cbn [t_decision with_decision].
    change (t_decision (st_db st2)) with (t_decision (st_db st1)). rewrite Hd.
    apply upsertDecision_first_seen; [|exact Hin|exact Hf].
    intros d0 f0 Hin0 Hkey0 Hf0.
    apply (Hagree row d0 f0); try assumption.
    change (t_searchee (st_db st2)) with (t_searchee (st_db st1)) in Hrow.
    now rewrite Hs in Hrow.
  - assert (Hthrow : saveAssessment ext a meta searchee guid firstSeen st2 = (Throw, st2)).
    { unfold saveAssessment, bind, getDb, gets. cbn beta iota. now rewrite Hrow. }
    rewrite Hthrow. cbn [snd]. apply KeepsFirstSeen_same. cbn. exact Hd.
Qed.

Lemma recordCachedCollision_first_seen (entry : DecisionRow)
      (cachedMeta : option Metafile) (tm : option TrackerMismatchInfo) (st : State D) :
  KeepsFirstSeen st (snd (recordCachedCollision ext entry cachedMeta tm st)).
Proof.
  destruct (recordCachedCollision_run ext entry cachedMeta tm st)
    as (st' & -> & Hdec & _).
  cbn [snd]. intros d f Hin Hf. rewrite Hdec. cbn [t_decision with_decision].
  eexists. split; [unfold updateDecision; apply in_map; exact Hin|]. cbv beta.
  destruct (d_id d =? d_id entry)%Z; now repeat split.
Qed.

Lemma getCachedTorrent_db (infoHash : option string) (st : State D) :
  exists outcome st',
    getCachedTorrent ext infoHash st = (outcome, st')
    /\ st_db st' = st_db st
    /\ st_guidInfoHashMap st' = st_guidInfoHashMap st.
Proof.
  unfold getCachedTorrent. destruct infoHash as [h|]; [|now exists (Ret None), st].
  destruct (negb (JsString.truthy h)); [now exists (Ret None), st|].
  unfold bind, gets, emit, modify, throw, ret. cbn beta iota.
  destruct (mapGet h (st_cache st)) as [[meta|]|];
    [destruct (negb (statSucceeds ext h)); [|destruct (utimesSucceeds ext h)]
    | destruct (unlinkSucceeds ext h)|];
    eexists; eexists; (split; [reflexivity|]); now split.
Qed.

Lemma NoDup_map_eq (A B : Type) (f : A -> B) (l : list A) (x y : A) :
  NoDup (map f l) -> In x l -> In y l -> f x = f y -> x = y.
Proof.
  induction l as [|z l IH]; intros Hnd Hx Hy Hf; [destruct Hx|].
  inversion Hnd as [|? ? Hnotin Hnd']; subst.
  destruct Hx as [<-|Hx], Hy as [<-|Hy]; try reflexivity.
  - exfalso. apply Hnotin. rewrite Hf. now apply in_map.
  - exfalso. apply Hnotin. rewrite <- Hf. now apply in_map.
  - now apply IH.
Qed.

(** The row the cached path starts from decides which [first_seen] the
    upsert may overwrite. *)
Lemma findCacheEntry_agrees (db : Db) (title guid : string) (firstSeen : Z) :
  NoDup (map se_name (t_searchee db)) ->
  NoDup (map (fun d => (d_searchee_id d, d_guid d)) (t_decision db)) ->
  match findCacheEntry db title guid with
  | Some entry => forall v, d_first_seen entry = Some v -> firstSeen = v
  | None => True
  end ->
  FirstSeenAgrees db title guid firstSeen.
Proof.
  intros Hnames Hkeys Hentry row d f Hrow Hin Hkey Hf.
  apply find_some in Hrow. destruct Hrow as [Hrowin Hname].
  apply String.eqb_eq in Hname.
  unfold isDecisionKey in Hkey. apply andb_true_iff in Hkey. destruct Hkey as [Hsid Hguid].
  apply Z.eqb_eq in Hsid. apply String.eqb_eq in Hguid.
  assert (Hmatch : (fun d0 => String.eqb (d_guid d0) guid
                              && existsb (fun s => (se_id s =? d_searchee_id d0)%Z
                                                   && String.eqb (se_name s) title)
                                         (t_searchee db)) d = true).
  { cbv beta. rewrite Hguid, String.eqb_refl. cbn [andb].
    apply existsb_exists. exists row. split; [exact Hrowin|].
    rewrite Hsid, Z.eqb_refl, Hname. apply String.eqb_refl. }
  unfold findCacheEntry in Hentry.
  destruct (find _ (t_decision db)) as [entry|] eqn:Hfind.
  - apply find_some in Hfind. destruct Hfind as [Hentryin Hentrymatch].
    apply andb_true_iff in Hentrymatch. destruct Hentrymatch as [Heguid Hesearchee].
    apply String.eqb_eq in Heguid. apply existsb_exists in Hesearchee.
    destruct Hesearchee as (s & Hsin & Hs). apply andb_true_iff in Hs.
    destruct Hs as [Hsid' Hsname]. apply Z.eqb_eq in Hsid'. apply String.eqb_eq in Hsname.
    assert (s = row)
      by (apply (@NoDup_map_eq _ _ se_name _ s row Hnames Hsin Hrowin); congruence).
    subst s.
    assert (d = entry).
    { apply (@NoDup_map_eq _ _ (fun d => (d_searchee_id d, d_guid d)) _ d entry
                           Hkeys Hin Hentryin).
      cbv beta. congruence. }
    subst d. symmetry. now apply Hentry.
  - exfalso. pose proof (find_none _ _ Hfind d Hin) as Hnone.
    cbv beta in Hmatch, Hnone. congruence.
Qed.

(** X23.  The first sighting of a decision is kept.  When no two
    searchees share a name and no two decision rows share searchee and
    guid, then whatever [assessCandidateCaching] does, and whether it
    returns or throws, every decision row that had a [first_seen] is still
    on file under its id, searchee and guid, with that same
    [first_seen]. *)
Theorem assessCandidateCaching_keeps_first_seen
        (candidate : Candidate) (searchee : Searchee) (config : RuntimeConfig)
        (st : State D) :
  NoDup (map se_name (t_searchee (st_db st))) ->
  NoDup (map (fun d => (d_searchee_id d, d_guid d)) (t_decision (st_db st))) ->
  KeepsFirstSeen st (snd (assessCandidateCaching ext candidate searchee config st)).
Proof.
  intros Hnames Hkeys.
  pose proof (fun firstSeen =>
                @findCacheEntry_agrees (st_db st) (s_title searchee) (c_guid candidate)
                                       firstSeen Hnames Hkeys) as Hagree.
  unfold assessCandidateCaching.
  unfold bind at 1, getDb at 1, gets at 1. cbn beta iota.
  unfold bind at 1, gets at 1. cbn beta iota.
  unfold bind at 1.
  destruct (getCachedTorrent_db
              (guidLookup ext (c_guid candidate) (c_link candidate)
                          (st_guidInfoHashMap st)) st) as (outcome & st0 & -> & Hdb0 & _).
  destruct outcome as [res|];
    [|cbn [snd]; apply KeepsFirstSeen_same; now rewrite Hdb0].
  unfold bind at 1, gets at 1. cbn beta iota.
  (* every later state has the tables of [st] until the assessment is saved *)
  assert (Hsave : forall value (st1 : State D),
             t_decision (st_db st1) = t_decision (st_db st) ->
             t_searchee (st_db st1) = t_searchee (st_db st) ->
             match findCacheEntry (st_db st) (s_title searchee) (c_guid candidate) with
             | Some entry => value = d_first_seen entry
             | None => value = None
             end ->
             KeepsFirstSeen st
               (snd (bind (orDateNow ext value) (fun firstSeen =>
                       assessAndSaveResults ext
                         (match res with Some meta => inl meta | None => inr candidate end)
                         searchee (c_guid candidate) firstSeen (c_tracker candidate)
                         config) st1))).
  { intros value st1 Hd1 Hs1 Hvalue.
    assert (Hcall : forall firstSeen (st2 : State D),
               t_decision (st_db st2) = t_decision (st_db st) ->
               t_searchee (st_db st2) = t_searchee (st_db st) ->
               (forall v, value = Some v -> firstSeen = v) ->
               KeepsFirstSeen st
                 (snd (assessAndSaveResults ext
                         (match res with Some meta => inl meta | None => inr candidate end)
                         searchee (c_guid candidate) firstSeen (c_tracker candidate)
                         config st2))).
    { intros firstSeen st2 Hd2 Hs2 Hfs.
      eapply KeepsFirstSeen_trans; [apply KeepsFirstSeen_same; exact Hd2|].
      apply assessAndSaveResults_first_seen.
      intros row d f Hrow Hin. rewrite Hs2 in Hrow. rewrite Hd2 in Hin.
      revert row d f Hrow Hin. apply Hagree.
      destruct (findCacheEntry (st_db st) (s_title searchee) (c_guid candidate));
        [|exact I].
      intros v Hv. apply Hfs. congruence. }
    unfold bind. destruct value as [v|]; cbn [orDateNow].
    - unfold ret at 1. cbn beta iota. apply Hcall; try assumption.
      intros v' [= <-]. reflexivity.
    - unfold dateNow at 1. cbn beta iota. apply Hcall; try assumption. discriminate. }
  destruct (findCacheEntry (st_db st) (s_title searchee) (c_guid candidate))
    as [entry|] eqn:Hentry.
  2:{ apply (Hsave None st0); [now rewrite Hdb0|now rewrite Hdb0|reflexivity]. }
  destruct (d_info_hash entry) as [entryHash|];
    [|apply (Hsave (d_first_seen entry) st0);
      [now rewrite Hdb0|now rewrite Hdb0|reflexivity]].
  destruct (JsString.includes (st_exclude st0) entryHash);
    [|apply (Hsave (d_first_seen entry) st0);
      [now rewrite Hdb0|now rewrite Hdb0|reflexivity]].
  unfold bind at 1.
  assert (Hlog : exists tm,
             match res with
             | Some meta => logAnnounceMismatch ext meta
             | None => ret None
             end st0 = (Ret tm, st0)).
  { destruct res as [meta|]; [apply logAnnounceMismatch_run|now exists None]. }
  destruct Hlog as [tm ->].
  unfold bind at 1.
  assert (Hresolve : exists b st1,
             match collisionCandidateTrackers tm (Some (c_tracker candidate)) with
             | [] => ret false
             | _ :: _ =>
                 resolveConflictRules ext entryHash
                   (collisionCandidateTrackers tm (Some (c_tracker candidate)))
                   (s_title searchee)
             end st0 = (Ret b, st1)
             /\ t_decision (st_db st1) = t_decision (st_db st)
             /\ t_searchee (st_db st1) = t_searchee (st_db st)).
  { destruct (collisionCandidateTrackers tm (Some (c_tracker candidate))) as [|t ts].
    - exists false, st0. split; [reflexivity|]. now rewrite Hdb0.
    - destruct (resolveConflictRules_frame ext entryHash (t :: ts) (s_title searchee) st0)
        as (b & st1 & Hrun & Hframe & _).
      exists b, st1. split; [exact Hrun|].
      destruct Hframe as (F1 & F2 & _). rewrite F1, F2, Hdb0. now split. }
  destruct Hresolve as (b & st1 & -> & Hd1 & Hs1).
  destruct b.
  - unfold bind at 1, modify at 1. cbn beta iota.
    apply Hsave; [exact Hd1|exact Hs1|reflexivity].
  - eapply KeepsFirstSeen_trans; [apply KeepsFirstSeen_same; exact Hd1|].
    apply recordCachedCollision_first_seen.
Qed.

End FirstSeen.

Lemma assessCandidateCaching_keeps_first_seen_witness :
  KeepsFirstSeen Ex.injected
                 (snd (assessCandidateCaching Ex.ext Ex.candidate1 Ex.otherSearchee
                                              Ex.flexible Ex.injected)).
Proof.
  apply (@assessCandidateCaching_keeps_first_seen
           Sim.Driver Ex.ext Ex.candidate1 Ex.otherSearchee Ex.flexible Ex.injected).
  - cbn. constructor; [intros []|constructor].
  - cbn. constructor; [intros []|constructor].
Defined.

(** ** The guid map and the decision table *)

Section GuidMap.

Variable D : Type.
Variable ext : Externals D.

Lemma mapGet_mapSet_cases (V : Type) (k k' : string) (v : V) (m : list (string * V)) :
  mapGet k' (mapSet k v m) = if String.eqb k k' then Some v else mapGet k' m.
Proof.
  destruct (String.eqb_spec k k') as [<-|Hne].
  - apply mapGet_mapSet.
  - apply mapGet_mapSet_other. congruence.
Qed.

Lemma guidMapOf_from (rows : list DecisionRow) :
  forall (start : list (string * string)) (guid infoHash : string),
    mapGet guid
           (fold_left (fun guidInfoHashMap row =>
                         match d_info_hash row with
                         | Some info_hash => mapSet (d_guid row) info_hash guidInfoHashMap
                         | None => guidInfoHashMap
                         end) rows start) = Some infoHash ->
    mapGet guid start = Some infoHash
    \/ exists d, In d rows /\ d_guid d = guid /\ d_info_hash d = Some infoHash.
Proof.
  induction rows as [|row rows IH]; intros start guid infoHash Hget; [now left|].
  cbn [fold_left] in Hget. apply IH in Hget. destruct Hget as [Hget|(d & Hin & Hd)].
  - destruct (d_info_hash row) as [h|] eqn:Hrow; [|now left].
    rewrite mapGet_mapSet_cases in Hget.
    destruct (String.eqb_spec (d_guid row) guid) as [Hguid|Hguid]; [|now left].
    right. exists row. split; [now left|]. split; [exact Hguid|congruence].
  - right. exists d. split; [now right|exact Hd].
Qed.

Lemma guidMapOf_bound (rows : list DecisionRow) :
  forall (start : list (string * string)) (guid : string),
    (mapGet guid start <> None
     \/ exists d, In d rows /\ d_guid d = guid /\ d_info_hash d <> None) ->
    mapGet guid
           (fold_left (fun guidInfoHashMap row =>
                         match d_info_hash row with
                         | Some info_hash => mapSet (d_guid row) info_hash guidInfoHashMap
                         | None => guidInfoHashMap
                         end) rows start) <> None.
Proof.
  induction rows as [|row rows IH]; intros start guid Hbound.
  - destruct Hbound as [Hstart|(d & [] & _)]. exact Hstart.
  - cbn [fold_left]. apply IH.
    destruct Hbound as [Hstart|(d & [<-|Hin] & Hguid & Hhash)].
    + left. destruct (d_info_hash row) as [h|]; [|exact Hstart].
      rewrite mapGet_mapSet_cases. now destruct (String.eqb (d_guid row) guid).
    + left. destruct (d_info_hash row) as [h|]; [|contradiction].
      rewrite mapGet_mapSet_cases, Hguid, String.eqb_refl. discriminate.
    + right. exists d. now repeat split.
Qed.

(** X24.  [rebuildGuidInfoHashMap] makes the guid map reflect the
    decision table and changes nothing else: afterwards a guid is bound
    exactly when a decision row with that guid has an info hash, and what
    it is bound to is the info hash of such a row.  [getGuidInfoHashMap]
    rebuilds only an empty map; a map with entries is returned as it is,
    with the state untouched. *)
Theorem rebuildGuidInfoHashMap_reflects_decisions (st : State D) :
  let st' := snd (@rebuildGuidInfoHashMap D st) in
  fst (@rebuildGuidInfoHashMap D st) = Ret tt
  /\ BackedGuidMap st'
  /\ (forall guid, mapGet guid (st_guidInfoHashMap st') <> None <->
                   exists d, In d (t_decision (st_db st))
                             /\ d_guid d = guid /\ d_info_hash d <> None)
  /\ st' = set_guidInfoHashMap (st_guidInfoHashMap st') st
  /\ (st_guidInfoHashMap st <> [] ->
      @getGuidInfoHashMap D st = (Ret (st_guidInfoHashMap st), st))
  /\ (st_guidInfoHashMap st = [] ->
      @getGuidInfoHashMap D st = (Ret (st_guidInfoHashMap st'), st')).
Proof.
  cbn. split; [reflexivity|]. split; [|split; [|split; [reflexivity|split]]].
  - intros guid infoHash Hget. cbn in Hget. unfold guidMapOf in Hget.
    apply guidMapOf_from in Hget. destruct Hget as [Hget|Hd]; [discriminate|exact Hd].
  - intros guid. split.
    + intros Hbound.
      destruct (mapGet guid (guidMapOf (t_decision (st_db st)))) as [h|] eqn:Hget;
        [|contradiction].
      unfold guidMapOf in Hget. apply guidMapOf_from in Hget.
      destruct Hget as [Hget|(d & Hin & Hguid & Hhash)]; [discriminate|].
      exists d. split; [exact Hin|]. split; [exact Hguid|congruence].
    + intros Hd. unfold guidMapOf. apply guidMapOf_bound. now right.
  - intros Hne. unfold getGuidInfoHashMap, bind, gets. cbn beta iota.
    destruct (st_guidInfoHashMap st); [contradiction|reflexivity].
  - intros Hempty. unfold getGuidInfoHashMap, bind, gets. cbn beta iota.
    rewrite Hempty. reflexivity.
Qed.

Lemma BackedGuidMap_same (st st' : State D) :
  t_decision (st_db st') = t_decision (st_db st) ->
  st_guidInfoHashMap st' = st_guidInfoHashMap st ->
  BackedGuidMap st -> BackedGuidMap st'.
Proof.
  intros Hd Hm Hbacked guid infoHash Hget. rewrite Hm in Hget. rewrite Hd.
  now apply Hbacked.
Qed.

Lemma KeepsBacked_bind (A B : Type) (m : M D A) (k : A -> M D B) :
  KeepsBacked m -> (forall a, KeepsBacked (k a)) -> KeepsBacked (bind m k).
Proof.
  intros Hm Hk st b st' Hbacked. unfold bind.
  destruct (m st) as [[a|] st1] eqn:Hrun; [|discriminate].
  apply (Hk a). now apply (Hm st a st1).
Qed.

Lemma KeepsBacked_frame (A : Type) (m : M D A) :
  (forall st, t_decision (st_db (snd (m st))) = t_decision (st_db st)
              /\ st_guidInfoHashMap (snd (m st)) = st_guidInfoHashMap st) ->
  KeepsBacked m.
Proof.
  intros Hframe st a st' Hbacked Hrun. destruct (Hframe st) as [Hd Hm].
  rewrite Hrun in Hd, Hm. cbn [snd] in Hd, Hm.
  now apply (@BackedGuidMap_same st st').
Qed.

Lemma upsertDecision_other (searchee_id : Z) (guid : string) (info_hash : option string)
      (decision : Decision) (first_seen last_seen : option Z) (factor : Q)
      (rows : list DecisionRow) (d : DecisionRow) :
  In d rows -> d_guid d <> guid ->
  In d (upsertDecision searchee_id guid info_hash decision first_seen last_seen
                       factor rows).
Proof.
  intros Hin Hguid. unfold upsertDecision.
  assert (Hkey : isDecisionKey searchee_id guid d = false).
  { unfold isDecisionKey. destruct (String.eqb_spec (d_guid d) guid); [contradiction|].
    apply andb_false_r. }
  destruct (existsb (isDecisionKey searchee_id guid) rows).
  - apply in_map_iff. exists d. now rewrite Hkey.
  - apply in_or_app. now left.
Qed.

Lemma KeepsBacked_assessAndSaveResults (metaOrCandidate : Metafile + Candidate)
      (searchee : Searchee) (guid : string) (firstSeen : Z) (candidateTracker : string)
      (config : RuntimeConfig) :
  KeepsBacked (assessAndSaveResults ext metaOrCandidate searchee guid firstSeen
                                    candidateTracker config).
Proof.
  intros st a' st' Hbacked.
  destruct (assessCandidate_run ext metaOrCandidate searchee (blockList config) config
                                (Some candidateTracker) st)
    as (a & st1 & Hassess & Hframe & _).
  destruct Hframe as (_ & Hd & _ & _ & Hm & _).
  assert (Hbacked1 : BackedGuidMap st1) by (now apply (@BackedGuidMap_same st st1)).
  unfold assessAndSaveResults, bind. rewrite Hassess. cbn beta iota.
  destruct (metaCached a) as [[|]|]; try (intros [= _ <-]; exact Hbacked1).
  destruct (metafile a) as [meta|]; [|intros [= _ <-]; exact Hbacked1].
  unfold modify. cbn beta iota.
  set (st2 := set_guidInfoHashMap _ st1).
  unfold transaction.
  destruct (find (fun s => String.eqb (se_name s) (s_title searchee))
                 (t_searchee (st_db st2))) as [row|] eqn:Hrow.
  - destruct (@saveAssessment_run D ext a meta searchee guid firstSeen st2 row Hrow)
      as (st3 & id & Hrun & Hfind & _ & Hdec & _).
    pose proof (saveAssessment_frame ext a meta searchee guid firstSeen st2) as Hpersist.
    rewrite Hrun in Hpersist |- *. cbn [snd] in Hpersist.
    destruct Hpersist as (_ & _ & _ & _ & _ & _ & _ & Hmap & _).
    unfold ret. intros [= _ <-]. intros g h Hget.
    rewrite Hmap in Hget. cbn in Hget. rewrite mapGet_mapSet_cases in Hget.
    destruct (String.eqb_spec guid g) as [<-|Hne].
    + injection Hget as <-. apply find_some in Hfind. destruct Hfind as [Hin _].
      eexists. split; [exact Hin|]. now split.
    + destruct (Hbacked1 g h Hget) as (d & Hin & Hguid & Hhash).
      exists d. split; [|now split]. rewrite Hdec. cbn [t_decision with_decision].
      apply upsertDecision_other; [exact Hin|congruence].
  - assert (Hthrow : saveAssessment ext a meta searchee guid firstSeen st2 = (Throw, st2)).
    { unfold saveAssessment, bind, getDb, gets. cbn beta iota. now rewrite Hrow. }
    rewrite Hthrow. discriminate.
Qed.

Lemma KeepsBacked_recordCachedCollision (entry : DecisionRow)
      (cachedMeta : option Metafile) (tm : option TrackerMismatchInfo) :
  KeepsBacked (recordCachedCollision ext entry cachedMeta tm).
Proof.
  intros st a st' Hbacked Hrun.
  destruct (recordCachedCollision_run ext entry cachedMeta tm st)
    as (st1 & Hrun1 & Hdec & _).
  pose proof (recordCachedCollision_frame ext entry cachedMeta tm st) as Hpersist.
  rewrite Hrun in Hrun1. injection Hrun1 as _ <-.
  rewrite Hrun in Hpersist. cbn [snd] in Hpersist.
  destruct Hpersist as (_ & _ & _ & _ & _ & _ & _ & Hmap & _).
  intros g h Hget. rewrite Hmap in Hget.
  destruct (Hbacked g h Hget) as (d & Hin & Hguid & Hhash).
  rewrite Hdec. cbn [t_decision with_decision]. unfold updateDecision.
  eexists. split; [apply in_map; exact Hin|]. cbv beta.
  destruct (d_id d =? d_id entry)%Z; now split.
Qed.

(** X25.  The guid map stays backed by the decision table.  When every
    binding of the guid map is the guid and info hash of a decision row and
    [assessCandidateCaching] returns, then the same holds afterwards. *)
Theorem assessCandidateCaching_keeps_guid_map_backed
        (candidate : Candidate) (searchee : Searchee) (config : RuntimeConfig)
        (st st' : State D) (a : ResultAssessment) :
  BackedGuidMap st ->
  assessCandidateCaching ext candidate searchee config st = (Ret a, st') ->
  BackedGuidMap st'.
Proof.
  revert st a st'.
  change (KeepsBacked (assessCandidateCaching ext candidate searchee config)).
  assert (Hgets : forall (A : Type) (f : State D -> A), KeepsBacked (gets f)).
  { intros A f. apply KeepsBacked_frame. intros st. now split. }
  assert (Hret : forall (A : Type) (x : A), KeepsBacked (@ret D A x)).
  { intros A x. apply KeepsBacked_frame. intros st. now split. }
  assert (Hnow : KeepsBacked (dateNow ext)).
  { apply KeepsBacked_frame. intros st. now split. }
  assert (Hor : forall value, KeepsBacked (orDateNow ext value)).
  { intros [v|]; [apply Hret|exact Hnow]. }
  unfold assessCandidateCaching.
  apply KeepsBacked_bind; [apply Hgets|]. intros db.
  apply KeepsBacked_bind; [apply Hgets|]. intros guidInfoHashMap.
  apply KeepsBacked_bind.
  { apply KeepsBacked_frame. intros st.
    destruct (getCachedTorrent_db ext
                (guidLookup ext (c_guid candidate) (c_link candidate) guidInfoHashMap) st)
      as (outcome & st1 & Hrun & Hdb & Hmap).
    rewrite Hrun. cbn [snd]. now rewrite Hdb, Hmap. }
  intros res. apply KeepsBacked_bind; [apply Hgets|]. intros exclude.
  assert (Hsave : forall value,
             KeepsBacked
               (bind (orDateNow ext value) (fun firstSeen =>
                  assessAndSaveResults ext
                    (match res with Some meta => inl meta | None => inr candidate end)
                    searchee (c_guid candidate) firstSeen (c_tracker candidate) config))).
  { intros value. apply KeepsBacked_bind; [apply Hor|].
    intros firstSeen. apply KeepsBacked_assessAndSaveResults. }
  destruct (findCacheEntry db (s_title searchee) (c_guid candidate)) as [entry|].
  2:{ apply KeepsBacked_bind; [exact Hnow|].
      intros firstSeen. apply KeepsBacked_assessAndSaveResults. }
  destruct (d_info_hash entry) as [entryHash|]; [|apply Hsave].
  destruct (JsString.includes exclude entryHash); [|apply Hsave].
  apply KeepsBacked_bind.
  { destruct res as [meta|]; [|apply Hret].
    apply KeepsBacked_frame. intros st.
    destruct (logAnnounceMismatch_run ext meta st) as [tm ->]. now split. }
  intros tm. apply KeepsBacked_bind.
  { destruct (collisionCandidateTrackers tm (Some (c_tracker candidate))) as [|t ts];
      [apply Hret|].
    apply KeepsBacked_frame. intros st.
    destruct (resolveConflictRules_frame ext entryHash (t :: ts) (s_title searchee) st)
      as (b & st1 & -> & Hframe & _).
    destruct Hframe as (_ & Hd & _ & _ & _ & _ & Hm & _). now split. }
  intros [|]; [|apply KeepsBacked_recordCachedCollision].
  apply KeepsBacked_bind; [|intros _; apply Hsave].
  apply KeepsBacked_frame. intros st. now split.
Qed.

End GuidMap.

Lemma assessCandidateCaching_keeps_guid_map_backed_witness :
  BackedGuidMap (snd (assessCandidateCaching Ex.ext Ex.candidate1 Ex.otherSearchee
                                             Ex.flexible Ex.injected)).
Proof.
  refine (@assessCandidateCaching_keeps_guid_map_backed
            Sim.Driver Ex.ext Ex.candidate1 Ex.otherSearchee Ex.flexible Ex.injected
            (snd (assessCandidateCaching Ex.ext Ex.candidate1 Ex.otherSearchee
                                         Ex.flexible Ex.injected))
            (mkAssessment INFO_HASH_ALREADY_EXISTS_ANOTHER_TRACKER None None
                          (Some (mkMismatch ["a.example"] ["b.example"]))) _ _).
  - intros guid infoHash Hget.
    change (mapGet guid [("guid-1", Ex.H)] = Some infoHash) in Hget.
    cbn [mapGet] in Hget.
    destruct (String.eqb "guid-1" guid) eqn:Hguid; [|discriminate].
    apply String.eqb_eq in Hguid. injection Hget as <-. subst guid.
    eexists. split; [now left|]. now split.
  - reflexivity.
Defined.

(** ** The handlers of the settings page *)

Lemma NoDup_app_disjoint (A : Type) (l1 l2 : list A) (a : A) :
  NoDup (l1 ++ l2) -> In a l1 -> ~ In a l2.
Proof.
  induction l1 as [|x l1 IH]; intros Hnd Hin; [destruct Hin|].
  cbn in Hnd. inversion Hnd as [|? ? Hnotin Hnd']; subst.
  destruct Hin as [<-|Hin]; [|now apply IH].
  intros Hin2. apply Hnotin. apply in_or_app. now right.
Qed.

Lemma tl_incl (A : Type) (l : list A) : incl (tl l) l.
Proof. destruct l; [apply incl_refl|]. intros x Hx. now right. Qed.

Lemma pageRules_filter (keep : PriorityRule -> bool) (rules : list PriorityRule) :
  PageInvariant rules -> PageInvariant (filter keep rules).
Proof.
  intros (Hfirst & Hids & Htrackers). split; [|split].
  - intros rule Hin. apply Hfirst.
    destruct rules as [|r rest]; [destruct Hin|]. cbn in *.
    destruct (keep r); cbn in Hin.
    + apply filter_In in Hin. apply Hin.
    + apply tl_incl in Hin. apply filter_In in Hin. apply Hin.
  - clear Hfirst Htrackers. induction rules as [|r rest IH]; [constructor|].
    inversion Hids as [|? ? Hnotin Hids']; subst. cbn.
    destruct (keep r); [|now apply IH]. cbn. constructor; [|now apply IH].
    intros Hin. apply Hnotin. apply in_map_iff in Hin.
    destruct Hin as (y & Hy & Hin). apply filter_In in Hin.
    apply in_map_iff. exists y. tauto.
  - clear Hfirst Hids. induction rules as [|r rest IH]; [constructor|].
    cbn in Htrackers. cbn. destruct (keep r); [|apply IH; eapply NoDup_app_remove_l; eauto].
    cbn. apply NoDup_app.
    + eapply NoDup_app_remove_r; eauto.
    + apply IH. eapply NoDup_app_remove_l; eauto.
    + intros a Ha Hin. apply (@NoDup_app_disjoint _ _ _ _ Htrackers Ha).
      apply in_flat_map in Hin. destruct Hin as (y & Hy & Hin).
      apply filter_In in Hy. apply in_flat_map. exists y. tauto.
Qed.

Lemma pageRules_singleton (rule : PriorityRule) :
  NoDup (pr_trackers rule) -> PageInvariant [rule].
Proof.
  intros Hnd. split; [intros r []|]. split.
  - cbn. constructor; [intros []|constructor].
  - cbn. now rewrite app_nil_r.
Qed.

Lemma flat_map_trackers_changed (g : PriorityRule -> PriorityRule)
      (rules : list PriorityRule) :
  (forall r, incl (pr_trackers (g r)) (pr_trackers r)) ->
  incl (flat_map pr_trackers (map g rules)) (flat_map pr_trackers rules).
Proof.
  intros Hg x Hin. apply in_flat_map in Hin. destruct Hin as (y & Hy & Hin).
  apply in_map_iff in Hy. destruct Hy as (r & <- & Hr).
  apply in_flat_map. exists r. split; [exact Hr|now apply Hg].
Qed.

(** A handler that changes one rule's trackers to [tracker] appended. *)
Lemma addTracker_perm (id tracker : string) (rules : list PriorityRule) :
  NoDup (map pr_id rules) ->
  ~ In tracker (flat_map pr_trackers rules) ->
  let g rule :=
    if negb (String.eqb (pr_id rule) id) then rule
    else if JsString.includes (pr_trackers rule) tracker then rule
    else mkPriorityRule (pr_id rule) (pr_trackers rule ++ [tracker]) (pr_mode rule) in
  (In id (map pr_id rules) ->
   Permutation (flat_map pr_trackers (map g rules))
               (tracker :: flat_map pr_trackers rules))
  /\ (~ In id (map pr_id rules) -> map g rules = rules).
Proof.
  intros Hids Hfresh g.
  assert (Hother : forall l, ~ In id (map pr_id l) -> map g l = l).
  { induction l as [|r l IH]; intros Hnot; [reflexivity|]. cbn.
    rewrite IH by (intros H; apply Hnot; now right).
    unfold g. destruct (String.eqb_spec (pr_id r) id) as [Heq|Hne]; [|reflexivity].
    exfalso. apply Hnot. now left. }
  split; [|apply Hother].
  induction rules as [|r rest IH]; intros Hin; [destruct Hin|].
  inversion Hids as [|? ? Hnotin Hids']; subst.
  cbn [map flat_map]. cbn [flat_map] in Hfresh.
  destruct (String.eqb_spec (pr_id r) id) as [Heq|Hne].
  - rewrite Hother by (now rewrite <- Heq).
    unfold g. rewrite <- Heq, String.eqb_refl. cbn [negb].
    assert (Hinc : JsString.includes (pr_trackers r) tracker = false).
    { destruct (JsString.includes (pr_trackers r) tracker) eqn:Hinc; [|reflexivity].
      exfalso. apply Hfresh. apply in_or_app. left.
      unfold JsString.includes in Hinc. apply existsb_exists in Hinc.
      destruct Hinc as (y & Hy & Heqb). apply String.eqb_eq in Heqb. now subst. }
    rewrite Hinc. cbn [pr_trackers]. rewrite <- app_assoc. cbn [app].
    apply Permutation_sym, Permutation_middle.
  - assert (Hg : g r = r).
    { unfold g. destruct (String.eqb_spec (pr_id r) id); [contradiction|reflexivity]. }
    rewrite Hg.
    destruct Hin as [Hin|Hin]; [cbn in Hin; contradiction|].
    eapply Permutation_trans.
    + apply Permutation_app_head. apply IH; [exact Hids'| |exact Hin].
      intros H. apply Hfresh. apply in_or_app. now right.
    + apply Permutation_sym, Permutation_middle.
Qed.

(** X26.  What the handlers of the settings page keep true.  The rules a
    fresh page computes from the saved ones have the all-indexers mode on
    the first rule at most.  From rules where that is so, where the ids
    are distinct and no tracker is listed twice, each handler, applied to
    the rules the page shows, leads to such rules again: adding a rule
    under a fresh id, removing a rule, removing a tracker, turning the
    first rule into the all-indexers rule, and adding to a rule a tracker
    its selector offers. *)
Theorem page_invariant_preserved (showId : Z -> string) (savedRules : list StoredRule)
        (prev : list PriorityRule) :
  PageInvariant prev ->
  AllIndexersOnlyFirst (initialRules showId savedRules)
  /\ (forall id, ~ In id (map pr_id prev) -> PageInvariant (handleAddRule id prev))
  /\ (forall id, PageInvariant (handleRemoveRule id prev))
  /\ (forall id tracker, PageInvariant (handleRemoveTracker id tracker prev))
  /\ (forall id, PageInvariant (handleAddTracker id "__all_indexers__" 0 prev))
  /\ (forall rule tracker ruleIndex combinedTrackers,
        In rule prev ->
        In tracker (getAvailableTrackers prev combinedTrackers (pr_id rule)
                                         (pr_trackers rule)) ->
        PageInvariant (handleAddTracker (pr_id rule) tracker ruleIndex prev)).
Proof.
  intros Hinv. split.
  { intros rule. unfold initialRules.
    destruct (filter (fun rule => negb (sr_allIndexers rule)) savedRules) as [|f fs].
    - destruct (existsb sr_allIndexers savedRules); intros [].
    - intros Hin. apply tl_incl in Hin. apply in_map_iff in Hin.
      destruct Hin as (r & <- & _). reflexivity. }
  pose proof Hinv as (Hfirst & Hids & Htrackers).
  assert (Hall : forall id,
             PageInvariant
               match find (fun item => String.eqb (pr_id item) id) prev with
               | None => prev
               | Some rule => [mkPriorityRule (pr_id rule) [] ModeAllIndexers]
               end).
  { intros id. destruct (find _ prev); [|exact Hinv].
    apply pageRules_singleton. constructor. }
  split; [|split; [|split; [|split]]].
  - intros id Hfresh. unfold handleAddRule. split; [|split].
    + intros rule Hin. destruct prev as [|r rest]; [destruct Hin|].
      cbn in Hin. apply in_app_or in Hin. destruct Hin as [Hin|[<-|[]]]; [|reflexivity].
      now apply Hfirst.
    + rewrite map_app. cbn. now apply NoDup_snoc.
    + rewrite flat_map_app. cbn. now rewrite app_nil_r.
  - intros id. unfold handleRemoveRule.
    pose proof (pageRules_filter (fun rule => negb (String.eqb (pr_id rule) id)) Hinv)
      as Hnext.
    destruct (filter _ prev) as [|first [|second rest]]; try exact Hnext.
    destruct (isAllIndexers first); [|exact Hnext].
    apply pageRules_singleton. destruct Hnext as (_ & _ & Hnd). cbn in Hnd.
    eapply NoDup_app_remove_r; eauto.
  - intros id tracker. unfold handleRemoveTracker.
    set (g := fun rule : PriorityRule =>
                if String.eqb (pr_id rule) id
                then mkPriorityRule (pr_id rule)
                                    (filter (fun item => negb (String.eqb item tracker))
                                            (pr_trackers rule))
                                    (pr_mode rule)
                else rule).
    assert (Hg : forall r, pr_id (g r) = pr_id r /\ pr_mode (g r) = pr_mode r
                           /\ exists keep, pr_trackers (g r) = filter keep (pr_trackers r)).
    { intros r. unfold g. destruct (String.eqb (pr_id r) id); cbn.
      - split; [reflexivity|]. split; [reflexivity|]. eexists. reflexivity.
      - split; [reflexivity|]. split; [reflexivity|]. exists (fun _ => true).
        symmetry. apply JsStringFacts.filter_id. reflexivity. }
    split; [|split].
    + intros rule Hin. destruct prev as [|r rest]; [destruct Hin|]. cbn in Hin.
      apply in_map_iff in Hin. destruct Hin as (r' & <- & Hr').
      destruct (Hg r') as (_ & -> & _). now apply Hfirst.
    + rewrite map_map. erewrite map_ext; [exact Hids|]. intros r. apply Hg.
    + clear Hfirst Hids Hinv Hall. induction prev as [|r rest IH]; [constructor|].
      cbn in Htrackers |- *. destruct (Hg r) as (_ & _ & keep & ->).
      apply NoDup_app.
      * apply NoDup_filter. eapply NoDup_app_remove_r; eauto.
      * apply IH. eapply NoDup_app_remove_l; eauto.
      * intros a Ha Hin. apply filter_In in Ha.
        apply (@NoDup_app_disjoint _ _ _ _ Htrackers (proj1 Ha)).
        revert Hin. apply flat_map_trackers_changed. intros r0.
        destruct (Hg r0) as (_ & _ & keep0 & ->). apply incl_filter.
  - intros id. unfold handleAddTracker. rewrite String.eqb_refl. cbn [andb Nat.eqb].
    apply Hall.
  - intros rule tracker ruleIndex combinedTrackers Hrule Havailable.
    unfold handleAddTracker.
    destruct (String.eqb tracker "__all_indexers__" && (ruleIndex =? 0)%nat);
      [apply Hall|].
    unfold getAvailableTrackers in Havailable.
    apply filter_In in Havailable. destruct Havailable as [Havailable Hcurrent].
    apply filter_In in Havailable. destruct Havailable as [_ Hused].
    apply negb_true_iff in Hcurrent, Hused.
    assert (Hfresh : ~ In tracker (flat_map pr_trackers prev)).
    { intros Hin. apply in_flat_map in Hin. destruct Hin as (r & Hr & Hin).
      destruct (String.eqb_spec (pr_id r) (pr_id rule)) as [Heq|Hne].
      - assert (r = rule) by (apply (@NoDup_map_eq _ _ pr_id prev r rule); assumption).
        subst r. apply includes_in in Hin. congruence.
      - assert (Hin' : JsString.includes
                         (flat_map (fun rule0 =>
                                      if String.eqb (pr_id rule0) (pr_id rule) then []
                                      else pr_trackers rule0) prev) tracker = true).
        { apply includes_in. apply in_flat_map. exists r. split; [exact Hr|].
          destruct (String.eqb_spec (pr_id r) (pr_id rule)); [contradiction|exact Hin]. }
        congruence. }
    destruct (addTracker_perm (pr_id rule) tracker prev Hids Hfresh) as [Hperm _].
    cbv zeta in Hperm.
    set (g := fun rule0 : PriorityRule =>
                if negb (String.eqb (pr_id rule0) (pr_id rule)) then rule0
                else if JsString.includes (pr_trackers rule0) tracker then rule0
                else mkPriorityRule (pr_id rule0) (pr_trackers rule0 ++ [tracker])
                                    (pr_mode rule0)) in *.
    assert (Hg : forall r, pr_id (g r) = pr_id r /\ pr_mode (g r) = pr_mode r).
    { intros r. unfold g. destruct (negb (String.eqb (pr_id r) (pr_id rule)));
        [now split|]. destruct (JsString.includes (pr_trackers r) tracker); now split. }
    split; [|split].
    + intros r Hin. destruct prev as [|r0 rest]; [destruct Hin|]. cbn in Hin.
      apply in_map_iff in Hin. destruct Hin as (r' & <- & Hr').
      destruct (Hg r') as (_ & ->). now apply Hfirst.
    + rewrite map_map. erewrite map_ext; [exact Hids|]. intros r. apply Hg.
    + eapply Permutation_NoDup; [apply Permutation_sym, Hperm; now apply in_map|].
      now constructor.
Qed.

Lemma page_invariant_preserved_witness :
  PageInvariant Ex3.pageRules
  /\ PageInvariant (handleAddTracker "rule-1" "c.example" 0 Ex3.pageRules)
  /\ handleAddTracker "rule-1" "c.example" 0 Ex3.pageRules
     = [mkPriorityRule "rule-1" ["b.example"; "a.example"; "c.example"] ModeTrackers].
Proof.
  assert (Hinv : PageInvariant Ex3.pageRules).
  { split; [intros rule []|].
    split; cbn; repeat constructor; cbn; intuition discriminate. }
  split; [exact Hinv|]. split; [|reflexivity].
  refine (proj2 (proj2 (proj2 (proj2 (proj2
            (@page_invariant_preserved Ex3.showId [] Ex3.pageRules Hinv)))))
            (mkPriorityRule "rule-1" ["b.example"; "a.example"] ModeTrackers)
            "c.example" 0%nat ["a.example"; "b.example"; "c.example"] _ _).
  - left. reflexivity.
  - cbn. left. reflexivity.
Defined.
